(* ===== verification/_CoqProject ===== *)
-Q . S2P
Prelude.v
Interleave.v
GoText.v
GoNum.v
GoPath.v
GoUrl.v
GoUrlProps.v
GoHttp.v
SafeLists.v
Conv.v
Labels.v
Samples.v
Memory.v
DeepCopy.v
KubeApi.v
Scheme.v
Manager.v
FakeClient.v
FakeClientProps.v
Listers.v
Store.v
DeltaFifo.v
DeltaFifoProps.v
Mirror.v
Informers.v
RestClient.v
TypedClient.v
Clientset.v
Filter.v
Jsonx.v
GoFmt.v
GoJson.v
GoJsonProps.v
Stringx.v
Emit.v
Scrape.v
Process.v
Input.v
Worker.v
Writer.v
Controller.v
Metrics.v
GoTime.v
MysqlTables.v
Sql.v
Mysql.v
MysqlProps.v
Redis.v
RedisProps.v
Postgres.v
PostgresProps.v
Clickhouse.v
ClickhouseProps.v
ElasticData.v
Elastic.v
ElasticProps.v
GoFlag.v
Logger.v
CommandLine.v
Runtime.v
Program.v
