(* ===== verification/Prelude.v ===== *)
(** * kubemonitor: a verification development

    kubemonitor is a Kubernetes operator that gathers metrics from databases and
    pushes them to Prometheus remote-write endpoints. A Monitor resource names a
    model (mysql, redis, postgresql, ...), its configuration and a period; a
    PrometheusPush resource names an endpoint. This library models the program's
    own Go code under src/ and proves what makes it correct.

    ** The program's parts and the files that model them

    Data flows from the handlers at the bottom to the writers at the top:

    - the controllers (internal/controller) react to the resources: for a new
      Monitor, [monitor_Reconcile] configures the model's handler and starts a
      loop in the worker; each turn of the loop ([task_body]: [monitor_collect],
      [forward], [UpdateStatus]) gathers, processes and hands the samples to the
      writers. For a PrometheusPush, [push_Reconcile] registers or removes a
      writer. File [Controller];
    - the worker (pkg/worker) keeps the tasks, their stop channels and the
      running loops. File [Worker];
    - the handler registry (pkg/input) holds, for every model, one shared handler
      object and one shared sample list. File [Input]; a handler is any instance
      of its class [HandlerFactory] that obeys [HandlerLaws];
    - the handlers (internal/handlers) put samples on that list. Files [Mysql]
      (with its tables in [MysqlTables] and SQL results in [Sql]), [Redis],
      [Postgres], [Clickhouse] and [Elastic] (with the answers it decodes in
      [ElasticData]); their properties are in [MysqlProps], [RedisProps],
      [PostgresProps], [ClickhouseProps] and [ElasticProps], on top of [Emit],
      which says what a gather adds to a list, of [Scrape], the monad the last
      two are written in, and of [Interleave], on goroutines that push side by
      side;
    - post-processing (pkg/process, [Process]) gives the samples a time and
      labels;
    - the samples and their conversion to time series (pkg/types, [Samples]) rest
      on the queues (pkg/types/safe_list.go, [SafeLists]) and on the conversion
      of values to numbers (pkg/conv, [Conv]); label maps are in [Labels];
    - the writers manager (internal/writer, [Writer]) queues the time series and
      sends them in batches to every registered writer;
    - the operator's own metrics (pkg/metrics, [Metrics]) are counters of that
      manager, pushed like the others;
    - the utilities [Filter] (pkg/filter), [Jsonx] (pkg/jsonx) and [Stringx]
      (pkg/stringx);
    - the process (runtime/ in [Runtime], cmd/main.go in [Program], its command line
      in [CommandLine] and its logger in [Logger]): signals and
      the context they end, the flags and what they set, the scheme with the types of
      the API ([Scheme]: the registry of types of apimachinery and what each package
      of the repository registers), the controller manager up to its start and the
      controllers built for it ([Manager], with both SetupWithManager), the five
      handlers behind the one registry, what [main] does with them, and the run of
      all parts together until the loops are stopped.

    Beside the program stands the library that others use to read and write its
    resources, which code generators made and the operator itself does not call:

    - the API types with all their fields and their deep copies (api/v1,
      [DeepCopy], over the memory of [Memory]); the group, its kinds and what
      its clients share ([KubeApi]);
    - the clientset and its typed clients (pkg/generated/clientset, [Clientset]
      and [TypedClient]) down to the HTTP requests they send, which the request
      builder of client-go makes ([RestClient], on the paths of [GoPath]);
    - the fake clientset that tests use, on client-go's object tracker
      ([FakeClient], its properties in [FakeClientProps]);
    - the shared informers (pkg/generated/informers, [Informers]) and the listers
      that read their stores (pkg/generated/listers, [Listers]). The listers ask for
      an [Indexer]; the store of client-go ([Store]) is one, kept by what waits in
      the informer's queue ([DeltaFifo], its invariant in [DeltaFifoProps]). [Mirror]
      puts these together: an informer of the fake clients and its listers.

    What this library stands on in client-go and apimachinery is translated from
    the vendored source as far as the theorems need it.

    The part of Go's standard library that this code uses is modelled too: texts
    and UTF-8 in [GoText], numbers, their parsing and rounding to binary64 in
    [GoNum], their printing in [GoFmt], times and decimal runs of regular
    expressions in [GoTime], URLs and their queries in [GoUrl] (properties in
    [GoUrlProps]), slash-separated paths in [GoPath], requests, headers and answers
    in [GoHttp], command-line flags in [GoFlag], JSON and its decoding
    into Go types in [GoJson] (properties in [GoJsonProps]). A method [T.f] of the program is
    the definition [f], [T_f] where the plain name is taken (so [Writer_Write],
    [monitor_Reconcile]); definitions named otherwise are loop bodies or parts of
    a long function, and their comments say which.

    ** How the code is modelled

    - Functions are pure: state and shared objects are passed and returned. A
      pointer to a shared object (handlers and lists in the registry, channels in
      the worker) is an index into a store, so that aliasing is kept.
    - A run-time panic is a value, [Panic], of the type [outcome]; an error
      result is an [option error], or [result] when the other result is then
      meaningless. A panic in a goroutine ends the process.
    - Go visits a map in an order it picks anew at each loop. [range_list n m],
      of the class [RangeOrder], is the order of the loop numbered [n]: theorems
      hold for every instance, that is for every order. Loops that differ in
      their number may differ in their order.
    - Concurrency is a step relation where goroutines share state that the code
      does not lock throughout: [writers_step] (Writer), [limited_step]
      (SafeLists), the schedules of [Postgres], and the goroutines of [Elastic],
      which are programs ([goroutine]) that a schedule runs step by step over
      what they share; each access to shared state is a step. [ctrl_step]
      (Controller) and [prog_step] (Program) take reconciles and ticks one at a
      time. [post] and the gathers take the answers of the outside world as
      functions.
    - The calls of the informer factory, the ends of its goroutines and the
      closings of stop channels are steps of [Informers.step]; each method holds
      the factory's lock, and [Shutdown] is two steps, since it waits in between.
      What a reflector hears and when its queue is popped is any sequence of
      [happening]s ([DeltaFifo]).
      Each call on a fake client is one step, since the tracker's lock is held.
    - Where a claim is about sharing, pointers, slices and maps lead into an
      explicit memory ([Memory]); elsewhere an API object is a value, which the
      deep copies justify.
    - A goroutine that an early return leaves behind is part of the state: in
      [Elastic] it stays in the instance and runs on during the next gather.
    - Integers are in Z with the wrap-around of their width written out
      ([wrap64], [wrapu64]); floats are the standard library's [spec_float] at
      binary64.

    Parameters stand for code outside the repository, each a class or an
    argument: the API server ([StatusClient]), the Prometheus client, protobuf
    and snappy ([HttpApi]), the drivers' connection strings ([MysqlDriver],
    [PgxDriver]), the database and redis servers (functions from statements to
    answers), the HTTP servers (functions from requests to answers, [Doer]), gjson
    ([Gjson]), the glob library (an argument of [Filter], [Globs]), the error of
    making the controller manager's cluster parts, what client-go itself registers in
    a scheme, the tables of package
    unicode ([UnicodeTables], with the laws [UnicodeLaws] where a theorem needs
    them), the local time zone ([LocalZone]) and the result of converting an
    out-of-range float to an integer, which Go leaves to the platform
    ([FloatToInt]); for the library of clients, the place of new memory
    ([Allocator]), the label and field selectors ([Selectors]), the application
    of a patch ([FakeApi]), the codec of options and objects
    ([RestCodec], with [RestCodecLaws]), and reading the host of a
    configuration, making HTTP clients and the discovery client (in [Clientset]).

    ** What the theorems show

    - Abstract specifications and refinements: a SafeList is a FIFO queue
      ([SafeList_refines_queue], [SafeList_conserves]); the registry is one map
      from models to a handler and a queue ([registry_refines]); the worker is a
      map from names to loops ([workers_refines], [Stop_final]). The controllers
      are proved against the interfaces [WorkerLaws], [WritersManagerLaws] and
      [HandlerLaws], which [Worker], [Writer] and the handlers discharge.
    - The manager under every interleaving: nothing is lost or reordered
      ([writers_conserve]), counters are exact ([writers_counters]), it does not
      crash but for two causes ([writers_no_crash], [DeRegister_race]), and it
      can always drain ([writers_drain]); how far the limit of its queue can be
      overrun ([limited_bound]).
    - The life of a monitor: [one_loop_per_monitor], [Reconcile_spec],
      [tick_spec], [UpdateStatus_spec], [push_Reconcile_spec], [Process_spec].
    - The handlers: what each gather adds, on every branch
      ([mysql_Gather_spec] and the statements on its queries,
      [redis_Gather_spec], [redis_Gather_crash], [postgres_Gather_spec],
      [accRow_spec], [parseRow_spec], [scrapes_interleave],
      [clickhouse_Gather_spec], [es_Gather_waits]), when it crashes
      ([gather_connection_crash], [es_Gather_safe], [es_two_failures],
      [es_null_node_crash]), their configuration, what the sanitised address of
      PostgreSQL hides.
    - Questions and answers over HTTP: the query and the credentials reach the
      server as they are ([send_query_spec], [discovery_filter_roundtrip]), the
      counters and the health of a cluster come back exactly
      ([counters_roundtrip], [cluster_health_roundtrip], over [parse_print]: what
      is printed as JSON parses back), what is decoded can be flattened
      ([flatten_types]), and how servers and indices are chosen
      ([discovery_spec], [categorizeIndices_spec], [tracked_indices_spec]).
    - The command line: what is accepted, and what the process exits with otherwise
      ([command_line_grammar], over [Parse_arguments]), the settings it leaves
      ([settings_read]), and which log flags change nothing ([log_flags_ignored]).
    - The scheme: registered kinds can be made and come back as what they were
      registered for ([scheme_roundtrip]); what the scheme of [main] and those of the
      generated clients know ([main_scheme], [generated_schemes]), and that the two
      copies of the API types cannot share one ([packages_conflict]). A controller
      that is built is started with the manager ([Complete_spec]).
    - The whole program: how it starts, on every branch, and what runs then
      ([process_spec]); in every state that [main] can lead to, only a gather
      can crash it and every tick finds its handler ([program_safe]); it ends
      with no loop left running ([program_exit]); what one, two or more signals
      do ([signals_spec]).
    - Conversions: [ConvertTimeSeries_spec], round trips of decimal texts
      ([ToFloat64_Itoa], [parseStatus_Itoa], [keyspace_roundtrip]), flattening
      ([FullFlattenJSON_spec]), filters and snake case.

    - The library of clients: a deep copy shares nothing with its original
      ([DeepCopyObject_isolates]); the fakes are a store of objects
      ([fakes_refine_stores]) whose watches miss nothing ([watch_replays]) and
      which answer within the bound of a watch's channel ([fakes_answer]); the
      listers read what the clients do ([lister_lists], [generic_lister_lists],
      [lister_agrees_with_client]); the store with its indices is a map
      ([store_is_a_map]), an informer's store and its handlers' view, with what waits
      in its queue, are what the reflector last told ([informer_mirrors],
      [HasSynced_spec]), and so its listers serve what the fake clients hold
      ([informer_serves_listers]);
      the informer factory never runs an informer twice ([factory_safe]), shares
      them ([informers_are_shared], [ForResource_spec], [start_runs_the_rest]) and
      shuts down for good ([shutdown_is_final], [shutdown_terminates]); a request
      says what was asked for ([requests_read_back]), is refused exactly when it
      cannot ([requests_refused]), and goes to the group's path of the
      configured host ([clientset_sends_to_the_group], [clientset_shares_limiter]).

    Some theorems state behaviour that the code's authors would not want:
    [DeRegister_race], [InitConfig_shared], [redis_Gather_crash],
    [disable_global_variables_ignored], [Limited_PushFrontN_overshoots],
    [Write_swallows], [batch_zero_sends_nothing], [ConvertTimeSeries_NoDup],
    [SanitizedAddress_leaks], [postgres_Init_spec], [es_two_failures],
    [es_null_node_crash], [es_Init_spec], [gather_connection_crash],
    [custom_metrics_crash], [clickhouse_Init_spec], [discovery_filter_roundtrip],
    [preset_pushes_lost], [list_timeout_wraps], [log_flags_ignored],
    [SetLevel_unknown], [negative_batch_from_args], [packages_conflict],
    [generated_schemes].

    ** Fuel and bounds

    Loops over data are structural. [runes_fuel] and [segments_fuel] get the
    length of the text as fuel and every step consumes a byte; [find_pow10] gets
    640 steps, as many as there are decimal exponents of a double; [shortest]
    gets 17 digits, which always identify a double; [OnError] counts its attempts
    as the code does (four). The JSON parser gets two steps per byte and one more,
    which is enough ([parse_fuel_enough]), and [unquote] the length of its text. The
    flags of a command line get one step per argument and one more ([Parse_eq]).
    An informer's queue is popped along its own list, which needs no fuel.
    The read loop of the writers, which never ends in
    the program, is a step of [writers_step]; the loop of [Metrics] and those of
    the worker run as often as the clock says.

    ** What is not modelled

    Of the controller manager, its cluster parts (cache, client, listeners, leader
    election) and what Start does with what was added, other than calling the
    reconcilers; of a scheme, its conversion and defaulting functions and codecs;
    what the logger writes (what it is
    made of is in [Logger]) and the usage that a command line's error prints; the
    texts that printTestMetric builds for nobody; the
    interface of pkg/types/metric.go, which no code uses; and the memory model of
    Go: the run-time's own detection of concurrent map accesses, and writes torn
    by a data race, are not (among them the map serverInfo and the URL that the
    custom metrics of ClickHouse change side by side). Timeouts and closed
    connections appear as errors of the parameters. Texts of errors are kept only
    where the code builds them.

    Of the clients, what is sent after a request is built (throttling, retries, the
    transport), and of an informer the reflector's waiting, retries and resource
    versions and the listeners behind its one handler, are client-go's and not
    modelled; the empty expansion interfaces and the doc files only declare. api/kubemonitor.io.kubemonitor.io/v1 is the same text as api/v1, made
    for the generators' import path. *)
From Stdlib Require Export Ascii.
From stdpp Require Export base tactics strings gmap list fin_maps sorting.
From Stdlib Require Export ZArith Lia.

(** ** Outcomes, errors and Go's runtime panics *)

(** The two ways [strconv] fails. *)
Inductive num_error := ErrSyntax | ErrRange.

(** The [error] values of the program: one built by [fmt.Errorf] or
    [errors.New], the [*strconv.NumError] of a failed conversion, or one that
    a driver, a client library or the API server returned. *)
Inductive error : Type :=
| Errorf (msg : string)
| NumError (func num : string) (err : num_error)
| ExternalError (msg : string).

#[export] Instance num_error_eq_dec : EqDecision num_error.
Proof. solve_decision. Defined.
#[export] Instance error_eq_dec : EqDecision error.
Proof. solve_decision. Defined.

(** A function that returns [(T, error)] and whose [T] is meaningless when
    the error is not nil. *)
Inductive result (A : Type) : Type :=
| Ok (a : A)
| Err (e : error).
Arguments Ok {A} a.
Arguments Err {A} e.

(** A call that either finishes or panics at run time. *)
Inductive outcome (A : Type) : Type :=
| Done (a : A)
| Panic (msg : string).
Arguments Done {A} a.
Arguments Panic {A} msg.

#[export] Instance outcome_ret : MRet outcome := λ A a, Done a.
#[export] Instance outcome_bind : MBind outcome :=
  λ A B f m, match m with Done a => f a | Panic s => Panic s end.
#[export] Instance result_ret : MRet result := λ A a, Ok a.
#[export] Instance result_bind : MBind result :=
  λ A B f m, match m with Ok a => f a | Err e => Err e end.

Definition is_done {A} (o : outcome A) : Prop := ∃ a, o = Done a.
Definition is_panic {A} (o : outcome A) : Prop := ∃ s, o = Panic s.
Definition is_ok {A} (r : result A) : Prop := ∃ a, r = Ok a.

#[export] Instance is_done_dec {A} (o : outcome A) : Decision (is_done o).
Proof. destruct o as [a|s]; [left; by exists a | right; by intros [? ?]]. Defined.

Lemma bind_done {A B} (m : outcome A) (f : A → outcome B) b :
  m ≫= f = Done b ↔ ∃ a, m = Done a ∧ f a = Done b.
Proof.
  destruct m as [a|s]; simpl; split; [eauto | | done |]; intros (?&?&?); by simplify_eq.
Qed.

(** ** Machine integers *)

Section machine_integers.
#[local] Open Scope Z_scope.

(** Go's [uint64] and [uint32] wrap modulo 2^64 and 2^32; [int] and [int64]
    are two's complement on 64 bits. *)
Definition wrapu64 (z : Z) : Z := z mod 2 ^ 64.
Definition wrapu32 (z : Z) : Z := z mod 2 ^ 32.
Definition wrap64 (z : Z) : Z := (z + 2 ^ 63) mod 2 ^ 64 - 2 ^ 63.

Definition is_int64 (z : Z) : Prop := - 2 ^ 63 ≤ z < 2 ^ 63.
Definition is_uint64 (z : Z) : Prop := 0 ≤ z < 2 ^ 64.

Lemma wrapu64_id z : is_uint64 z → wrapu64 z = z.
Proof. intros H. apply Z.mod_small, H. Qed.

Lemma wrap64_id z : is_int64 z → wrap64 z = z.
Proof.
  unfold is_int64, wrap64. intros H.
  rewrite Z.mod_small; [lia|]. change (2 ^ 64) with (2 * 2 ^ 63). lia.
Qed.

Lemma wrap64_range z : is_int64 (wrap64 z).
Proof.
  unfold is_int64, wrap64.
  pose proof (Z.mod_pos_bound (z + 2 ^ 63) (2 ^ 64) ltac:(lia)). lia.
Qed.

Lemma wrapu64_range z : is_uint64 (wrapu64 z).
Proof. apply Z.mod_pos_bound. lia. Qed.

Lemma wrapu64_add_l a b : wrapu64 (wrapu64 a + b) = wrapu64 (a + b).
Proof. unfold wrapu64. by rewrite Z.add_mod_idemp_l by lia. Qed.

Lemma wrapu64_add_r a b : wrapu64 (a + wrapu64 b) = wrapu64 (a + b).
Proof. unfold wrapu64. by rewrite Z.add_mod_idemp_r by lia. Qed.

Lemma wrapu64_sub_r a b : wrapu64 (a - wrapu64 b) = wrapu64 (a - b).
Proof. unfold wrapu64. by rewrite Zminus_mod_idemp_r. Qed.

Lemma wrapu32_add_l a b : wrapu32 (wrapu32 a + b) = wrapu32 (a + b).
Proof. unfold wrapu32. by rewrite Z.add_mod_idemp_l by lia. Qed.
End machine_integers.

(** ** Iterating over a Go map

    The language leaves the order of [for k, v := range m] open, and it may
    differ from one loop to the next. [range_list n m] is the order in which
    the [n]-th such loop of an execution visits [m]; a theorem about every
    [RangeOrder] is one about every order the runtime may choose. *)
Class RangeOrder := {
  range_list : ∀ {A : Type}, nat → gmap string A → list (string * A);
  range_list_perm : ∀ {A : Type} n (m : gmap string A), range_list n m ≡ₚ map_to_list m
}.

(** The order in which [map_to_list] enumerates a map, for evaluation. *)
Definition canonical_order : RangeOrder :=
  {| range_list A n m := map_to_list m; range_list_perm A n m := Permutation_refl _ |}.

(** [for k, v := range l { acc[k] = v }]. *)
Definition insert_all {A} (l : list (string * A)) (acc : gmap string A) : gmap string A :=
  foldl (λ m kv, <[kv.1 := kv.2]> m) acc l.

Lemma insert_all_app {A} (l1 l2 : list (string * A)) acc :
  insert_all (l1 ++ l2) acc = insert_all l2 (insert_all l1 acc).
Proof. apply foldl_app. Qed.

Lemma insert_all_notin {A} (l : list (string * A)) acc k :
  k ∉ l.*1 → insert_all l acc !! k = acc !! k.
Proof.
  revert acc. induction l as [|[k' v] l IH]; intros acc; [done|].
  csimpl. rewrite not_elem_of_cons. intros [Hne Hl].
  change (insert_all l (<[k':=v]> acc) !! k = acc !! k).
  rewrite IH by done. by rewrite lookup_insert_ne.
Qed.

Lemma insert_all_union {A} (l : list (string * A)) (m acc : gmap string A) :
  l ≡ₚ map_to_list m → insert_all l acc = m ∪ acc.
Proof.
  intros Hl. assert (Hnd : NoDup l.*1).
  { rewrite Hl. apply NoDup_fst_map_to_list. }
  assert (Hm : m = list_to_map l).
  { by rewrite <- (list_to_map_to_list m), (list_to_map_proper l (map_to_list m)). }
  rewrite Hm. clear Hl Hm m. revert acc.
  induction l as [|[k v] l IH]; intros acc; simpl in *.
  - by rewrite (left_id_L ∅ (∪)).
  - inversion_clear Hnd as [|? ? Hk Hnd'].
    change (insert_all l (<[k:=v]> acc) = <[k:=v]> (list_to_map l) ∪ acc).
    rewrite IH by done.
    apply map_eq. intros i. rewrite !lookup_union.
    destruct (decide (i = k)) as [->|Hne].
    + rewrite !lookup_insert_eq, not_elem_of_list_to_map_1 by done.
      by destruct (acc !! k).
    + by rewrite !lookup_insert_ne by done.
Qed.

Lemma insert_all_NoDup {A} (l : list (string * A)) acc :
  NoDup l.*1 → insert_all l acc = list_to_map l ∪ acc.
Proof. intros Hl. apply insert_all_union. symmetry. by apply map_to_list_to_map. Qed.

(** A list has no duplicates when the set of its elements is as large. *)
Lemma NoDup_list_to_set `{Countable A} (l : list A) :
  NoDup l ↔ size (list_to_set l : gset A) = length l.
Proof.
  split; [apply size_list_to_set|].
  assert (Hle : ∀ l : list A, size (list_to_set l : gset A) ≤ length l).
  { intros k. induction k as [|x k IH]; [done|]. cbn [list_to_set length].
    rewrite size_union_alt, size_singleton.
    pose proof (subseteq_size (list_to_set k ∖ {[x]}) (list_to_set k : gset A)
                  ltac:(set_solver)). lia. }
  induction l as [|x l IH]; [constructor|]. cbn [list_to_set length].
  rewrite size_union_alt, size_singleton. intros Hs. constructor.
  - intros Hx. pose proof (subset_size (list_to_set l ∖ {[x]}) (list_to_set l : gset A)
                  ltac:(set_solver)). specialize (Hle l). lia.
  - apply IH. specialize (Hle l).
    pose proof (subseteq_size (list_to_set l ∖ {[x]}) (list_to_set l : gset A)
                  ltac:(set_solver)). lia.
Qed.

Lemma insert_all_range `{RangeOrder} {A} n (m acc : gmap string A) :
  insert_all (range_list n m) acc = m ∪ acc.
Proof. apply insert_all_union, range_list_perm. Qed.

Lemma insert_all_range_empty `{RangeOrder} {A} n (m : gmap string A) :
  insert_all (range_list n m) ∅ = m.
Proof. rewrite insert_all_range. apply (right_id_L ∅ (∪)). Qed.

Lemma length_range_list `{RangeOrder} {A} n (m : gmap string A) :
  length (range_list n m) = size m.
Proof. rewrite (Permutation_length (range_list_perm n m)). apply length_map_to_list. Qed.

Lemma elem_of_range_list `{RangeOrder} {A} n (m : gmap string A) k v :
  (k, v) ∈ range_list n m ↔ m !! k = Some v.
Proof. rewrite range_list_perm. apply elem_of_map_to_list. Qed.

Lemma NoDup_range_list `{RangeOrder} {A} n (m : gmap string A) :
  NoDup (range_list n m).*1.
Proof. rewrite range_list_perm. apply NoDup_fst_map_to_list. Qed.

(** ** Lists taken apart from the back *)

(** The last element of a list with what is before it. *)
Definition remove_back {A} (l : list A) : option (A * list A) :=
  match rev l with
  | [] => None
  | x :: r => Some (x, rev r)
  end.

Lemma remove_back_nil {A} : remove_back (@nil A) = None.
Proof. done. Qed.

Lemma remove_back_snoc {A} (l : list A) x : remove_back (l ++ [x]) = Some (x, l).
Proof. unfold remove_back. rewrite rev_unit. by rewrite rev_involutive. Qed.

Lemma remove_back_None {A} (l : list A) : remove_back l = None ↔ l = [].
Proof.
  split; [|by intros ->].
  destruct l as [|x l _] using rev_ind; [done|]. by rewrite remove_back_snoc.
Qed.

Lemma remove_back_Some {A} (l l' : list A) x : remove_back l = Some (x, l') ↔ l = l' ++ [x].
Proof.
  split; [|intros ->; apply remove_back_snoc].
  destruct l as [|y l _] using rev_ind; [done|].
  rewrite remove_back_snoc. by intros [= -> ->].
Qed.

(** Induction two elements at a time. *)
Lemma list_pair_ind {A} (P : list A → Prop) :
  P [] → (∀ x, P [x]) → (∀ x y l, P l → P (x :: y :: l)) → ∀ l, P l.
Proof.
  intros H0 H1 H2. fix IH 1. intros [|x [|y l]]; [exact H0|apply H1|apply H2, IH].
Qed.

(** ** Sums of integers over a list *)

Definition sumZ {A} (f : A → Z) (l : list A) : Z := foldr (λ x s, (f x + s)%Z) 0%Z l.

Lemma sumZ_app {A} (f : A → Z) l1 l2 : sumZ f (l1 ++ l2) = (sumZ f l1 + sumZ f l2)%Z.
Proof. induction l1 as [|x l1 IH]; simpl; [done|]. rewrite IH. lia. Qed.

Lemma sumZ_snoc {A} (f : A → Z) l x : sumZ f (l ++ [x]) = (sumZ f l + f x)%Z.
Proof. rewrite sumZ_app. simpl. lia. Qed.

Lemma sumZ_delete {A} (f : A → Z) l i x :
  l !! i = Some x → sumZ f (delete i l) = (sumZ f l - f x)%Z.
Proof.
  revert i. induction l as [|y l IH]; intros [|i] Hi; simplify_eq/=; [lia|].
  rewrite (IH _ Hi). lia.
Qed.

Lemma sumZ_insert {A} (f : A → Z) l i x y :
  l !! i = Some x → sumZ f (<[i := y]> l) = (sumZ f l - f x + f y)%Z.
Proof.
  revert i. induction l as [|z l IH]; intros [|i] Hi; simplify_eq/=; [lia|].
  rewrite (IH _ Hi). lia.
Qed.

(** ** Automation *)

Create HintDb kubemon.
Create Rewrite HintDb kubemon.
#[export] Hint Rewrite @remove_back_snoc @insert_all_range_empty @lookup_insert_eq
  @lookup_delete_eq @lookup_empty : kubemon.
#[export] Hint Resolve wrapu64_range wrap64_range : kubemon.

(** Splits every [match] and [if] of the goal, keeping the equations. *)
Ltac split_matches :=
  repeat match goal with
  | |- context [match ?x with _ => _ end] => destruct x eqn:?; simplify_eq/=
  end.

(** The same in the hypotheses, for inverting a computation. *)
Ltac inv_matches :=
  repeat match goal with
  | H : context [match ?x with _ => _ end] |- _ => destruct x eqn:?; simplify_eq/=
  end.
