(* ===== verification/Interleave.v ===== *)
(** * Goroutines that run side by side

    A gather starts one goroutine per server or per query and waits for them
    all. A task is the list of what one goroutine does to the shared list;
    [run_schedule] is one order in which the scheduler may let the tasks go,
    [interleaving] says what all these orders have in common. *)
From S2P Require Import Prelude.

(** What goroutines do, in the order of a schedule: its entries are the
    numbers of the tasks that go next; what is left goes in their order. *)
Fixpoint run_schedule {A} (schedule : list nat) (tasks : list (list A)) : list A :=
  match schedule with
  | [] => concat tasks
  | i :: schedule' =>
    match tasks !! i with
    | Some (x :: task) => x :: run_schedule schedule' (<[i := task]> tasks)
    | _ => run_schedule schedule' tasks
    end
  end.

(** A list made by taking, one at a time, the next element of one of the
    tasks, until all are done. *)
Inductive interleaving {A} : list (list A) → list A → Prop :=
| interleaving_done tasks : Forall (λ t, t = []) tasks → interleaving tasks []
| interleaving_step tasks i x task l :
    tasks !! i = Some (x :: task) → interleaving (<[i := task]> tasks) l →
    interleaving tasks (x :: l).

Section interleave.
Context {A : Type}.
Implicit Types (tasks : list (list A)).

Lemma interleaving_cons_nil tasks l : interleaving tasks l → interleaving ([] :: tasks) l.
Proof.
  induction 1 as [tasks Ht|tasks i x task l Hi Hl IH]; [constructor; by constructor|].
  by apply (interleaving_step _ (S i) x task).
Qed.

Lemma interleaving_concat tasks : interleaving tasks (concat tasks).
Proof.
  induction tasks as [|t tasks IH]; [by constructor|]. simpl.
  induction t as [|x t IHt]; [by apply interleaving_cons_nil|].
  by apply (interleaving_step _ 0%nat x t).
Qed.

(** Several elements of one task at once. *)
Lemma interleaving_take tasks i xs task l :
  tasks !! i = Some (xs ++ task) → interleaving (<[i := task]> tasks) l → interleaving tasks (xs ++ l).
Proof.
  revert tasks. induction xs as [|x xs IH]; intros tasks Hi Hl; simpl in *.
  - by rewrite list_insert_id in Hl.
  - apply (interleaving_step _ i x (xs ++ task)); [done|].
    apply IH; [|by rewrite list_insert_insert_eq].
    apply list_lookup_insert_eq. by eapply lookup_lt_Some.
Qed.

Lemma run_schedule_interleaving schedule tasks : interleaving tasks (run_schedule schedule tasks).
Proof.
  revert tasks. induction schedule as [|i schedule IH]; intros tasks; [apply interleaving_concat|].
  simpl. destruct (tasks !! i) as [[|x task]|] eqn:Hi; [apply IH| |apply IH].
  by apply (interleaving_step _ i x task).
Qed.

Lemma interleaving_run_schedule tasks l :
  interleaving tasks l → ∃ schedule, run_schedule schedule tasks = l.
Proof.
  induction 1 as [tasks Ht|tasks i x task l Hi Hl [s IH]].
  - exists []. simpl. induction Ht as [|t tasks -> Ht IH]; done.
  - exists (i :: s). simpl. by rewrite Hi, IH.
Qed.

Lemma interleaving_perm tasks l : interleaving tasks l → l ≡ₚ concat tasks.
Proof.
  induction 1 as [tasks Ht|tasks i x task l Hi Hl IH].
  - induction Ht as [|t tasks -> Ht IH]; done.
  - rewrite IH. apply list_elem_of_split_length in Hi as (a & b & -> & ->).
    rewrite insert_app_r_alt, Nat.sub_diag by lia. simpl.
    rewrite !concat_app. simpl. by rewrite Permutation_middle.
Qed.

Lemma interleaving_sublist tasks l i task :
  interleaving tasks l → tasks !! i = Some task → task `sublist_of` l.
Proof.
  intros Hl. revert i task. induction Hl as [tasks Ht|tasks j x t l Hj Hl IH]; intros i task Hi.
  - rewrite (proj1 (Forall_lookup _ _) Ht i task Hi). constructor.
  - destruct (decide (i = j)) as [->|Hne].
    + rewrite Hj in Hi. injection Hi as <-. constructor. apply (IH j).
      apply list_lookup_insert_eq. by eapply lookup_lt_Some.
    + constructor. apply (IH i). by rewrite list_lookup_insert_ne.
Qed.
End interleave.
