(* ===== verification/GoText.v ===== *)
(** * Go strings

    A Go string is a sequence of bytes, here Rocq's [string] of 8-bit
    [ascii]. This file models the part of the packages [unicode/utf8],
    [unicode], [strings] and [fmt] that kubemonitor calls: decoding to runes
    and back, the case tables (a class: the tables' content is data of the Go
    distribution), splitting, replacing, trimming and matching. *)
From S2P Require Import Prelude.
#[local] Open Scope Z_scope.

(** ** Bytes *)

Definition byte_val (c : ascii) : Z := Z.of_N (Ascii.N_of_ascii c).
Definition val_byte (z : Z) : ascii := Ascii.ascii_of_N (Z.to_N z).

Lemma byte_val_range c : 0 ≤ byte_val c < 256.
Proof. unfold byte_val. pose proof (Ascii.N_ascii_bounded c). lia. Qed.

Lemma val_byte_val c : val_byte (byte_val c) = c.
Proof. unfold val_byte, byte_val. by rewrite N2Z.id, Ascii.ascii_N_embedding. Qed.

Lemma byte_val_byte z : 0 ≤ z < 256 → byte_val (val_byte z) = z.
Proof.
  intros. unfold val_byte, byte_val.
  rewrite Ascii.N_ascii_embedding by lia. lia.
Qed.

Abbreviation bytes_of := String.list_ascii_of_string.
Abbreviation of_bytes := String.string_of_list_ascii.

Lemma bytes_of_app s1 s2 : bytes_of (s1 +:+ s2) = bytes_of s1 ++ bytes_of s2.
Proof. induction s1 as [|c s1 IH]; simpl; [done|]. by rewrite IH. Qed.

Lemma of_bytes_app l1 l2 : of_bytes (l1 ++ l2) = of_bytes l1 +:+ of_bytes l2.
Proof. induction l1 as [|c l1 IH]; simpl; [done|]. by rewrite IH. Qed.

Lemma bytes_of_bytes l : bytes_of (of_bytes l) = l.
Proof. apply String.list_ascii_of_string_of_list_ascii. Qed.

Lemma of_bytes_of s : of_bytes (bytes_of s) = s.
Proof. apply String.string_of_list_ascii_of_string. Qed.

#[export] Hint Rewrite bytes_of_app of_bytes_app bytes_of_bytes of_bytes_of val_byte_val : kubemon.

(** ** UTF-8 *)

Definition RuneError : Z := 65533.

Definition in_range (lo hi : Z) (c : ascii) : bool :=
  (lo <=? byte_val c) && (byte_val c <=? hi).

Definition is_cont (c : ascii) : bool := in_range 128 191 c.

(** The accepted range of the second byte, by the first one. *)
Definition second_ok (b0 : Z) (c : ascii) : bool :=
  if b0 =? 224 then in_range 160 191 c
  else if b0 =? 237 then in_range 128 159 c
  else if b0 =? 240 then in_range 144 191 c
  else if b0 =? 244 then in_range 128 143 c
  else is_cont c.

(** [utf8.DecodeRune]: the first rune and its width; (RuneError, 1) on an
    invalid encoding, (RuneError, 0) on the empty string. *)
Definition DecodeRune (l : list ascii) : Z * nat :=
  match l with
  | [] => (RuneError, 0%nat)
  | c0 :: l0 =>
    let b0 := byte_val c0 in
    if b0 <? 128 then (b0, 1%nat)
    else if (194 <=? b0) && (b0 <=? 223) then
      match l0 with
      | c1 :: _ =>
        if is_cont c1 then ((b0 - 192) * 64 + (byte_val c1 - 128), 2%nat) else (RuneError, 1%nat)
      | _ => (RuneError, 1%nat)
      end
    else if (224 <=? b0) && (b0 <=? 239) then
      match l0 with
      | c1 :: c2 :: _ =>
        if second_ok b0 c1 && is_cont c2
        then ((b0 - 224) * 4096 + (byte_val c1 - 128) * 64 + (byte_val c2 - 128), 3%nat)
        else (RuneError, 1%nat)
      | _ => (RuneError, 1%nat)
      end
    else if (240 <=? b0) && (b0 <=? 244) then
      match l0 with
      | c1 :: c2 :: c3 :: _ =>
        if second_ok b0 c1 && is_cont c2 && is_cont c3
        then ((b0 - 240) * 262144 + (byte_val c1 - 128) * 4096
              + (byte_val c2 - 128) * 64 + (byte_val c3 - 128), 4%nat)
        else (RuneError, 1%nat)
      | _ => (RuneError, 1%nat)
      end
    else (RuneError, 1%nat)
  end.

(** [[]rune(s)]. The fuel bounds the number of runes; a rune takes at least
    one byte, so the number of bytes is enough. *)
Fixpoint runes_fuel (fuel : nat) (l : list ascii) : list Z :=
  match fuel, l with
  | S fuel', _ :: _ => let '(r, w) := DecodeRune l in r :: runes_fuel fuel' (drop w l)
  | _, _ => []
  end.

Definition runes (s : string) : list Z := runes_fuel (String.length s) (bytes_of s).

(** [utf8.AppendRune]: an invalid rune is written as RuneError. *)
Definition encode_rune (r0 : Z) : list ascii :=
  let r := if (r0 <? 0) || (1114111 <? r0) || ((55296 <=? r0) && (r0 <=? 57343))
           then RuneError else r0 in
  if r <=? 127 then [val_byte r]
  else if r <=? 2047 then [val_byte (192 + r / 64); val_byte (128 + r mod 64)]
  else if r <=? 65535 then
    [val_byte (224 + r / 4096); val_byte (128 + r / 64 mod 64); val_byte (128 + r mod 64)]
  else
    [val_byte (240 + r / 262144); val_byte (128 + r / 4096 mod 64);
     val_byte (128 + r / 64 mod 64); val_byte (128 + r mod 64)].

(** [string(runes)]. *)
Definition string_of_runes (rs : list Z) : string := of_bytes (concat (encode_rune <$> rs)).

(** ** Unicode case tables *)
Class UnicodeTables := {
  ToLower : Z → Z;
  ToUpper : Z → Z;
  IsUpper : Z → bool;
  IsLower : Z → bool
}.

(** What the tables say of ASCII; the lower case of a rune beyond ASCII is
    beyond ASCII or an ASCII letter (as it is for the Kelvin sign). *)
Definition ascii_lower (r : Z) : Z := if (65 <=? r) && (r <=? 90) then r + 32 else r.
Definition ascii_upper (r : Z) : Z := if (97 <=? r) && (r <=? 122) then r - 32 else r.

Class UnicodeLaws `{UnicodeTables} : Prop := {
  ToLower_ascii r : 0 ≤ r < 128 → ToLower r = ascii_lower r;
  ToUpper_ascii r : 0 ≤ r < 128 → ToUpper r = ascii_upper r;
  IsUpper_ascii r : 0 ≤ r < 128 → IsUpper r = (65 <=? r) && (r <=? 90);
  IsLower_ascii r : 0 ≤ r < 128 → IsLower r = (97 <=? r) && (r <=? 122);
  ToLower_wide r : 128 ≤ r → 128 ≤ ToLower r ∨ 97 ≤ ToLower r ≤ 122
}.

(** Tables that know no letter beyond ASCII, for evaluation. *)
Definition ascii_tables : UnicodeTables :=
  {| ToLower := ascii_lower; ToUpper := ascii_upper;
     IsUpper r := (65 <=? r) && (r <=? 90); IsLower r := (97 <=? r) && (r <=? 122) |}.

Lemma ascii_tables_laws : @UnicodeLaws ascii_tables.
Proof.
  split; try done. simpl. intros r Hr. left. unfold ascii_lower.
  rewrite (proj2 (Z.leb_gt r 90)) by lia. by rewrite andb_false_r.
Qed.

Lemma in_range_spec lo hi c : in_range lo hi c = true ↔ lo ≤ byte_val c ≤ hi.
Proof. unfold in_range. by rewrite andb_true_iff, !Z.leb_le. Qed.

Lemma second_ok_range b0 c : second_ok b0 c = true → 128 ≤ byte_val c ≤ 191.
Proof. unfold second_ok, is_cont. repeat case_match; rewrite in_range_spec; lia. Qed.

Lemma is_cont_range c : is_cont c = true ↔ 128 ≤ byte_val c ≤ 191.
Proof. apply in_range_spec. Qed.

(** A decoded rune is not negative, and decoding always consumes something. *)
Lemma DecodeRune_nonneg l : 0 ≤ (DecodeRune l).1.
Proof.
  unfold DecodeRune. destruct l as [|c0 l]; [done|]. pose proof (byte_val_range c0).
  destruct (byte_val c0 <? 128); [simpl; lia|].
  destruct (Z.leb_spec 194 (byte_val c0)); simpl;
    destruct (Z.leb_spec (byte_val c0) 223); simpl;
    destruct (Z.leb_spec 224 (byte_val c0)); simpl;
    destruct (Z.leb_spec (byte_val c0) 239); simpl;
    destruct (Z.leb_spec 240 (byte_val c0)); simpl;
    destruct (Z.leb_spec (byte_val c0) 244); simpl; try done; try lia;
    repeat case_match; simpl; try done;
    repeat match goal with
    | H : _ && _ = true |- _ => apply andb_true_iff in H as [? ?]
    | H : is_cont _ = true |- _ => apply is_cont_range in H
    | H : second_ok _ _ = true |- _ => apply second_ok_range in H
    end; lia.
Qed.

Lemma runes_nonneg s : Forall (λ r, 0 ≤ r) (runes s).
Proof.
  unfold runes. generalize (String.length s) as fuel, (bytes_of s) as l.
  induction fuel as [|fuel IH]; intros [|c l]; cbn [runes_fuel]; try by constructor.
  pose proof (DecodeRune_nonneg (c :: l)). destruct (DecodeRune (c :: l)) as [r w].
  by constructor.
Qed.

(** ** Case conversion *)

Definition ascii_only (s : string) : bool :=
  forallb (λ c, byte_val c <? 128) (bytes_of s).

Definition map_bytes (f : Z → Z) (s : string) : string :=
  of_bytes ((λ c, val_byte (f (byte_val c))) <$> bytes_of s).

(** [strings.Map]: a rune mapped to a negative value is dropped, an invalid
    byte is seen (and written) as RuneError. *)
Definition strings_Map (f : Z → Z) (s : string) : string :=
  string_of_runes (filter (λ r, 0 ≤ r) (f <$> runes s)).

Definition strings_ToLower `{UnicodeTables} (s : string) : string :=
  if ascii_only s then map_bytes ascii_lower s else strings_Map ToLower s.

Definition strings_ToUpper `{UnicodeTables} (s : string) : string :=
  if ascii_only s then map_bytes ascii_upper s else strings_Map ToUpper s.

(** ** Searching *)

(** [strings.HasPrefix]. *)
Fixpoint HasPrefix (s p : string) : bool :=
  match p, s with
  | "", _ => true
  | String c p', String d s' => if ascii_dec c d then HasPrefix s' p' else false
  | String _ _, "" => false
  end%string.

(** The rest of [s] after its prefix [p]. *)
Fixpoint cut_prefix (s p : string) : option string :=
  match p, s with
  | "", _ => Some s
  | String c p', String d s' => if ascii_dec c d then cut_prefix s' p' else None
  | String _ _, "" => None
  end%string.

Definition TrimPrefix (s p : string) : string := default s (cut_prefix s p).

Definition string_rev (s : string) : string := of_bytes (reverse (bytes_of s)).

Definition HasSuffix (s p : string) : bool := HasPrefix (string_rev s) (string_rev p).

Definition TrimSuffix (s p : string) : string :=
  match cut_prefix (string_rev s) (string_rev p) with
  | Some r => string_rev r
  | None => s
  end.

(** [strings.Contains]. *)
Fixpoint Contains (s sub : string) : bool :=
  if HasPrefix s sub then true
  else match s with "" => false | String _ s' => Contains s' sub end%string.

(** [strings.ContainsAny] for a cutset of ASCII characters. *)
Definition ContainsAny (s chars : string) : bool :=
  existsb (λ c, if decide (c ∈ bytes_of chars) then true else false) (bytes_of s).

(** ** Splitting, joining and replacing *)

(** [strings.Split(s, sep)] for a separator of one byte. *)
Fixpoint Split (sep : ascii) (s : string) : list string :=
  match s with
  | "" => [""]
  | String c s' =>
    if ascii_dec c sep then "" :: Split sep s'
    else match Split sep s' with
         | [] => [String c ""]
         | h :: t => String c h :: t
         end
  end%string.

(** [strings.SplitN(s, sep, 2)] for a separator of one byte. *)
Fixpoint SplitN2 (sep : ascii) (s : string) : list string :=
  match s with
  | "" => [""]
  | String c s' =>
    if ascii_dec c sep then [""; s']
    else match SplitN2 sep s' with
         | [] => [String c ""]
         | h :: t => String c h :: t
         end
  end%string.

(** [strings.Join]. *)
Definition Join (sep : string) (l : list string) : string := String.concat sep l.

(** [strings.Replace(s, old, new, -1)] for an [old] of one byte. *)
Fixpoint ReplaceAll (old : ascii) (new : string) (s : string) : string :=
  match s with
  | "" => ""
  | String c s' =>
    if ascii_dec c old then new +:+ ReplaceAll old new s' else String c (ReplaceAll old new s')
  end%string.

(** [strings.NewReplacer] when every old and new string is one byte: each
    byte is looked up once, the first pair that names it wins. *)
Fixpoint replace_byte (pairs : list (ascii * ascii)) (c : ascii) : ascii :=
  match pairs with
  | [] => c
  | (old, new) :: rest => if ascii_dec c old then new else replace_byte rest c
  end.

Fixpoint byte_replacer (pairs : list (ascii * ascii)) (s : string) : string :=
  match s with
  | "" => ""
  | String c s' => String (replace_byte pairs c) (byte_replacer pairs s')
  end%string.

(** [strings.TrimSpace] and [strings.TrimLeft] drop a prefix (and a suffix)
    of characters; [drop_while p] is the part they share. *)
Fixpoint drop_while (p : ascii → bool) (l : list ascii) : list ascii :=
  match l with
  | [] => []
  | c :: l' => if p c then drop_while p l' else l
  end.

(** [strings.TrimLeft(s, cutset)] for a cutset of ASCII characters. *)
Definition TrimLeft (s cutset : string) : string :=
  of_bytes (drop_while (λ c, if decide (c ∈ bytes_of cutset) then true else false) (bytes_of s)).

(** ** Lemmas *)

Lemma append_nil s : "" +:+ s = s.
Proof. done. Qed.

Lemma append_cons c s t : String c s +:+ t = String c (s +:+ t).
Proof. done. Qed.

Lemma append_nil_r s : s +:+ "" = s.
Proof. induction s as [|c s IH]; [done|]. by rewrite append_cons, IH. Qed.

Lemma append_assoc s t u : s +:+ (t +:+ u) = (s +:+ t) +:+ u.
Proof. induction s as [|c s IH]; [done|]. by rewrite !append_cons, IH. Qed.

Lemma Split_not_nil sep s : Split sep s ≠ [].
Proof.
  destruct s as [|c s]; simpl; [done|].
  destruct (ascii_dec c sep); [done|]. by destruct (Split sep s).
Qed.

Lemma Split_no_sep sep s : sep ∉ bytes_of s → Split sep s = [s].
Proof.
  induction s as [|c s IH]; intros Hs; simpl in *; [done|].
  apply not_elem_of_cons in Hs as [Hne Hs].
  destruct (ascii_dec c sep) as [->|]; [done|]. by rewrite IH.
Qed.

Lemma Split_app_sep sep s1 s2 :
  sep ∉ bytes_of s1 → Split sep (s1 +:+ String sep s2) = s1 :: Split sep s2.
Proof.
  induction s1 as [|c s1 IH]; intros Hs; rewrite ?append_nil, ?append_cons; simpl in *.
  - by destruct (ascii_dec sep sep).
  - apply not_elem_of_cons in Hs as [Hne Hs].
    destruct (ascii_dec c sep) as [->|]; [done|]. by rewrite IH.
Qed.

(** The pieces hold no separator, and joining them gives the string back. *)
Lemma Split_pieces sep s : Forall (λ p, sep ∉ bytes_of p) (Split sep s).
Proof.
  induction s as [|c s IH]; simpl; [by constructor; [apply not_elem_of_nil|]|].
  destruct (ascii_dec c sep) as [->|Hne].
  - constructor; [apply not_elem_of_nil|done].
  - destruct (Split sep s) as [|h t]; inversion_clear IH; constructor; simpl;
      rewrite ?not_elem_of_cons; auto using not_elem_of_nil.
Qed.

Lemma Join_Split sep s : Join (String sep "") (Split sep s) = s.
Proof.
  induction s as [|c s IH]; [done|]. simpl. pose proof (Split_not_nil sep s) as Hn.
  destruct (ascii_dec c sep) as [->|Hne]; destruct (Split sep s) as [|h [|h' t]]; simplify_eq/=.
  - done.
  - done.
  - done.
  - done.
Qed.

Lemma Split_Join sep l :
  l ≠ [] → Forall (λ p, sep ∉ bytes_of p) l → Split sep (Join (String sep "") l) = l.
Proof.
  intros Hn Hl. induction Hl as [|p l Hp Hl IH]; [done|].
  destruct l as [|q l]; [by apply Split_no_sep|].
  transitivity (Split sep (p +:+ String sep (Join (String sep "") (q :: l)))); [done|].
  rewrite Split_app_sep by done. by rewrite IH.
Qed.

Lemma HasPrefix_app s t : HasPrefix (s +:+ t) s = true.
Proof.
  induction s as [|c s IH]; [by destruct t|].
  rewrite append_cons. simpl. by destruct (ascii_dec c c).
Qed.

Lemma Contains_prefix s sub : HasPrefix s sub = true → Contains s sub = true.
Proof. destruct s; simpl; by intros ->. Qed.

Lemma cut_prefix_Some s p r : cut_prefix s p = Some r ↔ s = p +:+ r.
Proof.
  revert s. induction p as [|c p IH]; intros s.
  { rewrite append_nil. destruct s; simpl; split; congruence. }
  destruct s as [|d s]; simpl; [done|].
  rewrite append_cons.
  destruct (ascii_dec c d) as [->|Hne]; [rewrite IH|]; split; congruence.
Qed.

Lemma cut_prefix_app p r : cut_prefix (p +:+ r) p = Some r.
Proof. by apply cut_prefix_Some. Qed.

Lemma TrimPrefix_app p r : TrimPrefix (p +:+ r) p = r.
Proof. unfold TrimPrefix. by rewrite cut_prefix_app. Qed.

Lemma string_rev_app s t : string_rev (s +:+ t) = string_rev t +:+ string_rev s.
Proof. unfold string_rev. by rewrite bytes_of_app, reverse_app, of_bytes_app. Qed.

Lemma string_rev_involutive s : string_rev (string_rev s) = s.
Proof. unfold string_rev. by rewrite bytes_of_bytes, reverse_involutive, of_bytes_of. Qed.

Lemma TrimSuffix_app r p : TrimSuffix (r +:+ p) p = r.
Proof. unfold TrimSuffix. by rewrite string_rev_app, cut_prefix_app, string_rev_involutive. Qed.

(** A text without the byte keeps both ends. *)
Lemma cut_prefix_byte s c : c ∉ bytes_of s → cut_prefix s (String c "") = None.
Proof.
  intros Hc. destruct s as [|d s]; [done|]. simpl in *. destruct (ascii_dec c d) as [->|]; [set_solver|done].
Qed.

Lemma Trim_byte s c : c ∉ bytes_of s →
  TrimPrefix s (String c "") = s ∧ TrimSuffix s (String c "") = s.
Proof.
  intros Hc. unfold TrimPrefix, TrimSuffix. rewrite cut_prefix_byte by done.
  change (string_rev (String c "")) with (String c ""). rewrite cut_prefix_byte; [done|].
  unfold string_rev. rewrite bytes_of_bytes. by rewrite elem_of_reverse.
Qed.

Lemma byte_replacer_bytes pairs s :
  bytes_of (byte_replacer pairs s) = replace_byte pairs <$> bytes_of s.
Proof. induction s as [|c s IH]; csimpl; [done|]. by rewrite IH. Qed.

(** A replacer none of whose new bytes is an old byte leaves no old byte. *)
Lemma replace_byte_spec pairs c :
  replace_byte pairs c = c ∧ c ∉ pairs.*1 ∨ c ∈ pairs.*1 ∧ replace_byte pairs c ∈ pairs.*2.
Proof.
  induction pairs as [|[o n] pairs IH]; simpl; [left; split; [done|apply not_elem_of_nil]|].
  destruct (ascii_dec c o) as [->|]; csimpl; rewrite ?elem_of_cons, ?not_elem_of_cons; tauto.
Qed.

Lemma byte_replacer_clean pairs s c :
  c ∈ pairs.*1 → c ∉ pairs.*2 → c ∉ bytes_of (byte_replacer pairs s).
Proof.
  intros H1 H2. rewrite byte_replacer_bytes, list_elem_of_fmap. intros (d & -> & _).
  destruct (replace_byte_spec pairs d) as [[He Hn]|[He Hn]]; [rewrite He in *|]; done.
Qed.

Lemma byte_replacer_length pairs s :
  String.length (byte_replacer pairs s) = String.length s.
Proof. induction s as [|c s IH]; simpl; [done|]. by rewrite IH. Qed.
