(* ===== verification/GoNum.v ===== *)
(** * Go numbers

    float64 is IEEE 754 binary64, here [spec_float] of Rocq's SpecFloat with
    precision 53 and maximal exponent 1024: every operation is computed and
    rounded (to nearest, ties to even) on integers. The part of package
    [strconv] the program calls is modelled on it: ParseInt, ParseUint, Atoi,
    ParseBool and ParseFloat with their syntax and range errors. *)
From Stdlib Require Import SpecFloat DecimalString DecimalZ DecimalN DecimalPos.
From S2P Require Import Prelude GoText.
#[local] Open Scope Z_scope.

(** ** float64 *)

Definition float64 : Type := spec_float.

Definition f_add : float64 → float64 → float64 := SFadd 53 1024.
Definition f_sub : float64 → float64 → float64 := SFsub 53 1024.
Definition f_mul : float64 → float64 → float64 := SFmul 53 1024.
Definition f_div : float64 → float64 → float64 := SFdiv 53 1024.
Definition f_eqb : float64 → float64 → bool := SFeqb.

(** [float64(i)] for an integer [i]: the nearest double. *)
Definition float_of_Z (z : Z) : float64 := binary_normalize 53 1024 z 0 false.

(** [float64(f)] for a float32 [f]: exact. *)
Definition float_of_float32 (f : spec_float) : float64 :=
  match f with
  | S754_finite s m e => binary_round 53 1024 s m e
  | _ => f
  end.

Definition f_zero : float64 := S754_zero false.
Definition f_one : float64 := float_of_Z 1.

(** The integer part of a finite float: [int(f)] drops the fraction. *)
Definition float_trunc (f : spec_float) : option Z :=
  match f with
  | S754_zero _ => Some 0
  | S754_finite s m e =>
    let a := if 0 <=? e then Zpos m * 2 ^ e else Zpos m / 2 ^ (- e) in
    Some (if s then - a else a)
  | _ => None
  end.

(** [int(f)] when the truncated value is not an int64, or f is not a number:
    the language leaves the result to the implementation. *)
Class FloatToInt := { out_of_range : spec_float → Z }.

Definition int_of_float `{FloatToInt} (f : spec_float) : Z :=
  match float_trunc f with
  | Some z => if decide (is_int64 z) then z else out_of_range f
  | None => out_of_range f
  end.

#[export] Instance is_int64_dec z : Decision (is_int64 z).
Proof. unfold is_int64. apply _. Defined.

(** What amd64 does: the integer indefinite value. *)
Definition amd64_float_to_int : FloatToInt := {| out_of_range _ := - 2 ^ 63 |}.

(** ** Digits and signs *)

(** [lower(c)] of strconv: c | ('x' - 'X'). *)
Definition lower (c : ascii) : Z := Z.lor (byte_val c) 32.

Definition is_digit (c : ascii) : bool := in_range 48 57 c.
Definition is_hex_letter (c : ascii) : bool := (97 <=? lower c) && (lower c <=? 102).
Definition is_char (c : ascii) (x : Z) : bool := byte_val c =? x.

(** The sign a number starts with, and the rest. *)
Definition cut_sign (l : list ascii) : bool * list ascii :=
  match l with
  | c :: l' => if is_char c 43 then (false, l') else if is_char c 45 then (true, l') else (false, l)
  | [] => (false, [])
  end.

(** ** Underscores between digits *)

Inductive saw := SawStart | SawDigit | SawUnderscore | SawOther.

Fixpoint underscore_loop (hex : bool) (st : saw) (l : list ascii) : bool :=
  match l with
  | [] => match st with SawUnderscore => false | _ => true end
  | c :: l' =>
    if is_digit c || (hex && is_hex_letter c) then underscore_loop hex SawDigit l'
    else if is_char c 95 then
      match st with SawDigit => underscore_loop hex SawUnderscore l' | _ => false end
    else match st with SawUnderscore => false | _ => underscore_loop hex SawOther l' end
  end.

Definition underscoreOK (s : list ascii) : bool :=
  let l := (cut_sign s).2 in
  match l with
  | c0 :: c1 :: l' =>
    if is_char c0 48 && ((lower c1 =? 98) || (lower c1 =? 111) || (lower c1 =? 120))
    then underscore_loop (lower c1 =? 120) SawDigit l'
    else underscore_loop false SawStart l
  | _ => underscore_loop false SawStart l
  end.

(** ** ParseUint and ParseInt *)

Definition max_uint64 : Z := 2 ^ 64 - 1.

Definition digit_val (c : ascii) : option Z :=
  if is_digit c then Some (byte_val c - 48)
  else if (97 <=? lower c) && (lower c <=? 122) then Some (lower c - 97 + 10)
  else None.

(** The digit loop: [us] says whether an underscore was passed over. *)
Fixpoint uint_loop (base : Z) (base0 us : bool) (n : Z) (l : list ascii) :
    (Z * option num_error) * bool :=
  match l with
  | [] => (n, None, us)
  | c :: l' =>
    if base0 && is_char c 95 then uint_loop base base0 true n l'
    else match digit_val c with
    | None => (0, Some ErrSyntax, us)
    | Some d =>
      if base <=? d then (0, Some ErrSyntax, us)
      else if max_uint64 <? n * base + d then (max_uint64, Some ErrRange, us)
      else uint_loop base base0 us (n * base + d) l'
    end
  end.

Definition uint_base (base : Z) (l : list ascii) : Z * list ascii :=
  if base =? 0 then
    match l with
    | c0 :: l0 =>
      if is_char c0 48 then
        match l0 with
        | c1 :: (_ :: _) as l1 =>
          if lower c1 =? 98 then (2, tail l0)
          else if lower c1 =? 111 then (8, tail l0)
          else if lower c1 =? 120 then (16, tail l0)
          else (8, l0)
        | _ => (8, l0)
        end
      else (10, l)
    | [] => (10, l)
    end
  else (base, l).

(** [strconv.ParseUint(s, base, 64)] for base 0 or 10. *)
Definition ParseUint_bytes (l : list ascii) (base : Z) : Z * option num_error :=
  match l with
  | [] => (0, Some ErrSyntax)
  | _ =>
    let '(b, digits) := uint_base base l in
    let '(res, us) := uint_loop b (base =? 0) false 0 digits in
    match res.2 with
    | None => if us && negb (underscoreOK l) then (0, Some ErrSyntax) else res
    | Some _ => res
    end
  end.

Definition ParseUint (s : string) (base : Z) : Z * option num_error :=
  ParseUint_bytes (bytes_of s) base.

(** [strconv.ParseInt(s, base, 64)]. *)
Definition ParseInt (s : string) (base : Z) : Z * option num_error :=
  let '(neg, l) := cut_sign (bytes_of s) in
  match ParseUint_bytes l base with
  | (_, Some ErrSyntax) => (0, Some ErrSyntax)
  | (un, _) =>
    if negb neg && (2 ^ 63 <=? un) then (2 ^ 63 - 1, Some ErrRange)
    else if neg && (2 ^ 63 <? un) then (- 2 ^ 63, Some ErrRange)
    else (if neg then - un else un, None)
  end.

(** [strconv.Atoi], int being 64 bits wide. *)
Definition Atoi (s : string) : Z * option num_error := ParseInt s 10.

(** [strconv.Itoa] and the decimal rendering of integers by [fmt]. *)
Definition Itoa (z : Z) : string := NilEmpty.string_of_int (Z.to_int z).

(** ** ParseBool *)

Definition ParseBool (s : string) : option bool :=
  if decide (s ∈ ["1"; "t"; "T"; "TRUE"; "true"; "True"]) then Some true
  else if decide (s ∈ ["0"; "f"; "F"; "FALSE"; "false"; "False"]) then Some false
  else None.

(** ** ParseFloat *)

(** The double nearest to (-1)^neg * m * 10^e. *)
Definition round_decimal (neg : bool) (m : Z) (e : Z) : float64 :=
  match m with
  | Zpos _ =>
    if 0 <=? e then
      match m * 10 ^ e with
      | Zpos p => binary_round 53 1024 neg p 0
      | _ => S754_zero neg
      end
    else let '(q, ex, loc) := SFdiv_core_binary 53 1024 m 0 (10 ^ (- e)) 0 in
         binary_round_aux 53 1024 neg q ex loc
  | _ => S754_zero neg
  end.

(** The double nearest to (-1)^neg * m * 2^e. *)
Definition round_binary (neg : bool) (m : Z) (e : Z) : float64 :=
  match m with
  | Zpos p => binary_round 53 1024 neg p e
  | _ => S754_zero neg
  end.

(** The mantissa: its digits as one integer, how many of them follow the
    point, whether there was a digit, whether there was an underscore, and
    the rest of the input. *)
Record mantissa := mkMantissa {
  mant_val : Z; mant_frac : Z; mant_digits : bool; mant_us : bool; mant_rest : list ascii
}.

Fixpoint scan_mantissa (hex sawdot digits us : bool) (m frac : Z) (l : list ascii) : mantissa :=
  match l with
  | [] => mkMantissa m frac digits us []
  | c :: l' =>
    if is_char c 95 then scan_mantissa hex sawdot digits true m frac l'
    else if is_char c 46 then
      if sawdot then mkMantissa m frac digits us l
      else scan_mantissa hex true digits us m frac l'
    else if is_digit c then
      scan_mantissa hex sawdot true us (m * (if hex then 16 else 10) + (byte_val c - 48))
        (if sawdot then frac + 1 else frac) l'
    else if hex && is_hex_letter c then
      scan_mantissa hex sawdot true us (m * 16 + (lower c - 97 + 10))
        (if sawdot then frac + 1 else frac) l'
    else mkMantissa m frac digits us l
  end.

(** The digits of an exponent: its value stops growing at 10000. *)
Fixpoint scan_exponent (e : Z) (us : bool) (l : list ascii) : Z * bool * list ascii :=
  match l with
  | c :: l' =>
    if is_char c 95 then scan_exponent e true l'
    else if is_digit c then
      scan_exponent (if e <? 10000 then e * 10 + (byte_val c - 48) else e) us l'
    else (e, us, l)
  | [] => (e, us, [])
  end.

(** The optional exponent after the mantissa; [None] is a syntax error. *)
Definition read_exponent (hex : bool) (l : list ascii) : option (Z * bool * list ascii) :=
  match l with
  | c :: l1 =>
    if lower c =? (if hex then 112 else 101) then
      let '(neg, l2) := cut_sign l1 in
      match l2 with
      | d :: _ =>
        if is_digit d then
          let '(e, us, rest) := scan_exponent 0 false l2 in
          Some (if neg then - e else e, us, rest)
        else None
      | [] => None
      end
    else if hex then None else Some (0, false, l)
  | [] => if hex then None else Some (0, false, l)
  end.

Definition float_inf (neg : bool) : float64 := S754_infinity neg.

(** inf, infinity and nan, in any case; only the first two take a sign. *)
Definition special_float (s : list ascii) : option float64 :=
  let low := (λ l, of_bytes ((λ c, val_byte (ascii_lower (byte_val c))) <$> l)) in
  let '(neg, l) := cut_sign s in
  if decide (low l ∈ ["inf"; "infinity"]) then Some (float_inf neg)
  else if decide (low s = "nan") then Some S754_nan
  else None.

Definition check_range (f : float64) : float64 * option num_error :=
  match f with
  | S754_infinity _ => (f, Some ErrRange)
  | _ => (f, None)
  end.

(** [strconv.ParseFloat(s, 64)]. *)
Definition ParseFloat (s : string) : float64 * option num_error :=
  let bytes := bytes_of s in
  match special_float bytes with
  | Some f => (f, None)
  | None =>
    let '(neg, l) := cut_sign bytes in
    let hex := match l with
               | c0 :: c1 :: _ :: _ => is_char c0 48 && (lower c1 =? 120)
               | _ => false
               end in
    let m := scan_mantissa hex false false false 0 0 (if hex then drop 2 l else l) in
    if negb (mant_digits m) then (f_zero, Some ErrSyntax)
    else match read_exponent hex (mant_rest m) with
    | Some (e, us, []) =>
      if (mant_us m || us) && negb (underscoreOK bytes) then (f_zero, Some ErrSyntax)
      else check_range (if hex then round_binary neg (mant_val m) (e - 4 * mant_frac m)
                        else round_decimal neg (mant_val m) (e - mant_frac m))
    | _ => (f_zero, Some ErrSyntax)
    end
  end.

(** ** Printing an integer and reading it back *)

(** The value of a digit string after the value [n] of the digits before it. *)
Fixpoint dec_val (n : Z) (d : Decimal.uint) : Z :=
  match d with
  | Decimal.Nil => n
  | Decimal.D0 d => dec_val (10 * n) d
  | Decimal.D1 d => dec_val (10 * n + 1) d
  | Decimal.D2 d => dec_val (10 * n + 2) d
  | Decimal.D3 d => dec_val (10 * n + 3) d
  | Decimal.D4 d => dec_val (10 * n + 4) d
  | Decimal.D5 d => dec_val (10 * n + 5) d
  | Decimal.D6 d => dec_val (10 * n + 6) d
  | Decimal.D7 d => dec_val (10 * n + 7) d
  | Decimal.D8 d => dec_val (10 * n + 8) d
  | Decimal.D9 d => dec_val (10 * n + 9) d
  end.

Lemma dec_val_le n d : 0 ≤ n → n ≤ dec_val n d.
Proof.
  revert n. induction d as [|d IH|d IH|d IH|d IH|d IH|d IH|d IH|d IH|d IH|d IH]; intros n Hn;
    simpl; [lia|..]; (etransitivity; [|apply IH; lia]); lia.
Qed.

Lemma dec_val_acc d acc : dec_val (Zpos acc) d = Zpos (Pos.of_uint_acc d acc).
Proof.
  revert acc. induction d as [|d IH|d IH|d IH|d IH|d IH|d IH|d IH|d IH|d IH|d IH]; intros acc;
    cbn [dec_val Pos.of_uint_acc]; [done|..]; rewrite <- IH; f_equal; lia.
Qed.

Lemma dec_val_of_uint d : dec_val 0 d = Z.of_N (Pos.of_uint d).
Proof.
  induction d as [|d IH|d IH|d IH|d IH|d IH|d IH|d IH|d IH|d IH|d IH];
    cbn [dec_val Pos.of_uint]; try done;
    cbn [Z.of_N]; rewrite <- dec_val_acc; f_equal; lia.
Qed.

Lemma dec_val_pos p : dec_val 0 (Pos.to_uint p) = Zpos p.
Proof. rewrite dec_val_of_uint. by rewrite DecimalPos.Unsigned.of_to. Qed.

(** Steps through a digit string, one case per digit. *)
Ltac digit_induction d :=
  let IH := fresh "IH" in
  induction d as [|d IH|d IH|d IH|d IH|d IH|d IH|d IH|d IH|d IH|d IH].


(** Computes the value of the literal bytes in the goal. *)
Ltac eval_bytes :=
  repeat match goal with
  | |- context [byte_val ?c] => let v := eval vm_compute in (byte_val c) in
                                change (byte_val c) with v
  end.

(** The same on characters: [digits_val n l] is the value of the digits [l]
    read after [n]. *)
Definition digits_val (n : Z) (l : list ascii) : Z :=
  foldl (λ n c, n * 10 + (byte_val c - 48)) n l.

Definition all_digits (l : list ascii) : Prop := Forall (λ c, is_digit c = true) l.

Lemma is_digit_range c : is_digit c = true ↔ 48 ≤ byte_val c ≤ 57.
Proof. unfold is_digit, in_range. rewrite andb_true_iff, !Z.leb_le. lia. Qed.

Lemma is_digit_not_char c x : is_digit c = true → x < 48 ∨ 57 < x → is_char c x = false.
Proof. rewrite is_digit_range. intros. apply Z.eqb_neq. lia. Qed.

Lemma digits_val_le n l : all_digits l → 0 ≤ n → n ≤ digits_val n l.
Proof.
  intros Hl. revert n. induction Hl as [|c l Hc Hl IH]; intros n Hn; simpl; [lia|].
  apply is_digit_range in Hc. etransitivity; [|apply IH]; lia.
Qed.

Lemma string_of_uint_digits d :
  all_digits (bytes_of (NilEmpty.string_of_uint d)) ∧
  ∀ n, digits_val n (bytes_of (NilEmpty.string_of_uint d)) = dec_val n d.
Proof.
  digit_induction d; simpl; [split; [apply Forall_nil_2|done]|..];
    destruct IH as [IH1 IH2]; (split; [by apply Forall_cons_2|]);
    intros n; unfold digits_val in *; cbn [foldl dec_val]; rewrite IH2; f_equal;
    eval_bytes; lia.
Qed.

Lemma uint_loop_digits base0 us n l :
  all_digits l → 0 ≤ n → digits_val n l ≤ max_uint64 →
  uint_loop 10 base0 us n l = (digits_val n l, None, us).
Proof.
  intros Hl. revert n. induction Hl as [|c l Hc Hl IH]; intros n Hn Hv; [done|].
  pose proof (digits_val_le (n * 10 + (byte_val c - 48)) l Hl) as Hle.
  cbn [uint_loop digits_val foldl] in *. unfold digit_val.
  rewrite (is_digit_not_char c 95), andb_false_r, Hc by (done || lia).
  apply is_digit_range in Hc. change (foldl _ ?n l) with (digits_val n l) in *.
  rewrite (proj2 (Z.leb_gt _ _)), (proj2 (Z.ltb_ge _ _)) by lia. apply IH; lia.
Qed.

Lemma cut_sign_digits l : all_digits l → cut_sign l = (false, l).
Proof.
  destruct 1 as [|c l Hc Hl]; [done|]. cbn [cut_sign].
  by rewrite !is_digit_not_char by (done || lia).
Qed.

Lemma ParseUint_digits l :
  all_digits l → l ≠ [] → digits_val 0 l ≤ max_uint64 →
  ParseUint_bytes l 10 = (digits_val 0 l, None).
Proof.
  intros Hl Hn Hv. unfold ParseUint_bytes. destruct l as [|c l]; [done|].
  cbn [uint_base Z.eqb Pos.eqb]. by rewrite uint_loop_digits.
Qed.

(** What [Itoa] prints: a minus sign for a negative number, then digits. *)
Lemma to_uint_string p :
  ∃ l, bytes_of (NilEmpty.string_of_uint (Pos.to_uint p)) = l ∧
       all_digits l ∧ l ≠ [] ∧ digits_val 0 l = Zpos p.
Proof.
  eexists; split; [done|]. destruct (string_of_uint_digits (Pos.to_uint p)) as [H1 H2].
  split_and!; [done| |by rewrite H2, dec_val_pos].
  intros He. pose proof (H2 0) as Hv. rewrite He, dec_val_pos in Hv. done.
Qed.

Lemma Itoa_nonneg z :
  0 ≤ z → ∃ l, bytes_of (Itoa z) = l ∧ all_digits l ∧ l ≠ [] ∧ digits_val 0 l = z.
Proof.
  destruct z as [|p|p]; [| |lia]; intros _; [|apply to_uint_string].
  exists ["0"%char]. split_and!; try done. by repeat constructor.
Qed.

Lemma Itoa_neg z :
  z < 0 → ∃ l, bytes_of (Itoa z) = "-"%char :: l ∧ all_digits l ∧ l ≠ [] ∧ digits_val 0 l = - z.
Proof.
  destruct z as [|p|p]; [lia|lia|]; intros _.
  destruct (to_uint_string p) as (l & Hl & ?). exists l. split; [|done].
  unfold Itoa. cbn. by rewrite Hl.
Qed.

(** The text of an integer holds digits and a minus sign only. *)
Lemma Itoa_clean z c : c ≠ "-"%char → is_digit c = false → c ∉ bytes_of (Itoa z).
Proof.
  intros Hm Hd Hin. destruct (Z_lt_ge_dec z 0) as [Hneg|Hpos].
  - destruct (Itoa_neg z Hneg) as (l & Hb & Hl & _). rewrite Hb in Hin.
    apply elem_of_cons in Hin as [->|Hin]; [done|].
    unfold all_digits in Hl. rewrite Forall_forall in Hl. specialize (Hl _ Hin). congruence.
  - destruct (Itoa_nonneg z ltac:(lia)) as (l & Hb & Hl & _). rewrite Hb in Hin.
    unfold all_digits in Hl. rewrite Forall_forall in Hl. specialize (Hl _ Hin). congruence.
Qed.

Lemma ParseInt_Itoa z : is_int64 z → ParseInt (Itoa z) 10 = (z, None).
Proof.
  intros [H1 H2]. unfold ParseInt. destruct (Z_lt_ge_dec z 0) as [Hz|Hz].
  - destruct (Itoa_neg z Hz) as (l & -> & Hl & Hn & Hv).
    cbn [cut_sign]. replace (is_char "-" 43) with false by done.
    replace (is_char "-" 45) with true by done. unfold max_uint64.
    rewrite ParseUint_digits by (done || rewrite Hv; unfold max_uint64; lia).
    rewrite Hv. cbn [negb andb]. rewrite (proj2 (Z.ltb_ge _ _)) by lia. f_equal. lia.
  - destruct (Itoa_nonneg z ltac:(lia)) as (l & -> & Hl & Hn & Hv).
    rewrite cut_sign_digits by done.
    rewrite ParseUint_digits by (done || rewrite Hv; unfold max_uint64; lia).
    rewrite Hv. cbn [negb andb]. by rewrite (proj2 (Z.leb_gt _ _)) by lia.
Qed.

Lemma ParseUint_Itoa z : is_uint64 z → ParseUint (Itoa z) 10 = (z, None).
Proof.
  intros [H1 H2]. destruct (Itoa_nonneg z H1) as (l & Hb & Hl & Hn & Hv).
  unfold ParseUint. rewrite Hb. rewrite ParseUint_digits; rewrite ?Hv; unfold max_uint64; done || lia.
Qed.

(** ** Integers as doubles *)

Section double_of_integer.
#[local] Abbreviation fexp64 := (fexp 53 1024).

Lemma digits2_pos_bounds p :
  2 ^ (Zpos (digits2_pos p) - 1) ≤ Zpos p < 2 ^ Zpos (digits2_pos p).
Proof.
  induction p as [p IH|p IH|]; cbn [digits2_pos]; [| |by vm_compute];
    rewrite Pos2Z.inj_succ, Z.sub_1_r, Z.pred_succ, Z.pow_succ_r by lia;
    replace (Zpos (digits2_pos p)) with (Z.succ (Zpos (digits2_pos p) - 1)) by lia;
    rewrite Z.pow_succ_r in * by lia;
    replace (Zpos (digits2_pos p)) with (Z.succ (Zpos (digits2_pos p) - 1)) in IH by lia;
    rewrite Z.sub_1_r, Z.pred_succ, Z.pow_succ_r in IH by lia; lia.
Qed.

Lemma digits2_pos_le p n : 0 ≤ n → Zpos p < 2 ^ n → Zpos (digits2_pos p) ≤ n.
Proof.
  intros Hn Hp. pose proof (digits2_pos_bounds p) as [Hlo _].
  destruct (Z_le_gt_dec (Zpos (digits2_pos p)) n) as [|Hgt]; [done|].
  pose proof (Z.pow_le_mono_r 2 n (Zpos (digits2_pos p) - 1)). lia.
Qed.

Lemma Zdigits2_le m n : 0 ≤ n → 0 ≤ m < 2 ^ n → Zdigits2 m ≤ n.
Proof. destruct m as [|p|p]; simpl; intros; [done| |lia]. apply digits2_pos_le; lia. Qed.

Lemma iter_xO_val p n : Zpos (Pos.iter xO p n) = Zpos p * 2 ^ Zpos n.
Proof.
  induction n as [|n IH] using Pos.peano_ind; [simpl; lia|].
  rewrite Pos.iter_succ, Pos2Z.inj_succ, Z.pow_succ_r by lia. lia.
Qed.

Lemma iter_xO_digits p n : digits2_pos (Pos.iter xO p n) = (digits2_pos p + n)%positive.
Proof.
  induction n as [|n IH] using Pos.peano_ind; [simpl; lia|].
  rewrite Pos.iter_succ. cbn [digits2_pos]. rewrite IH. lia.
Qed.

(** A mantissa of 53 bits is left alone by rounding. *)
Lemma binary_round_aux_53 s m e :
  Zpos (digits2_pos m) = 53 → -1074 ≤ e ≤ 971 →
  binary_round_aux 53 1024 s (Zpos m) e loc_Exact = S754_finite s m e.
Proof.
  intros Hm He. unfold binary_round_aux, shr_fexp. cbn [Zdigits2 shr_record_of_loc]. rewrite Hm.
  replace (fexp64 (53 + e) - e) with 0 by (unfold fexp, emin; lia).
  cbn [shr shr_m loc_of_shr_record round_nearest_even Zdigits2 shr_record_of_loc]. rewrite Hm.
  replace (fexp64 (53 + e) - e) with 0 by (unfold fexp, emin; lia).
  cbn [shr shr_m]. by rewrite (proj2 (Z.leb_le e (1024 - 53))) by lia.
Qed.

(** An integer below 2^53 is represented without rounding. *)
Lemma binary_round_small s p :
  Zpos p < 2 ^ 53 →
  ∃ m e, binary_round 53 1024 s p 0 = S754_finite s m e ∧ -52 ≤ e ≤ 0 ∧
         Zpos m = Zpos p * 2 ^ (- e).
Proof.
  intros Hp. pose proof (digits2_pos_le p 53 ltac:(lia) Hp) as Hd.
  unfold binary_round, shl_align. rewrite Z.add_0_r, Z.sub_0_r.
  assert (Hf : fexp64 (Zpos (digits2_pos p)) = Zpos (digits2_pos p) - 53)
    by (unfold fexp, emin; lia).
  rewrite Hf. destruct (Zpos (digits2_pos p) - 53) as [|k|k] eqn:Hk; [| lia |].
  - rewrite binary_round_aux_53 by lia. eexists _, _; split_and!; [done|lia|lia|].
    simpl. lia.
  - assert (Hm : Zpos (digits2_pos (Pos.iter xO p k)) = 53) by (rewrite iter_xO_digits; lia).
    rewrite binary_round_aux_53 by lia. eexists _, _; split_and!; [done|lia|lia|].
    rewrite iter_xO_val. done.
Qed.

Lemma float_trunc_of_Z z : Z.abs z ≤ 2 ^ 53 → float_trunc (float_of_Z z) = Some z.
Proof.
  intros Hz. destruct (decide (Z.abs z = 2 ^ 53)) as [He|Hne].
  { assert (z = 2 ^ 53 ∨ z = - 2 ^ 53) as [->| ->] by lia; by vm_compute. }
  assert (Hpow : ∀ p e, -52 ≤ e ≤ 0 → (if 0 <=? e then Zpos p * 2 ^ (- e) * 2 ^ e
                                     else Zpos p * 2 ^ (- e) / 2 ^ (- e)) = Zpos p).
  { intros p e He. destruct (Z.leb_spec 0 e); [replace e with 0 by lia; lia|].
    apply Z.div_mul. apply Z.pow_nonzero; lia. }
  destruct z as [|p|p]; [done|..]; cbn [float_of_Z binary_normalize float_trunc];
    unfold float_of_Z; cbn [binary_normalize].
  - destruct (binary_round_small false p ltac:(lia)) as (m & e & -> & He & Hm).
    cbn [float_trunc]. by rewrite Hm, Hpow.
  - destruct (binary_round_small true p ltac:(lia)) as (m & e & -> & He & Hm).
    cbn [float_trunc]. by rewrite Hm, Hpow.
Qed.

(** Shifting right does not make a mantissa larger. *)
Lemma shr_1_le mrs : 0 ≤ shr_m mrs → 0 ≤ shr_m (shr_1 mrs) ≤ shr_m mrs.
Proof. destruct mrs as [[|[p|p|]|[p|p|]] r s]; simpl; lia. Qed.

Lemma iter_shr_1_le n mrs : 0 ≤ shr_m mrs → 0 ≤ shr_m (SpecFloat.iter_pos shr_1 n mrs) ≤ shr_m mrs.
Proof.
  revert mrs. induction n as [n IH|n IH|]; intros mrs Hm; cbn [SpecFloat.iter_pos].
  - pose proof (shr_1_le mrs Hm). pose proof (IH (shr_1 mrs) ltac:(lia)).
    pose proof (IH (SpecFloat.iter_pos shr_1 n (shr_1 mrs)) ltac:(lia)). lia.
  - pose proof (IH mrs Hm). pose proof (IH (SpecFloat.iter_pos shr_1 n mrs) ltac:(lia)). lia.
  - by apply shr_1_le.
Qed.

Lemma shr_fexp_le m e l mrs' e' :
  0 ≤ m → shr_fexp 53 1024 m e l = (mrs', e') →
  0 ≤ shr_m mrs' ≤ m ∧ e' = Z.max e (fexp64 (Zdigits2 m + e)).
Proof.
  intros Hm. unfold shr_fexp, shr.
  assert (Hl : shr_m (shr_record_of_loc m l) = m) by (destruct l as [|[]]; done).
  destruct (fexp64 (Zdigits2 m + e) - e) as [|k|k] eqn:Hk; intros [= <- <-];
    rewrite ?Hl; try lia.
  pose proof (iter_shr_1_le k (shr_record_of_loc m l) ltac:(lia)). lia.
Qed.

(** No integer of 64 bits overflows the range of a double. *)
Lemma binary_round_aux_finite s m e l b :
  0 ≤ m < 2 ^ 64 → -1000 ≤ e ≤ 500 → binary_round_aux 53 1024 s m e l ≠ S754_infinity b.
Proof.
  intros Hm He. unfold binary_round_aux.
  destruct (shr_fexp 53 1024 m e l) as [mrs1 e1] eqn:H1.
  apply shr_fexp_le in H1 as [H1 ->]; [|lia].
  set (m2 := round_nearest_even _ _). assert (Hm2 : 0 ≤ m2 ≤ shr_m mrs1 + 1).
  { unfold m2, round_nearest_even. destruct (loc_of_shr_record mrs1) as [|[]]; try lia.
    destruct (Z.even (shr_m mrs1)); lia. }
  destruct (shr_fexp 53 1024 m2 _ loc_Exact) as [mrs2 e2] eqn:H2.
  apply shr_fexp_le in H2 as [H2 ->]; [|lia].
  pose proof (Zdigits2_le m 64 ltac:(lia) ltac:(lia)).
  pose proof (Zdigits2_le m2 65 ltac:(lia) ltac:(lia)).
  destruct (shr_m mrs2); [done| |done].
  rewrite (proj2 (Z.leb_le _ _)); [done|]. unfold fexp, emin. lia.
Qed.

Lemma binary_round_finite s p b :
  Zpos p < 2 ^ 64 → binary_round 53 1024 s p 0 ≠ S754_infinity b.
Proof.
  intros Hp. pose proof (digits2_pos_le p 64 ltac:(lia) Hp) as Hd.
  destruct (decide (Zpos p < 2 ^ 53)) as [Hs|Hs].
  { by destruct (binary_round_small s p Hs) as (m & e & -> & _). }
  unfold binary_round, shl_align. rewrite Z.add_0_r, Z.sub_0_r.
  assert (53 < Zpos (digits2_pos p)).
  { pose proof (digits2_pos_bounds p) as [_ Hb].
    destruct (Z_lt_ge_dec 53 (Zpos (digits2_pos p))) as [|Hge]; [done|].
    pose proof (Z.pow_le_mono_r 2 (Zpos (digits2_pos p)) 53). lia. }
  destruct (fexp64 (Zpos (digits2_pos p))) as [|k|k] eqn:Hk;
    [| |unfold fexp, emin in Hk; lia]; apply binary_round_aux_finite; lia.
Qed.
End double_of_integer.

(** ** A printed integer parsed as a double *)

Lemma scan_mantissa_digits hex us dg m frac l :
  hex = false → all_digits l →
  scan_mantissa hex false dg us m frac l =
    mkMantissa (digits_val m l) frac (dg || negb (bool_decide (l = []))) us [].
Proof.
  intros -> Hl. revert m dg. induction Hl as [|c l Hc Hl IH]; intros m dg; cbn [scan_mantissa].
  { by rewrite orb_false_r. }
  rewrite !is_digit_not_char, Hc by (done || lia). rewrite IH.
  rewrite orb_true_r. by f_equal.
Qed.

Lemma special_float_digits l :
  all_digits l → l ≠ [] → special_float l = None ∧ special_float ("-"%char :: l) = None.
Proof.
  intros Hl Hn. destruct Hl as [|c l Hc Hl]; [done|].
  assert (Hlow : val_byte (ascii_lower (byte_val c)) = c).
  { apply is_digit_range in Hc. unfold ascii_lower.
    rewrite (proj2 (Z.leb_gt 65 _)) by lia. apply val_byte_val. }
  assert (Hci : c ≠ "i"%char) by (intros ->; done).
  assert (Hcn : c ≠ "n"%char) by (intros ->; done).
  unfold special_float. split; [rewrite cut_sign_digits by by constructor|];
    cbn [cut_sign is_char]; csimpl; rewrite ?Hlow;
    repeat case_decide; try done;
    try match goal with H : _ ∈ _ |- _ => rewrite ?elem_of_cons, elem_of_nil in H end;
    intuition congruence.
Qed.

Lemma lower_digit c : is_digit c = true → lower c ≤ 63.
Proof.
  rewrite is_digit_range. intros Hc. unfold lower.
  assert (Hcase : ∀ z, 48 ≤ z ≤ 57 → Z.lor z 32 = z).
  { intros z Hz. assert (z = 48 ∨ z = 49 ∨ z = 50 ∨ z = 51 ∨ z = 52 ∨ z = 53 ∨ z = 54 ∨ z = 55
      ∨ z = 56 ∨ z = 57) by lia. intuition (subst; reflexivity). }
  rewrite Hcase; lia.
Qed.

Lemma ParseFloat_digits s neg l :
  special_float (bytes_of s) = None → cut_sign (bytes_of s) = (neg, l) →
  all_digits l → l ≠ [] →
  ParseFloat s = check_range (round_decimal neg (digits_val 0 l) 0).
Proof.
  intros Hsp Hsign Hl Hn. unfold ParseFloat. rewrite Hsp, Hsign.
  set (hex := match l with c0 :: c1 :: _ :: _ => _ | _ => _ end).
  assert (Hhex : hex = false).
  { unfold hex. destruct Hl as [|c0 ? Hc0 [|c1 ? Hc1 [|c2 ? _ _]]]; try done.
    rewrite andb_false_iff. right. apply Z.eqb_neq. pose proof (lower_digit c1 Hc1). lia. }
  rewrite Hhex, (scan_mantissa_digits false) by done.
  rewrite bool_decide_false by done. by cbn.
Qed.

Lemma round_decimal_0 neg m :
  0 ≤ m → round_decimal neg m 0 = round_binary neg m 0.
Proof. destruct m as [|p|p]; [done| |lia]. intros _. cbn. by rewrite Z.mul_1_r. Qed.

Lemma check_range_round neg p :
  Zpos p < 2 ^ 64 →
  check_range (round_binary neg (Zpos p) 0) = (binary_round 53 1024 neg p 0, None).
Proof.
  intros Hp. pose proof (λ b, binary_round_finite neg p b Hp) as Hf. cbn [round_binary].
  destruct (binary_round 53 1024 neg p 0) as [|s| |]; try done. by destruct (Hf s).
Qed.

Lemma ParseFloat_Itoa z : - 2 ^ 64 < z < 2 ^ 64 → ParseFloat (Itoa z) = (float_of_Z z, None).
Proof.
  intros Hz. destruct (Z_lt_ge_dec z 0) as [Hneg|Hpos].
  - destruct (Itoa_neg z Hneg) as (l & Hb & Hl & Hn & Hv).
    rewrite (ParseFloat_digits _ true l), Hv, round_decimal_0;
      try done; try lia; rewrite ?Hb; try done; [|by apply special_float_digits].
    destruct z as [|p|p]; try lia. apply (check_range_round true p). lia.
  - destruct (Itoa_nonneg z ltac:(lia)) as (l & Hb & Hl & Hn & Hv).
    rewrite (ParseFloat_digits _ false l), Hv, round_decimal_0;
      try done; try lia; rewrite ?Hb; [|by apply special_float_digits|by apply cut_sign_digits].
    destruct z as [|p|p]; try done; try lia. apply (check_range_round false p). lia.
Qed.
