(* ===== verification/GoPath.v ===== *)
(** * Slash-separated paths

    Go's package path: [Clean] and [Join], with the paths they make of segments
    that are plain names. *)
From S2P Require Import Prelude GoText.

Definition slash : string := "/".

(** One element of a path: the elements kept so far, last first. *)
Definition clean_element (rooted : bool) (kept : list string) (e : string) : list string :=
  if decide (e = "" ∨ e = ".") then kept
  else if decide (e = "..") then
    match kept with
    | [] => if rooted then [] else [".."]
    | d :: kept' => if decide (d = "..") then ".." :: kept else kept'
    end
  else e :: kept.

Definition clean_elements (rooted : bool) (es : list string) : list string :=
  reverse (foldl (clean_element rooted) [] es).

Definition path_Clean (path : string) : string :=
  if decide (path = "") then "."
  else
    let rooted := HasPrefix path slash in
    let kept := Join slash (clean_elements rooted (Split "/" path)) in
    if rooted then slash +:+ kept else if decide (kept = "") then "." else kept.

(** The elements, from the first that is not empty, with slashes between. *)
Fixpoint skip_empty (elem : list string) : list string :=
  match elem with
  | [] => []
  | e :: elem' => if decide (e = "") then skip_empty elem' else elem
  end.

Definition path_Join (elem : list string) : string :=
  match skip_empty elem with
  | [] => ""
  | es => path_Clean (Join slash es)
  end.

(** ** Paths of plain names *)

(** A name that stays as it is in a path. *)
Definition segment (s : string) : Prop := s ≠ "" ∧ s ≠ "." ∧ s ≠ ".." ∧ "/"%char ∉ bytes_of s.

#[export] Instance segment_dec s : Decision (segment s).
Proof. unfold segment. apply _. Defined.

Lemma clean_element_segment rooted kept s : segment s → clean_element rooted kept s = s :: kept.
Proof. intros (He & Hd & Hdd & _). unfold clean_element. by rewrite !decide_False by naive_solver. Qed.

Lemma clean_segments rooted kept es :
  Forall (λ e, e = "" ∨ segment e) es →
  foldl (clean_element rooted) kept es = reverse (filter (λ e, e ≠ "") es) ++ kept.
Proof.
  intros Hes. revert kept. induction Hes as [|e es [->|He] Hes IH]; intros kept; simpl; [done| |].
  - by rewrite IH.
  - rewrite clean_element_segment, IH by done. rewrite filter_cons_True by apply He.
    by rewrite reverse_cons, <- app_assoc.
Qed.

Lemma Split_app_any sep s1 s2 : Split sep (s1 +:+ String sep s2) = Split sep s1 ++ Split sep s2.
Proof.
  induction s1 as [|c s1 IH]; rewrite ?append_nil, ?append_cons; simpl.
  - by destruct (ascii_dec sep sep).
  - rewrite IH. destruct (ascii_dec c sep); [done|].
    pose proof (Split_not_nil sep s1). by destruct (Split sep s1).
Qed.

Lemma Split_Join_any sep l : l ≠ [] → Split sep (Join (String sep "") l) = mjoin (Split sep <$> l).
Proof.
  induction l as [|s [|s' l] IH]; intros Hl; [done|by rewrite fmap_cons; simpl; rewrite app_nil_r|].
  transitivity (Split sep (s +:+ String sep (Join (String sep "") (s' :: l)))); [done|].
  rewrite Split_app_any, IH by done. done.
Qed.

Lemma Join_rooted s l : HasPrefix (Join slash ((slash +:+ s) :: l)) slash = true.
Proof.
  destruct l as [|s' l]; [apply HasPrefix_app|].
  transitivity (HasPrefix (slash +:+ (s +:+ slash +:+ Join slash (s' :: l))) slash); [done|].
  apply HasPrefix_app.
Qed.

(** The path of a list of names, from the root. *)
Definition absolute (ss : list string) : string := slash +:+ Join slash ss.

Lemma segment_pieces s : s = "" ∨ segment s → Split "/" s = [s].
Proof. intros [->|(_ & _ & _ & Hs)]; [done|by apply Split_no_sep]. Qed.

Lemma mjoin_segments es : Forall (λ e, e = "" ∨ segment e) es → mjoin (Split "/" <$> es) = es.
Proof.
  induction 1 as [|e es He Hes IH]; [done|].
  rewrite fmap_cons, (segment_pieces e He). simpl. by f_equal.
Qed.

Lemma filter_segments ss : Forall segment ss → filter (λ e, e ≠ "") ss = ss.
Proof. induction 1 as [|s ss [Hs _] _ IH]; [done|]. by rewrite filter_cons_True, IH. Qed.

Lemma path_Clean_rooted s : HasPrefix s slash = true →
  path_Clean s = absolute (clean_elements true (Split "/" s)).
Proof. intros Hs. unfold path_Clean. rewrite Hs. by destruct s. Qed.

Lemma Split_absolute ss : Forall segment ss →
  filter (λ e, e ≠ "") (Split "/" (absolute ss)) = ss ∧
  Forall (λ e, e = "" ∨ segment e) (Split "/" (absolute ss)).
Proof.
  intros Hss. assert (Hs' : Forall (λ e, e = "" ∨ segment e) ss) by (eapply Forall_impl; [done|by right]).
  unfold absolute. change (slash +:+ Join slash ss) with ("" +:+ String "/" (Join slash ss)).
  rewrite Split_app_any. destruct (decide (ss = [])) as [->|Hn].
  { split; [done|]. repeat constructor; by left. }
  unfold slash. rewrite Split_Join_any, mjoin_segments by done. split.
  - rewrite filter_app, (filter_segments ss) by done. by simpl.
  - simpl. constructor; [by left|done].
Qed.

Lemma mjoin_cons {A} (l : list A) ls : mjoin (l :: ls) = l ++ mjoin ls.
Proof. done. Qed.

(** The names of a path. *)
Definition path_names (p : string) : list string := filter (λ e, e ≠ "") (Split "/" p).

(** A path without "." and "..". *)
Definition plain_path (p : string) : Prop := Forall (λ e, e = "" ∨ segment e) (Split "/" p).

#[export] Instance plain_path_dec p : Decision (plain_path p).
Proof. unfold plain_path. apply _. Defined.

Lemma path_names_absolute ss : Forall segment ss → path_names (absolute ss) = ss ∧ plain_path (absolute ss).
Proof. apply Split_absolute. Qed.

Lemma segment_names s : s = "" ∨ segment s → plain_path s ∧ path_names s = filter (λ e, e ≠ "") [s].
Proof.
  intros Hs. unfold plain_path, path_names. rewrite segment_pieces by done. split; [by apply Forall_singleton|done].
Qed.

Lemma path_Join_plain ss es :
  Forall segment ss → Forall plain_path es →
  path_Join (absolute ss :: es) = absolute (ss ++ mjoin (path_names <$> es)).
Proof.
  intros Hss Hes. unfold path_Join.
  change (skip_empty (absolute ss :: es)) with (absolute ss :: es). cbv iota.
  rewrite path_Clean_rooted by apply Join_rooted.
  unfold slash. rewrite Split_Join_any by done. rewrite fmap_cons, mjoin_cons.
  destruct (Split_absolute ss Hss) as [Hf Ha].
  assert (Hp : Forall (λ e, e = "" ∨ segment e) (mjoin (Split "/" <$> es)) ∧
    filter (λ e, e ≠ "") (mjoin (Split "/" <$> es)) = mjoin (path_names <$> es)).
  { clear Hss Hf Ha. induction Hes as [|e es He Hes [IH1 IH2]]; [done|]. rewrite !fmap_cons, !mjoin_cons.
    split; [by apply Forall_app|]. by rewrite filter_app, IH2. }
  destruct Hp as [Hp1 Hp2].
  unfold clean_elements. rewrite clean_segments by (by apply Forall_app).
  rewrite app_nil_r, reverse_involutive, filter_app, Hf, Hp2. done.
Qed.

Lemma path_Join_absolute ss es :
  Forall segment ss → Forall (λ e, e = "" ∨ segment e) es →
  path_Join (absolute ss :: es) = absolute (ss ++ filter (λ e, e ≠ "") es).
Proof.
  intros Hss Hes. rewrite path_Join_plain; [|done|eapply Forall_impl; [exact Hes|apply segment_names]].
  f_equal. f_equal. induction Hes as [|e es He Hes IH]; [done|]. rewrite fmap_cons, mjoin_cons.
  rewrite IH. rewrite (proj2 (segment_names e He)). by rewrite <- filter_app.
Qed.

Lemma HasPrefix_byte c d s : d ≠ c → HasPrefix (String c s) (String d "") = false.
Proof. intros Hne. simpl. by destruct (ascii_dec d c). Qed.

(** Names joined from none: what is left is a path of those that are not empty. *)
Lemma path_Join_names es : Forall (λ e, e = "" ∨ segment e) es →
  plain_path (path_Join es) ∧ path_names (path_Join es) = filter (λ e, e ≠ "") es.
Proof.
  intros Hes. unfold path_Join. assert (Hskip : filter (λ e, e ≠ "") (skip_empty es) = filter (λ e, e ≠ "") es ∧
    Forall (λ e, e = "" ∨ segment e) (skip_empty es) ∧ (skip_empty es = [] ∨ ∃ e es', skip_empty es = e :: es' ∧ segment e)).
  { induction Hes as [|e es He Hes IH]; [by auto|]. simpl. destruct (decide (e = "")) as [->|Hne].
    - by rewrite filter_cons_False by (intros []; done).
    - destruct He as [|He]; [done|]. split_and!; [done|constructor; auto|right; eauto]. }
  destruct Hskip as (Hf & Hs & Hcase). rewrite <- Hf. clear Hf Hes.
  destruct (skip_empty es) as [|e es'] eqn:He.
  { split; [by apply Forall_singleton; left|done]. }
  destruct Hcase as [|(? & ? & [= <- <-] & Hseg)]; [done|].
  assert (Hclean : path_Clean (Join slash (e :: es')) = Join slash (filter (λ e, e ≠ "") (e :: es'))).
  { assert (Hne : Join slash (e :: es') ≠ "" ∧ HasPrefix (Join slash (e :: es')) slash = false).
    { destruct Hseg as (Hne & _ & _ & Hsl). destruct e as [|c e]; [done|]. simpl in Hsl. apply not_elem_of_cons in Hsl as [Hc _].
      split; [by destruct es'|]. assert (Hj : ∃ s, Join slash (String c e :: es') = String c s) by (destruct es'; by eexists).
      destruct Hj as [s ->]. by apply HasPrefix_byte. }
    destruct Hne as [Hne Hpre]. unfold path_Clean. rewrite decide_False, Hpre by done.
    unfold slash. rewrite Split_Join_any, mjoin_segments by done. unfold clean_elements.
    rewrite clean_segments, app_nil_r, reverse_involutive by done. fold slash.
    rewrite decide_False; [done|]. rewrite filter_cons_True by apply Hseg. destruct e; [by destruct Hseg|].
    by destruct (filter _ es'). }
  rewrite Hclean. set (ss := filter _ (e :: es')).
  assert (Hss : Forall segment ss).
  { apply Forall_forall. intros x [Hx Hin]%list_elem_of_filter. pose proof (proj1 (Forall_forall _ _) Hs x Hin) as [|?]; done. }
  assert (Hsplit : Split "/" (Join slash ss) = ss).
  { unfold slash. rewrite Split_Join_any, mjoin_segments; [done| |].
    - eapply Forall_impl; [exact Hss|by right].
    - unfold ss. rewrite filter_cons_True by apply Hseg. done. }
  unfold plain_path, path_names. rewrite Hsplit. split; [eapply Forall_impl; [exact Hss|by right]|by apply filter_segments].
Qed.
