(* ===== verification/GoUrlProps.v ===== *)
(** * A URL that is written and read back keeps its query

    [url_Parse_RawQuery]: the text [URL_String] gives, when it can be read back,
    is read with the query it was written with. So what a request carries in its
    query is what the program put there. *)
From S2P Require Import Prelude GoText GoNum GoUrl.
#[local] Open Scope Z_scope.

(** The two bytes that end a path. *)
Definition unmarked (c : ascii) : Prop := c ≠ "?"%char ∧ c ≠ "#"%char.

#[local] Instance unmarked_dec c : Decision (unmarked c).
Proof. unfold unmarked. apply _. Defined.

Lemma hex_upper_unmarked v : 0 ≤ v < 16 → unmarked (hex_upper v).
Proof.
  intros Hv. pose proof (hex_upper_back v Hv) as Hb. split; intros He; by rewrite He in Hb.
Qed.

Lemma escape_unmarked mode s : mode ≠ encodeFragment → Forall unmarked (escape mode s).
Proof.
  intros Hm. unfold escape. induction s as [|c s IH]; [constructor|]. csimpl.
  apply Forall_app_2; [|done]. unfold escape_byte. destruct (ascii_dec c " ") as [->|_].
  - destruct mode; repeat constructor; by apply (bool_decide_unpack _).
  - destruct (shouldEscape mode c) eqn:He.
    + pose proof (byte_val_range c). repeat apply Forall_cons_2; [by apply (bool_decide_unpack _)|..|constructor].
      * apply hex_upper_unmarked. split; [apply Z.div_pos|apply Z.div_lt_upper_bound]; lia.
      * apply hex_upper_unmarked. apply Z.mod_pos_bound. lia.
    + apply Forall_cons_2; [|constructor]. split; intros ->; destruct mode; done.
Qed.

Lemma validEncoded_unmarked s : validEncoded encodePath s = true → Forall unmarked s.
Proof.
  unfold validEncoded. intros Hv. assert (Hf : Forall (λ c, has_byte c (bytes_of "!$&'()*+,;=:@[]%")
    || negb (shouldEscape encodePath c)) s) by (apply forallb_True; by rewrite Hv).
  eapply Forall_impl; [exact Hf|]. intros c Hc. split; intros ->; by vm_compute in Hc.
Qed.

Lemma path_unmarked u before : Forall unmarked (path_text u before).
Proof.
  assert (He : Forall unmarked (EscapedPath u)).
  { unfold EscapedPath, escaped. case_bool_decide; [by repeat constructor|].
    destruct (bool_decide _ && _ && _) eqn:Hv; [|by apply escape_unmarked].
    apply andb_true_iff in Hv as [[_ Hv]%andb_true_iff _]. by apply validEncoded_unmarked. }
  unfold path_text. repeat apply Forall_app_2; [| |done]; case_match; by repeat constructor.
Qed.

Lemma authority_unmarked u : Forall unmarked (authority_text u).
Proof.
  unfold authority_text, Userinfo_String.
  repeat case_match; repeat apply Forall_app_2; repeat constructor; try done;
    try (by apply escape_unmarked); try apply Forall_app_2; try (by apply escape_unmarked);
    by repeat constructor.
Qed.

(** A URL with a query and without an opaque part. *)
Definition with_query (u : URL) : Prop :=
  Opaque u = [] ∧ RawQuery u ≠ [] ∧ Forall unmarked (Scheme u) ∧ "#"%char ∉ RawQuery u.

(** The parts of a URL's text before and after its query. *)
Definition text_before (u : URL) : bytes :=
  let before := (if bool_decide (Scheme u = []) then [] else Scheme u ++ [":"%char]) ++ authority_text u in
  before ++ path_text u before.

Definition text_after (u : URL) : bytes :=
  if bool_decide (Fragment u ≠ [])
  then "#"%char :: escaped encodeFragment (Fragment u) (RawFragment u) else [].

Lemma URL_String_set_RawQuery u q : Opaque u = [] → q ≠ [] →
  URL_String (set_RawQuery u q) = text_before u ++ "?"%char :: q ++ text_after u.
Proof.
  intros Ho Hq. unfold URL_String, set_RawQuery. cbn [Opaque RawQuery]. rewrite Ho.
  rewrite bool_decide_eq_false_2 by naive_solver.
  rewrite (bool_decide_eq_true_2 (q ≠ [])), orb_true_r by done.
  reflexivity.
Qed.

Lemma text_before_unmarked u : Forall unmarked (Scheme u) → Forall unmarked (text_before u).
Proof.
  intros Hs. unfold text_before. apply Forall_app_2; [|apply path_unmarked].
  apply Forall_app_2; [|apply authority_unmarked]. case_bool_decide; [constructor|].
  apply Forall_app_2; [done|]. by repeat constructor.
Qed.

Lemma URL_String_query u : with_query u →
  ∃ p, Forall unmarked p ∧
    (URL_String u = p ++ "?"%char :: RawQuery u ∨
     ∃ f, URL_String u = p ++ "?"%char :: RawQuery u ++ "#"%char :: f).
Proof.
  intros (Ho & Hq & Hs & _). exists (text_before u). split; [by apply text_before_unmarked|].
  pose proof (URL_String_set_RawQuery u (RawQuery u) Ho Hq) as Hu.
  assert (set_RawQuery u (RawQuery u) = u) as He by by destruct u. rewrite He in Hu. rewrite Hu.
  unfold text_after. case_bool_decide; [right; by eexists|left]. by rewrite app_nil_r.
Qed.

Lemma cut_at_none sep a : sep ∉ a → cut_at sep a = None.
Proof.
  induction a as [|c a IH]; intros Ha; simpl; [done|].
  destruct (ascii_dec c sep) as [->|_]; [set_solver|]. rewrite IH by set_solver. done.
Qed.

Lemma unmarked_notin p : Forall unmarked p → "?"%char ∉ p ∧ "#"%char ∉ p.
Proof. rewrite Forall_forall. intros Hp. split; intros Hin; by destruct (Hp _ Hin). Qed.

(** The scheme is cut off before any mark. *)
Lemma scheme_loop_rest first raw l acc s rest :
  scheme_loop first raw l acc = Some (s, rest) →
  rest = raw ∨ ∃ p, l = p ++ ":"%char :: rest ∧ "?"%char ∉ p.
Proof.
  revert first acc. induction l as [|c l IH]; intros first acc; cbn [scheme_loop]; [intros [= _ <-]; by left|].
  destruct (in_range 97 122 c || in_range 65 90 c) eqn:Hc.
  { intros [->|(p & -> & Hp)]%IH; [by left|]. right. exists (c :: p). split; [done|].
    apply not_elem_of_cons. split; [by intros <-|done]. }
  destruct (is_digit c || has_byte c (bytes_of "+-.")) eqn:Hd.
  { destruct first; [intros [= _ <-]; by left|].
    intros [->|(p & -> & Hp)]%IH; [by left|]. right. exists (c :: p). split; [done|].
    apply not_elem_of_cons. split; [by intros <-|done]. }
  destruct (ascii_dec c ":") as [->|]; [|intros [= _ <-]; by left].
  destruct first; [done|]. intros [= _ <-]. right. exists []. split; [done|set_solver].
Qed.

Lemma app_cons_suffix (c : ascii) p a q rest :
  p ++ c :: rest = a ++ "?"%char :: q → c ≠ "?"%char → "?"%char ∉ p →
  ∃ a', rest = a' ++ "?"%char :: q ∧ (∀ x, x ∈ a' → x ∈ a).
Proof.
  revert a. induction p as [|d p IH]; intros a He Hc Hp.
  - destruct a as [|x a]; simpl in He; [congruence|]. injection He as -> ->. exists a. set_solver.
  - destruct a as [|x a]; simpl in He; injection He as -> He; [set_solver|].
    destruct (IH a He Hc ltac:(set_solver)) as (a' & -> & Ha). exists a'. set_solver.
Qed.

Lemma parse_path_RawQuery scheme user host rest query omit force u :
  parse_path scheme user host rest query omit force = Some u → RawQuery u = query.
Proof. unfold parse_path. destruct (set_encoded _ _) as [[p r]|]; [|done]. by intros [= <-]. Qed.

Lemma parse_rest_RawQuery scheme rest query force u :
  parse_rest scheme rest query force = Some u → RawQuery u = query.
Proof.
  unfold parse_rest. repeat case_match; try done; try (apply parse_path_RawQuery).
  - by intros [= <-].
  - destruct (parseAuthority _) as [[us h]|]; [|done]. apply parse_path_RawQuery.
Qed.

Lemma cut_query_marked a q : "?"%char ∉ a → q ≠ [] → cut_query (a ++ "?"%char :: q) = (a, q, false).
Proof. intros Ha Hq. unfold cut_query. rewrite cut_at_app by done. by destruct q. Qed.

Lemma url_Parse_RawQuery u u2 :
  with_query u → url_Parse (URL_String u) = Some u2 → RawQuery u2 = RawQuery u.
Proof.
  intros Hu Hp. pose proof Hu as (_ & Hq & _ & Hh).
  destruct (URL_String_query u Hu) as (p & Hm & Hs). apply unmarked_notin in Hm as [Hm Hm'].
  assert (Hcut : ∃ f, default (URL_String u, []) (cut_at "#" (URL_String u)) = (p ++ "?"%char :: RawQuery u, f)).
  { destruct Hs as [->|[f ->]].
    - exists []. rewrite cut_at_none; [done|]. set_solver.
    - exists f. replace (p ++ "?"%char :: RawQuery u ++ "#"%char :: f) with
        ((p ++ "?"%char :: RawQuery u) ++ "#"%char :: f) by (by rewrite <- app_assoc).
      rewrite cut_at_app; [done|]. set_solver. }
  destruct Hcut as [f Hf]. unfold url_Parse in Hp. rewrite Hf in Hp.
  destruct (existsb _ _); [done|]. rewrite bool_decide_eq_false_2 in Hp.
  2: { intros He. assert (Hin : "?"%char ∈ p ++ "?"%char :: RawQuery u) by set_solver.
       rewrite He in Hin. set_solver. }
  destruct (getScheme (p ++ "?"%char :: RawQuery u)) as [[s rest]|] eqn:Hg; [|done].
  cbn [mbind option_bind] in Hp.
  assert (∃ a, rest = a ++ "?"%char :: RawQuery u ∧ "?"%char ∉ a) as (a & -> & Ha).
  { unfold getScheme in Hg. apply scheme_loop_rest in Hg as [->|(b & Hb & Hb')]; [by exists p|].
    destruct (app_cons_suffix ":" b p (RawQuery u) rest (eq_sym Hb) ltac:(done) Hb') as (a & -> & Ha).
    exists a. split; [done|]. intros Hin. by apply Hm, Ha. }
  rewrite cut_query_marked in Hp by done.
  destruct (parse_rest _ _ _ _) as [u1|] eqn:Hr; [|done]. cbn [mbind option_bind] in Hp.
  destruct (set_encoded _ _) as [[fr raw]|]; [|done]. injection Hp as <-. simpl.
  by apply parse_rest_RawQuery in Hr.
Qed.

(** ** The bytes of an encoded query *)

Definition query_byte (c : ascii) : Prop := unmarked c ∧ is_ctl c = false.

Lemma hex_upper_query v : 0 ≤ v < 16 → query_byte (hex_upper v).
Proof.
  intros Hv. split; [by apply hex_upper_unmarked|].
  assert (Hc : v ∈ [0;1;2;3;4;5;6;7;8;9;10;11;12;13;14;15]).
  { rewrite !elem_of_cons, elem_of_nil. lia. }
  rewrite !elem_of_cons, elem_of_nil in Hc. repeat (destruct Hc as [->|Hc]; [reflexivity|]). done.
Qed.

Lemma QueryEscape_query_byte s : Forall query_byte (QueryEscape s).
Proof.
  unfold QueryEscape, escape. induction s as [|c s IH]; [constructor|]. csimpl.
  apply Forall_app_2; [|done]. unfold escape_byte. destruct (ascii_dec c " ") as [->|_].
  - apply Forall_cons_2; [|constructor]. split; [by apply (bool_decide_unpack _)|done].
  - pose proof (byte_val_range c). destruct (shouldEscape encodeQueryComponent c) eqn:He.
    + repeat apply Forall_cons_2; [split; [by apply (bool_decide_unpack _)|done]|..|constructor].
      * apply hex_upper_query. split; [apply Z.div_pos|apply Z.div_lt_upper_bound]; lia.
      * apply hex_upper_query. apply Z.mod_pos_bound. lia.
    + apply Forall_cons_2; [|constructor]. split; [split; by intros ->|].
      destruct c as [[] [] [] [] [] [] [] []]; (discriminate He || reflexivity).
Qed.

Lemma Encode_values_query_byte q : Forall query_byte (Encode_values q).
Proof.
  unfold Encode_values.
  assert (Hj : ∀ l, Forall (Forall query_byte) l → Forall query_byte (join_bytes "&" l)).
  { intros l Hl. induction Hl as [|s l Hs Hl IH]; [constructor|].
    destruct l as [|s' l]; [done|]. cbn [join_bytes] in *. apply Forall_app_2; [done|].
    apply Forall_cons_2; [|done]. split; [by apply (bool_decide_unpack _)|done]. }
  apply Hj, Forall_forall. intros s Hin. apply list_elem_of_bind in Hin as ([k vs] & Hin & _).
  unfold encode_key in Hin. apply list_elem_of_fmap in Hin as (v & -> & _).
  apply Forall_app_2; [apply QueryEscape_query_byte|]. apply Forall_cons_2; [|apply QueryEscape_query_byte].
  split; [by apply (bool_decide_unpack _)|done].
Qed.

Lemma query_bytes_plain q : Forall query_byte q → "#"%char ∉ q ∧ existsb is_ctl q = false.
Proof.
  intros Hq. split.
  - intros Hin. rewrite Forall_forall in Hq. by destruct (Hq _ Hin) as [[_ ?] _].
  - induction Hq as [|c q [_ Hc] Hq IH]; [done|]. simpl. by rewrite Hc.
Qed.

(** ** Whether a URL can be read does not depend on its query *)

Lemma scheme_loop_swap first p l acc q1 q2 s rest :
  "?"%char ∉ p → "?"%char ∉ l →
  scheme_loop first (p ++ "?"%char :: q1) (l ++ "?"%char :: q1) acc = Some (s, rest) →
  ∃ a, rest = a ++ "?"%char :: q1 ∧ "?"%char ∉ a ∧
    scheme_loop first (p ++ "?"%char :: q2) (l ++ "?"%char :: q2) acc = Some (s, a ++ "?"%char :: q2).
Proof.
  intros Hp. revert first acc. induction l as [|c l IH]; intros first acc Hl; cbn [app scheme_loop].
  - intros [= <- <-]. by exists p.
  - destruct (in_range 97 122 c || in_range 65 90 c); [apply IH; set_solver|].
    destruct (is_digit c || has_byte c (bytes_of "+-.")).
    { destruct first; [intros [= <- <-]; by exists p|apply IH; set_solver]. }
    destruct (ascii_dec c ":"); [|intros [= <- <-]; by exists p].
    destruct first; [done|]. intros [= <- <-]. exists l. set_solver.
Qed.

Lemma parse_path_swap scheme user host rest q1 q2 omit force :
  is_Some (parse_path scheme user host rest q1 omit force) →
  is_Some (parse_path scheme user host rest q2 omit force).
Proof. unfold parse_path. destruct (set_encoded _ _) as [[p r]|]; simpl; [by eexists|by intros [? ?]]. Qed.

Lemma parse_rest_swap scheme rest q1 q2 force :
  is_Some (parse_rest scheme rest q1 force) → is_Some (parse_rest scheme rest q2 force).
Proof.
  unfold parse_rest. intros Hs. repeat case_match; try done; try (by eapply parse_path_swap).
  destruct (parseAuthority _) as [[us h]|]; [by eapply parse_path_swap|by destruct Hs].
Qed.

Lemma url_Parse_swap p q1 q2 tail :
  "?"%char ∉ p → "#"%char ∉ p → Forall query_byte q1 → Forall query_byte q2 → q1 ≠ [] → q2 ≠ [] →
  tail = [] ∨ (∃ f, tail = "#"%char :: f) →
  is_Some (url_Parse (p ++ "?"%char :: q1 ++ tail)) → is_Some (url_Parse (p ++ "?"%char :: q2 ++ tail)).
Proof.
  intros Hp Hp' [H1 C1]%query_bytes_plain [H2 C2]%query_bytes_plain N1 N2 Ht.
  assert (Hcut : ∃ f, ∀ q, "#"%char ∉ q → default (p ++ "?"%char :: q ++ tail, [])
    (cut_at "#" (p ++ "?"%char :: q ++ tail)) = (p ++ "?"%char :: q, f)).
  { destruct Ht as [->|[f ->]]; [exists []|exists f]; intros q Hq.
    - rewrite app_nil_r, cut_at_none; [done|]. set_solver.
    - change (p ++ "?"%char :: q ++ "#"%char :: f) with (p ++ ("?"%char :: q) ++ "#"%char :: f).
      rewrite app_assoc, cut_at_app; [done|]. set_solver. }
  destruct Hcut as [f Hcut]. unfold url_Parse. rewrite !Hcut by done.
  rewrite !existsb_app. cbn [existsb]. rewrite C1, C2.
  assert (Hstar : ∀ q : bytes, p ++ "?"%char :: q ≠ ["*"%char]).
  { intros q He. assert (Hin : "?"%char ∈ p ++ "?"%char :: q) by set_solver. rewrite He in Hin. set_solver. }
  rewrite !bool_decide_eq_false_2 by done. destruct (_ || _); [done|].
  unfold getScheme. intros Hs.
  destruct (scheme_loop true _ (p ++ "?"%char :: q1) []) as [[s rest]|] eqn:Hg; [|by destruct Hs].
  apply (scheme_loop_swap _ _ _ _ _ q2) in Hg as (a & -> & Ha & ->); [|done..].
  cbn [mbind option_bind] in Hs |- *. rewrite cut_query_marked in Hs |- * by done.
  destruct (parse_rest _ a q1 false) as [u1|] eqn:Hr1; [|by destruct Hs].
  destruct (parse_rest_swap _ a q1 q2 false (mk_is_Some _ _ Hr1)) as [u2 ->].
  cbn [mbind option_bind] in Hs |- *. destruct (set_encoded _ f) as [[fr raw]|]; [by eexists|by destruct Hs].
Qed.

(** Reading back the text of a URL succeeds for every query or for none. *)
Lemma url_Parse_any_query u q1 q2 :
  Opaque u = [] → Forall unmarked (Scheme u) → Forall query_byte q1 → Forall query_byte q2 →
  q1 ≠ [] → q2 ≠ [] →
  is_Some (url_Parse (URL_String (set_RawQuery u q1))) →
  is_Some (url_Parse (URL_String (set_RawQuery u q2))).
Proof.
  intros Ho Hs H1 H2 N1 N2. rewrite !URL_String_set_RawQuery by done.
  pose proof (unmarked_notin _ (text_before_unmarked u Hs)) as [Hp Hp'].
  apply url_Parse_swap; try done. unfold text_after. case_bool_decide; [right; by eexists|by left].
Qed.
