(* ===== verification/GoHttp.v ===== *)
(** * HTTP requests and their answers

    The part of packages [net/http], [net/textproto] and [encoding/base64] that
    the writers and the handlers build requests with. What a client answers to a
    request is an argument of the definitions that send one. *)
From S2P Require Import Prelude GoText GoNum GoUrl.
#[local] Open Scope Z_scope.

(** ** Requests *)

(** [http.Header]: values by canonical key. *)
Abbreviation Header := (gmap string (list string)).

Definition token_bytes : list ascii := bytes_of "!#$%&'*+-.^_`|~".

Definition validHeaderFieldByte (c : ascii) : bool :=
  is_digit c || in_range 65 90 c || in_range 97 122 c || bool_decide (c ∈ token_bytes).

Fixpoint canonical_bytes (upper : bool) (l : list ascii) : list ascii :=
  match l with
  | [] => []
  | c :: l' =>
    val_byte ((if upper then ascii_upper else ascii_lower) (byte_val c))
      :: canonical_bytes (bool_decide (c = "-"%char)) l'
  end.

(** [textproto.CanonicalMIMEHeaderKey]. *)
Definition CanonicalHeaderKey (s : string) : string :=
  if forallb validHeaderFieldByte (bytes_of s) then of_bytes (canonical_bytes true (bytes_of s))
  else s.

Definition Header_Add (h : Header) (key value : string) : Header :=
  let k := CanonicalHeaderKey key in <[k := default [] (h !! k) ++ [value]]> h.

Definition Header_Set (h : Header) (key value : string) : Header :=
  <[CanonicalHeaderKey key := [value]]> h.

Definition base64_alphabet : list ascii :=
  bytes_of "ABCDEFGHIJKLMNOPQRSTUVWXYZabcdefghijklmnopqrstuvwxyz0123456789+/".

Definition base64_digit (z : Z) : ascii :=
  default "="%char (base64_alphabet !! Z.to_nat (Z.land z 63)).

(** [base64.StdEncoding.EncodeToString]. *)
Fixpoint base64_encode (l : list ascii) : list ascii :=
  match l with
  | a :: b :: c :: l' =>
    let v := byte_val a * 65536 + byte_val b * 256 + byte_val c in
    base64_digit (Z.shiftr v 18) :: base64_digit (Z.shiftr v 12)
      :: base64_digit (Z.shiftr v 6) :: base64_digit v :: base64_encode l'
  | [a; b] =>
    let v := byte_val a * 65536 + byte_val b * 256 in
    [base64_digit (Z.shiftr v 18); base64_digit (Z.shiftr v 12); base64_digit (Z.shiftr v 6); "="%char]
  | [a] =>
    let v := byte_val a * 65536 in
    [base64_digit (Z.shiftr v 18); base64_digit (Z.shiftr v 12); "="%char; "="%char]
  | [] => []
  end.

Record Request := mkRequest {
  req_Method : string;
  req_URL : string;
  req_Host : string;
  req_Header : Header;
  req_Body : string
}.

Definition SetBasicAuth (r : Request) (username password : string) : Request :=
  mkRequest (req_Method r) (req_URL r) (req_Host r)
    (Header_Set (req_Header r) "Authorization"
       ("Basic " +:+ of_bytes (base64_encode (bytes_of (username +:+ ":" +:+ password)))))
    (req_Body r).

(** The host of a URL; the colon of an empty port goes. *)
Definition url_host (url : string) : option string :=
  u ← url_Parse (bytes_of url); Some (TrimSuffix (of_bytes (Host u)) ":").

(** [http.NewRequest]; the text of its error is not modelled. *)
Definition NewRequest (method url body : string) : result Request :=
  match url_host url with
  | None => Err (Errorf "parse")
  | Some host => Ok (mkRequest method url host ∅ body)
  end.

(** ** Answers *)

(** An answer: its status, the bytes of its body, and the error that reading
    the body ends with when the connection breaks before its end. *)
Record Response := mkResponse {
  StatusCode : Z;
  resp_Body : list ascii;
  body_error : option error
}.

Definition StatusOK : Z := 200.

(** [http.Client.Do], the network included. *)
Abbreviation Doer := (Request → result Response).

Lemma NewRequest_spec method url body req :
  NewRequest method url body = Ok req →
  req_Method req = method ∧ req_URL req = url ∧ req_Header req = ∅ ∧
  is_Some (url_Parse (bytes_of url)).
Proof.
  unfold NewRequest, url_host. destruct (url_Parse (bytes_of url)); [|done]. by intros [= <-].
Qed.
