(* ===== verification/SafeLists.v ===== *)
(** * The queues of pkg/types/safe_list.go

    [SafeList] wraps [container/list] in a lock; every method runs its whole
    body under the lock, so a method is one atomic step here.
    [SafeListLimited] adds a size check that is a step of its own. The list is
    kept front first: [PushFront] adds at the head, the [Pop] methods take
    from the back.

    - [SafeList_step] / [queue_step]: the methods as operations, and the FIFO
      queue they implement (abstract specification, refinement theorem);
    - [limited_step]: callers of [SafeListLimited.PushFrontN] interleaved
      between the size check and the push. *)
From S2P Require Import Prelude.
#[local] Open Scope Z_scope.

(** ** SafeList *)

(** An element of the untyped [container/list]: a [T], or a value of some
    other type that [item.(T)] refuses (the field [L] is exported). *)
Inductive dyn (A : Type) : Type :=
| Typed (a : A)
| Foreign.
Arguments Typed {A} a.
Arguments Foreign {A}.

Record SafeList (A : Type) := mkSafeList { L : list (dyn A) }.
Arguments mkSafeList {A} L.
Arguments L {A} s.

Section safe_list.
Context {A : Type}.
Implicit Types (sl : SafeList A) (v : A) (vs : list A).

Definition NewSafeList : SafeList A := mkSafeList [].

Definition PushFront sl v : SafeList A := mkSafeList (Typed v :: L sl).

Definition PushFrontN sl vs : SafeList A :=
  mkSafeList (foldl (λ l item, Typed item :: l) (L sl) vs).

(** The popped value ([None] is the nil pointer) and the list after it; an
    element that is not a [T] is removed and yields nil. *)
Definition PopBack sl : option A * SafeList A :=
  match remove_back (L sl) with
  | None => (None, sl)
  | Some (Typed a, l) => (Some a, mkSafeList l)
  | Some (Foreign, l) => (None, mkSafeList l)
  end.

(** [for i := 0; i < count; i++]: [Remove(Back())] on an empty list
    dereferences nil. *)
Fixpoint pop_loop (count : nat) (l : list (dyn A)) (items : list A) :
    outcome (list A * list (dyn A)) :=
  match count with
  | O => Done (items, l)
  | S count' =>
    match remove_back l with
    | None => Panic "nil pointer dereference"
    | Some (Typed a, l') => pop_loop count' l' (items ++ [a])
    | Some (Foreign, l') => pop_loop count' l' items
    end
  end.

Definition PopBackN sl (n : Z) : outcome (list A * SafeList A) :=
  let count := Z.of_nat (length (L sl)) in
  if count =? 0 then Done ([], sl)
  else
    let count := if n <? count then n else count in
    if count <? 0 then Panic "makeslice: cap out of range"
    else '(items, l) ← pop_loop (Z.to_nat count) (L sl) []; Done (items, mkSafeList l).

Definition PopBackAll sl : outcome (list A * SafeList A) :=
  let count := length (L sl) in
  if decide (count = 0%nat) then Done ([], sl)
  else '(items, l) ← pop_loop count (L sl) []; Done (items, mkSafeList l).

Definition RemoveAll sl : SafeList A := mkSafeList [].

Definition Len sl : Z := Z.of_nat (length (L sl)).

(** ** The queue a SafeList implements *)

(** The invariant: every element is a [T]. *)
Definition all_typed sl : Prop := Forall (λ d, d ≠ Foreign) (L sl).

(** A queue, oldest first, as a SafeList. *)
Definition of_queue (q : list A) : SafeList A := mkSafeList (Typed <$> rev q).

Definition queue_of sl : list A :=
  rev (omap (λ d, match d with Typed a => Some a | Foreign => None end) (L sl)).

Lemma queue_of_of_queue q : queue_of (of_queue q) = q.
Proof.
  unfold queue_of, of_queue; simpl. rewrite <- (rev_involutive q) at 2. f_equal.
  induction (rev q) as [|a l IH]; csimpl; [done|]. by f_equal.
Qed.

Lemma all_typed_of_queue q : all_typed (of_queue q).
Proof. unfold all_typed, of_queue; simpl. by apply Forall_fmap, Forall_true. Qed.

Lemma of_queue_queue_of sl : all_typed sl → of_queue (queue_of sl) = sl.
Proof.
  destruct sl as [l]. unfold all_typed, of_queue, queue_of; simpl. intros Hl.
  rewrite rev_involutive. f_equal.
  induction Hl as [|[a|] l Hd Hl IH]; csimpl; [done| |done]. by f_equal.
Qed.

Lemma of_queue_app q1 q2 :
  L (of_queue (q1 ++ q2)) = L (of_queue q2) ++ L (of_queue q1).
Proof. unfold of_queue; simpl. by rewrite rev_app_distr, fmap_app. Qed.

Lemma of_queue_cons a q : L (of_queue (a :: q)) = L (of_queue q) ++ [Typed a].
Proof. apply (of_queue_app [a]). Qed.

Lemma PushFront_of_queue q v : PushFront (of_queue q) v = of_queue (q ++ [v]).
Proof. unfold PushFront, of_queue; simpl. by rewrite rev_app_distr. Qed.

Lemma PushFrontN_of_queue q vs : PushFrontN (of_queue q) vs = of_queue (q ++ vs).
Proof.
  revert q. induction vs as [|v vs IH]; intros q; [by rewrite app_nil_r|].
  rewrite cons_middle, app_assoc, <- IH. unfold PushFrontN. simpl.
  by rewrite rev_app_distr.
Qed.

Lemma PopBack_of_queue q : PopBack (of_queue q) = (head q, of_queue (tail q)).
Proof.
  unfold PopBack. destruct q as [|a q]; [done|].
  rewrite of_queue_cons, remove_back_snoc. done.
Qed.

Lemma pop_loop_of_queue n q items :
  (n ≤ length q)%nat →
  pop_loop n (L (of_queue q)) items = Done (items ++ take n q, L (of_queue (drop n q))).
Proof.
  revert q items. induction n as [|n IH]; intros q items Hn; cbn [pop_loop].
  { by rewrite take_0, app_nil_r, drop_0. }
  destruct q as [|a q]; simpl in Hn; [lia|].
  rewrite of_queue_cons, remove_back_snoc, IH by lia.
  by rewrite <- app_assoc.
Qed.

Lemma length_of_queue q : length (L (of_queue q)) = length q.
Proof. unfold of_queue; simpl. by rewrite length_fmap, length_rev. Qed.

Lemma Len_of_queue q : Len (of_queue q) = Z.of_nat (length q).
Proof. unfold Len. by rewrite length_of_queue. Qed.

Lemma PopBackAll_of_queue q : PopBackAll (of_queue q) = Done (q, of_queue []).
Proof.
  unfold PopBackAll. rewrite length_of_queue.
  destruct (decide (length q = 0%nat)) as [H0|Hne].
  - apply nil_length_inv in H0 as ->. done.
  - rewrite pop_loop_of_queue by done. simpl. by rewrite take_ge, drop_ge by lia.
Qed.

(** The FIFO queue's own pop, negative counts included. *)
Definition queue_pop_n (q : list A) (n : Z) : outcome (list A * list A) :=
  if decide (q = []) then Done ([], [])
  else if n <? 0 then Panic "makeslice: cap out of range"
  else Done (take (Z.to_nat n) q, drop (Z.to_nat n) q).

Lemma PopBackN_of_queue q n :
  PopBackN (of_queue q) n = '(items, q') ← queue_pop_n q n; Done (items, of_queue q').
Proof.
  unfold PopBackN, queue_pop_n. rewrite length_of_queue.
  destruct (Z.eqb_spec (Z.of_nat (length q)) 0) as [H0|Hne].
  { destruct q; [|simpl in *; lia]. by rewrite decide_True. }
  rewrite decide_False by (intros ->; done).
  destruct (Z.ltb_spec n (Z.of_nat (length q))) as [Hlt|Hge].
  - destruct (Z.ltb_spec n 0); [done|]. by rewrite pop_loop_of_queue by lia.
  - rewrite (proj2 (Z.ltb_ge _ _)), (proj2 (Z.ltb_ge n 0)) by lia.
    rewrite pop_loop_of_queue by lia. simpl.
    by rewrite Nat2Z.id, !take_ge, !drop_ge by lia.
Qed.

(** With a non-negative count the pop returns, and takes the oldest items. *)
Lemma PopBackN_spec q n :
  0 ≤ n → PopBackN (of_queue q) n =
          Done (take (Z.to_nat n) q, of_queue (drop (Z.to_nat n) q)).
Proof.
  intros Hn. rewrite PopBackN_of_queue. unfold queue_pop_n.
  rewrite (proj2 (Z.ltb_ge n 0)) by lia. case_decide as Hq; [|done].
  subst q. by rewrite take_nil, drop_nil.
Qed.
End safe_list.

#[export] Hint Rewrite @PushFront_of_queue @PushFrontN_of_queue @PopBack_of_queue
  @PopBackAll_of_queue @Len_of_queue @queue_of_of_queue @length_of_queue : kubemon.

(** ** The methods as operations on a FIFO queue *)

Inductive queue_op (A : Type) : Type :=
| OpPushFront (v : A)
| OpPushFrontN (vs : list A)
| OpPopBack
| OpPopBackN (n : Z)
| OpPopBackAll
| OpRemoveAll
| OpLen.
Arguments OpPushFront {A} v.
Arguments OpPushFrontN {A} vs.
Arguments OpPopBack {A}.
Arguments OpPopBackN {A} n.
Arguments OpPopBackAll {A}.
Arguments OpRemoveAll {A}.
Arguments OpLen {A}.

Inductive queue_res (A : Type) : Type :=
| ResNone
| ResItem (v : option A)
| ResItems (vs : list A)
| ResLen (n : Z).
Arguments ResNone {A}.
Arguments ResItem {A} v.
Arguments ResItems {A} vs.
Arguments ResLen {A} n.

Section refinement.
Context {A : Type}.

(** One method call on the concrete list. *)
Definition SafeList_step (sl : SafeList A) (op : queue_op A) :
    outcome (queue_res A * SafeList A) :=
  match op with
  | OpPushFront v => Done (ResNone, PushFront sl v)
  | OpPushFrontN vs => Done (ResNone, PushFrontN sl vs)
  | OpPopBack => let '(v, sl') := PopBack sl in Done (ResItem v, sl')
  | OpPopBackN n => '(vs, sl') ← PopBackN sl n; Done (ResItems vs, sl')
  | OpPopBackAll => '(vs, sl') ← PopBackAll sl; Done (ResItems vs, sl')
  | OpRemoveAll => Done (ResNone, RemoveAll sl)
  | OpLen => Done (ResLen (Len sl), sl)
  end.

(** The same call on an abstract queue, oldest element first. *)
Definition queue_step (q : list A) (op : queue_op A) : outcome (queue_res A * list A) :=
  match op with
  | OpPushFront v => Done (ResNone, q ++ [v])
  | OpPushFrontN vs => Done (ResNone, q ++ vs)
  | OpPopBack => Done (ResItem (head q), tail q)
  | OpPopBackN n => '(vs, q') ← queue_pop_n q n; Done (ResItems vs, q')
  | OpPopBackAll => Done (ResItems q, [])
  | OpRemoveAll => Done (ResNone, [])
  | OpLen => Done (ResLen (Z.of_nat (length q)), q)
  end.

(** A sequence of calls, with the results in order. *)
Fixpoint run {St : Type} (step : St → queue_op A → outcome (queue_res A * St))
    (st : St) (ops : list (queue_op A)) : outcome (list (queue_res A) * St) :=
  match ops with
  | [] => Done ([], st)
  | op :: ops' =>
    '(r, st') ← step st op;
    '(rs, st'') ← run step st' ops';
    Done (r :: rs, st'')
  end.

Definition on_state {R St St' : Type} (f : St → St') (o : outcome (R * St)) :
    outcome (R * St') := '(r, st) ← o; Done (r, f st).

Lemma SafeList_step_sim q op :
  SafeList_step (of_queue q) op = on_state of_queue (queue_step q op).
Proof.
  destruct op as [v|vs| |n| | |]; simpl; autorewrite with kubemon; try done.
  rewrite PopBackN_of_queue. by destruct (queue_pop_n q n) as [[vs q']|].
Qed.

Lemma SafeList_run_sim q ops :
  run SafeList_step (of_queue q) ops = on_state of_queue (run queue_step q ops).
Proof.
  revert q. induction ops as [|op ops IH]; intros q; [done|].
  cbn [run]. rewrite SafeList_step_sim.
  destruct (queue_step q op) as [[r q']|msg]; [|done]. simpl. rewrite IH.
  by destruct (run queue_step q' ops) as [[rs q'']|].
Qed.

Lemma SafeList_refines ops :
  run SafeList_step NewSafeList ops = on_state of_queue (run queue_step [] ops).
Proof. apply (SafeList_run_sim []). Qed.

(** Elements leave in the order they came: what the calls returned, then
    what is left, is what was pushed. *)
Definition op_pushed (op : queue_op A) : list A :=
  match op with OpPushFront v => [v] | OpPushFrontN vs => vs | _ => [] end.

Definition res_popped (r : queue_res A) : list A :=
  match r with ResItem (Some v) => [v] | ResItems vs => vs | _ => [] end.

Definition keeps (op : queue_op A) : Prop := op ≠ OpRemoveAll.

Lemma queue_step_conserve q op r q' :
  keeps op → queue_step q op = Done (r, q') → q ++ op_pushed op = res_popped r ++ q'.
Proof.
  intros Hk. destruct op as [v|vs| |n| | |]; simpl; unfold queue_pop_n;
    repeat case_match; intros; simplify_eq/=;
    rewrite ?app_nil_r, ?take_drop; try done.
  by destruct q.
Qed.

Lemma queue_run_conserve q ops rs q' :
  Forall keeps ops → run queue_step q ops = Done (rs, q') →
  q ++ concat (op_pushed <$> ops) = concat (res_popped <$> rs) ++ q'.
Proof.
  intros Hk. revert q rs q'. induction Hk as [|op ops Hop Hk IH]; intros q rs q'; csimpl.
  { intros [= <- <-]. by rewrite app_nil_r. }
  destruct (queue_step q op) as [[r q1]|] eqn:H1; simpl; [|done].
  destruct (run queue_step q1 ops) as [[rs1 q2]|] eqn:H2; simpl; [|done].
  intros [= <- <-]. csimpl.
  rewrite app_assoc, (queue_step_conserve _ _ _ _ Hop H1), <- !app_assoc.
  by rewrite (IH _ _ _ H2), app_assoc.
Qed.
End refinement.

(** ** SafeListLimited *)

Record SafeListLimited (A : Type) := mkLimited { maxSize : Z; SL : SafeList A }.
Arguments mkLimited {A} maxSize SL.
Arguments maxSize {A} s.
Arguments SL {A} s.

Section safe_list_limited.
Context {A : Type}.
Implicit Types (sll : SafeListLimited A) (v : A) (vs : list A).

Definition NewSafeListLimited (max : Z) : SafeListLimited A := mkLimited max NewSafeList.

Definition Limited_PushFront sll v : bool * SafeListLimited A :=
  if maxSize sll <=? Len (SL sll) then (false, sll)
  else (true, mkLimited (maxSize sll) (PushFront (SL sll) v)).

Definition Limited_PushFrontN sll vs : bool * SafeListLimited A :=
  if maxSize sll <=? Len (SL sll) then (false, sll)
  else (true, mkLimited (maxSize sll) (PushFrontN (SL sll) vs)).

Definition Limited_PopBack sll : option A * SafeListLimited A :=
  let '(v, sl) := PopBack (SL sll) in (v, mkLimited (maxSize sll) sl).

Definition Limited_PopBackN sll (n : Z) : outcome (list A * SafeListLimited A) :=
  '(items, sl) ← PopBackN (SL sll) n; Done (items, mkLimited (maxSize sll) sl).

Definition Limited_PopBackAll sll : outcome (list A * SafeListLimited A) :=
  '(items, sl) ← PopBackAll (SL sll); Done (items, mkLimited (maxSize sll) sl).

Definition Limited_RemoveAll sll : SafeListLimited A :=
  mkLimited (maxSize sll) (RemoveAll (SL sll)).

Definition Limited_Len sll : Z := Len (SL sll).

(** A limited queue holding [q], oldest first. *)
Definition limited_of (max : Z) (q : list A) : SafeListLimited A := mkLimited max (of_queue q).

Lemma Limited_PushFrontN_of max q vs :
  Limited_PushFrontN (limited_of max q) vs =
    if max <=? Z.of_nat (length q) then (false, limited_of max q)
    else (true, limited_of max (q ++ vs)).
Proof.
  unfold Limited_PushFrontN, limited_of. simpl. rewrite Len_of_queue.
  by rewrite PushFrontN_of_queue.
Qed.

Lemma Limited_PopBackN_of max q n :
  0 ≤ n → Limited_PopBackN (limited_of max q) n =
          Done (take (Z.to_nat n) q, limited_of max (drop (Z.to_nat n) q)).
Proof. intros Hn. unfold Limited_PopBackN, limited_of. simpl. by rewrite PopBackN_spec. Qed.

Lemma Limited_Len_of max q : Limited_Len (limited_of max q) = Z.of_nat (length q).
Proof. apply Len_of_queue. Qed.
End safe_list_limited.

#[export] Hint Rewrite @Limited_PushFrontN_of @Limited_Len_of : kubemon.

(** ** Concurrent pushes

    [Len()] and [PushFrontN] lock the list separately. Between the two, a
    pusher that passed the check waits with its batch while others run. *)
Section interleaving.
Context {A : Type}.

Record limited_conf := mkConf {
  conf_list : SafeListLimited A;
  conf_waiting : list (list A)
}.

Inductive limited_step (threads : nat) (batch : nat) : limited_conf → limited_conf → Prop :=
| step_check sll ws vs :
    (length ws < threads)%nat → (length vs ≤ batch)%nat →
    Limited_Len sll < maxSize sll →
    limited_step threads batch (mkConf sll ws) (mkConf sll (ws ++ [vs]))
| step_push sll ws i vs :
    ws !! i = Some vs →
    limited_step threads batch (mkConf sll ws)
      (mkConf (mkLimited (maxSize sll) (PushFrontN (SL sll) vs)) (delete i ws))
| step_pop sll ws n items sll' :
    Limited_PopBackN sll n = Done (items, sll') →
    limited_step threads batch (mkConf sll ws) (mkConf sll' ws).

Definition in_flight (ws : list (list A)) : nat := length (concat ws).

(** What is queued and what is about to be. *)
Definition load (c : limited_conf) : Z :=
  Limited_Len (conf_list c) + Z.of_nat (in_flight (conf_waiting c)).

Definition limited_inv (threads batch : nat) (max : Z) (c : limited_conf) : Prop :=
  maxSize (conf_list c) = max ∧
  all_typed (SL (conf_list c)) ∧
  (length (conf_waiting c) ≤ threads)%nat ∧
  Forall (λ vs, (length vs ≤ batch)%nat) (conf_waiting c) ∧
  (load c = 0 ∨ load c ≤ max - 1 + Z.of_nat threads * Z.of_nat batch).

Lemma in_flight_bound batch ws :
  Forall (λ vs, (length vs ≤ batch)%nat) ws → (in_flight ws ≤ length ws * batch)%nat.
Proof.
  unfold in_flight. induction 1 as [|vs ws Hvs Hws IH]; simpl; [lia|].
  rewrite length_app. lia.
Qed.

Lemma in_flight_delete ws i vs :
  ws !! i = Some vs → in_flight ws = (length vs + in_flight (delete i ws))%nat.
Proof.
  unfold in_flight. intros Hi. rewrite delete_take_drop.
  rewrite <- (take_drop_middle ws i vs Hi) at 1.
  rewrite !concat_app, !length_app. cbn [concat]. rewrite length_app. lia.
Qed.

Lemma in_flight_app ws vs : in_flight (ws ++ [vs]) = (in_flight ws + length vs)%nat.
Proof. unfold in_flight. rewrite concat_app, length_app. simpl. by rewrite app_nil_r. Qed.

Lemma limited_inv_init threads batch max :
  limited_inv threads batch max (mkConf (NewSafeListLimited max) []).
Proof. split_and!; try done; simpl; [by apply Forall_nil|lia|by left]. Qed.

Lemma limited_inv_step threads batch max c c' :
  limited_inv threads batch max c → limited_step threads batch c c' →
  limited_inv threads batch max c'.
Proof.
  intros (Hmax & Hty & Hth & Hws & Hload) Hstep.
  destruct Hstep as [sll ws vs Hlt Hvs Hck|sll ws i vs Hi|sll ws n items sll' Hpop];
    unfold limited_inv, load in *; cbn [conf_list conf_waiting] in *;
    destruct sll as [mx sl]; cbn [maxSize SL] in *; subst mx.
  - rewrite length_app, in_flight_app. simpl.
    pose proof (in_flight_bound batch (ws ++ [vs])) as Hb.
    rewrite length_app, in_flight_app in Hb. simpl in Hb.
    split_and!; [done|done|lia|apply Forall_app; split; [done|by apply Forall_singleton]|].
    right. unfold Limited_Len in *; cbn [SL] in *.
    specialize (Hb ltac:(apply Forall_app; split; [done|by apply Forall_singleton])). nia.
  - rewrite <- (of_queue_queue_of sl Hty) in Hload |- *. set (q := queue_of sl) in *.
    rewrite (in_flight_delete _ _ _ Hi) in Hload.
    unfold Limited_Len in *; cbn [SL] in *.
    rewrite PushFrontN_of_queue, !Len_of_queue in *. rewrite length_app.
    rewrite length_delete by eauto. split_and!; [done|apply all_typed_of_queue| | |].
    + lia.
    + by apply Forall_delete.
    + lia.
  - rewrite <- (of_queue_queue_of sl Hty) in Hload, Hpop. set (q := queue_of sl) in *.
    unfold Limited_PopBackN, Limited_Len in *; cbn [SL] in *.
    rewrite PopBackN_of_queue in Hpop. unfold queue_pop_n in Hpop.
    repeat case_match; simplify_eq/=; try done;
      rewrite ?Len_of_queue in *; (split_and!; [done|apply all_typed_of_queue|done|done|]);
      rewrite ?length_drop; simpl in *; lia.
Qed.

Lemma limited_inv_steps threads batch max c c' :
  rtc (limited_step threads batch) c c' →
  limited_inv threads batch max c → limited_inv threads batch max c'.
Proof. induction 1; eauto using limited_inv_step. Qed.
End interleaving.

(** ** Properties *)

(** C29: SafeList is a FIFO queue. Any sequence of its methods, run from a new
    list, returns what the abstract queue returns (a panic on a negative
    PopBackN count included) and ends in the list that represents the abstract
    queue's contents. *)
Theorem SafeList_refines_queue {A} (ops : list (queue_op A)) :
  run SafeList_step NewSafeList ops = on_state of_queue (run queue_step [] ops).
Proof. apply SafeList_refines. Qed.

(** Nothing is lost, duplicated or reordered. In a run without RemoveAll,
    the values the calls returned, followed by those still queued, are the
    values pushed, in the order they were pushed. *)
Theorem SafeList_conserves {A} (ops : list (queue_op A)) rs sl :
  Forall keeps ops → run SafeList_step NewSafeList ops = Done (rs, sl) →
  concat (op_pushed <$> ops) = concat (res_popped <$> rs) ++ queue_of sl.
Proof.
  intros Hk. rewrite SafeList_refines.
  destruct (run queue_step [] ops) as [[rs' q]|] eqn:Hr; simpl; [|done].
  intros [= <- <-]. rewrite queue_of_of_queue. by apply (queue_run_conserve [] ops).
Qed.

Lemma SafeList_conserves_witness :
  let ops := [OpPushFrontN [1; 2; 3]; OpPopBackN 2; OpPushFront 4; OpPopBack] in
  run SafeList_step NewSafeList ops =
    Done ([ResNone; ResItems [1; 2]; ResNone; ResItem (Some 3)], of_queue [4]) ∧
  concat (op_pushed <$> ops) = [1; 2] ++ [3] ++ queue_of (of_queue [4]).
Proof.
  intros ops. assert (Hr : run SafeList_step NewSafeList ops =
    Done ([ResNone; ResItems [1; 2]; ResNone; ResItem (Some 3)], of_queue [4])) by reflexivity.
  split; [exact Hr|].
  apply (SafeList_conserves ops _ _ ltac:(repeat constructor; discriminate) Hr).
Defined.

(** The limit of SafeListLimited under concurrency. However many times up
    to [threads] callers at once check the size and push at most [batch]
    values each, with pops in between, the list never holds more than
    maxSize - 1 + threads * batch values, and its elements stay well typed. *)
Theorem limited_bound {A} threads batch max (c : @limited_conf A) :
  1 ≤ max →
  rtc (limited_step threads batch) (mkConf (NewSafeListLimited max) []) c →
  Limited_Len (conf_list c) ≤ max - 1 + Z.of_nat threads * Z.of_nat batch ∧
  all_typed (SL (conf_list c)).
Proof.
  intros Hmax Hsteps.
  pose proof (limited_inv_steps threads batch max _ _ Hsteps (limited_inv_init _ _ _))
    as (_ & Hty & _ & _ & Hload).
  split; [|done]. unfold load in Hload. nia.
Qed.

Lemma limited_bound_witness :
  let c := mkConf (mkLimited 1 (of_queue [7; 8; 7; 8])) [] in
  rtc (limited_step 2 2) (mkConf (NewSafeListLimited 1) []) c ∧
  (Limited_Len (conf_list c) ≤ 1 - 1 + Z.of_nat 2 * Z.of_nat 2 ∧ all_typed (SL (conf_list c))).
Proof.
  intros c. assert (Hs : rtc (limited_step 2 2) (mkConf (NewSafeListLimited 1) []) c).
  { eapply rtc_l; [apply (step_check 2 2 _ [] [7; 8]); first [by vm_compute | simpl; lia]|].
    eapply rtc_l; [apply (step_check 2 2 _ [[7; 8]] [7; 8]); first [by vm_compute | simpl; lia]|].
    eapply rtc_l; [by apply (step_push 2 2 _ _ 0 [7; 8])|].
    eapply rtc_l; [by apply (step_push 2 2 _ _ 0 [7; 8])|]. apply rtc_refl. }
  split; [exact Hs|]. apply (limited_bound 2 2 1 c); [lia|exact Hs].
Defined.

(** The size limit bounds neither a batch nor the list: a push of any
    number of values onto an empty list with a positive limit succeeds, and
    the list then holds them all. *)
Theorem Limited_PushFrontN_overshoots {A} max (vs : list A) :
  0 < max →
  (Limited_PushFrontN (NewSafeListLimited max) vs).1 = true ∧
  Limited_Len (Limited_PushFrontN (NewSafeListLimited max) vs).2 = Z.of_nat (length vs).
Proof.
  intros Hmax. change (NewSafeListLimited max) with (limited_of max (@nil A)).
  rewrite Limited_PushFrontN_of. simpl.
  rewrite (proj2 (Z.leb_gt _ _)) by lia. split; [done|apply Limited_Len_of].
Qed.

Lemma Limited_PushFrontN_overshoots_witness :
  Limited_Len (Limited_PushFrontN (NewSafeListLimited 1) [1; 2; 3]).2 = 3.
Proof. apply (Limited_PushFrontN_overshoots 1 [1; 2; 3]). lia. Defined.
