(* ===== verification/Conv.v ===== *)
(** * Values of type interface{} and their conversion to numbers

    pkg/conv/conv.go ([ToInt], [ToFloat64]) and pkg/types/utils.go (a second
    [ToFloat64]). The dynamic type of a value is a constructor of [iface]; a
    value of any other type is known by what [fmt.Sprint] prints for it. *)
From Stdlib Require Import SpecFloat.
From S2P Require Import Prelude GoText GoNum.
#[local] Open Scope Z_scope.

Inductive iface : Type :=
| VNil
| VString (s : string)
| VBool (b : bool)
| VInt (z : Z) | VInt64 (z : Z) | VInt32 (z : Z) | VInt16 (z : Z) | VInt8 (z : Z)
| VUint (z : Z) | VUint64 (z : Z) | VUint32 (z : Z) | VUint16 (z : Z) | VUint8 (z : Z)
| VFloat64 (f : float64)
| VFloat32 (f : spec_float)
| VOther (sprint : string).

(** [fmt.Sprint] on the values that reach a default branch. *)
Definition Sprint (v : iface) : string :=
  match v with
  | VOther s => s
  | VString s => s
  | _ => "<nil>"
  end.

Definition of_num {A} (func num : string) (r : A * option num_error) : A * option error :=
  (r.1, NumError func num <$> r.2).

Definition bool_float (b : bool) : float64 := if b then f_one else f_zero.

Definition yes_words : list string := ["Yes"; "yes"; "YES"; "Y"; "ON"; "on"; "On"; "ok"; "up"].
Definition no_words : list string :=
  ["No"; "no"; "NO"; "N"; "OFF"; "off"; "Off"; "fail"; "err"; "down"].

(** pkg/types/utils.go *)
Definition types_ToFloat64 (val : iface) : float64 * option error :=
  match val with
  | VString v =>
    match ParseFloat v with
    | (f, None) => (f, None)
    | _ =>
      match ParseInt v 0 with
      | (i, None) => (float_of_Z i, None)
      | _ =>
        match ParseBool v with
        | Some b => (bool_float b, None)
        | None =>
          if decide (v ∈ yes_words) then (f_one, None)
          else if decide (v ∈ no_words) then (f_zero, None)
          else (f_zero, Some (Errorf ("unparseable value " +:+ v)))
        end
      end
    end
  | VFloat64 v => (v, None)
  | VUint64 v | VUint32 v | VUint16 v | VUint8 v | VUint v
  | VInt64 v | VInt32 v | VInt16 v | VInt8 v => (float_of_Z v, None)
  | VBool v => (bool_float v, None)
  | VInt v => (float_of_Z v, None)
  | VFloat32 v => (float_of_float32 v, None)
  | VNil | VOther _ => of_num "ParseFloat" (Sprint val) (ParseFloat (Sprint val))
  end.

(** pkg/conv/conv.go *)
Definition ToFloat64 (val : iface) : float64 * option error :=
  match val with
  | VString v =>
    match ParseFloat v with
    | (f, None) => (f, None)
    | _ =>
      match ParseInt v 0 with
      | (i, None) => (float_of_Z i, None)
      | _ =>
        match ParseBool v with
        | Some b => (bool_float b, None)
        | None =>
          if decide (v ∈ yes_words) then (f_one, None)
          else if decide (v ∈ no_words) then (f_zero, None)
          else (f_zero, Some (Errorf ("unparseable value " +:+ v)))
        end
      end
    end
  | VFloat64 v => (v, None)
  | VUint64 v | VUint32 v | VUint16 v | VUint8 v | VUint v
  | VInt64 v | VInt32 v | VInt16 v | VInt8 v => (float_of_Z v, None)
  | VBool v => (bool_float v, None)
  | VInt v => (float_of_Z v, None)
  | VFloat32 v => (float_of_float32 v, None)
  | VNil | VOther _ => of_num "ParseFloat" (Sprint val) (ParseFloat (Sprint val))
  end.

Section to_int.
Context `{FloatToInt}.

Definition ToInt (val : iface) : Z * option error :=
  match val with
  | VString v =>
    match Atoi v with
    | (i, None) => (i, None)
    | _ =>
      match ParseFloat v with
      | (f, None) => (int_of_float f, None)
      | _ =>
        match ParseBool v with
        | Some b => (if b then 1 else 0, None)
        | None =>
          if decide (v ∈ yes_words) then (1, None)
          else if decide (v ∈ no_words) then (0, None)
          else (0, Some (Errorf ("unparseable value " +:+ v)))
        end
      end
    end
  | VInt v => (v, None)
  | VInt64 v | VInt32 v | VInt16 v | VInt8 v => (wrap64 v, None)
  | VUint v | VUint64 v | VUint32 v | VUint16 v | VUint8 v => (wrap64 v, None)
  | VBool v => (if v then 1 else 0, None)
  | VFloat32 v => (int_of_float v, None)
  | VFloat64 v => (int_of_float v, None)
  | VNil | VOther _ => of_num "Atoi" (Sprint val) (Atoi (Sprint val))
  end.

(** The values a Go variable of each integer type can hold. *)
Definition wf_iface (val : iface) : Prop :=
  match val with
  | VInt z | VInt64 z => is_int64 z
  | VInt32 z => - 2 ^ 31 ≤ z < 2 ^ 31
  | VInt16 z => - 2 ^ 15 ≤ z < 2 ^ 15
  | VInt8 z => - 2 ^ 7 ≤ z < 2 ^ 7
  | VUint z | VUint64 z => is_uint64 z
  | VUint32 z => 0 ≤ z < 2 ^ 32
  | VUint16 z => 0 ≤ z < 2 ^ 16
  | VUint8 z => 0 ≤ z < 2 ^ 8
  | _ => True
  end.
End to_int.

(** The integer a value of an integer type holds. *)
Definition iface_int (val : iface) : option Z :=
  match val with
  | VInt z | VInt64 z | VInt32 z | VInt16 z | VInt8 z
  | VUint z | VUint64 z | VUint32 z | VUint16 z | VUint8 z => Some z
  | _ => None
  end.

(** ** Bounds of the parsers *)

Lemma uint_loop_range base base0 us n l :
  0 < base → 0 ≤ n ≤ max_uint64 → 0 ≤ (uint_loop base base0 us n l).1.1 ≤ max_uint64.
Proof.
  intros Hb. revert us n. induction l as [|c l IH]; intros us n Hn; cbn [uint_loop]; [done|].
  destruct (base0 && is_char c 95); [by apply IH|].
  destruct (digit_val c) as [d|] eqn:Hd; [|done].
  assert (0 ≤ d).
  { unfold digit_val in Hd. destruct (is_digit c) eqn:Hc.
    - apply is_digit_range in Hc. simplify_eq. lia.
    - destruct (Z.leb_spec 97 (lower c)); simpl in Hd; [|done].
      destruct (lower c <=? 122); simplify_eq. lia. }
  destruct (base <=? d); [done|].
  destruct (Z.ltb_spec max_uint64 (n * base + d)); [done|]. apply IH. nia.
Qed.

Lemma uint_base_pos base l : 0 < base ∨ base = 0 → 0 < (uint_base base l).1.
Proof.
  intros Hb. unfold uint_base. destruct (Z.eqb_spec base 0); [|simpl; lia].
  destruct l as [|c0 [|c1 [|c2 l]]]; simpl; repeat case_match; simpl; lia.
Qed.

Lemma ParseUint_range l base :
  0 < base ∨ base = 0 → 0 ≤ (ParseUint_bytes l base).1 ≤ max_uint64.
Proof.
  intros Hb. unfold ParseUint_bytes. destruct l as [|c l]; [done|].
  pose proof (uint_base_pos base (c :: l) Hb) as Hp.
  destruct (uint_base base (c :: l)) as [b digits]. simpl in Hp.
  pose proof (uint_loop_range b (base =? 0) false 0 digits Hp ltac:(done)) as Hr.
  destruct (uint_loop b (base =? 0) false 0 digits) as [[n [e|]] us]; simpl in *; [done|].
  by destruct (us && _).
Qed.

Lemma ParseInt_range s base : 0 < base ∨ base = 0 → is_int64 (ParseInt s base).1.
Proof.
  intros Hb. unfold ParseInt, is_int64. destruct (cut_sign (bytes_of s)) as [neg l].
  pose proof (ParseUint_range l base Hb) as Hr.
  destruct (ParseUint_bytes l base) as [un [[]|]]; simpl in *;
    destruct neg; simpl;
    repeat match goal with |- context [if ?a <=? ?b then _ else _] => destruct (Z.leb_spec a b)
           | |- context [if ?a <? ?b then _ else _] => destruct (Z.ltb_spec a b) end; simpl; lia.
Qed.

Lemma int_of_float_range `{FloatToInt} f :
  (∀ g, is_int64 (out_of_range g)) → is_int64 (int_of_float f).
Proof. intros Ho. unfold int_of_float. by repeat case_match. Qed.

Lemma ToFloat64_agree v : ToFloat64 v = types_ToFloat64 v.
Proof. by destruct v. Qed.

Lemma ToFloat64_iface_int v z : iface_int v = Some z → ToFloat64 v = (float_of_Z z, None).
Proof. by destruct v; simpl; intros [= ->]. Qed.

(** Every value of an integer type whose magnitude is at most 2^53 is
    converted to a float64 without loss: truncating the result gives it back. *)
Theorem ToFloat64_int_exact v z :
  iface_int v = Some z → Z.abs z ≤ 2 ^ 53 →
  ∃ f, ToFloat64 v = (f, None) ∧ types_ToFloat64 v = (f, None) ∧ float_trunc f = Some z.
Proof.
  intros Hv Hz. pose proof (ToFloat64_iface_int v z Hv) as Hf.
  pose proof Hf as Hf'. rewrite (ToFloat64_agree v) in Hf'.
  exists (float_of_Z z). auto using float_trunc_of_Z.
Qed.

Lemma ToFloat64_int_exact_witness :
  iface_int (VUint32 4294967295) = Some 4294967295 ∧
  ∃ f, ToFloat64 (VUint32 4294967295) = (f, None) ∧
       types_ToFloat64 (VUint32 4294967295) = (f, None) ∧ float_trunc f = Some 4294967295.
Proof. split; [done|]. apply (ToFloat64_int_exact (VUint32 4294967295)); [done|lia]. Defined.

(** The decimal text of a 64-bit integer, as a string or as the printed
    form of a value of another integer kind (ClickHouse's chUInt64), is
    converted to the double nearest to the integer. *)
Theorem ToFloat64_Itoa z :
  - 2 ^ 64 < z < 2 ^ 64 →
  ToFloat64 (VString (Itoa z)) = (float_of_Z z, None) ∧
  ToFloat64 (VOther (Itoa z)) = (float_of_Z z, None).
Proof. intros Hz. simpl. unfold of_num. by rewrite ParseFloat_Itoa. Qed.

Lemma ToFloat64_Itoa_witness :
  ToFloat64 (VString (Itoa 18446744073709551615)) = (float_of_Z 18446744073709551615, None) ∧
  ToFloat64 (VOther (Itoa 18446744073709551615)) = (float_of_Z 18446744073709551615, None).
Proof. apply (ToFloat64_Itoa 18446744073709551615). lia. Defined.

(** On every branch, failures included, ToInt returns a value an int can
    hold; an unsigned value of 2^63 or more comes back negative, smaller by
    2^64. *)
Theorem ToInt_range `{FloatToInt} v :
  wf_iface v → (∀ g, is_int64 (out_of_range g)) →
  is_int64 (ToInt v).1 ∧
  ∀ z, v = VUint64 z → 2 ^ 63 ≤ z → ToInt v = (z - 2 ^ 64, None).
Proof.
  intros Hwf Ho. split.
  - destruct v; simpl in *; eauto using wrap64_range, int_of_float_range;
      try apply (ParseInt_range _ 10); try (unfold is_int64; lia).
    + pose proof (ParseInt_range s 10 ltac:(lia)) as Hr. unfold Atoi.
      repeat case_match; simplify_eq/=; try done; by apply int_of_float_range.
    + by destruct b.
  - intros z -> Hz. simpl in *. unfold wrap64, is_uint64 in *. f_equal.
    replace (z + 2 ^ 63) with (z - 2 ^ 63 + 1 * 2 ^ 64) by lia.
    rewrite Z.mod_add, Z.mod_small; lia.
Qed.

Lemma ToInt_range_witness :
  is_int64 (@ToInt amd64_float_to_int (VUint64 18446744073709551615)).1 ∧
  ∀ z, VUint64 18446744073709551615 = VUint64 z → 2 ^ 63 ≤ z →
       @ToInt amd64_float_to_int (VUint64 18446744073709551615) = (z - 2 ^ 64, None).
Proof.
  apply (@ToInt_range amd64_float_to_int (VUint64 18446744073709551615)).
  - unfold wf_iface, is_uint64. lia.
  - intros g. unfold is_int64. simpl. lia.
Defined.

Lemma ToInt_Itoa `{FloatToInt} z : is_int64 z → ToInt (VString (Itoa z)) = (z, None).
Proof. intros Hz. simpl. unfold Atoi. by rewrite ParseInt_Itoa. Qed.
