(* ===== verification/Labels.v ===== *)
(** * Label maps

    internal/labels/labels.go and pkg/tagx/tagx.go: maps from strings to
    strings that are copied before they are extended. *)
From S2P Require Import Prelude.

Section labels.
Context `{RangeOrder}.

(** [ret := make(map); for k, v := range labels { ret[k] = v }]; [n] numbers
    the loop. *)
Definition Labels (n : nat) (labels : gmap string string) : gmap string string :=
  insert_all (range_list n labels) ∅.

Definition GlobalLabels : gmap string string := {["source" := "kubemonitor"]}.

(** pkg/tagx: [Copy]. *)
Definition Copy (n : nat) (raw : gmap string string) : gmap string string :=
  insert_all (range_list n raw) ∅.

Lemma Labels_eq n m : Labels n m = m.
Proof. apply insert_all_range_empty. Qed.

Lemma Copy_eq n m : Copy n m = m.
Proof. apply insert_all_range_empty. Qed.
End labels.

#[export] Hint Rewrite @Labels_eq @Copy_eq : kubemon.
