(* ===== verification/Samples.v ===== *)
(** * Samples and their conversion to time series

    pkg/types/sample.go and pkg/types/sample_list.go. A [*Sample] in a list is
    the only reference to its sample (every call that pushes one allocates
    it), so a sample is a value here, and [None] is a nil pointer. *)
From S2P Require Import Prelude GoText GoNum SafeLists Conv.
#[local] Open Scope Z_scope.

(** ** time.Time *)

(** An instant: seconds since January 1, year 1 UTC, and nanoseconds. *)
Record time := mkTime { t_sec : Z; t_nsec : Z }.

#[export] Instance time_eq_dec : EqDecision time.
Proof. solve_decision. Defined.

(** Seconds from year 1 to the Unix epoch. *)
Definition unix_to_internal : Z := 62135596800.

Definition time_zero : time := mkTime 0 0.
Definition IsZero (t : time) : bool := bool_decide (t = time_zero).
Definition UnixMilli (t : time) : Z :=
  wrap64 ((t_sec t - unix_to_internal) * 1000 + t_nsec t / 1000000).

(** [time.Unix(0, 0)]. *)
Definition zeroTime : time := mkTime unix_to_internal 0.

(** ** Samples *)

Record Sample := mkSample {
  Metric : string;
  Timestamp : time;
  Value : iface;
  sample_Labels : gmap string string
}.

(** The generated types of prompb the code fills in. *)
Record prompb_Sample := mkPbSample { pb_Timestamp : Z; pb_Value : float64 }.
Record Label := mkLabel { label_Name : string; label_Value : string }.
Record TimeSeries := mkTimeSeries { ts_Labels : list Label; ts_Samples : list prompb_Sample }.

#[export] Instance label_eq_dec : EqDecision Label.
Proof. solve_decision. Defined.

Definition labelReplacer : list (ascii * ascii) :=
  [("-", "_"); (".", "_"); (" ", "_"); ("/", "_")]%char.

Definition double_quote : ascii := Ascii.ascii_of_nat 34.

Definition metricReplacer : list (ascii * ascii) :=
  [("-", "_"); (".", "_"); (" ", "_"); ("'", "_"); (double_quote, "_")]%char.

(** [model.MetricNameLabel]. *)
Definition MetricNameLabel : string := "__name__".

Section sample.
Context `{RangeOrder}.

(** [for i := ...; for k, v := range labels[i] { s.Labels[k] = v }]; the
    loops are numbered from [n]. *)
Fixpoint merge_labels (n : nat) (labels : list (gmap string string))
    (acc : gmap string string) : gmap string string :=
  match labels with
  | [] => acc
  | m :: labels' => merge_labels (S n) labels' (insert_all (range_list n m) acc)
  end.

Definition NewSample (n : nat) (prefix metric : string) (value : iface)
    (labels : list (gmap string string)) : Sample :=
  mkSample
    (if decide (0 < String.length prefix)%nat
     then prefix +:+ "_" +:+ byte_replacer metricReplacer metric
     else byte_replacer metricReplacer metric)
    time_zero value (merge_labels n labels ∅).

Definition round_timestamp (precision : string) (timestamp : Z) : Z :=
  if decide (precision = "s") then Z.quot timestamp 1000 * 1000
  else if decide (precision = "m") then
    let ts := Z.quot timestamp 1000 * 1000 in ts - Z.rem ts 60000
  else timestamp.

Definition ConvertTimeSeries (n : nat) (item : Sample) (precision : string) : option TimeSeries :=
  match types_ToFloat64 (Value item) with
  | (_, Some _) => None
  | (value, None) =>
    let timestamp := round_timestamp precision (UnixMilli (Timestamp item)) in
    Some (mkTimeSeries
      (mkLabel MetricNameLabel (Metric item) ::
       ((λ kv, mkLabel (byte_replacer labelReplacer kv.1) kv.2)
          <$> range_list n (sample_Labels item)))
      [mkPbSample timestamp value])
  end.

Definition SetTime (s : Sample) (t : time) : Sample :=
  if IsZero t || bool_decide (zeroTime = t) then s
  else mkSample (Metric s) t (Value s) (sample_Labels s).

(** ** SampleList *)

Definition PushSample (n : nat) (l : SafeList (option Sample)) (prefix metric : string)
    (value : iface) (labels : list (gmap string string)) : SafeList (option Sample) :=
  PushFront l (Some (NewSample n prefix metric value labels)).

(** The samples of [vs], in the order the fields are visited; sample [i]
    merges its labels in loops numbered from [n + i * length labels]. *)
Definition fields_samples (n : nat) (prefix : string) (fields : list (string * iface))
    (labels : list (gmap string string)) : list (option Sample) :=
  imap (λ i kv, Some (NewSample (n + i * length labels) prefix kv.1 kv.2 labels)) fields.

Definition PushSamples (n : nat) (l : SafeList (option Sample)) (prefix : string)
    (fields : gmap string iface) (labels : list (gmap string string)) :
    SafeList (option Sample) :=
  PushFrontN l (fields_samples (S n) prefix (range_list n fields) labels).
End sample.

Abbreviation SampleList := (SafeList (option Sample)).

(** [NewSampleList]. *)
Definition NewSampleList : SampleList := NewSafeList.

(** ** Labels of a sample *)

Section sample_lemmas.
Context `{RangeOrder}.

(** Merging is the union of the maps, a later one overriding. *)
Definition override (maps : list (gmap string string)) : gmap string string :=
  foldl (λ acc m, m ∪ acc) ∅ maps.

Lemma merge_labels_union n labels acc :
  merge_labels n labels acc = foldl (λ acc m, m ∪ acc) acc labels.
Proof.
  revert n acc. induction labels as [|m labels IH]; intros n acc; simpl; [done|].
  by rewrite IH, insert_all_range.
Qed.

Lemma NewSample_Labels n prefix metric value labels :
  sample_Labels (NewSample n prefix metric value labels) = override labels.
Proof. apply merge_labels_union. Qed.

Lemma override_app maps m : override (maps ++ [m]) = m ∪ override maps.
Proof. unfold override. by rewrite foldl_app. Qed.

Lemma override_single m : override [m] = m.
Proof. unfold override. simpl. apply (right_id_L ∅ (∪)). Qed.

Lemma fields_samples_app n prefix fields labels s :
  s ∈ fields_samples n prefix fields labels ↔
  ∃ i k v, fields !! i = Some (k, v) ∧
           s = Some (NewSample (n + i * length labels) prefix k v labels).
Proof.
  unfold fields_samples. rewrite list_elem_of_lookup. setoid_rewrite list_lookup_imap_Some.
  split; [intros (i & [k v] & ? & ?); by eauto|]. intros (i & k & v & ? & ?). by eauto 10.
Qed.

Lemma round_timestamp_m t :
  let r := round_timestamp "m" t in
  (60000 | r) ∧ Z.abs (t - r) < 60000 ∧ Z.abs r ≤ Z.abs t.
Proof.
  unfold round_timestamp. rewrite decide_False, decide_True by done.
  pose proof (Z.quot_rem' t 1000) as H1. pose proof (Z.quot_rem' (Z.quot t 1000 * 1000) 60000) as H2.
  set (ts := Z.quot t 1000 * 1000) in *. cbn zeta.
  split; [exists (Z.quot ts 60000); lia|].
  destruct (Z_le_gt_dec 0 t) as [Ht|Ht].
  - pose proof (Z.rem_bound_pos t 1000 Ht ltac:(lia)).
    pose proof (Z.rem_bound_pos ts 60000 ltac:(lia) ltac:(lia)).
    pose proof (Z.quot_pos ts 60000 ltac:(lia) ltac:(lia)).
    assert (0 ≤ Z.quot t 1000) by (apply Z.quot_pos; lia).
    assert (Hq : ts - Z.rem ts 60000 = 60000 * Z.quot ts 60000) by lia.
    assert (Hq2 : Z.rem ts 60000 ≤ 59000); [|lia].
    assert (Hd : (1000 | Z.rem ts 60000)).
    { exists (Z.quot t 1000 - 60 * Z.quot ts 60000). unfold ts in *. lia. }
    destruct Hd as [k Hk]. lia.
  - assert (Hts : ts = - (Z.quot (- t) 1000 * 1000)).
    { unfold ts. rewrite Z.quot_opp_l by lia. lia. }
    assert (0 ≤ Z.quot (- t) 1000) by (apply Z.quot_pos; lia).
    assert (Hr : Z.rem ts 60000 = - Z.rem (- ts) 60000) by (rewrite Z.rem_opp_l; lia).
    pose proof (Z.rem_bound_pos (- ts) 60000 ltac:(lia) ltac:(lia)).
    pose proof (Z.quot_pos (- ts) 60000 ltac:(lia) ltac:(lia)).
    pose proof (Z.quot_rem' (- ts) 60000).
    pose proof (Z.rem_bound_pos (- t) 1000 ltac:(lia) ltac:(lia)).
    pose proof (Z.quot_rem' (- t) 1000).
    assert (Hd : (1000 | Z.rem (- ts) 60000)).
    { exists (Z.quot (- t) 1000 - 60 * Z.quot (- ts) 60000). lia. }
    destruct Hd as [k Hk]. lia.
Qed.
End sample_lemmas.

(** ** Time series up to the order of their labels *)

#[export] Instance timeseries_equiv : Equiv TimeSeries :=
  λ a b, ts_Samples a = ts_Samples b ∧ ts_Labels a ≡ₚ ts_Labels b.

#[export] Instance timeseries_equivalence : Equivalence (≡@{TimeSeries}).
Proof.
  split; unfold equiv, timeseries_equiv.
  - by intros ts.
  - by intros a b [-> ->].
  - by intros a b c [-> ->] [-> ->].
Qed.

#[export] Instance ts_Labels_proper : Proper ((≡) ==> (≡ₚ)) ts_Labels.
Proof. by intros a b [_ Hl]. Qed.

#[export] Instance ts_Samples_proper : Proper ((≡) ==> (=)) ts_Samples.
Proof. by intros a b [Hs _]. Qed.

(** The names a time series carries. *)
Definition label_names (ts : TimeSeries) : list string := label_Name <$> ts_Labels ts.

#[export] Instance label_names_proper : Proper ((≡) ==> (≡ₚ)) label_names.
Proof. intros a b [_ Hl]. unfold label_names. by rewrite Hl. Qed.

(** What the labels become, apart from their order. *)
Definition replaced_labels (m : gmap string string) : list Label :=
  (λ kv, mkLabel (byte_replacer labelReplacer kv.1) kv.2) <$> map_to_list m.

Definition replaced_name (k : string) : string := byte_replacer labelReplacer k.

Section conversion.
Context `{RangeOrder}.

Lemma ConvertTimeSeries_Some n item precision ts :
  ConvertTimeSeries n item precision = Some ts →
  ∃ value, types_ToFloat64 (Value item) = (value, None) ∧
    ts_Samples ts =
      [mkPbSample (round_timestamp precision (UnixMilli (Timestamp item))) value] ∧
    ts_Labels ts = mkLabel MetricNameLabel (Metric item) :: tail (ts_Labels ts) ∧
    tail (ts_Labels ts) ≡ₚ replaced_labels (sample_Labels item).
Proof.
  unfold ConvertTimeSeries. destruct (types_ToFloat64 (Value item)) as [value [e|]]; [done|].
  intros [= <-]. exists value. split_and!; try done.
  simpl. unfold replaced_labels. by rewrite range_list_perm.
Qed.

Lemma ConvertTimeSeries_None n item precision :
  ConvertTimeSeries n item precision = None ↔ (types_ToFloat64 (Value item)).2 ≠ None.
Proof.
  unfold ConvertTimeSeries. destruct (types_ToFloat64 (Value item)) as [value [e|]]; naive_solver.
Qed.

Lemma label_names_perm n item precision ts :
  ConvertTimeSeries n item precision = Some ts →
  label_names ts ≡ₚ MetricNameLabel :: (replaced_name <$> (map_to_list (sample_Labels item)).*1).
Proof.
  intros (value & _ & _ & Hh & Ht)%ConvertTimeSeries_Some.
  unfold label_names. rewrite Hh, Ht. csimpl. f_equiv.
  unfold replaced_labels. rewrite <- !list_fmap_compose. done.
Qed.
End conversion.

(** The visiting order of the label map, which the runtime picks anew in
    every loop, only permutes the labels of the result. *)
Theorem ConvertTimeSeries_order (R1 R2 : RangeOrder) n1 n2 item precision :
  @ConvertTimeSeries R1 n1 item precision ≡ @ConvertTimeSeries R2 n2 item precision.
Proof.
  destruct (@ConvertTimeSeries R1 n1 item precision) as [ts1|] eqn:H1.
  - destruct (@ConvertTimeSeries R2 n2 item precision) as [ts2|] eqn:H2.
    + apply ConvertTimeSeries_Some in H1 as (v1 & Hv1 & Hs1 & Hh1 & Ht1).
      apply ConvertTimeSeries_Some in H2 as (v2 & Hv2 & Hs2 & Hh2 & Ht2).
      constructor. split; [congruence|]. by rewrite Hh1, Hh2, Ht1, Ht2.
    + apply ConvertTimeSeries_None in H2.
      apply ConvertTimeSeries_Some in H1 as (v1 & Hv1 & _). by rewrite Hv1 in H2.
  - apply ConvertTimeSeries_None in H1.
    rewrite (proj2 (@ConvertTimeSeries_None R2 n2 item precision) H1). constructor.
Qed.

(** A sample is converted exactly when its value converts to a float64;
    the time series then carries that one value, the metric name as its first
    label, and the sample's labels under their cleaned names, each once. *)
Theorem ConvertTimeSeries_spec `{RangeOrder} n item precision :
  match ConvertTimeSeries n item precision with
  | None => ∃ v e, types_ToFloat64 (Value item) = (v, Some e)
  | Some ts => ∃ v ls,
      types_ToFloat64 (Value item) = (v, None) ∧
      ts = mkTimeSeries (mkLabel "__name__" (Metric item) :: ls)
             [mkPbSample (round_timestamp precision (UnixMilli (Timestamp item))) v] ∧
      ls ≡ₚ replaced_labels (sample_Labels item)
  end.
Proof.
  destruct (ConvertTimeSeries n item precision) as [ts|] eqn:Hc.
  - destruct (ConvertTimeSeries_Some _ _ _ _ Hc) as (v & Hv & Hs & Hl & Ht).
    exists v, (tail (ts_Labels ts)). split_and!; [done| |done].
    destruct ts as [ls ss]. simpl in *. by rewrite Hs, Hl.
  - apply ConvertTimeSeries_None in Hc.
    destruct (types_ToFloat64 (Value item)) as [v [e|]]; naive_solver.
Qed.

(** With precision m the timestamp becomes a whole minute and with s a
    whole second, in both cases moved towards the epoch by less than the
    unit; any other precision keeps the millisecond. *)
Theorem round_timestamp_spec t :
  (let r := round_timestamp "m" t in
   (60000 | r) ∧ Z.abs (t - r) < 60000 ∧ Z.abs r ≤ Z.abs t) ∧
  (let r := round_timestamp "s" t in
   (1000 | r) ∧ Z.abs (t - r) < 1000 ∧ Z.abs r ≤ Z.abs t) ∧
  round_timestamp "ms" t = t.
Proof.
  split_and!; [apply round_timestamp_m| |done].
  unfold round_timestamp. rewrite decide_True by done. cbn zeta.
  pose proof (Z.quot_rem' t 1000). pose proof (Z.rem_bound_abs t 1000 ltac:(lia)).
  split_and!; [by exists (Z.quot t 1000)|lia|].
  destruct (Z_le_gt_dec 0 t) as [Ht|Ht].
  - pose proof (Z.rem_nonneg t 1000). pose proof (Z.quot_pos t 1000). lia.
  - pose proof (Z.rem_nonpos t 1000). assert (0 ≤ Z.quot (- t) 1000) by (apply Z.quot_pos; lia).
    rewrite Z.quot_opp_l in * by lia. lia.
Qed.

(** The label names of a time series are distinct exactly when the
    replacer keeps the sample's label names apart and none becomes __name__:
    "a-b" next to "a_b" gives a series with a repeated label name. *)
Theorem ConvertTimeSeries_NoDup `{RangeOrder} n item precision ts :
  ConvertTimeSeries n item precision = Some ts →
  NoDup (label_names ts) ↔
    (∀ k, is_Some (sample_Labels item !! k) → replaced_name k ≠ "__name__") ∧
    (∀ k1 k2, is_Some (sample_Labels item !! k1) → is_Some (sample_Labels item !! k2) →
              replaced_name k1 = replaced_name k2 → k1 = k2).
Proof.
  intros Hc. rewrite (label_names_perm _ _ _ _ Hc), NoDup_cons.
  assert (Hin : ∀ k, k ∈ (map_to_list (sample_Labels item)).*1 ↔ is_Some (sample_Labels item !! k)).
  { intros k. rewrite list_elem_of_fmap. split.
    - intros ([k' v] & -> & Hkv). apply elem_of_map_to_list in Hkv. by exists v.
    - intros [v Hv]. exists (k, v). split; [done|]. by apply elem_of_map_to_list. }
  split.
  - intros [Hn Hnd]. split.
    + intros k Hk He. apply Hn. apply list_elem_of_fmap. exists k. by rewrite Hin.
    + intros k1 k2 Hk1 Hk2 He. apply Hin in Hk1 as [i1 H1]%list_elem_of_lookup.
      apply Hin in Hk2 as [i2 H2]%list_elem_of_lookup.
      assert (i1 = i2) as ->; [|congruence].
      eapply NoDup_lookup; [exact Hnd|..]; rewrite list_lookup_fmap, ?H1, ?H2; simpl; [done|].
      by rewrite He.
  - intros [Hn Hinj]. split.
    + rewrite list_elem_of_fmap. intros (k & He & Hk). apply (Hn k); [by apply Hin|done].
    + apply NoDup_fmap_2_strong; [|apply NoDup_fst_map_to_list].
      intros k1 k2 Hk1%Hin Hk2%Hin. by apply Hinj.
Qed.

Lemma ConvertTimeSeries_NoDup_witness :
  let item := mkSample "m" time_zero (VInt 1) {["a-b" := "1"; "a_b" := "2"]} in
  let ts := mkTimeSeries [mkLabel "__name__" "m"; mkLabel "a_b" "2"; mkLabel "a_b" "1"]
              [mkPbSample (-62135596800000) f_one] in
  @ConvertTimeSeries canonical_order 0 item "ms" = Some ts ∧ ¬ NoDup (label_names ts).
Proof.
  intros item ts. assert (Hc : @ConvertTimeSeries canonical_order 0 item "ms" = Some ts)
    by (vm_compute; reflexivity).
  split; [exact Hc|]. intros Hnd.
  apply (@ConvertTimeSeries_NoDup canonical_order 0 item "ms" ts Hc) in Hnd as [_ Hinj].
  specialize (Hinj "a-b" "a_b" ltac:(vm_compute; eauto) ltac:(vm_compute; eauto) eq_refl).
  discriminate Hinj.
Defined.

(** A new sample's labels are the union of the maps it is given, a later
    map overriding an earlier one, whatever the visiting orders; its metric
    name holds no dash, dot, space, quote or double quote outside the prefix,
    and its timestamp is unset. *)
Theorem NewSample_spec `{RangeOrder} n prefix metric value labels :
  sample_Labels (NewSample n prefix metric value labels) = override labels ∧
  Value (NewSample n prefix metric value labels) = value ∧
  IsZero (Timestamp (NewSample n prefix metric value labels)) = true ∧
  ∃ m, Metric (NewSample n prefix metric value labels) =
         (if decide (prefix = "") then m else prefix +:+ "_" +:+ m) ∧
       String.length m = String.length metric ∧
       Forall (λ c, c ∉ bytes_of m) metricReplacer.*1.
Proof.
  split_and!; [apply NewSample_Labels|done|done|].
  exists (byte_replacer metricReplacer metric). split_and!.
  - unfold NewSample. simpl. destruct prefix as [|c prefix]; [done|]. by rewrite decide_True by (simpl; lia).
  - apply byte_replacer_length.
  - assert (Hd : Forall (λ c, c ∉ metricReplacer.*2) metricReplacer.*1)
      by (apply (bool_decide_unpack _); vm_compute; exact I).
    rewrite Forall_forall in Hd. apply Forall_forall. intros c Hc.
    apply byte_replacer_clean; auto.
Qed.
