(* ===== verification/Memory.v ===== *)
(** * Memory and deep copies

    The copies that the API types make of themselves are about sharing: a struct
    holds references (pointers, slices, maps) into a memory that others may hold
    too. Here are the memory, the reading of a value through its references, and
    what it means that an operation makes a deep copy, with the lemmas that build
    the copy of a struct from the copies of its fields. The types themselves are
    in [DeepCopy]. *)
From S2P Require Import Prelude.

Abbreviation loc := positive (only parsing).

(** Where memory is taken from: any place that is not in use. *)
Class Allocator := {
  alloc : ∀ {cell : Type}, gmap loc cell → loc;
  alloc_fresh {cell : Type} (h : gmap loc cell) : h !! alloc h = None
}.

(** The first free place, for evaluation. *)
Definition first_free : Allocator.
Proof.
  refine {| alloc cell h := fresh (dom h) |}.
  intros cell h. apply not_elem_of_dom, is_fresh.
Defined.

(** A slice: an array, where the slice starts in it, and its length. *)
Record slice := mkSlice { slice_array : loc; slice_offset : nat; slice_length : nat }.

Section memory.
Context {cell : Type} `{Allocator}.
Abbreviation heap := (gmap loc cell).
Implicit Types (h g : heap).

(** ** Computations on the memory *)

Definition memory (A : Type) : Type := heap → outcome (A * heap).

#[export] Instance memory_ret : MRet memory := λ A a h, Done (a, h).
#[export] Instance memory_bind : MBind memory := λ A B f m h,
  match m h with Done (a, h) => f a h | Panic s => Panic s end.

Definition nil_dereference {A} : memory A := λ h, Panic "nil pointer dereference".

(** [new] and [make]: memory with a given content. *)
Definition new (c : cell) : memory loc := λ h, Done (alloc h, <[alloc h := c]> h).

(** ** Arrays

    Every object in memory is an array of a type [T]; a pointer to a single [T]
    leads to an array of one. *)
Class Array (T : Type) := {
  to_cell : list T → cell;
  of_cell : cell → option (list T);
  of_to_cell l : of_cell (to_cell l) = Some l
}.

Section array.
Context {T : Type} `{Array T}.

Definition load_array (l : loc) (h : heap) : option (list T) := c ← h !! l; of_cell c.

(** [a[i]], and [a[i] = x], which no code here does outside the array. *)
Definition load (l : loc) (i : nat) : memory T := λ h,
  match load_array l h with
  | Some a => match a !! i with Some x => Done (x, h) | None => Panic "index out of range" end
  | None => Panic "invalid memory address"
  end.

Definition store (l : loc) (i : nat) (x : T) : memory unit := λ h,
  match load_array l h with
  | Some a => if decide (i < length a) then Done ((), <[l := to_cell (<[i := x]> a)]> h)
              else Panic "index out of range"
  | None => Panic "invalid memory address"
  end.

(** [for i := range in], copying element [i] of the one array into element [i] of
    the other, from [i] on. *)
Fixpoint copy_elements (copy : T → memory T) (src : loc) (offset : nat) (dst : loc) (i n : nat) : memory unit :=
  match n with
  | O => mret ()
  | S n' =>
    x ← load src (offset + i);
    y ← copy x;
    _ ← store dst i y;
    copy_elements copy src offset dst (S i) n'
  end.

Definition copy_array (zero : T) (copy : T → memory T) (src : loc) (offset n : nat) : memory loc :=
  dst ← new (to_cell (replicate n zero));
  _ ← copy_elements copy src offset dst 0 n;
  mret dst.

(** [if in != nil { out = make(T, len(in)); copy each }]. *)
Definition copy_slice (zero : T) (copy : T → memory T) (s : option slice) : memory (option slice) :=
  match s with
  | None => mret None
  | Some s =>
    l ← copy_array zero copy (slice_array s) (slice_offset s) (slice_length s);
    mret (Some (mkSlice l 0 (slice_length s)))
  end.

(** [if in != nil { out = new(T); in.DeepCopyInto(out) }]. *)
Definition copy_pointer (zero : T) (copy : T → memory T) (p : option loc) : memory (option loc) :=
  match p with
  | None => mret None
  | Some l => l' ← copy_array zero copy l 0 1; mret (Some l')
  end.
End array.

(** ** Reading values *)

(** [rd h x] is the value of [x], all its references followed, if they lead to
    memory of the right types. *)
Definition reading (T V : Type) : Type := heap → T → option V.

Class Monotone {T V} (rd : reading T V) : Prop :=
  monotone h g x v : rd h x = Some v → h ⊆ g → rd g x = Some v.

(** A deep copy has the value of the original, in memory that was free before:
    the old memory is as it was, and the new alone is enough to read the copy. *)
Class DeepCopy {T V} (rd : reading T V) (copy : T → memory T) : Prop :=
  deep_copy h x v : rd h x = Some v →
  ∃ x' h', copy x h = Done (x', h') ∧ h ⊆ h' ∧ rd (h' ∖ h) x' = Some v.

(** Values without references. *)
Definition read_flat {T} : reading T T := λ _ x, Some x.

Definition read_slice {T V} `{Array T} (rd : reading T V) : reading (option slice) (option (list V)) := λ h s,
  match s with
  | None => Some None
  | Some s =>
    a ← load_array (slice_array s) h;
    if decide (slice_offset s + slice_length s ≤ length a) then
      vs ← mapM (rd h) (take (slice_length s) (drop (slice_offset s) a)); Some (Some vs)
    else None
  end.

Definition read_pointer {T V} `{Array T} (rd : reading T V) : reading (option loc) (option V) := λ h p,
  match p with
  | None => Some None
  | Some l => a ← load_array l h; match a with [x] => v ← rd h x; Some (Some v) | _ => None end
  end.
(** ** Lemmas *)

Lemma load_array_weaken {T} `{!Array T} h g l (a : list T) :
  load_array l h = Some a → h ⊆ g → load_array l g = Some a.
Proof.
  unfold load_array. intros Hl Hg. destruct (h !! l) as [c|] eqn:Hc; [|done].
  by rewrite (lookup_weaken _ _ _ _ Hc Hg).
Qed.

Lemma load_array_insert {T} `{!Array T} h l (a : list T) : load_array l (<[l := to_cell a]> h) = Some a.
Proof. unfold load_array. rewrite lookup_insert_eq. apply of_to_cell. Qed.

Lemma load_array_in {T} `{!Array T} h l (a : list T) : load_array l h = Some a → is_Some (h !! l).
Proof. unfold load_array. destruct (h !! l); by eauto. Qed.

(** Memory that was new stays new in what is later. *)
Lemma difference_later h g g1 g' : h ⊆ g → g1 ⊆ g' → g1 ∖ g ⊆ g' ∖ h.
Proof.
  intros Hg Hg'. apply map_subseteq_spec. intros l c. rewrite !lookup_difference_Some.
  intros [Hc Hn]. split; [by eapply lookup_weaken|]. by eapply lookup_weaken_None.
Qed.

#[export] Instance flat_monotone {T} : Monotone (@read_flat T).
Proof. by intros h g x v. Qed.

#[export] Instance flat_deep_copy {T} : DeepCopy (@read_flat T) mret.
Proof. intros h x v [= ->]. exists v, h. split_and!; done. Qed.

Lemma mapM_monotone {T V} (rd : reading T V) `{!Monotone rd} h g l vs :
  mapM (rd h) l = Some vs → h ⊆ g → mapM (rd g) l = Some vs.
Proof.
  rewrite !mapM_Some. intros Hl Hg. eapply Forall2_impl; [exact Hl|].
  intros x v Hx. exact (monotone h g x v Hx Hg).
Qed.

#[export] Instance slice_monotone {T V} `{!Array T} (rd : reading T V) `{!Monotone rd} : Monotone (read_slice rd).
Proof.
  intros h g [s|] v; [|done]. unfold read_slice. intros Hs Hg.
  destruct (load_array (slice_array s) h) as [a|] eqn:Ha; [|done]. simpl in Hs.
  rewrite (load_array_weaken _ _ _ _ Ha Hg). simpl. case_decide; [|done].
  destruct (mapM (rd h) _) as [vs|] eqn:Hv; [|done]. by rewrite (mapM_monotone _ _ _ _ _ Hv Hg).
Qed.

#[export] Instance pointer_monotone {T V} `{!Array T} (rd : reading T V) `{!Monotone rd} : Monotone (read_pointer rd).
Proof.
  intros h g [l|] v; [|done]. unfold read_pointer. intros Hs Hg.
  destruct (load_array l h) as [a|] eqn:Ha; [|done]. simpl in Hs.
  rewrite (load_array_weaken _ _ _ _ Ha Hg). simpl. destruct a as [|x [|]]; try done.
  destruct (rd h x) as [w|] eqn:Hw; [|done]. by rewrite (monotone _ _ _ _ Hw Hg).
Qed.

Section copying.
Context {T V : Type} `{!Array T} (rd : reading T V) (copy : T → memory T) `{!Monotone rd} `{!DeepCopy rd copy}.

(** The loop from element [i] on, in a memory [g] that holds the destination. *)
Lemma copy_elements_spec h src offset dst a n i g out vs :
  h ⊆ g → h !! dst = None → load_array dst g = Some out → length out = i + n →
  load_array src h = Some a → mapM (rd h) (take n (drop (offset + i) a)) = Some vs →
  offset + i + n ≤ length a →
  ∃ g' ys, copy_elements copy src offset dst i n g = Done ((), g') ∧ h ⊆ g' ∧
    delete dst g ⊆ delete dst g' ∧ load_array dst g' = Some (take i out ++ ys) ∧
    Forall2 (λ y v, rd (delete dst g' ∖ h) y = Some v) ys vs.
Proof.
  intros Hg Hdst Hout Hlen Ha Hvs Hb. revert i g out vs Hg Hout Hlen Hvs Hb.
  induction n as [|n IH]; intros i g out vs Hg Hout Hlen Hvs Hb.
  { simpl in Hvs. injection Hvs as <-. exists g, []. split_and!; try done.
    rewrite app_nil_r, take_ge by lia. done. }
  destruct (lookup_lt_is_Some_2 a (offset + i) ltac:(lia)) as [x Hx].
  rewrite (drop_S _ _ _ Hx) in Hvs. cbn [take mapM] in Hvs.
  apply bind_Some in Hvs as (v & Hv & Hvs). apply bind_Some in Hvs as (vs' & Hvs' & [= <-]).
  cbn [copy_elements]. unfold mbind, memory_bind, load at 1.
  rewrite (load_array_weaken _ _ _ _ Ha Hg), Hx.
  destruct (deep_copy g x v) as (y & g1 & -> & Hg1 & Hy); [exact (monotone h g x v Hv Hg)|].
  unfold store. rewrite (load_array_weaken _ _ _ _ Hout Hg1), decide_True by lia.
  set (g2 := <[dst:=to_cell (<[i:=y]> out)]> g1).
  assert (Hd : delete dst g2 = delete dst g1) by apply delete_insert_eq.
  destruct (IH (S i) g2 (<[i:=y]> out) vs') as (g' & ys & Hc & Hh & Hdel & Hload & Hys).
  - apply insert_subseteq_r; [done|]. by trans g.
  - apply load_array_insert.
  - rewrite length_insert. lia.
  - by replace (offset + S i) with (S (offset + i)) by lia.
  - lia.
  - exists g', (y :: ys). rewrite Hc. split_and!; [done|done| | |constructor; [|done]].
    + etrans; [|exact Hdel]. rewrite Hd. by apply delete_mono.
    + rewrite Hload, (take_S_r _ _ y) by (apply list_lookup_insert_eq; lia).
      rewrite take_insert_ge by lia. by rewrite <- app_assoc.
    + eapply monotone; [exact Hy|]. apply map_subseteq_spec. intros l c.
      rewrite !lookup_difference_Some. intros [Hc1 Hn].
      assert (l ≠ dst) by (intros ->; apply load_array_in in Hout as [? ?]; congruence).
      split; [|by eapply lookup_weaken_None].
      eapply lookup_weaken; [|exact Hdel]. rewrite Hd. by rewrite lookup_delete_ne.
Qed.

Lemma copy_array_spec zero h src offset n a vs :
  load_array src h = Some a → offset + n ≤ length a → mapM (rd h) (take n (drop offset a)) = Some vs →
  ∃ l h' ys, copy_array zero copy src offset n h = Done (l, h') ∧ h ⊆ h' ∧
    load_array l (h' ∖ h) = Some ys ∧ mapM (rd (h' ∖ h)) ys = Some vs.
Proof.
  intros Ha Hb Hvs. unfold copy_array, new, mbind, memory_bind.
  set (dst := alloc h). pose proof (alloc_fresh h) as Hdst.
  destruct (copy_elements_spec h src offset dst a n 0 (<[dst:=to_cell (replicate n zero)]> h)
    (replicate n zero) vs) as (h' & ys & -> & Hh & _ & Hl & Hys); try done.
  - by apply insert_subseteq.
  - apply load_array_insert.
  - apply length_replicate.
  - by rewrite Nat.add_0_r.
  - lia.
  - exists dst, h', ys. split_and!; [done|done| |].
    + unfold load_array in *. destruct (h' !! dst) as [c|] eqn:Hc; [|done].
      by rewrite (proj2 (lookup_difference_Some _ _ _ _) (conj Hc Hdst)).
    + apply mapM_Some. eapply Forall2_impl; [exact Hys|]. intros y v Hy. eapply monotone; [exact Hy|].
      apply difference_later; [done|]. apply delete_subseteq.
Qed.

#[export] Instance slice_deep_copy zero : DeepCopy (read_slice rd) (copy_slice zero copy).
Proof.
  intros h [s|] v; [|by intros [= <-]; exists None, h]. unfold read_slice. intros Hs.
  destruct (load_array (slice_array s) h) as [a|] eqn:Ha; [|done]. simpl in Hs. case_decide as Hb; [|done].
  destruct (mapM (rd h) _) as [vs|] eqn:Hvs; [|done]. injection Hs as <-.
  unfold copy_slice, mbind at 1, memory_bind at 1.
  destruct (copy_array_spec zero h _ _ _ a vs Ha Hb Hvs) as (l & h' & ys & -> & Hh & Hl & Hys).
  eexists _, h'. split; [done|]. split; [done|]. simpl. rewrite Hl. simpl.
  assert (length ys = slice_length s) as Hlen.
  { apply length_mapM in Hys, Hvs. rewrite <- Hvs, length_take, length_drop in Hys. lia. }
  rewrite decide_True by lia. rewrite drop_0, take_ge by lia. by rewrite Hys.
Qed.

#[export] Instance pointer_deep_copy zero : DeepCopy (read_pointer rd) (copy_pointer zero copy).
Proof.
  intros h [l|] v; [|by intros [= <-]; exists None, h]. unfold read_pointer. intros Hs.
  destruct (load_array l h) as [a|] eqn:Ha; [|done]. simpl in Hs. destruct a as [|x [|]]; try done.
  destruct (rd h x) as [w|] eqn:Hw; [|done]. injection Hs as <-.
  unfold copy_pointer, mbind at 1, memory_bind at 1.
  assert (Hm : mapM (rd h) (take 1 (drop 0 [x])) = Some [w]) by (apply mapM_Some; by repeat constructor).
  destruct (copy_array_spec zero h l 0 1 [x] [w] Ha (le_n 1) Hm)
    as (l' & h' & ys & -> & Hh & Hl & Hys).
  eexists _, h'. split; [done|]. split; [done|]. rewrite Hl. simpl.
  apply mapM_Some, Forall2_cons_inv_r in Hys as (y & ? & Hy & ->%Forall2_nil_inv_r & ->). by rewrite Hy.
Qed.

(** One field of a struct after another: [h] is the memory before the first. *)
Lemma copy_field h g x v :
  rd h x = Some v → h ⊆ g →
  ∃ x' g', copy x g = Done (x', g') ∧ g ⊆ g' ∧ h ⊆ g' ∧ ∀ later, g' ⊆ later → rd (later ∖ h) x' = Some v.
Proof.
  intros Hx Hg. destruct (deep_copy g x v) as (x' & g' & Hc & Hg' & Hx'); [exact (monotone h g x v Hx Hg)|].
  exists x', g'. split_and!; [done|done|by trans g|]. intros later Hl.
  eapply monotone; [exact Hx'|]. by apply difference_later.
Qed.
End copying.
End memory.

Arguments memory cell A : clear implicits.
Arguments reading cell T V : clear implicits.
Arguments Array cell T : clear implicits.
