(* ===== verification/DeepCopy.v ===== *)
(** * Deep copies of the API types

    api/v1: the resource types with all their fields, as structs in a memory that
    their pointers, slices and maps lead into, and the copies of
    zz_generated.deepcopy.go. The copies of the embedded metadata are those of
    k8s.io/apimachinery, whose source is vendored. What a deep copy is, and the
    lemmas on arrays and pointers, are in [Memory]. *)
From S2P Require Import Prelude Samples Memory.

(** ** Metadata (vendor/k8s.io/apimachinery/pkg/apis/meta/v1) *)

Record TypeMeta := mkTypeMeta { Kind : string; APIVersion : string }.

Record ListMeta := mkListMeta {
  list_SelfLink : string;
  list_ResourceVersion : string;
  list_Continue : string;
  list_RemainingItemCount : option loc
}.

Record OwnerReference := mkOwnerReference {
  owner_APIVersion : string;
  owner_Kind : string;
  owner_Name : string;
  owner_UID : string;
  owner_Controller : option loc;
  owner_BlockOwnerDeletion : option loc
}.

Record FieldsV1 := mkFieldsV1 { Raw : option slice }.

Record ManagedFieldsEntry := mkManagedFieldsEntry {
  managed_Manager : string;
  managed_Operation : string;
  managed_APIVersion : string;
  managed_Time : option loc;
  managed_FieldsType : string;
  managed_FieldsV1 : option loc;
  managed_Subresource : string
}.

Record ObjectMeta := mkObjectMeta {
  meta_Name : string;
  meta_GenerateName : string;
  meta_Namespace : string;
  meta_SelfLink : string;
  meta_UID : string;
  meta_ResourceVersion : string;
  meta_Generation : Z;
  meta_CreationTimestamp : time;
  meta_DeletionTimestamp : option loc;
  meta_DeletionGracePeriodSeconds : option loc;
  meta_Labels : option loc;
  meta_Annotations : option loc;
  meta_OwnerReferences : option slice;
  meta_Finalizers : option slice;
  meta_ManagedFields : option slice
}.

(** ** The resources *)

Record Model := mkModel { Name : string; Config : option loc }.

Record MonitorSpec := mkMonitorSpec { spec_Model : Model; spec_Period : Z; spec_Labels : option loc }.

Record MonitorStatus := mkMonitorStatus { LastPush : time }.

Record Monitor := mkMonitor {
  monitor_TypeMeta : TypeMeta;
  monitor_ObjectMeta : ObjectMeta;
  monitor_Spec : MonitorSpec;
  monitor_Status : MonitorStatus
}.

Record MonitorList := mkMonitorList {
  monitors_TypeMeta : TypeMeta;
  monitors_ListMeta : ListMeta;
  monitors_Items : option slice
}.

Record PrometheusPushSpec := mkPushSpec {
  Url : string;
  BasicAuthUser : string;
  BasicAuthPass : string;
  Headers : option slice;
  Timeout : Z;
  DialTimeout : Z;
  MaxIdleConnsPerHost : Z
}.

Record PrometheusPushStatus := mkPushStatus { push_LastPush : time }.

Record PrometheusPush := mkPush {
  push_TypeMeta : TypeMeta;
  push_ObjectMeta : ObjectMeta;
  push_Spec : PrometheusPushSpec;
  push_Status : PrometheusPushStatus
}.

Record PrometheusPushList := mkPushList {
  pushes_TypeMeta : TypeMeta;
  pushes_ListMeta : ListMeta;
  pushes_Items : option slice
}.

(** ** What is in memory *)

Inductive cell :=
| CMap (m : gmap string string)
| CStrings (l : list string)
| CBytes (l : list ascii)
| CInt64s (l : list Z)
| CBools (l : list bool)
| CTimes (l : list time)
| COwners (l : list OwnerReference)
| CFields (l : list FieldsV1)
| CManaged (l : list ManagedFieldsEntry)
| CModels (l : list Model)
| CMonitorSpecs (l : list MonitorSpec)
| CMonitorStatuses (l : list MonitorStatus)
| CMonitors (l : list Monitor)
| CMonitorLists (l : list MonitorList)
| CPushSpecs (l : list PrometheusPushSpec)
| CPushStatuses (l : list PrometheusPushStatus)
| CPushes (l : list PrometheusPush)
| CPushLists (l : list PrometheusPushList).

Abbreviation heap := (gmap loc cell).

Ltac array to from := refine {| to_cell := to; of_cell := from |}; done.

#[export] Instance string_array : Array cell string.
Proof. array CStrings (λ c, match c with CStrings l => Some l | _ => None end). Defined.
#[export] Instance byte_array : Array cell ascii.
Proof. array CBytes (λ c, match c with CBytes l => Some l | _ => None end). Defined.
#[export] Instance int64_array : Array cell Z.
Proof. array CInt64s (λ c, match c with CInt64s l => Some l | _ => None end). Defined.
#[export] Instance bool_array : Array cell bool.
Proof. array CBools (λ c, match c with CBools l => Some l | _ => None end). Defined.
#[export] Instance time_array : Array cell time.
Proof. array CTimes (λ c, match c with CTimes l => Some l | _ => None end). Defined.
#[export] Instance owner_array : Array cell OwnerReference.
Proof. array COwners (λ c, match c with COwners l => Some l | _ => None end). Defined.
#[export] Instance fields_array : Array cell FieldsV1.
Proof. array CFields (λ c, match c with CFields l => Some l | _ => None end). Defined.
#[export] Instance managed_array : Array cell ManagedFieldsEntry.
Proof. array CManaged (λ c, match c with CManaged l => Some l | _ => None end). Defined.
#[export] Instance model_array : Array cell Model.
Proof. array CModels (λ c, match c with CModels l => Some l | _ => None end). Defined.
#[export] Instance monitor_spec_array : Array cell MonitorSpec.
Proof. array CMonitorSpecs (λ c, match c with CMonitorSpecs l => Some l | _ => None end). Defined.
#[export] Instance monitor_status_array : Array cell MonitorStatus.
Proof. array CMonitorStatuses (λ c, match c with CMonitorStatuses l => Some l | _ => None end). Defined.
#[export] Instance monitor_array : Array cell Monitor.
Proof. array CMonitors (λ c, match c with CMonitors l => Some l | _ => None end). Defined.
#[export] Instance monitor_list_array : Array cell MonitorList.
Proof. array CMonitorLists (λ c, match c with CMonitorLists l => Some l | _ => None end). Defined.
#[export] Instance push_spec_array : Array cell PrometheusPushSpec.
Proof. array CPushSpecs (λ c, match c with CPushSpecs l => Some l | _ => None end). Defined.
#[export] Instance push_status_array : Array cell PrometheusPushStatus.
Proof. array CPushStatuses (λ c, match c with CPushStatuses l => Some l | _ => None end). Defined.
#[export] Instance push_array : Array cell PrometheusPush.
Proof. array CPushes (λ c, match c with CPushes l => Some l | _ => None end). Defined.
#[export] Instance push_list_array : Array cell PrometheusPushList.
Proof. array CPushLists (λ c, match c with CPushLists l => Some l | _ => None end). Defined.

(** The zero values that [new] and [make] fill memory with. *)
Definition zero_owner : OwnerReference := mkOwnerReference "" "" "" "" None None.
Definition zero_fields : FieldsV1 := mkFieldsV1 None.
Definition zero_managed : ManagedFieldsEntry := mkManagedFieldsEntry "" "" "" None "" None "".
Definition zero_meta : ObjectMeta :=
  mkObjectMeta "" "" "" "" "" "" 0 time_zero None None None None None None None.
Definition zero_list_meta : ListMeta := mkListMeta "" "" "" None.
Definition zero_type_meta : TypeMeta := mkTypeMeta "" "".
Definition zero_Model : Model := mkModel "" None.
Definition zero_MonitorSpec : MonitorSpec := mkMonitorSpec zero_Model 0 None.
Definition zero_MonitorStatus : MonitorStatus := mkMonitorStatus time_zero.
Definition zero_Monitor : Monitor := mkMonitor zero_type_meta zero_meta zero_MonitorSpec zero_MonitorStatus.
Definition zero_MonitorList : MonitorList := mkMonitorList zero_type_meta zero_list_meta None.
Definition zero_PushSpec : PrometheusPushSpec := mkPushSpec "" "" "" None 0 0 0.
Definition zero_PushStatus : PrometheusPushStatus := mkPushStatus time_zero.
Definition zero_Push : PrometheusPush := mkPush zero_type_meta zero_meta zero_PushSpec zero_PushStatus.
Definition zero_PushList : PrometheusPushList := mkPushList zero_type_meta zero_list_meta None.

Section copies.
Context `{RangeOrder} `{Allocator}.
Abbreviation memory := (memory cell).

(** ** Maps *)

Definition load_map (l : loc) : memory (gmap string string) := λ h,
  match h !! l with Some (CMap m) => Done (m, h) | _ => Panic "invalid memory address" end.

Definition store_map (l : loc) (k v : string) : memory () := λ h,
  match h !! l with
  | Some (CMap m) => Done ((), <[l := CMap (<[k := v]> m)]> h)
  | _ => Panic "invalid memory address"
  end.

Fixpoint copy_entries (out : loc) (entries : list (string * string)) : memory () :=
  match entries with
  | [] => mret ()
  | (key, val) :: entries' => _ ← store_map out key val; copy_entries out entries'
  end.

(** The loops over maps are told apart by the maps they fill. *)
Definition copy_map (in_ : option loc) : memory (option loc) :=
  match in_ with
  | None => mret None
  | Some l =>
    out ← new (CMap ∅);
    m ← load_map l;
    _ ← copy_entries out (range_list (Pos.to_nat out) m);
    mret (Some out)
  end.

(** ** Metadata

    [*out = *in], then the fields that are references. *)

Definition ListMeta_DeepCopyInto (in_ : ListMeta) : memory ListMeta :=
  count ← copy_pointer 0%Z mret (list_RemainingItemCount in_);
  mret (mkListMeta (list_SelfLink in_) (list_ResourceVersion in_) (list_Continue in_) count).

Definition OwnerReference_DeepCopyInto (in_ : OwnerReference) : memory OwnerReference :=
  controller ← copy_pointer false mret (owner_Controller in_);
  block ← copy_pointer false mret (owner_BlockOwnerDeletion in_);
  mret (mkOwnerReference (owner_APIVersion in_) (owner_Kind in_) (owner_Name in_) (owner_UID in_) controller block).

Definition FieldsV1_DeepCopyInto (in_ : FieldsV1) : memory FieldsV1 :=
  raw ← copy_slice "000"%char mret (Raw in_);
  mret (mkFieldsV1 raw).

Definition ManagedFieldsEntry_DeepCopyInto (in_ : ManagedFieldsEntry) : memory ManagedFieldsEntry :=
  t ← copy_pointer time_zero mret (managed_Time in_);
  fields ← copy_pointer zero_fields FieldsV1_DeepCopyInto (managed_FieldsV1 in_);
  mret (mkManagedFieldsEntry (managed_Manager in_) (managed_Operation in_) (managed_APIVersion in_)
          t (managed_FieldsType in_) fields (managed_Subresource in_)).

Definition ObjectMeta_DeepCopyInto (in_ : ObjectMeta) : memory ObjectMeta :=
  deletion ← copy_pointer time_zero mret (meta_DeletionTimestamp in_);
  grace ← copy_pointer 0%Z mret (meta_DeletionGracePeriodSeconds in_);
  labels ← copy_map (meta_Labels in_);
  annotations ← copy_map (meta_Annotations in_);
  owners ← copy_slice zero_owner OwnerReference_DeepCopyInto (meta_OwnerReferences in_);
  finalizers ← copy_slice "" mret (meta_Finalizers in_);
  managed ← copy_slice zero_managed ManagedFieldsEntry_DeepCopyInto (meta_ManagedFields in_);
  mret (mkObjectMeta (meta_Name in_) (meta_GenerateName in_) (meta_Namespace in_) (meta_SelfLink in_)
          (meta_UID in_) (meta_ResourceVersion in_) (meta_Generation in_) (meta_CreationTimestamp in_)
          deletion grace labels annotations owners finalizers managed).

(** ** The resources

    [DeepCopyInto] gives what it writes to its argument [out]. *)

Definition Model_DeepCopyInto (in_ : Model) : memory Model :=
  config ← copy_map (Config in_);
  mret (mkModel (Name in_) config).

Definition MonitorSpec_DeepCopyInto (in_ : MonitorSpec) : memory MonitorSpec :=
  model ← Model_DeepCopyInto (spec_Model in_);
  labels ← copy_map (spec_Labels in_);
  mret (mkMonitorSpec model (spec_Period in_) labels).

Definition MonitorStatus_DeepCopyInto (in_ : MonitorStatus) : memory MonitorStatus := mret in_.

Definition Monitor_DeepCopyInto (in_ : Monitor) : memory Monitor :=
  meta ← ObjectMeta_DeepCopyInto (monitor_ObjectMeta in_);
  spec ← MonitorSpec_DeepCopyInto (monitor_Spec in_);
  mret (mkMonitor (monitor_TypeMeta in_) meta spec (monitor_Status in_)).

Definition MonitorList_DeepCopyInto (in_ : MonitorList) : memory MonitorList :=
  meta ← ListMeta_DeepCopyInto (monitors_ListMeta in_);
  items ← copy_slice zero_Monitor Monitor_DeepCopyInto (monitors_Items in_);
  mret (mkMonitorList (monitors_TypeMeta in_) meta items).

Definition PrometheusPushSpec_DeepCopyInto (in_ : PrometheusPushSpec) : memory PrometheusPushSpec :=
  headers ← copy_slice "" mret (Headers in_);
  mret (mkPushSpec (Url in_) (BasicAuthUser in_) (BasicAuthPass in_) headers
          (Timeout in_) (DialTimeout in_) (MaxIdleConnsPerHost in_)).

Definition PrometheusPushStatus_DeepCopyInto (in_ : PrometheusPushStatus) : memory PrometheusPushStatus :=
  mret (mkPushStatus (push_LastPush in_)).

Definition PrometheusPush_DeepCopyInto (in_ : PrometheusPush) : memory PrometheusPush :=
  meta ← ObjectMeta_DeepCopyInto (push_ObjectMeta in_);
  spec ← PrometheusPushSpec_DeepCopyInto (push_Spec in_);
  status ← PrometheusPushStatus_DeepCopyInto (push_Status in_);
  mret (mkPush (push_TypeMeta in_) meta spec status).

Definition PrometheusPushList_DeepCopyInto (in_ : PrometheusPushList) : memory PrometheusPushList :=
  meta ← ListMeta_DeepCopyInto (pushes_ListMeta in_);
  items ← copy_slice zero_Push PrometheusPush_DeepCopyInto (pushes_Items in_);
  mret (mkPushList (pushes_TypeMeta in_) meta items).

(** [DeepCopy]: nil, or a new struct that [DeepCopyInto] fills. *)
Definition Model_DeepCopy : option loc → memory (option loc) := copy_pointer zero_Model Model_DeepCopyInto.
Definition MonitorSpec_DeepCopy : option loc → memory (option loc) :=
  copy_pointer zero_MonitorSpec MonitorSpec_DeepCopyInto.
Definition MonitorStatus_DeepCopy : option loc → memory (option loc) :=
  copy_pointer zero_MonitorStatus MonitorStatus_DeepCopyInto.
Definition Monitor_DeepCopy : option loc → memory (option loc) := copy_pointer zero_Monitor Monitor_DeepCopyInto.
Definition MonitorList_DeepCopy : option loc → memory (option loc) :=
  copy_pointer zero_MonitorList MonitorList_DeepCopyInto.
Definition PrometheusPushSpec_DeepCopy : option loc → memory (option loc) :=
  copy_pointer zero_PushSpec PrometheusPushSpec_DeepCopyInto.
Definition PrometheusPushStatus_DeepCopy : option loc → memory (option loc) :=
  copy_pointer zero_PushStatus PrometheusPushStatus_DeepCopyInto.
Definition PrometheusPush_DeepCopy : option loc → memory (option loc) :=
  copy_pointer zero_Push PrometheusPush_DeepCopyInto.
Definition PrometheusPushList_DeepCopy : option loc → memory (option loc) :=
  copy_pointer zero_PushList PrometheusPushList_DeepCopyInto.

(** An interface value [runtime.Object] that holds a pointer to a resource; the
    nil interface is [None]. *)
Inductive resource := OMonitor | OMonitorList | OPush | OPushList.

Definition runtime_Object : Type := option (resource * option loc).

(** [if c := in.DeepCopy(); c != nil { return c }; return nil]. *)
Definition as_object (r : resource) (c : memory (option loc)) : memory runtime_Object :=
  c ← c;
  match c with Some l => mret (Some (r, Some l)) | None => mret None end.

Definition Monitor_DeepCopyObject (in_ : option loc) : memory runtime_Object :=
  as_object OMonitor (Monitor_DeepCopy in_).
Definition MonitorList_DeepCopyObject (in_ : option loc) : memory runtime_Object :=
  as_object OMonitorList (MonitorList_DeepCopy in_).
Definition PrometheusPush_DeepCopyObject (in_ : option loc) : memory runtime_Object :=
  as_object OPush (PrometheusPush_DeepCopy in_).
Definition PrometheusPushList_DeepCopyObject (in_ : option loc) : memory runtime_Object :=
  as_object OPushList (PrometheusPushList_DeepCopy in_).

(** The call through the interface; on a nil interface it panics. *)
Definition DeepCopyObject (o : runtime_Object) : memory runtime_Object :=
  match o with
  | None => nil_dereference
  | Some (OMonitor, p) => Monitor_DeepCopyObject p
  | Some (OMonitorList, p) => MonitorList_DeepCopyObject p
  | Some (OPush, p) => PrometheusPush_DeepCopyObject p
  | Some (OPushList, p) => PrometheusPushList_DeepCopyObject p
  end.
End copies.

(** ** Readings

    The value of a struct: its plain fields and what its references lead to. *)
Section readings.
Abbreviation reading := (reading cell).

Definition read_map : reading (option loc) (option (gmap string string)) := λ h p,
  match p with
  | None => Some None
  | Some l => match h !! l with Some (CMap m) => Some (Some m) | _ => None end
  end.

Definition read_ListMeta : reading ListMeta _ := λ h x,
  count ← read_pointer read_flat h (list_RemainingItemCount x : option loc);
  Some (list_SelfLink x, list_ResourceVersion x, list_Continue x, count : option Z).

Definition read_OwnerReference : reading OwnerReference _ := λ h x,
  controller ← read_pointer read_flat h (owner_Controller x);
  block ← read_pointer read_flat h (owner_BlockOwnerDeletion x);
  Some (owner_APIVersion x, owner_Kind x, owner_Name x, owner_UID x, controller : option bool, block : option bool).

Definition read_FieldsV1 : reading FieldsV1 _ := λ h x,
  raw ← read_slice read_flat h (Raw x); Some (raw : option (list ascii)).

Definition read_ManagedFieldsEntry : reading ManagedFieldsEntry _ := λ h x,
  t ← read_pointer read_flat h (managed_Time x);
  fields ← read_pointer read_FieldsV1 h (managed_FieldsV1 x);
  Some (managed_Manager x, managed_Operation x, managed_APIVersion x, t : option time, managed_FieldsType x, fields,
        managed_Subresource x).

Definition read_ObjectMeta : reading ObjectMeta _ := λ h x,
  deletion ← read_pointer read_flat h (meta_DeletionTimestamp x);
  grace ← read_pointer read_flat h (meta_DeletionGracePeriodSeconds x);
  labels ← read_map h (meta_Labels x);
  annotations ← read_map h (meta_Annotations x);
  owners ← read_slice read_OwnerReference h (meta_OwnerReferences x);
  finalizers ← read_slice read_flat h (meta_Finalizers x);
  managed ← read_slice read_ManagedFieldsEntry h (meta_ManagedFields x);
  Some (meta_Name x, meta_GenerateName x, meta_Namespace x, meta_SelfLink x, meta_UID x, meta_ResourceVersion x,
        meta_Generation x, meta_CreationTimestamp x, (deletion : option time, grace : option Z),
        (labels, annotations, owners, finalizers : option (list string), managed)).

Definition read_Model : reading Model _ := λ h x,
  config ← read_map h (Config x); Some (Name x, config).

Definition read_MonitorSpec : reading MonitorSpec _ := λ h x,
  model ← read_Model h (spec_Model x);
  labels ← read_map h (spec_Labels x);
  Some (model, spec_Period x, labels).

Definition read_MonitorStatus : reading MonitorStatus _ := λ h x, Some (LastPush x).

Definition read_Monitor : reading Monitor _ := λ h x,
  meta ← read_ObjectMeta h (monitor_ObjectMeta x);
  spec ← read_MonitorSpec h (monitor_Spec x);
  Some (monitor_TypeMeta x, meta, spec, monitor_Status x).

Definition read_MonitorList : reading MonitorList _ := λ h x,
  meta ← read_ListMeta h (monitors_ListMeta x);
  items ← read_slice read_Monitor h (monitors_Items x);
  Some (monitors_TypeMeta x, meta, items).

Definition read_PushSpec : reading PrometheusPushSpec _ := λ h x,
  headers ← read_slice read_flat h (Headers x);
  Some (Url x, BasicAuthUser x, BasicAuthPass x, headers : option (list string), Timeout x, DialTimeout x,
        MaxIdleConnsPerHost x).

Definition read_PushStatus : reading PrometheusPushStatus _ := λ h x, Some (push_LastPush x).

Definition read_Push : reading PrometheusPush _ := λ h x,
  meta ← read_ObjectMeta h (push_ObjectMeta x);
  spec ← read_PushSpec h (push_Spec x);
  status ← read_PushStatus h (push_Status x);
  Some (push_TypeMeta x, meta, spec, status).

Definition read_PushList : reading PrometheusPushList _ := λ h x,
  meta ← read_ListMeta h (pushes_ListMeta x);
  items ← read_slice read_Push h (pushes_Items x);
  Some (pushes_TypeMeta x, meta, items).
End readings.

#[local] Arguments read_map : simpl never.
#[local] Arguments read_slice : simpl never.
#[local] Arguments read_pointer : simpl never.

(** ** Every copy is a deep copy *)

(** Reading a struct field by field. *)
Ltac read_fields H :=
  repeat (let w := fresh "w" in let Hw := fresh "Hw" in apply bind_Some in H as (w & Hw & H)).

Ltac later :=
  first [reflexivity | eassumption | etrans; [eassumption|]; later].

(** The copy of a struct, field by field, from the copies of its fields. *)
Ltac copy_struct read copy :=
  let h := fresh "h" in let x := fresh "x" in let v := fresh "v" in let Hv := fresh "Hv" in
  intros h x v Hv; unfold read in Hv; read_fields Hv; injection Hv as <-;
  assert (h ⊆ h) by reflexivity; unfold copy, mbind, memory_bind;
  repeat match goal with
  | |- context [match ?c ?y ?g with Done _ => _ | Panic _ => _ end] =>
    match goal with Hy : ?rd h y = Some _, Hg : h ⊆ g |- _ =>
      destruct (copy_field rd c h g y _ Hy Hg) as (? & ? & -> & ? & ? & ?)
    end
  end;
  eexists _, _; split; [reflexivity|]; split; [later|];
  unfold read; simpl;
  repeat match goal with
  | Hl : ∀ g : heap, ?g1 ⊆ g → _ |- context [difference ?l h] => rewrite (Hl l ltac:(later)); clear Hl; simpl
  end;
  try match goal with Hl : ∀ g : heap, ?g1 ⊆ g → _ |- _ => specialize (Hl g1 ltac:(reflexivity)); injection Hl as <- end;
  reflexivity.

Ltac monotone_struct read :=
  let h := fresh "h" in let g := fresh "g" in let x := fresh "x" in let v := fresh "v" in
  let Hv := fresh "Hv" in let Hg := fresh "Hg" in
  intros h g x v Hv Hg; unfold read in *; read_fields Hv; injection Hv as <-;
  repeat match goal with
  | Hw : ?rd h ?y = Some _ |- context [?rd g ?y] =>
    rewrite (monotone h g y _ Hw Hg); simpl
  end; reflexivity.

Section deep.
Context `{RangeOrder} `{Allocator}.

#[export] Instance map_monotone : Monotone read_map.
Proof.
  intros h g [l|] v; [|done]. unfold read_map. intros Hv Hg. destruct (h !! l) as [c|] eqn:Hc; [|done].
  by rewrite (lookup_weaken _ _ _ _ Hc Hg).
Qed.

Lemma copy_entries_spec out entries (h : heap) m :
  h !! out = Some (CMap m) → copy_entries out entries h = Done ((), <[out := CMap (insert_all entries m)]> h).
Proof.
  revert h m. induction entries as [|[k v] entries IH]; intros h m Hm; simpl.
  { by rewrite insert_id. }
  unfold mbind, memory_bind, store_map. rewrite Hm.
  rewrite (IH _ (<[k:=v]> m)) by apply lookup_insert_eq. by rewrite insert_insert_eq.
Qed.

#[export] Instance map_deep_copy : DeepCopy read_map copy_map.
Proof.
  intros h [l|] v; [|by intros [= <-]; exists None, h]. unfold read_map.
  destruct (h !! l) as [[m| | | | | | | | | | | | | | | | |]|] eqn:Hm; try done. intros [= <-].
  pose proof (alloc_fresh h) as Hf. unfold copy_map, mbind, memory_bind, new, load_map.
  rewrite lookup_insert_ne by congruence. rewrite Hm.
  rewrite (copy_entries_spec _ _ _ ∅) by apply lookup_insert_eq.
  rewrite insert_insert_eq, insert_all_range_empty.
  eexists _, _. split; [done|]. split; [by apply insert_subseteq|].
  rewrite lookup_difference, Hf. by rewrite lookup_insert_eq.
Qed.

#[export] Instance ListMeta_monotone : Monotone read_ListMeta.
Proof. monotone_struct @read_ListMeta. Qed.
#[export] Instance ListMeta_deep_copy : DeepCopy read_ListMeta ListMeta_DeepCopyInto.
Proof. copy_struct @read_ListMeta @ListMeta_DeepCopyInto. Qed.

#[export] Instance OwnerReference_monotone : Monotone read_OwnerReference.
Proof. monotone_struct @read_OwnerReference. Qed.
#[export] Instance OwnerReference_deep_copy : DeepCopy read_OwnerReference OwnerReference_DeepCopyInto.
Proof. copy_struct @read_OwnerReference @OwnerReference_DeepCopyInto. Qed.

#[export] Instance FieldsV1_monotone : Monotone read_FieldsV1.
Proof. monotone_struct @read_FieldsV1. Qed.
#[export] Instance FieldsV1_deep_copy : DeepCopy read_FieldsV1 FieldsV1_DeepCopyInto.
Proof. copy_struct @read_FieldsV1 @FieldsV1_DeepCopyInto. Qed.

#[export] Instance ManagedFieldsEntry_monotone : Monotone read_ManagedFieldsEntry.
Proof. monotone_struct @read_ManagedFieldsEntry. Qed.
#[export] Instance ManagedFieldsEntry_deep_copy : DeepCopy read_ManagedFieldsEntry ManagedFieldsEntry_DeepCopyInto.
Proof. copy_struct @read_ManagedFieldsEntry @ManagedFieldsEntry_DeepCopyInto. Qed.

#[export] Instance ObjectMeta_monotone : Monotone read_ObjectMeta.
Proof. monotone_struct @read_ObjectMeta. Qed.
#[export] Instance ObjectMeta_deep_copy : DeepCopy read_ObjectMeta ObjectMeta_DeepCopyInto.
Proof. copy_struct @read_ObjectMeta @ObjectMeta_DeepCopyInto. Qed.

#[export] Instance Model_monotone : Monotone read_Model.
Proof. monotone_struct @read_Model. Qed.
#[export] Instance Model_deep_copy : DeepCopy read_Model Model_DeepCopyInto.
Proof. copy_struct @read_Model @Model_DeepCopyInto. Qed.

#[export] Instance MonitorSpec_monotone : Monotone read_MonitorSpec.
Proof. monotone_struct @read_MonitorSpec. Qed.
#[export] Instance MonitorSpec_deep_copy : DeepCopy read_MonitorSpec MonitorSpec_DeepCopyInto.
Proof. copy_struct @read_MonitorSpec @MonitorSpec_DeepCopyInto. Qed.

#[export] Instance MonitorStatus_monotone : Monotone read_MonitorStatus.
Proof. monotone_struct @read_MonitorStatus. Qed.
#[export] Instance MonitorStatus_deep_copy : DeepCopy read_MonitorStatus MonitorStatus_DeepCopyInto.
Proof. copy_struct @read_MonitorStatus @MonitorStatus_DeepCopyInto. Qed.

#[export] Instance Monitor_monotone : Monotone read_Monitor.
Proof. monotone_struct @read_Monitor. Qed.
#[export] Instance Monitor_deep_copy : DeepCopy read_Monitor Monitor_DeepCopyInto.
Proof. copy_struct @read_Monitor @Monitor_DeepCopyInto. Qed.

#[export] Instance MonitorList_monotone : Monotone read_MonitorList.
Proof. monotone_struct @read_MonitorList. Qed.
#[export] Instance MonitorList_deep_copy : DeepCopy read_MonitorList MonitorList_DeepCopyInto.
Proof. copy_struct @read_MonitorList @MonitorList_DeepCopyInto. Qed.

#[export] Instance PushSpec_monotone : Monotone read_PushSpec.
Proof. monotone_struct @read_PushSpec. Qed.
#[export] Instance PushSpec_deep_copy : DeepCopy read_PushSpec PrometheusPushSpec_DeepCopyInto.
Proof. copy_struct @read_PushSpec @PrometheusPushSpec_DeepCopyInto. Qed.

#[export] Instance PushStatus_monotone : Monotone read_PushStatus.
Proof. monotone_struct @read_PushStatus. Qed.
#[export] Instance PushStatus_deep_copy : DeepCopy read_PushStatus PrometheusPushStatus_DeepCopyInto.
Proof. copy_struct @read_PushStatus @PrometheusPushStatus_DeepCopyInto. Qed.

#[export] Instance Push_monotone : Monotone read_Push.
Proof. monotone_struct @read_Push. Qed.
#[export] Instance Push_deep_copy : DeepCopy read_Push PrometheusPush_DeepCopyInto.
Proof. copy_struct @read_Push @PrometheusPush_DeepCopyInto. Qed.

#[export] Instance PushList_monotone : Monotone read_PushList.
Proof. monotone_struct @read_PushList. Qed.
#[export] Instance PushList_deep_copy : DeepCopy read_PushList PrometheusPushList_DeepCopyInto.
Proof. copy_struct @read_PushList @PrometheusPushList_DeepCopyInto. Qed.

End deep.

(** ** The copy of an object *)

Definition value_type {T V} (rd : reading cell T V) : Type := V.

Inductive object_value :=
| VMonitor (v : value_type read_Monitor)
| VMonitorList (v : value_type read_MonitorList)
| VPush (v : value_type read_Push)
| VPushList (v : value_type read_PushList).

(** The value of an object; that of nil, typed or not, is [None]. *)
Definition read_object (h : heap) (o : runtime_Object) : option (option object_value) :=
  match o with
  | None => Some None
  | Some (OMonitor, p) => v ← read_pointer read_Monitor h p; Some (option_map VMonitor v)
  | Some (OMonitorList, p) => v ← read_pointer read_MonitorList h p; Some (option_map VMonitorList v)
  | Some (OPush, p) => v ← read_pointer read_Push h p; Some (option_map VPush v)
  | Some (OPushList, p) => v ← read_pointer read_PushList h p; Some (option_map VPushList v)
  end.

#[export] Instance object_monotone : Monotone read_object.
Proof.
  intros h g [[[] p]|] v Hv Hg; [..|done]; cbn [read_object] in *; apply bind_Some in Hv as (w & Hw & Hv);
    by rewrite (monotone h g p w Hw Hg).
Qed.

Lemma as_object_deep_copy `{Allocator} {T V} `{!Array cell T} (rd : reading cell T V) r c h p w :
  DeepCopy (read_pointer rd) c → read_pointer rd h p = Some w →
  ∃ o' h', as_object r (c p) h = Done (o', h') ∧ h ⊆ h' ∧ (w = None → o' = None) ∧
    (∃ p', read_pointer rd (h' ∖ h) p' = Some w ∧ (p' = None ∧ o' = None ∨ p' ≠ None ∧ o' = Some (r, p'))).
Proof.
  intros Hc Hw. destruct (deep_copy h p w Hw) as (p' & h' & Hp & Hh & Hw').
  unfold as_object, mbind, memory_bind. rewrite Hp. destruct p' as [l|].
  - eexists _, h'. split; [done|]. split; [done|]. split; [|exists (Some l); by eauto].
    intros ->. unfold read_pointer in Hw'. destruct (load_array l _) as [[|y [|]]|]; try done.
    simpl in Hw'. by destruct (rd _ y).
  - eexists _, h'. split; [done|]. split; [done|]. split; [done|]. exists None. eauto.
Qed.

Ltac copy_object r zero Hw :=
  edestruct (as_object_deep_copy _ r _ _ _ _ (pointer_deep_copy _ _ zero) Hw)
    as (o' & h' & Hc & Hh & Hn & p' & Hp' & [[-> ->]|[Hp ->]]);
  [exists None, h'; split_and!; [exact Hc|done|done|by injection Hp' as <-]
  |match type of Hw with _ = Some ?w =>
     eexists _, h'; split_and!; [exact Hc|intros Hv; apply Hn; by destruct w|done|apply bind_Some; by exists w] end].

(** C21: the copy of an object through its interface is a deep one. For every
    kind of resource, wherever its pointers, slices and maps lead in a memory of
    the right types (they may share), the copy ends, the memory that was in use is
    as it was, and the copy has the same value. Whatever is written through the
    copy, that is, to memory that was free, the original keeps its value; and
    whatever is written to the old memory, the copy keeps its own. A nil pointer
    gives the nil interface. *)
Theorem DeepCopyObject_isolates `{RangeOrder} `{Allocator} h o v :
  o ≠ None → read_object h o = Some v →
  ∃ o' h', DeepCopyObject o h = Done (o', h') ∧ (v = None → o' = None) ∧
    h ⊆ h' ∧ read_object h' o' = Some v ∧
    (∀ g, h ⊆ g → read_object g o = Some v) ∧ (∀ g, h' ∖ h ⊆ g → read_object g o' = Some v).
Proof.
  intros Ho Hv.
  enough (∃ o' h', DeepCopyObject o h = Done (o', h') ∧ (v = None → o' = None) ∧ h ⊆ h' ∧
    read_object (h' ∖ h) o' = Some v) as (o' & h' & Hc & Hn & Hh & Hr).
  { exists o', h'. split_and!; [done|done|done| | |].
    - exact (monotone _ _ _ _ Hr (map_subseteq_difference_l _ _ _ (reflexivity h'))).
    - intros g. exact (monotone _ _ _ _ Hv).
    - intros g. exact (monotone _ _ _ _ Hr). }
  destruct o as [[[] p]|]; [..|done]; cbn [read_object] in Hv; apply bind_Some in Hv as (w & Hw & [= <-]).
  - copy_object OMonitor zero_Monitor Hw.
  - copy_object OMonitorList zero_MonitorList Hw.
  - copy_object OPush zero_Push Hw.
  - copy_object OPushList zero_PushList Hw.
Qed.

(** A monitor whose two maps are one: the copy has two. *)
Definition demo_memory : heap :=
  {[1%positive := CMap {["address" := "db:3306"]};
    2%positive := CMonitors [mkMonitor zero_type_meta zero_meta
                               (mkMonitorSpec (mkModel "mysql" (Some 1%positive)) 30 (Some 1%positive))
                               zero_MonitorStatus]]}.

Lemma DeepCopyObject_isolates_witness :
  let o := Some (OMonitor, Some 2%positive) in
  ∃ v o' h', read_object demo_memory o = Some (Some v) ∧
    @DeepCopyObject canonical_order first_free o demo_memory = Done (o', h') ∧ size h' = 5 ∧
    read_object h' o' = Some (Some v).
Proof.
  intros o. eexists.
  destruct (@DeepCopyObject_isolates canonical_order first_free demo_memory o _ ltac:(done) ltac:(vm_compute; reflexivity))
    as (o' & h' & Hc & _ & _ & Hr & _).
  exists o', h'. split; [vm_compute; reflexivity|]. split; [exact Hc|]. split; [|exact Hr].
  vm_compute in Hc. injection Hc as _ <-. vm_compute. reflexivity.
Defined.
