(* ===== verification/KubeApi.v ===== *)
(** * The API group

    What the generated clients, informers and listers share: the group, version
    and resources of api/*/register.go and groupversion_info.go, the objects, the
    errors of the API, and the selectors of a list.

    An object is a value: its type, its namespace, name and labels, and the rest
    of it, which this code carries without looking at it. That clients and trackers
    may pass values where the program passes pointers rests on their deep copies
    ([DeepCopy]). *)
From S2P Require Import Prelude.

Record GroupVersion := mkGV { Group : string; Version : string }.
Record GroupVersionKind := mkGVK { gvk_GroupVersion : GroupVersion; gvk_Kind : string }.
Record GroupVersionResource := mkGVR { gvr_GroupVersion : GroupVersion; gvr_Resource : string }.
Record GroupResource := mkGR { gr_Group : string; gr_Resource : string }.

#[export] Instance gv_eq_dec : EqDecision GroupVersion.
Proof. solve_decision. Defined.
#[export] Instance gvk_eq_dec : EqDecision GroupVersionKind.
Proof. solve_decision. Defined.
#[export] Instance gvr_eq_dec : EqDecision GroupVersionResource.
Proof. solve_decision. Defined.
#[export] Instance gr_eq_dec : EqDecision GroupResource.
Proof. solve_decision. Defined.
#[export] Instance gv_countable : Countable GroupVersion.
Proof. by apply (inj_countable' (λ gv, (Group gv, Version gv)) (λ p, mkGV p.1 p.2)); intros []. Defined.
#[export] Instance gvk_countable : Countable GroupVersionKind.
Proof.
  by apply (inj_countable' (λ k, (gvk_GroupVersion k, gvk_Kind k)) (λ p, mkGVK p.1 p.2)); intros [].
Defined.
#[export] Instance gvr_countable : Countable GroupVersionResource.
Proof.
  by apply (inj_countable' (λ r, (gvr_GroupVersion r, gvr_Resource r)) (λ p, mkGVR p.1 p.2)); intros [].
Defined.

Definition WithResource (gv : GroupVersion) (resource : string) : GroupVersionResource := mkGVR gv resource.
Definition WithKind (gv : GroupVersion) (kind : string) : GroupVersionKind := mkGVK gv kind.
Definition gvr_GroupResource (r : GroupVersionResource) : GroupResource :=
  mkGR (Group (gvr_GroupVersion r)) (gvr_Resource r).

(** groupversion_info.go and register.go. *)
Definition api_GroupVersion : GroupVersion := mkGV "kubemonitor.io.kubemonitor.io" "v1".
Definition SchemeGroupVersion : GroupVersion := api_GroupVersion.
Definition Resource (resource : string) : GroupResource :=
  gvr_GroupResource (WithResource SchemeGroupVersion resource).

(** The Go types of the API objects. *)
Inductive go_type := TMonitor | TPrometheusPush.

#[export] Instance go_type_eq_dec : EqDecision go_type.
Proof. solve_decision. Defined.
#[export] Instance go_type_countable : Countable go_type.
Proof.
  by apply (inj_countable' (λ t, match t with TMonitor => true | TPrometheusPush => false end)
    (λ b : bool, if b then TMonitor else TPrometheusPush)); intros [].
Defined.

Definition type_name (t : go_type) : string :=
  match t with TMonitor => "Monitor" | TPrometheusPush => "PrometheusPush" end.

(** The kinds that [AddToScheme] registers, by the [init] functions of the types:
    the name of each type and of its list. *)
Definition known_kinds : list GroupVersionKind :=
  WithKind SchemeGroupVersion <$> ["Monitor"; "MonitorList"; "PrometheusPush"; "PrometheusPushList"].

(** [C] is the rest of an object. *)
Record object (C : Type) := mkObject {
  obj_Type : go_type;
  obj_Namespace : string;
  obj_Name : string;
  obj_Labels : gmap string string;
  obj_Content : C
}.
Arguments mkObject {C}.
Arguments obj_Type {C}.
Arguments obj_Namespace {C}.
Arguments obj_Name {C}.
Arguments obj_Labels {C}.
Arguments obj_Content {C}.

Definition SetNamespace {C} (o : object C) (ns : string) : object C :=
  mkObject (obj_Type o) ns (obj_Name o) (obj_Labels o) (obj_Content o).

(** k8s.io/apimachinery/pkg/api/errors, and other errors. *)
Inductive kube_error :=
| NewNotFound (r : GroupResource) (name : string)
| NewAlreadyExists (r : GroupResource) (name : string)
| NewBadRequest (msg : string)
| OtherError (e : error).

Definition NamespaceAll : string := "".

(** [metav1.ListOptions], the fields that are looked at here. *)
Record ListOptions := mkListOptions {
  LabelSelector : string;
  FieldSelector : string;
  list_Watch : bool;
  list_ResourceVersion : string;
  TimeoutSeconds : option Z
}.

(** The packages labels and fields of k8s.io/apimachinery: parsing gives a
    selector, or nil, or an error. *)
Class Selectors := {
  selector : Type;
  labels_Parse : string → result (option selector);
  fields_ParseError : string → option error;
  Everything : selector;
  Empty : selector → bool;
  Matches : selector → gmap string string → bool
}.

Class SelectorLaws `{Selectors} : Prop := {
  Matches_Everything m : Matches Everything m = true;
  Matches_Empty s m : Empty s = true → Matches s m = true
}.

(** Selectors that ask for one label, as "key=value"; the empty text selects all. *)
Definition label_selectors : Selectors := {|
  selector := option (string * string);
  labels_Parse s := if decide (s = "") then Ok None else
    match String.index 0 "=" s with
    | Some i => Ok (Some (Some (String.substring 0 i s, String.substring (S i) (String.length s) s)))
    | None => Err (Errorf "unable to parse requirement")
    end;
  fields_ParseError s := None;
  Everything := None;
  Empty s := match s with None => true | Some _ => false end;
  Matches s m := match s with None => true | Some (k, v) => bool_decide (m !! k = Some v) end
|}.

Lemma label_selectors_laws : @SelectorLaws label_selectors.
Proof. split; [done|]. by intros [[? ?]|]. Qed.
