(* ===== verification/Scheme.v ===== *)
(** * Schemes

    The registry of API types (k8s.io/apimachinery/pkg/runtime, scheme.go and
    scheme_builder.go, with AddToGroupVersion of apis/meta/v1 and the builder of
    controller-runtime), translated from the vendored source, and what the program
    registers in its schemes: the init functions and variables of api/*/*_types.go and
    groupversion_info.go, of the generated scheme/register.go and fake/register.go,
    and of cmd/main.go. Conversion and defaulting functions, which a scheme also
    holds, are left out.

    A Go type is its package and its name: the two copies of the API types are
    different types of the same kinds. *)
From S2P Require Import Prelude KubeApi.

Record struct_type := mkStruct { PkgPath : string; type_Name : string }.

#[export] Instance struct_type_eq_dec : EqDecision struct_type.
Proof. solve_decision. Defined.
#[export] Instance struct_type_countable : Countable struct_type.
Proof. by apply (inj_countable' (λ t, (PkgPath t, type_Name t)) (λ p, mkStruct p.1 p.2)); intros []. Defined.

(** What [reflect.TypeOf] tells of an object. *)
Inductive reflect_type := StructType (t : struct_type) | PointerTo (t : reflect_type).

Definition reflect_Name (t : reflect_type) : string :=
  match t with StructType t => type_Name t | PointerTo _ => "" end.

(** ** The registry *)

Record Scheme := mkScheme {
  gvkToType : gmap GroupVersionKind struct_type;
  typeToGVK : gmap struct_type (list GroupVersionKind);
  unversionedTypes : gmap struct_type GroupVersionKind;
  unversionedKinds : gmap string struct_type;
  observedVersions : list GroupVersion
}.

Definition NewScheme : Scheme := mkScheme ∅ ∅ ∅ ∅ [].

Definition APIVersionInternal : string := "__internal".

Definition addObservedVersion (version : GroupVersion) (s : Scheme) : Scheme :=
  if decide (Version version = "" ∨ Version version = APIVersionInternal) then s
  else if decide (version ∈ observedVersions s) then s
  else mkScheme (gvkToType s) (typeToGVK s) (unversionedTypes s) (unversionedKinds s)
         (observedVersions s ++ [version]).

Definition AddKnownTypeWithName (gvk : GroupVersionKind) (obj : reflect_type) (s : Scheme) : outcome Scheme :=
  let s := addObservedVersion (gvk_GroupVersion gvk) s in
  if decide (Version (gvk_GroupVersion gvk) = "") then Panic "version is required on all types"
  else match obj with
  | PointerTo (StructType t) =>
    if match gvkToType s !! gvk with Some oldT => bool_decide (oldT ≠ t) | None => false end
    then Panic "Double registration of different types"
    else
      let s := mkScheme (<[gvk := t]> (gvkToType s)) (typeToGVK s) (unversionedTypes s) (unversionedKinds s)
                 (observedVersions s) in
      let existing := default [] (typeToGVK s !! t) in
      if decide (gvk ∈ existing) then Done s
      else Done (mkScheme (gvkToType s) (<[t := existing ++ [gvk]]> (typeToGVK s)) (unversionedTypes s)
                   (unversionedKinds s) (observedVersions s))
  | _ => Panic "All types must be pointers to structs."
  end.

Fixpoint add_known (gv : GroupVersion) (types : list reflect_type) (s : Scheme) : outcome Scheme :=
  match types with
  | [] => Done s
  | obj :: types =>
    match obj with
    | PointerTo t => s ← AddKnownTypeWithName (WithKind gv (reflect_Name t)) obj s; add_known gv types s
    | StructType _ => Panic "All types must be pointers to structs."
    end
  end.

Definition AddKnownTypes (gv : GroupVersion) (types : list reflect_type) (s : Scheme) : outcome Scheme :=
  add_known gv types (addObservedVersion gv s).

Fixpoint add_unversioned (version : GroupVersion) (types : list reflect_type) (s : Scheme) : outcome Scheme :=
  match types with
  | [] => Done s
  | obj :: types =>
    match obj with
    | PointerTo (StructType t) =>
      let gvk := WithKind version (type_Name t) in
      let s := mkScheme (gvkToType s) (typeToGVK s) (<[t := gvk]> (unversionedTypes s)) (unversionedKinds s)
                 (observedVersions s) in
      if match unversionedKinds s !! gvk_Kind gvk with Some old => bool_decide (t ≠ old) | None => false end
      then Panic "already registered as unversioned kind"
      else add_unversioned version types
             (mkScheme (gvkToType s) (typeToGVK s) (unversionedTypes s) (<[gvk_Kind gvk := t]> (unversionedKinds s))
                (observedVersions s))
    | _ => Panic "All types must be pointers to structs."
    end
  end.

Definition AddUnversionedTypes (version : GroupVersion) (types : list reflect_type) (s : Scheme) : outcome Scheme :=
  s ← AddKnownTypes version types (addObservedVersion version s);
  add_unversioned version types s.

(** [ObjectKinds] of an object that is not nil and not unstructured. *)
Definition ObjectKinds (s : Scheme) (obj : reflect_type) : result (list GroupVersionKind * bool) :=
  match obj with
  | PointerTo (StructType t) =>
    match typeToGVK s !! t with
    | Some gvks => Ok (gvks, bool_decide (is_Some (unversionedTypes s !! t)))
    | None => Err (Errorf "no kind is registered for the type")
    end
  | PointerTo _ => Err (Errorf "no kind is registered for the type")
  | StructType _ => Err (Errorf "expected pointer")
  end.

Definition Recognizes (s : Scheme) (gvk : GroupVersionKind) : bool :=
  bool_decide (is_Some (gvkToType s !! gvk)).

(** [New] gives a pointer to a zero struct. *)
Definition scheme_New (s : Scheme) (kind : GroupVersionKind) : result reflect_type :=
  match gvkToType s !! kind with
  | Some t => Ok (PointerTo (StructType t))
  | None =>
    match unversionedKinds s !! gvk_Kind kind with
    | Some t => Ok (PointerTo (StructType t))
    | None => Err (Errorf "no kind is registered")
    end
  end.

(** ** Builders *)

(** A function that adds things to a scheme. *)
Definition scheme_func := Scheme → outcome (option error * Scheme).
Definition SchemeBuilder := list scheme_func.

Fixpoint SchemeBuilder_AddToScheme (sb : SchemeBuilder) : scheme_func := λ s,
  match sb with
  | [] => Done (None, s)
  | f :: sb =>
    '(err, s) ← f s;
    match err with
    | Some err => Done (Some err, s)
    | None => SchemeBuilder_AddToScheme sb s
    end
  end.

(** The types of apis/meta/v1. *)
Definition metav1 : string := "k8s.io/apimachinery/pkg/apis/meta/v1".
Definition ptr (pkg name : string) : reflect_type := PointerTo (StructType (mkStruct pkg name)).

Definition Unversioned : GroupVersion := mkGV "" "v1".
Definition WatchEventKind : string := "WatchEvent".
Definition optionsTypes : list reflect_type :=
  ptr metav1 <$> ["ListOptions"; "GetOptions"; "DeleteOptions"; "CreateOptions"; "UpdateOptions"; "PatchOptions"].
Definition unversioned_types : list reflect_type :=
  ptr metav1 <$> ["Status"; "APIVersions"; "APIGroupList"; "APIGroup"; "APIResourceList"].

Definition AddToGroupVersion (groupVersion : GroupVersion) (s : Scheme) : outcome Scheme :=
  s ← AddKnownTypeWithName (WithKind groupVersion WatchEventKind) (ptr metav1 "WatchEvent") s;
  s ← AddKnownTypeWithName (WithKind (mkGV (Group groupVersion) APIVersionInternal) WatchEventKind)
        (ptr metav1 "InternalEvent") s;
  s ← AddKnownTypes groupVersion optionsTypes s;
  AddUnversionedTypes Unversioned unversioned_types s.

(** controller-runtime's builder. *)
Record Builder := mkBuilder { bld_GroupVersion : GroupVersion; bld_funcs : SchemeBuilder }.

Definition Builder_Register (objects : list reflect_type) (bld : Builder) : Builder :=
  mkBuilder (bld_GroupVersion bld) (bld_funcs bld ++ [λ s,
    s ← AddKnownTypes (bld_GroupVersion bld) objects s;
    s ← AddToGroupVersion (bld_GroupVersion bld) s;
    Done (None, s)]).

Definition Builder_AddToScheme (bld : Builder) : scheme_func := SchemeBuilder_AddToScheme (bld_funcs bld).

(** ** What the program registers *)

Definition api_v1 : string := "github.com/noovertime7/kubemonitor/api/v1".
Definition api_copy : string := "github.com/noovertime7/kubemonitor/api/kubemonitor.io.kubemonitor.io/v1".

(** api/v1: groupversion_info.go and the init functions of the types, which run in the
    order of their files. *)
Definition v1_SchemeBuilder : Builder := mkBuilder api_GroupVersion [].
Definition v1_monitor_init : Builder → Builder := Builder_Register [ptr api_v1 "Monitor"; ptr api_v1 "MonitorList"].
Definition v1_prometheuspush_init : Builder → Builder :=
  Builder_Register [ptr api_v1 "PrometheusPush"; ptr api_v1 "PrometheusPushList"].
Definition v1_AddToScheme : scheme_func :=
  Builder_AddToScheme (v1_prometheuspush_init (v1_monitor_init v1_SchemeBuilder)).

(** The copy of it that the generated code imports as kubemonitorv1. *)
Definition kubemonitorv1_GroupVersion : GroupVersion := mkGV "kubemonitor.io.kubemonitor.io" "v1".
Definition kubemonitorv1_SchemeBuilder : Builder := mkBuilder kubemonitorv1_GroupVersion [].
Definition kubemonitorv1_monitor_init : Builder → Builder :=
  Builder_Register [ptr api_copy "Monitor"; ptr api_copy "MonitorList"].
Definition kubemonitorv1_prometheuspush_init : Builder → Builder :=
  Builder_Register [ptr api_copy "PrometheusPush"; ptr api_copy "PrometheusPushList"].
Definition kubemonitorv1_AddToScheme : scheme_func :=
  Builder_AddToScheme (kubemonitorv1_prometheuspush_init (kubemonitorv1_monitor_init kubemonitorv1_SchemeBuilder)).

(** [utilruntime.Must]. *)
Definition Must (r : option error * Scheme) : outcome Scheme :=
  match r with
  | (None, s) => Done s
  | (Some _, _) => Panic "error"
  end.

(** scheme/register.go. *)
Definition localSchemeBuilder : SchemeBuilder := [kubemonitorv1_AddToScheme].
Definition AddToScheme : scheme_func := SchemeBuilder_AddToScheme localSchemeBuilder.
Definition scheme_init : outcome Scheme :=
  s ← AddToGroupVersion (mkGV "" "v1") NewScheme;
  r ← AddToScheme s;
  Must r.

(** fake/register.go. *)
Definition fake_localSchemeBuilder : SchemeBuilder := [kubemonitorv1_AddToScheme].
Definition fake_AddToScheme : scheme_func := SchemeBuilder_AddToScheme fake_localSchemeBuilder.
Definition fake_scheme_init : outcome Scheme :=
  s ← AddToGroupVersion (mkGV "" "v1") NewScheme;
  r ← fake_AddToScheme s;
  Must r.

(** cmd/main.go: the scheme of the manager. What client-go registers is an argument. *)
Definition main_init (clientgoscheme_AddToScheme : scheme_func) : outcome Scheme :=
  r ← clientgoscheme_AddToScheme NewScheme;
  s ← Must r;
  r ← v1_AddToScheme s;
  Must r.

(** ** Consistency *)

Definition object_kinds (s : Scheme) (t : struct_type) : list GroupVersionKind := default [] (typeToGVK s !! t).

(** The two maps of the registry are each other's inverse, and what is unversioned is
    registered under its name. *)
Record consistent (s : Scheme) : Prop := {
  kinds_of_types gvk t : gvkToType s !! gvk = Some t ↔ gvk ∈ object_kinds s t;
  kinds_listed t l : typeToGVK s !! t = Some l → NoDup l ∧ l ≠ [];
  unversioned_known t gvk : unversionedTypes s !! t = Some gvk → gvkToType s !! gvk = Some t ∧ gvk_Kind gvk = type_Name t;
  unversioned_named k t : unversionedKinds s !! k = Some t → ∃ gvk, unversionedTypes s !! t = Some gvk ∧ gvk_Kind gvk = k
}.

Lemma consistent_new : consistent NewScheme.
Proof. split; unfold object_kinds; simpl; intros; rewrite ?lookup_empty in *; [by split; [|intros ?%elem_of_nil]|done..]. Qed.

Lemma consistent_observed version s : consistent s → consistent (addObservedVersion version s).
Proof. intros []. unfold addObservedVersion. repeat case_decide; by split. Qed.

Lemma observed_maps version s : gvkToType (addObservedVersion version s) = gvkToType s ∧
  typeToGVK (addObservedVersion version s) = typeToGVK s ∧
  unversionedTypes (addObservedVersion version s) = unversionedTypes s ∧
  unversionedKinds (addObservedVersion version s) = unversionedKinds s.
Proof. unfold addObservedVersion. by repeat case_decide. Qed.

(** ** What a registration does *)

(** The kinds [es] can be registered with the types they have here, and the
    unversioned kinds [us]. *)
Definition fits (es : gmap GroupVersionKind struct_type) (us : gmap string struct_type) (s : Scheme) : Prop :=
  map_agree es (gvkToType s) ∧ map_agree us (unversionedKinds s).

(** [f] registers [es] and [us]: it panics exactly when they do not fit, and adds
    nothing else. *)
Definition registers (f : Scheme → outcome Scheme) es us : Prop := ∀ s, consistent s →
  match f s with
  | Done s' => fits es us s ∧ consistent s' ∧ gvkToType s' = es ∪ gvkToType s ∧
      unversionedKinds s' = us ∪ unversionedKinds s ∧
      ∀ t, is_Some (unversionedTypes s' !! t) → is_Some (unversionedTypes s !! t) ∨ ∃ k, us !! k = Some t
  | Panic _ => ¬ fits es us s
  end.

Section agree.
Context {K A : Type} `{Countable K}.
Implicit Types m : gmap K A.

Lemma map_agree_comm m1 m2 : map_agree m1 m2 → m1 ∪ m2 = m2 ∪ m1.
Proof.
  rewrite map_agree_spec. intros Hm. apply map_eq. intros i. specialize (Hm i). rewrite !lookup_union.
  destruct (m1 !! i), (m2 !! i); simpl; [|done..]. by rewrite (Hm a a0).
Qed.

Lemma map_agree_union m1 m2 m : map_agree m1 m2 → map_agree (m1 ∪ m2) m ↔ map_agree m1 m ∧ map_agree m2 (m1 ∪ m).
Proof.
  rewrite !map_agree_spec. intros H12. split.
  - intros Hu. split.
    + intros i x y H1 Hm. apply (Hu i); [by apply lookup_union_Some_raw; left|done].
    + intros i x y H2 [H1|[H1 Hm]]%lookup_union_Some_raw; [symmetry; by apply (H12 i)|].
      apply (Hu i); [|done]. apply lookup_union_Some_raw. by right.
  - intros [H1m H2m] i x y [H1|[H1 H2]]%lookup_union_Some_raw Hm; [by apply (H1m i)|].
    apply (H2m i); [done|]. apply lookup_union_Some_raw. by right.
Qed.
End agree.

Lemma registers_seq f g es1 us1 es2 us2 : map_agree es1 es2 → map_agree us1 us2 →
  registers f es1 us1 → registers g es2 us2 → registers (λ s, s' ← f s; g s') (es1 ∪ es2) (us1 ∪ us2).
Proof.
  intros He Hu Hf Hg s Hs. specialize (Hf s Hs). unfold fits in *. simpl.
  destruct (f s) as [s1|]; simpl; [|rewrite !map_agree_union by done; tauto].
  destruct Hf as ((He1 & Hu1) & Hs1 & Hk1 & Hn1 & Ht1). specialize (Hg s1 Hs1). unfold fits in Hg.
  rewrite Hk1, Hn1 in Hg. destruct (g s1) as [s2|]; rewrite !map_agree_union by done; [|tauto].
  destruct Hg as ((He2 & Hu2) & Hs2 & Hk2 & Hn2 & Ht2). split_and!; try done.
  - by rewrite Hk2, (assoc_L (∪)), (map_agree_comm es1 es2).
  - by rewrite Hn2, (assoc_L (∪)), (map_agree_comm us1 us2).
  - intros t [H1|(k & Hk)]%Ht2; [apply Ht1 in H1 as [?|(k & Hk)]; [by left|]|]; right; exists k;
      apply lookup_union_Some_raw; [by left|].
    destruct (us1 !! k) as [t'|] eqn:E; [|by right]. left. f_equal. by eapply (proj1 (map_agree_spec us1 us2)).
Qed.

Lemma registers_id : registers Done ∅ ∅.
Proof.
  intros s Hs. unfold fits. cbn. rewrite !(left_id_L ∅ (∪)). split_and!; try apply map_agree_empty_l; auto.
Qed.

Lemma registers_observed version : registers (λ s, Done (addObservedVersion version s)) ∅ ∅.
Proof.
  intros s Hs. unfold fits. cbn. destruct (observed_maps version s) as (-> & _ & -> & ->). rewrite !(left_id_L ∅ (∪)).
  split_and!; try apply map_agree_empty_l; auto using consistent_observed.
Qed.

Lemma registers_eq f g es es' us us' :
  registers f es us → (∀ s, f s = g s) → es = es' → us = us' → registers g es' us'.
Proof. intros Hf E <- <- s Hs. rewrite <- E. by apply Hf. Qed.

Lemma registers_known gvk pkg name : Version (gvk_GroupVersion gvk) ≠ "" →
  registers (AddKnownTypeWithName gvk (ptr pkg name)) {[gvk := mkStruct pkg name]} ∅.
Proof.
  intros Hv s Hs. unfold AddKnownTypeWithName, ptr. rewrite decide_False by done. generalize (mkStruct pkg name) as t. intros t.
  destruct (observed_maps (gvk_GroupVersion gvk) s) as (Hk & Ht & Hu & Hn).
  apply (consistent_observed (gvk_GroupVersion gvk)) in Hs. unfold fits. rewrite <- Hk, <- Hn, <- Hu.
  clear Hk Ht Hu Hn. revert Hs. generalize (addObservedVersion (gvk_GroupVersion gvk) s). clear s. intros s Hs.
  destruct (gvkToType s !! gvk) as [oldT|] eqn:Hold.
  - case_bool_decide as Hne; [intros [[E|E]%map_agree_singleton_l _]; congruence|]. subst oldT.
    simpl. assert (<[gvk:=t]> (gvkToType s) = gvkToType s) as -> by by apply insert_id.
    pose proof Hold as Hin%(kinds_of_types s Hs). unfold object_kinds in Hin. rewrite decide_True by done.
    rewrite map_agree_singleton_l. split_and!; try done; [by left|apply map_agree_empty_l|by destruct s| | |by left].
    + simpl. by rewrite <- insert_union_singleton_l, insert_id.
    + by rewrite (left_id_L ∅ (∪)).
  - simpl. rewrite decide_False.
    2: { intros Hin. assert (gvkToType s !! gvk = Some t) by by apply (kinds_of_types s Hs). congruence. }
    rewrite map_agree_singleton_l. split_and!; simpl; [by right|apply map_agree_empty_l| |by rewrite <- insert_union_singleton_l| |by left].
    2: by rewrite (left_id_L ∅ (∪)).
    destruct Hs as [H1 H2 H3 H4]. split; unfold object_kinds in *; simpl.
    + intros gvk' t'. destruct (decide (t = t')) as [<-|Hn'].
      * rewrite lookup_insert_eq. simpl. rewrite elem_of_app, list_elem_of_singleton, <- H1.
        destruct (decide (gvk = gvk')) as [<-|Hg]; [rewrite lookup_insert_eq; naive_solver|].
        rewrite lookup_insert_ne by done. naive_solver.
      * rewrite (lookup_insert_ne (typeToGVK s)) by done. rewrite <- H1.
        destruct (decide (gvk = gvk')) as [<-|Hg]; [rewrite lookup_insert_eq, Hold; naive_solver|].
        by rewrite lookup_insert_ne by done.
    + intros t' l. destruct (decide (t = t')) as [<-|Hn']; [|rewrite lookup_insert_ne by done; apply H2].
      rewrite lookup_insert_eq. intros [= <-]. split; [|by destruct (default _ _)].
      apply NoDup_app. split_and!; [|intros g Hg ->%list_elem_of_singleton|apply NoDup_singleton].
      * destruct (typeToGVK s !! t) as [l|] eqn:E; [by apply (H2 t l)|apply NoDup_nil_2].
      * apply H1 in Hg. congruence.
    + intros t' gvk' [Hk' Hn']%H3. split; [|done]. rewrite lookup_insert_ne; [done|]. congruence.
    + done.
Qed.

(** *** Lists of types *)

Definition kinds_map (gv : GroupVersion) (pkg : string) (names : list string) : gmap GroupVersionKind struct_type :=
  list_to_map ((λ n, (WithKind gv n, mkStruct pkg n)) <$> names).
Definition names_map (pkg : string) (names : list string) : gmap string struct_type :=
  list_to_map ((λ n, (n, mkStruct pkg n)) <$> names).

Lemma kinds_map_Some gv pkg names gvk t : kinds_map gv pkg names !! gvk = Some t →
  ∃ n, n ∈ names ∧ gvk = WithKind gv n ∧ t = mkStruct pkg n.
Proof. intros Hl%elem_of_list_to_map_2. apply list_elem_of_fmap in Hl as (n & [= -> ->] & Hn). by exists n. Qed.

Lemma kinds_map_lookup gv pkg names n : n ∈ names → kinds_map gv pkg names !! WithKind gv n = Some (mkStruct pkg n).
Proof.
  unfold kinds_map. induction names as [|m names IH]; [by intros ?%elem_of_nil|]. intros Hn. rewrite fmap_cons. simpl.
  destruct (decide (m = n)) as [->|Hm]; [by rewrite lookup_insert_eq|].
  rewrite lookup_insert_ne by (unfold WithKind; congruence). apply IH. set_solver.
Qed.

Lemma names_map_Some pkg names k t : names_map pkg names !! k = Some t → k ∈ names ∧ t = mkStruct pkg k.
Proof. intros Hl%elem_of_list_to_map_2. by apply list_elem_of_fmap in Hl as (n & [= -> ->] & Hn). Qed.

Lemma registers_list gv pkg names : Version gv ≠ "" →
  registers (add_known gv (ptr pkg <$> names)) (kinds_map gv pkg names) ∅.
Proof.
  intros Hv. induction names as [|n names IH]; [apply registers_id|].
  eapply registers_eq;
    [eapply registers_seq; cycle 2; [by apply (registers_known (WithKind gv n) pkg n)|exact IH| |]|done| |].
  - apply map_agree_singleton_l. destruct (kinds_map gv pkg names !! WithKind gv n) as [t|] eqn:Hl; [left|by right].
    by apply kinds_map_Some in Hl as (m & _ & [= <-] & ->).
  - apply map_agree_empty_l.
  - symmetry. apply insert_union_singleton_l.
  - apply (left_id_L ∅ (∪)).
Qed.

Lemma registers_types gv pkg names : Version gv ≠ "" →
  registers (AddKnownTypes gv (ptr pkg <$> names)) (kinds_map gv pkg names) ∅.
Proof.
  intros Hv. eapply registers_eq;
    [eapply registers_seq; cycle 2; [apply (registers_observed gv)|by apply registers_list| |]
    |done|apply (left_id_L ∅ (∪))|apply (left_id_L ∅ (∪))]; apply map_agree_empty_l.
Qed.

Lemma consistent_unversioned s gvk t : consistent s → gvkToType s !! gvk = Some t → gvk_Kind gvk = type_Name t →
  consistent (mkScheme (gvkToType s) (typeToGVK s) (<[t := gvk]> (unversionedTypes s))
    (<[gvk_Kind gvk := t]> (unversionedKinds s)) (observedVersions s)).
Proof.
  intros [H1 H2 H3 H4] Hg Hn. split; simpl; [done|done| |].
  - intros t' gvk'. destruct (decide (t = t')) as [<-|Ht]; [rewrite lookup_insert_eq; by intros [= <-]|].
    rewrite lookup_insert_ne by done. apply H3.
  - intros k t'. destruct (decide (gvk_Kind gvk = k)) as [<-|Hk].
    + rewrite lookup_insert_eq. intros [= <-]. exists gvk. by rewrite lookup_insert_eq.
    + rewrite lookup_insert_ne by done. intros (gvk' & Hu & <-)%H4. exists gvk'.
      destruct (decide (t = t')) as [<-|Ht]; [apply H3 in Hu as [_ Hu]; congruence|]. by rewrite lookup_insert_ne.
Qed.

Lemma add_unversioned_spec v pkg names s : consistent s →
  (∀ n, n ∈ names → gvkToType s !! WithKind v n = Some (mkStruct pkg n)) →
  match add_unversioned v (ptr pkg <$> names) s with
  | Done s' => map_agree (names_map pkg names) (unversionedKinds s) ∧ consistent s' ∧ gvkToType s' = gvkToType s ∧
      unversionedKinds s' = names_map pkg names ∪ unversionedKinds s ∧
      ∀ t, is_Some (unversionedTypes s' !! t) → is_Some (unversionedTypes s !! t) ∨ ∃ k, names_map pkg names !! k = Some t
  | Panic _ => ¬ map_agree (names_map pkg names) (unversionedKinds s)
  end.
Proof.
  revert s. induction names as [|n names IH]; intros s Hs Hk.
  { change (names_map pkg []) with (∅ : gmap string struct_type). simpl. rewrite (left_id_L ∅ (∪)).
    split_and!; [apply map_agree_empty_l|done|done|done|by left]. }
  assert (names_map pkg (n :: names) = {[n := mkStruct pkg n]} ∪ names_map pkg names) as Hcons
    by (unfold names_map; rewrite !fmap_cons; simpl; apply insert_union_singleton_l).
  assert (map_agree {[n := mkStruct pkg n]} (names_map pkg names)) as Hag.
  { apply map_agree_singleton_l. destruct (names_map pkg names !! n) as [t|] eqn:Hl; [left|by right].
    by apply names_map_Some in Hl as [_ ->]. }
  rewrite fmap_cons. cbn [add_unversioned ptr type_Name gvk_Kind WithKind unversionedKinds gvkToType typeToGVK unversionedTypes].
  rewrite Hcons. clear Hcons. set (t := mkStruct pkg n) in *.
  destruct (match unversionedKinds s !! n with Some old => _ | None => false end) eqn:Hold.
  - rewrite map_agree_union by done. rewrite map_agree_singleton_l.
    destruct (unversionedKinds s !! n) as [old|]; [|done]. apply bool_decide_eq_true_1 in Hold. intros [[E|E] _]; congruence.
  - specialize (IH _ (consistent_unversioned s (WithKind v n) t Hs (Hk n ltac:(left)) eq_refl) (λ m Hm, Hk m ltac:(by right))).
    cbn [gvk_Kind WithKind] in IH. cbn [gvkToType unversionedKinds unversionedTypes] in IH.
    assert (map_agree {[n := t]} (unversionedKinds s)) as Hn.
    { apply map_agree_singleton_l. destruct (unversionedKinds s !! n) as [old|]; [left|by right].
      apply bool_decide_eq_false_1, dec_stable in Hold. by subst. }
    destruct (add_unversioned v (ptr pkg <$> names) _) as [s'|]; rewrite insert_union_singleton_l in IH;
      rewrite map_agree_union by done; [|tauto].
    destruct IH as (Ha & Hs' & Hg & Hu & Ht). split_and!; try done.
    + by rewrite Hu, (assoc_L (∪)), (map_agree_comm {[n := t]}).
    + intros t' Ht'%Ht. destruct Ht' as [Ht'|(k & Hk')].
      * destruct (decide (t = t')) as [<-|Hne].
        -- right. exists n. apply lookup_union_Some_raw. left. apply lookup_singleton_eq.
        -- left. by rewrite lookup_insert_ne in Ht' by done.
      * right. exists k. rewrite (map_agree_comm {[n := t]}) by done. apply lookup_union_Some_raw. by left.
Qed.

Lemma registers_unversioned v pkg names : Version v ≠ "" →
  registers (AddUnversionedTypes v (ptr pkg <$> names)) (kinds_map v pkg names) (names_map pkg names).
Proof.
  intros Hv s Hs. unfold AddUnversionedTypes.
  assert (registers (λ s, AddKnownTypes v (ptr pkg <$> names) (addObservedVersion v s)) (kinds_map v pkg names) ∅) as Hr.
  { eapply registers_eq;
      [eapply registers_seq; cycle 2; [apply (registers_observed v)|by apply registers_types| |]
      |done|apply (left_id_L ∅ (∪))|apply (left_id_L ∅ (∪))]; apply map_agree_empty_l. }
  specialize (Hr s Hs). cbn beta in Hr. destruct (AddKnownTypes v _ _) as [s1|]; simpl; [|unfold fits in *; contradict Hr].
  - destruct Hr as ((Ha & _) & Hs1 & Hk1 & Hu1 & Ht1).
    assert (∀ n, n ∈ names → gvkToType s1 !! WithKind v n = Some (mkStruct pkg n)) as Hn.
    { intros n Hn. rewrite Hk1. apply lookup_union_Some_raw. left. by apply kinds_map_lookup. }
    pose proof (add_unversioned_spec v pkg names s1 Hs1 Hn) as Hspec. unfold fits.
    rewrite Hu1, (left_id_L ∅ (∪)) in Hspec. destruct (add_unversioned v _ s1) as [s2|]; [|tauto].
    destruct Hspec as (Ha2 & Hs2 & Hk2 & Hu2 & Ht2). split_and!; [done|done|done|by rewrite Hk2|done|].
    intros t [Ht|Ht]%Ht2; [|by right]. apply Ht1 in Ht as [Ht|[k Hk]]; [by left|by rewrite lookup_empty in Hk].
  - destruct Hr as [Ha _]. split; [done|apply map_agree_empty_l].
Qed.

(** *** The registrations of this program *)

(** What [AddToGroupVersion] registers. *)
Definition meta_kinds (gv : GroupVersion) : gmap GroupVersionKind struct_type :=
  {[WithKind gv WatchEventKind := mkStruct metav1 "WatchEvent"]} ∪
  ({[WithKind (mkGV (Group gv) APIVersionInternal) WatchEventKind := mkStruct metav1 "InternalEvent"]} ∪
  (kinds_map gv metav1 ["ListOptions"; "GetOptions"; "DeleteOptions"; "CreateOptions"; "UpdateOptions"; "PatchOptions"] ∪
   kinds_map Unversioned metav1 ["Status"; "APIVersions"; "APIGroupList"; "APIGroup"; "APIResourceList"])).
Definition meta_names : gmap string struct_type :=
  names_map metav1 ["Status"; "APIVersions"; "APIGroupList"; "APIGroup"; "APIResourceList"].

(** The kinds of this API, for the types of a package, and all that is registered with
    them. *)
Definition type_kinds (pkg : string) : gmap GroupVersionKind struct_type :=
  kinds_map api_GroupVersion pkg ["Monitor"; "MonitorList"] ∪ kinds_map api_GroupVersion pkg ["PrometheusPush"; "PrometheusPushList"].
Definition api_kinds (pkg : string) : gmap GroupVersionKind struct_type := type_kinds pkg ∪ meta_kinds api_GroupVersion.

Ltac agree := apply (bool_decide_eq_true_1 _); vm_compute; reflexivity.

(** The group versions that the program passes to [AddToGroupVersion]. *)
Definition program_group (gv : GroupVersion) : Prop := gv = api_GroupVersion ∨ gv = mkGV "" "v1".

Lemma registers_group gv : program_group gv → registers (AddToGroupVersion gv) (meta_kinds gv) meta_names.
Proof.
  intros Hgv. assert (Version gv ≠ "") as Hv by by destruct Hgv as [-> | ->].
  eapply registers_eq; [eapply registers_seq; cycle 2;
    [by apply (registers_known (WithKind gv WatchEventKind))
    |eapply registers_seq; cycle 2;
      [by apply (registers_known (WithKind (mkGV (Group gv) APIVersionInternal) WatchEventKind))
      |eapply registers_seq; cycle 2; [by apply (registers_types gv metav1)|by apply (registers_unversioned Unversioned metav1)| |]
      | |]| |]|done|done|].
  all: try (by apply map_agree_empty_l || by rewrite !(left_id_L ∅ (∪))).
  all: destruct Hgv as [-> | ->]; agree.
Qed.

(** A function of a builder registers, and never returns an error. *)
Definition registers_func (f : scheme_func) es us : Prop :=
  registers (λ s, r ← f s; Must r) es us ∧ ∀ s e s', f s = Done (e, s') → e = None.

Lemma registers_func_nil : registers_func (SchemeBuilder_AddToScheme []) ∅ ∅.
Proof. split; [apply registers_id|]. by intros s e s' [= <- _]. Qed.

Lemma registers_func_cons f sb es1 us1 es2 us2 : map_agree es1 es2 → map_agree us1 us2 →
  registers_func f es1 us1 → registers_func (SchemeBuilder_AddToScheme sb) es2 us2 →
  registers_func (SchemeBuilder_AddToScheme (f :: sb)) (es1 ∪ es2) (us1 ∪ us2).
Proof.
  intros He Hu [Hf Hfe] [Hg Hge]. split.
  - eapply registers_eq; [by eapply (registers_seq _ _ _ _ _ _ He Hu)| |done|done].
    intros s. simpl. by destruct (f s) as [[[err|] s1]|].
  - intros s e s'. simpl. destruct (f s) as [[[err|] s1]|] eqn:Hf1; simpl; [by apply Hfe in Hf1|apply Hge|done].
Qed.

(** What the function of [Builder_Register] registers. *)
Lemma registers_register pkg names : map_agree (kinds_map api_GroupVersion pkg names) (meta_kinds api_GroupVersion) →
  registers_func (λ s, s ← AddKnownTypes api_GroupVersion (ptr pkg <$> names) s;
    s ← AddToGroupVersion api_GroupVersion s; Done (None, s))
    (kinds_map api_GroupVersion pkg names ∪ meta_kinds api_GroupVersion) meta_names.
Proof.
  intros Ha. split.
  - eapply registers_eq; [eapply registers_seq; cycle 2; [by apply (registers_types api_GroupVersion pkg names)
      |by apply (registers_group api_GroupVersion); left|done|apply map_agree_empty_l]| |done|apply (left_id_L ∅ (∪))].
    intros s. cbn beta. destruct (AddKnownTypes _ _ s) as [s1|]; [|done]. simpl. by destruct (AddToGroupVersion _ s1).
  - intros s e s'. destruct (AddKnownTypes _ _ s) as [s1|]; [|done]. simpl.
    destruct (AddToGroupVersion _ s1); [|done]. by intros [= <- _].
Qed.

(** Both packages register their types and those of apis/meta/v1. *)
Lemma registers_package pkg f : pkg = api_v1 ∧ f = v1_AddToScheme ∨ pkg = api_copy ∧ f = kubemonitorv1_AddToScheme →
  registers_func f (api_kinds pkg) meta_names.
Proof.
  intros Hp.
  assert (∀ names, names = ["Monitor"; "MonitorList"] ∨ names = ["PrometheusPush"; "PrometheusPushList"] →
    map_agree (kinds_map api_GroupVersion pkg names) (meta_kinds api_GroupVersion)) as Ha.
  { intros names [-> | ->]; destruct Hp as [[-> _]|[-> _]]; agree. }
  pose proof (registers_register _ _ (Ha _ (or_introl eq_refl))) as Hf1.
  pose proof (registers_register _ _ (Ha _ (or_intror eq_refl))) as Hf2.
  pose proof (registers_func_cons _ _ _ _ _ _ (map_agree_empty_r _) (map_agree_empty_r _) Hf2 registers_func_nil) as Hf.
  eapply registers_func_cons in Hf; [|..|exact Hf1]; [|destruct Hp as [[-> _]|[-> _]]; agree|agree].
  assert (api_kinds pkg = (kinds_map api_GroupVersion pkg ["Monitor"; "MonitorList"] ∪ meta_kinds api_GroupVersion) ∪
    ((kinds_map api_GroupVersion pkg ["PrometheusPush"; "PrometheusPushList"] ∪ meta_kinds api_GroupVersion) ∪ ∅)) as ->
    by (destruct Hp as [[-> _]|[-> _]]; agree).
  assert (meta_names = meta_names ∪ (meta_names ∪ ∅)) as -> by agree.
  destruct Hp as [[-> ->]|[-> ->]]; exact Hf.
Qed.

(** ** Any registrations *)

Inductive registration :=
| KnownTypeWithName (gvk : GroupVersionKind) (obj : reflect_type)
| KnownTypes (gv : GroupVersion) (types : list reflect_type)
| UnversionedTypes (version : GroupVersion) (types : list reflect_type)
| ToGroupVersion (gv : GroupVersion).

Definition register (r : registration) (s : Scheme) : outcome Scheme :=
  match r with
  | KnownTypeWithName gvk obj => AddKnownTypeWithName gvk obj s
  | KnownTypes gv types => AddKnownTypes gv types s
  | UnversionedTypes version types => AddUnversionedTypes version types s
  | ToGroupVersion gv => AddToGroupVersion gv s
  end.

Fixpoint register_all (rs : list registration) (s : Scheme) : outcome Scheme :=
  match rs with
  | [] => Done s
  | r :: rs => s ← register r s; register_all rs s
  end.

(** [s'] comes of [s] by registrations: it is consistent, and no kind has changed its
    type. *)
Definition follows (s s' : Scheme) : Prop := consistent s' ∧ gvkToType s ⊆ gvkToType s'.

Lemma known_follows gvk obj s s' : consistent s → AddKnownTypeWithName gvk obj s = Done s' →
  follows s s' ∧ ∀ t, obj = PointerTo (StructType t) → gvkToType s' !! gvk = Some t.
Proof.
  intros Hs Hk. destruct (decide (Version (gvk_GroupVersion gvk) = "")) as [Hv|Hv].
  { unfold AddKnownTypeWithName in Hk. by rewrite decide_True in Hk. }
  destruct obj as [|[[pkg name]|]]; [|pose proof (registers_known gvk pkg name Hv s Hs) as Hr|];
    try (unfold AddKnownTypeWithName in Hk; by rewrite decide_False in Hk).
  unfold ptr in Hr. rewrite Hk in Hr. destruct Hr as ((Ha & _) & Hs' & Hg & _). rewrite Hg. split; [split; [done|]|].
  - rewrite Hg, (map_agree_comm _ _ Ha). apply map_union_subseteq_l.
  - intros t [= <-]. apply lookup_union_Some_raw. left. apply lookup_singleton_eq.
Qed.

Lemma follows_trans s1 s2 s3 : follows s1 s2 → follows s2 s3 → follows s1 s3.
Proof. intros [_ H1] [H2 H3]. split; [done|by etrans]. Qed.

Lemma list_follows gv types s s' : consistent s → add_known gv types s = Done s' →
  follows s s' ∧ ∀ t, PointerTo (StructType t) ∈ types → gvkToType s' !! WithKind gv (type_Name t) = Some t.
Proof.
  revert s. induction types as [|obj types IH]; intros s Hs.
  { intros [= <-]. split; [by split|by intros t ?%elem_of_nil]. }
  simpl. destruct obj as [|r]; [done|]. destruct (AddKnownTypeWithName _ _ s) as [s1|] eqn:Hk; [|done]. simpl. intros Hr.
  apply known_follows in Hk as [Hf1 Ht1]; [|done]. destruct (IH s1 (proj1 Hf1) Hr) as [Hf2 Ht2].
  split; [by eapply follows_trans|]. intros t [[= <-]|Ht]%elem_of_cons; [|by apply Ht2].
  eapply lookup_weaken; [by apply (Ht1 t)|apply Hf2].
Qed.

Lemma types_follow gv types s s' : consistent s → AddKnownTypes gv types s = Done s' →
  follows s s' ∧ ∀ t, PointerTo (StructType t) ∈ types → gvkToType s' !! WithKind gv (type_Name t) = Some t.
Proof.
  intros Hs Hk. apply list_follows in Hk as [[H1 H2] H3]; [|by apply consistent_observed].
  rewrite (proj1 (observed_maps gv s)) in H2. done.
Qed.

Lemma unversioned_follow version types s s' : consistent s → AddUnversionedTypes version types s = Done s' → follows s s'.
Proof.
  intros Hs. unfold AddUnversionedTypes. destruct (AddKnownTypes _ _ _) as [s1|] eqn:Hk; [|done]. simpl.
  apply types_follow in Hk as [[Hs1 H2] H3]; [|by apply consistent_observed].
  rewrite (proj1 (observed_maps version s)) in H2. intros Hu.
  assert (consistent s' ∧ gvkToType s' = gvkToType s1) as [Hs' Hg]; [|split; [done|by rewrite Hg]].
  clear H2. revert s1 Hs1 H3 Hu. induction types as [|obj types IH]; intros s1 Hs1 H3; [by intros [= <-]|].
  simpl. destruct obj as [|[t|]]; [done| |done]. destruct (match unversionedKinds s1 !! _ with Some _ => _ | None => _ end); [done|].
  intros Hu. apply IH in Hu as [? ?]; [done| |intros t' Ht'; apply H3; by right].
  apply (consistent_unversioned s1 (WithKind version (type_Name t)) t); [done|apply H3; by left|done].
Qed.

Lemma group_follows gv s s' : consistent s → AddToGroupVersion gv s = Done s' → follows s s'.
Proof.
  intros Hs. unfold AddToGroupVersion.
  destruct (AddKnownTypeWithName _ _ s) as [s1|] eqn:H1; [|done]. simpl. apply known_follows in H1 as [H1 _]; [|done].
  destruct (AddKnownTypeWithName _ _ s1) as [s2|] eqn:H2; [|done]. simpl. apply known_follows in H2 as [H2 _]; [|apply H1].
  destruct (AddKnownTypes _ _ s2) as [s3|] eqn:H3; [|done]. simpl. apply types_follow in H3 as [H3 _]; [|apply H2].
  intros H4%unversioned_follow; [|apply H3]. eauto using follows_trans.
Qed.

Lemma register_follows r s s' : consistent s → register r s = Done s' → follows s s'.
Proof.
  intros Hs. destruct r; simpl; intros Hr.
  - by apply known_follows in Hr as [? _].
  - by apply types_follow in Hr as [? _].
  - by apply unversioned_follow in Hr.
  - by apply group_follows in Hr.
Qed.

Lemma register_all_follows rs s s' : consistent s → register_all rs s = Done s' → follows s s'.
Proof.
  revert s. induction rs as [|r rs IH]; intros s Hs; [by intros [= <-]|]. simpl.
  destruct (register r s) as [s1|] eqn:Hr; [|done]. simpl. apply register_follows in Hr; [|done].
  intros Hrs. eapply follows_trans; [done|]. by apply IH; [apply Hr|].
Qed.

(** ** Properties *)

(** C24: Whatever is registered, and in whatever order, as long as nothing panics: an
    object's kinds are exactly those that make an object of its type, each once, and
    a kind that was registered before still makes the same. *)
Theorem scheme_roundtrip rs rs' s s' : register_all rs NewScheme = Done s → register_all rs' s = Done s' →
  (∀ obj gvks unversioned, ObjectKinds s' obj = Ok (gvks, unversioned) →
    gvks ≠ [] ∧ NoDup gvks ∧ ∀ gvk, gvk ∈ gvks ↔ Recognizes s' gvk = true ∧ scheme_New s' gvk = Ok obj) ∧
  (∀ gvk obj, Recognizes s gvk = true → scheme_New s gvk = Ok obj →
    scheme_New s' gvk = Ok obj ∧ ∃ gvks unversioned, ObjectKinds s' obj = Ok (gvks, unversioned) ∧ gvk ∈ gvks).
Proof.
  intros [Hs _]%register_all_follows Hrs; [|apply consistent_new].
  apply register_all_follows in Hrs as [Hs' Hsub]; [|done]. unfold Recognizes, scheme_New.
  assert (∀ gvk t, gvkToType s' !! gvk = Some t → ∃ gvks, typeToGVK s' !! t = Some gvks ∧ gvk ∈ gvks) as Hin.
  { intros gvk t Hg%(kinds_of_types s' Hs'). unfold object_kinds in Hg.
    destruct (typeToGVK s' !! t) as [gvks|]; [by exists gvks|by apply elem_of_nil in Hg]. }
  split.
  - intros obj gvks u Hk. destruct obj as [|[t|]]; [done| |done]. simpl in Hk.
    destruct (typeToGVK s' !! t) as [gvks'|] eqn:Ht; [|done]. injection Hk as -> _.
    destruct (kinds_listed s' Hs' t gvks Ht) as [Hd Hne]. split_and!; [done|done|]. intros gvk.
    pose proof (kinds_of_types s' Hs' gvk t) as Hg. unfold object_kinds in Hg. rewrite Ht in Hg. simpl in Hg. rewrite <- Hg.
    rewrite bool_decide_eq_true. split; [by intros ->; eauto|]. intros [[t' Ht'] Hn]. rewrite Ht' in *. congruence.
  - intros gvk obj [t Ht]%bool_decide_eq_true_1. rewrite Ht. intros [= <-].
    apply (lookup_weaken _ _ _ _ Ht) in Hsub. rewrite Hsub. split; [done|].
    destruct (Hin _ _ Hsub) as (gvks & Hl & Hg). simpl. rewrite Hl. eauto.
Qed.

(** What adding the API's types to a scheme does, for both packages: it panics exactly
    when one of the kinds is registered with another type, and otherwise adds them. *)
Theorem AddToScheme_spec pkg f s :
  pkg = api_v1 ∧ f = v1_AddToScheme ∨ pkg = api_copy ∧ f = kubemonitorv1_AddToScheme → consistent s →
  match f s with
  | Done (err, s') => fits (api_kinds pkg) meta_names s ∧ err = None ∧ consistent s' ∧
      gvkToType s' = api_kinds pkg ∪ gvkToType s ∧ unversionedKinds s' = meta_names ∪ unversionedKinds s ∧
      ∀ t, is_Some (unversionedTypes s' !! t) → is_Some (unversionedTypes s !! t) ∨ ∃ k, meta_names !! k = Some t
  | Panic _ => ¬ fits (api_kinds pkg) meta_names s
  end.
Proof.
  intros [Hr He]%registers_package Hs. specialize (Hr s Hs). cbn beta in Hr.
  destruct (f s) as [[err s']|] eqn:Hf; [|done]. pose proof (He _ _ _ Hf) as ->. cbn [mbind outcome_bind Must] in Hr.
  by destruct Hr as (? & ? & ? & ? & ?).
Qed.

(** The types of this API and of its copy. *)
Definition api_names : list string := ["Monitor"; "MonitorList"; "PrometheusPush"; "PrometheusPushList"].

Lemma api_kinds_types pkg gvk name : pkg = api_v1 ∨ pkg = api_copy → name ∈ api_names →
  api_kinds pkg !! gvk = Some (mkStruct pkg name) ↔ gvk = WithKind api_GroupVersion name.
Proof.
  intros Hp Hn. unfold api_names in Hn. split.
  - intros Hg%elem_of_map_to_list.
    assert (Forall (λ kt, kt.2 = mkStruct pkg name → kt.1 = WithKind api_GroupVersion name) (map_to_list (api_kinds pkg))) as Hall.
    { rewrite !elem_of_cons, elem_of_nil in Hn.
      destruct Hp as [-> | ->], Hn as [-> |[-> |[-> |[-> |[]]]]]; agree. }
    rewrite Forall_forall in Hall. by apply (Hall (gvk, mkStruct pkg name)).
  - intros ->. rewrite !elem_of_cons, elem_of_nil in Hn.
    destruct Hp as [-> | ->], Hn as [-> |[-> |[-> |[-> |[]]]]]; vm_compute; reflexivity.
Qed.

(** The scheme of the manager, whatever client-go registers in it that leaves this
    API's group and package alone: the program starts without a panic, and each of its
    types has one kind, its own. *)
Theorem main_scheme clientgo s0 :
  clientgo NewScheme = Done (None, s0) → consistent s0 → fits (api_kinds api_v1) meta_names s0 →
  (∀ name, typeToGVK s0 !! mkStruct api_v1 name = None) →
  ∃ s, main_init clientgo = Done s ∧ consistent s ∧ gvkToType s0 ⊆ gvkToType s ∧
    ∀ name, name ∈ api_names →
      ObjectKinds s (ptr api_v1 name) = Ok ([WithKind api_GroupVersion name], false) ∧
      scheme_New s (WithKind api_GroupVersion name) = Ok (ptr api_v1 name).
Proof.
  intros Hc Hs0 Hfit Hfresh. unfold main_init. rewrite Hc. cbn [mbind outcome_bind Must].
  pose proof (AddToScheme_spec api_v1 v1_AddToScheme s0 (or_introl (conj eq_refl eq_refl)) Hs0) as Hspec.
  destruct (v1_AddToScheme s0) as [[err s]|]; [|done]. destruct Hspec as (Ha & -> & Hs & Hg & Hn & Hu).
  exists s. split; [done|]. split; [done|]. rewrite Hg. split.
  { rewrite (map_agree_comm _ _ (proj1 Hfit)). apply map_union_subseteq_l. }
  intros name Hname.
  assert (∀ gvk, gvk ∈ object_kinds s (mkStruct api_v1 name) ↔ gvk = WithKind api_GroupVersion name) as Hk.
  { intros gvk. rewrite <- (kinds_of_types s Hs), Hg, <- (api_kinds_types api_v1) by (try left; done).
    rewrite lookup_union_Some_raw. split; [|by left]. intros [?|[_ H0]]; [done|].
    apply (kinds_of_types s0 Hs0) in H0. unfold object_kinds in H0. rewrite Hfresh in H0. destruct (not_elem_of_nil _ H0). }
  split.
  - unfold ptr. cbn [ObjectKinds]. unfold object_kinds in Hk. destruct (typeToGVK s !! mkStruct api_v1 name) as [l|] eqn:Hl.
    + destruct (kinds_listed s Hs _ _ Hl) as [Hd Hne]. cbn [default] in Hk.
      assert (l = [WithKind api_GroupVersion name]) as ->.
      { destruct l as [|g [|g' l]]; [done| |].
        - f_equal. apply Hk. by left.
        - exfalso. assert (g = WithKind api_GroupVersion name) as -> by (apply Hk; by left).
          assert (g' = WithKind api_GroupVersion name) as -> by (apply Hk; by right; left).
          apply NoDup_cons in Hd as [[] _]. by left. }
      rewrite bool_decide_eq_false_2; [done|]. intros [[gvk Hu0]|[k Hk0]]%Hu.
      * apply (unversioned_known s0 Hs0) in Hu0 as [Hu0 _]. apply (kinds_of_types s0 Hs0) in Hu0.
        unfold object_kinds in Hu0. rewrite Hfresh in Hu0. destruct (not_elem_of_nil _ Hu0).
      * by apply names_map_Some in Hk0 as [_ [= ]].
    + destruct (not_elem_of_nil (WithKind api_GroupVersion name)). by apply Hk.
  - unfold scheme_New, ptr. rewrite Hg.
    assert ((api_kinds api_v1 ∪ gvkToType s0) !! WithKind api_GroupVersion name = Some (mkStruct api_v1 name)) as ->; [|done].
    apply lookup_union_Some_raw. left. apply api_kinds_types; [by left|done|done].
Qed.

(** The operator's types and their copy cannot be in one scheme: whichever comes first,
    adding the other panics, as the generated AddToScheme does on the scheme that
    main makes. *)
Theorem packages_conflict f g s s' :
  (f = v1_AddToScheme ∧ g = kubemonitorv1_AddToScheme ∨ f = kubemonitorv1_AddToScheme ∧ g = v1_AddToScheme) →
  consistent s → f s = Done (None, s') → is_panic (g s').
Proof.
  intros Hfg Hs Hf.
  assert (∃ p q, (p = api_v1 ∧ q = api_copy ∨ p = api_copy ∧ q = api_v1) ∧
    (p = api_v1 ∧ f = v1_AddToScheme ∨ p = api_copy ∧ f = kubemonitorv1_AddToScheme) ∧
    (q = api_v1 ∧ g = v1_AddToScheme ∨ q = api_copy ∧ g = kubemonitorv1_AddToScheme)) as (p & q & Hpq & Hp & Hq)
    by (destruct Hfg as [[-> ->]|[-> ->]]; [exists api_v1, api_copy|exists api_copy, api_v1]; tauto).
  pose proof (AddToScheme_spec p f s Hp Hs) as Hfs. rewrite Hf in Hfs. destruct Hfs as (_ & _ & Hs' & Hk & _).
  pose proof (AddToScheme_spec q g s' Hq Hs') as Hg. destruct (g s') as [[err s2]|msg]; [|by exists msg].
  destruct Hg as ((Ha & _) & _). exfalso. rewrite Hk, map_agree_spec in Ha.
  assert (∀ p, p = api_v1 ∨ p = api_copy → api_kinds p !! WithKind api_GroupVersion "Monitor" = Some (mkStruct p "Monitor")) as Hm.
  { intros p' Hp'. apply api_kinds_types; [done|by left|done]. }
  assert (mkStruct q "Monitor" = mkStruct p "Monitor") as [= E].
  { apply (Ha (WithKind api_GroupVersion "Monitor")); [apply Hm; tauto|].
    apply lookup_union_Some_raw. left. apply Hm. tauto. }
  by destruct Hpq as [[-> ->]|[-> ->]].
Qed.

Lemma generated_scheme_kinds name : name ∈ api_names →
  (s ← fake_scheme_init; Done (ObjectKinds s (ptr api_copy name))) = Done (Ok ([WithKind SchemeGroupVersion name], false)) ∧
  (s ← fake_scheme_init; Done (scheme_New s (WithKind SchemeGroupVersion name))) = Done (Ok (ptr api_copy name)) ∧
  ∃ err, (s ← fake_scheme_init; Done (ObjectKinds s (ptr api_v1 name))) = Done (Err err).
Proof.
  intros Hn. unfold api_names in Hn. rewrite !elem_of_cons, elem_of_nil in Hn.
  destruct Hn as [-> |[-> |[-> |[-> |[]]]]];
    (split; [vm_compute; reflexivity|]; split; [vm_compute; reflexivity|]); eexists; vm_compute; reflexivity.
Qed.

(** The schemes of the generated clientset and of its fake: the init functions do not
    panic, each of the copied types has its own kind, by which the tracker of the fake
    files it and makes its lists; the operator's own types are not registered. *)
Theorem generated_schemes init : init = scheme_init ∨ init = fake_scheme_init →
  ∃ s, init = Done s ∧ consistent s ∧ ∀ name, name ∈ api_names →
    ObjectKinds s (ptr api_copy name) = Ok ([WithKind SchemeGroupVersion name], false) ∧
    scheme_New s (WithKind SchemeGroupVersion name) = Ok (ptr api_copy name) ∧
    ∃ err, ObjectKinds s (ptr api_v1 name) = Err err.
Proof.
  intros Hi. assert (init = fake_scheme_init) as -> by (destruct Hi as [-> | ->]; reflexivity). clear Hi.
  pose proof generated_scheme_kinds as Hkinds.
  destruct fake_scheme_init as [s|] eqn:Hs; [|destruct (Hkinds "Monitor" ltac:(by left)); discriminate].
  exists s. split; [reflexivity|]. split.
  - unfold fake_scheme_init in Hs. pose proof (registers_group (mkGV "" "v1") (or_intror eq_refl) NewScheme consistent_new) as H0.
    destruct (AddToGroupVersion _ NewScheme) as [s0|]; [|discriminate]. destruct H0 as (_ & Hs0 & _).
    pose proof (AddToScheme_spec api_copy kubemonitorv1_AddToScheme s0 (or_intror (conj eq_refl eq_refl)) Hs0) as H1.
    cbn [mbind outcome_bind fake_AddToScheme fake_localSchemeBuilder SchemeBuilder_AddToScheme] in Hs.
    unfold fake_AddToScheme, fake_localSchemeBuilder in Hs. cbn [SchemeBuilder_AddToScheme] in Hs.
    destruct (kubemonitorv1_AddToScheme s0) as [[err s1]|]; [|discriminate]. destruct H1 as (_ & -> & Hs1 & _).
    injection Hs as <-. exact Hs1.
  - intros name Hn. destruct (Hkinds name Hn) as ([= H1] & [= H2] & err & [= H3]). eauto.
Qed.

(** ** Schemes, for the witnesses *)

Module scheme_demo.
Definition first : list registration := [KnownTypes (mkGV "g" "v1") [ptr "p" "A"; ptr "p" "B"]].
Definition then_ : list registration := [KnownTypeWithName (WithKind (mkGV "g" "v2") "A") (ptr "p" "A")].
Definition made (rs : list registration) (s : Scheme) : Scheme :=
  match register_all rs s with Done s => s | Panic _ => s end.

Lemma scheme_roundtrip_witness :
  ObjectKinds (made then_ (made first NewScheme)) (ptr "p" "A") =
    Ok ([WithKind (mkGV "g" "v1") "A"; WithKind (mkGV "g" "v2") "A"], false) ∧
  scheme_New (made then_ (made first NewScheme)) (WithKind (mkGV "g" "v1") "A") = Ok (ptr "p" "A").
Proof.
  split; [vm_compute; reflexivity|].
  refine (proj1 (proj2 (scheme_roundtrip first then_ (made first NewScheme) (made then_ (made first NewScheme)) _ _)
    (WithKind (mkGV "g" "v1") "A") (ptr "p" "A") _ _)); vm_compute; reflexivity.
Defined.

(** A client-go that knows pods. *)
Definition core_AddToScheme : scheme_func := λ s,
  s ← AddKnownTypes (mkGV "" "v1") [ptr "k8s.io/api/core/v1" "Pod"] s; Done (None, s).
Definition core : Scheme := match core_AddToScheme NewScheme with Done (_, s) => s | Panic _ => NewScheme end.

Lemma core_consistent : consistent core.
Proof.
  apply (types_follow (mkGV "" "v1") [ptr "k8s.io/api/core/v1" "Pod"] NewScheme core consistent_new). reflexivity.
Qed.

Lemma core_fits : fits (api_kinds api_v1) meta_names core.
Proof. split; agree. Qed.

Lemma core_fresh name : typeToGVK core !! mkStruct api_v1 name = None.
Proof.
  change (typeToGVK core) with ({[mkStruct "k8s.io/api/core/v1" "Pod" := [WithKind (mkGV "" "v1") "Pod"]]}
    : gmap struct_type (list GroupVersionKind)). by rewrite lookup_singleton_ne.
Qed.

Lemma generated_schemes_witness : ∃ s, scheme_init = Done s ∧ consistent s ∧ ∀ name, name ∈ api_names →
  ObjectKinds s (ptr api_copy name) = Ok ([WithKind SchemeGroupVersion name], false) ∧
  scheme_New s (WithKind SchemeGroupVersion name) = Ok (ptr api_copy name) ∧
  ∃ err, ObjectKinds s (ptr api_v1 name) = Err err.
Proof. exact (generated_schemes scheme_init (or_introl eq_refl)). Defined.
End scheme_demo.
