(* ===== verification/Manager.v ===== *)
(** * The controller manager

    What cmd/main.go and the SetupWithManager methods of internal/controller make
    with controller-runtime, translated from the vendored source (pkg/manager,
    pkg/builder, pkg/controller and apiutil): the manager before it is started, the
    controllers that are built for it, and its health checks. Loggers, rate limiters
    and the cluster's own parts (cache, client, listeners, locks) are left out; that
    making them fails is an argument of [manager_New]. *)
From S2P Require Import Prelude GoText KubeApi Scheme.

Section manager.
Context `{UnicodeTables} {R : Type}.

(** Global options of controllers, and those of one. *)
Record ControllerConfig := mkControllerConfig {
  GroupKindConcurrency : gmap string Z;
  global_MaxConcurrentReconciles : Z;
  global_CacheSyncTimeout : Z;
  global_RecoverPanic : option bool;
  global_NeedLeaderElection : option bool
}.

Record ControllerOptions := mkControllerOptions {
  Reconciler : option R;
  MaxConcurrentReconciles : Z;
  CacheSyncTimeout : Z;
  RecoverPanic : option bool;
  opt_NeedLeaderElection : option bool
}.

(** A controller; what it watches is the type of a source of kind [source.Kind]. *)
Record Controller := mkController {
  Do : R;
  ctrl_Name : string;
  ctrl_MaxConcurrentReconciles : Z;
  ctrl_CacheSyncTimeout : Z;
  ctrl_RecoverPanic : option bool;
  LeaderElected : option bool;
  startWatches : list reflect_type
}.

(** Runnables that run together. *)
Record runnableGroup := mkGroup { group_started : bool; group_stopped : bool; startQueue : list nat; group_ch : list nat }.

Inductive checker := Ping.

(** [ctrl.Options], what main sets of it. *)
Record ManagerOptions := mkManagerOptions {
  opt_Scheme : Scheme;
  opt_MetricsBindAddress : string;
  opt_HealthProbeBindAddress : string;
  opt_LeaderElection : bool;
  opt_LeaderElectionID : string;
  opt_Controller : ControllerConfig
}.

(** The manager with the controllers that were made for it; a runnable is a position in
    that list. *)
Record manager := mkManager {
  mgr_Options : ManagerOptions;
  mgr_started : bool;
  mgr_controllers : list Controller;
  LeaderElection : runnableGroup;
  Others : runnableGroup;
  healthzHandler : option (gmap string checker);
  readyzHandler : option (gmap string checker)
}.

Definition GetScheme (m : manager) : Scheme := opt_Scheme (mgr_Options m).
Definition GetControllerOptions (m : manager) : ControllerConfig := opt_Controller (mgr_Options m).

Definition new_group : runnableGroup := mkGroup false false [] [].

(** [manager.New]; the error of making the parts that are left out. *)
Definition manager_New (outside : ManagerOptions → option error) (o : ManagerOptions) : result manager :=
  match outside o with
  | Some err => Err err
  | None => Ok (mkManager o false [] new_group new_group None None)
  end.

Definition group_Add (g : runnableGroup) (r : nat) : option error * runnableGroup :=
  if group_stopped g then (Some (Errorf "can't accept new runnable as stop procedure is already engaged"), g)
  else if negb (group_started g) then (None, mkGroup (group_started g) (group_stopped g) (startQueue g ++ [r]) (group_ch g))
  else (None, mkGroup (group_started g) (group_stopped g) (startQueue g) (group_ch g ++ [r])).

Definition with_controllers (m : manager) cs : manager :=
  mkManager (mgr_Options m) (mgr_started m) cs (LeaderElection m) (Others m) (healthzHandler m) (readyzHandler m).

Definition NeedLeaderElection (c : Controller) : bool := default true (LeaderElected c).

(** [controllerManager.Add] of the controller at [r]. *)
Definition manager_Add (m : manager) (c : Controller) (r : nat) : option error * manager :=
  if negb (NeedLeaderElection c) then
    let '(err, g) := group_Add (Others m) r in
    (err, mkManager (mgr_Options m) (mgr_started m) (mgr_controllers m) (LeaderElection m) g (healthzHandler m) (readyzHandler m))
  else
    let '(err, g) := group_Add (LeaderElection m) r in
    (err, mkManager (mgr_Options m) (mgr_started m) (mgr_controllers m) g (Others m) (healthzHandler m) (readyzHandler m)).

Definition AddHealthzCheck (name : string) (check : checker) (m : manager) : option error * manager :=
  if mgr_started m then (Some (Errorf "unable to add new checker because healthz endpoint has already been created"), m)
  else (None, mkManager (mgr_Options m) (mgr_started m) (mgr_controllers m) (LeaderElection m) (Others m)
    (Some (<[name := check]> (default ∅ (healthzHandler m)))) (readyzHandler m)).

Definition AddReadyzCheck (name : string) (check : checker) (m : manager) : option error * manager :=
  if mgr_started m then (Some (Errorf "unable to add new checker because healthz endpoint has already been created"), m)
  else (None, mkManager (mgr_Options m) (mgr_started m) (mgr_controllers m) (LeaderElection m) (Others m)
    (healthzHandler m) (Some (<[name := check]> (default ∅ (readyzHandler m))))).

(** ** Controllers *)

(** [apiutil.GVKForObject]; [current] is the kind in the object's TypeMeta. *)
Definition GVKForObject (obj : reflect_type) (current : option GroupVersionKind) (s : Scheme) : result GroupVersionKind :=
  if match obj with
     | PointerTo (StructType t) => bool_decide (PkgPath t = metav1 ∧ type_Name t ∈ ["PartialObjectMetadata"; "PartialObjectMetadataList"])
     | _ => false
     end then
    match current with
    | None => Err (Errorf "unstructured object has no kind")
    | Some gvk =>
      if decide (gvk_Kind gvk = "") then Err (Errorf "unstructured object has no kind")
      else if decide (Version (gvk_GroupVersion gvk) = "") then Err (Errorf "unstructured object has no version")
      else Ok gvk
    end
  else match ObjectKinds s obj with
  | Err err => Err err
  | Ok (gvks, isUnversioned) =>
    if isUnversioned then Err (Errorf "cannot create group-version-kind for unversioned type")
    else match gvks with
    | [] => Err (Errorf "no GroupVersionKind associated with Go type")
    | [gvk] => Ok gvk
    | _ =>
      match current with
      | Some gvk => if decide (gvk ∈ gvks) then Ok gvk else Err (Errorf "multiple GroupVersionKinds")
      | None => Err (Errorf "multiple GroupVersionKinds")
      end
    end
  end.

(** [controller.New]: the controller, at its place in the manager. *)
Definition controller_New (name : string) (m : manager) (options : ControllerOptions) : result nat * manager :=
  match Reconciler options with
  | None => (Err (Errorf "must specify Reconciler"), m)
  | Some r =>
    if decide (name = "") then (Err (Errorf "must specify Name for Controller"), m)
    else
      let g := GetControllerOptions m in
      let max :=
        if (MaxConcurrentReconciles options <=? 0)%Z
        then if (0 <? global_MaxConcurrentReconciles g)%Z then global_MaxConcurrentReconciles g else 1%Z
        else MaxConcurrentReconciles options in
      let timeout :=
        if decide (CacheSyncTimeout options = 0%Z)
        then if decide (global_CacheSyncTimeout g ≠ 0%Z) then global_CacheSyncTimeout g else 120000000000%Z
        else CacheSyncTimeout options in
      let recover := match RecoverPanic options with Some b => Some b | None => global_RecoverPanic g end in
      let elect := match opt_NeedLeaderElection options with Some b => Some b | None => global_NeedLeaderElection g end in
      let c := mkController r name max timeout recover elect [] in
      let i := length (mgr_controllers m) in
      let '(err, m) := manager_Add (with_controllers m (mgr_controllers m ++ [c])) c i in
      (match err with Some err => Err err | None => Ok i end, m)
  end.

(** [Controller.Watch] before the controller is started. *)
Definition Watch (i : nat) (src : reflect_type) (m : manager) : manager :=
  with_controllers m (alter (λ c, mkController (Do c) (ctrl_Name c) (ctrl_MaxConcurrentReconciles c)
    (ctrl_CacheSyncTimeout c) (ctrl_RecoverPanic c) (LeaderElected c) (startWatches c ++ [src])) i (mgr_controllers m)).

(** ** The builder *)

Record Builder := mkControllerBuilder {
  bld_mgr : manager;
  for_object : option reflect_type;
  for_err : option error;
  bld_name : string;
  bld_ctrlOptions : ControllerOptions
}.

Definition NewControllerManagedBy (m : manager) : Builder :=
  mkControllerBuilder m None None "" (mkControllerOptions None 0 0 None None).

Definition For (object : reflect_type) (b : Builder) : Builder :=
  match for_object b with
  | Some _ => mkControllerBuilder (bld_mgr b) (for_object b)
      (Some (Errorf "For(...) should only be called once")) (bld_name b) (bld_ctrlOptions b)
  | None => mkControllerBuilder (bld_mgr b) (Some object) None (bld_name b) (bld_ctrlOptions b)
  end.

(** [GroupKind.String]. *)
Definition GroupKind_String (gvk : GroupVersionKind) : string :=
  if decide (Group (gvk_GroupVersion gvk) = "") then gvk_Kind gvk
  else gvk_Kind gvk +:+ "." +:+ Group (gvk_GroupVersion gvk).

Definition getControllerName (name : string) (gvk : option GroupVersionKind) : result string :=
  if decide (name ≠ "") then Ok name
  else match gvk with
  | None => Err (Errorf "one of For() or Named() must be called")
  | Some gvk => Ok (strings_ToLower (gvk_Kind gvk))
  end.

Definition doController (r : R) (b : Builder) : result nat * manager :=
  let m := bld_mgr b in
  let globalOpts := GetControllerOptions m in
  let o := bld_ctrlOptions b in
  match Reconciler o with
  | Some _ => (Err (Errorf "reconciler was set via WithOptions() and via Build() or Complete()"), m)
  | None =>
    match match for_object b with
          | None => Ok None
          | Some obj => gvk ← GVKForObject obj None (GetScheme m); Ok (Some gvk)
          end with
    | Err err => (Err err, m)
    | Ok gvk =>
      let max :=
        match gvk with
        | Some gvk =>
          if decide (MaxConcurrentReconciles o = 0%Z)
          then match GroupKindConcurrency globalOpts !! GroupKind_String gvk with
               | Some n => if (0 <? n)%Z then n else 0%Z
               | None => 0%Z
               end
          else MaxConcurrentReconciles o
        | None => MaxConcurrentReconciles o
        end in
      let timeout :=
        if decide (CacheSyncTimeout o = 0%Z ∧ (0 < global_CacheSyncTimeout globalOpts)%Z)
        then global_CacheSyncTimeout globalOpts else CacheSyncTimeout o in
      match getControllerName (bld_name b) gvk with
      | Err err => (Err err, m)
      | Ok name => controller_New name m (mkControllerOptions (Some r) max timeout (RecoverPanic o) (opt_NeedLeaderElection o))
      end
    end
  end.

(** [Builder.Complete] with a reconciler; the builder watches the type of [For] only. *)
Definition Complete (r : R) (b : Builder) : option error * manager :=
  match for_err b with
  | Some err => (Some err, bld_mgr b)
  | None =>
    match doController r b with
    | (Err err, m) => (Some err, m)
    | (Ok i, m) =>
      match for_object b with
      | Some obj => (None, Watch i obj m)
      | None => (Some (Errorf "there are no watches configured, controller will never get triggered"), m)
      end
    end
  end.

(** The SetupWithManager methods of internal/controller. *)
Definition monitor_SetupWithManager (r : R) (m : manager) : option error * manager :=
  Complete r (For (ptr api_v1 "Monitor") (NewControllerManagedBy m)).

Definition push_SetupWithManager (r : R) (m : manager) : option error * manager :=
  Complete r (For (ptr api_v1 "PrometheusPush") (NewControllerManagedBy m)).

(** ** Properties *)

(** The manager with one more controller, for the elected manager to start. *)
Definition with_controller (m : manager) (c : Controller) : manager :=
  mkManager (mgr_Options m) (mgr_started m) (mgr_controllers m ++ [c])
    (mkGroup false false (startQueue (LeaderElection m) ++ [length (mgr_controllers m)]) (group_ch (LeaderElection m)))
    (Others m) (healthzHandler m) (readyzHandler m).

(** What the controller of a type is, when no option is set: it has the type's name in
    lower case, one worker, and recovers from no panic. *)
Definition controller_of (r : R) (obj : reflect_type) (gvk : GroupVersionKind) : Controller :=
  mkController r (strings_ToLower (gvk_Kind gvk)) 1 120000000000 None None [obj].

Definition default_config : ControllerConfig := mkControllerConfig ∅ 0 0 None None.

Lemma controller_New_spec r name obj m :
  name ≠ "" → GetControllerOptions m = default_config → group_stopped (LeaderElection m) = false →
  group_started (LeaderElection m) = false →
  ∃ i m', controller_New name m (mkControllerOptions (Some r) 0 0 None None) = (Ok i, m') ∧
    Watch i obj m' = with_controller m (mkController r name 1 120000000000 None None [obj]).
Proof.
  intros Hn Hc Hs1 Hs2. unfold controller_New. rewrite Hc. cbn. rewrite decide_False by done.
  unfold group_Add. rewrite Hs1, Hs2. cbn. eexists _, _. split; [reflexivity|].
  unfold Watch, with_controllers, with_controller. cbn. rewrite alter_app_r_alt by lia. by rewrite Nat.sub_diag.
Qed.

(** Setting a reconciler up for a type that the manager's scheme knows by one kind adds
    its controller, and does not fail before the manager is started. *)
Theorem Complete_spec r pkg name gvk m :
  ObjectKinds (GetScheme m) (ptr pkg name) = Ok ([gvk], false) → pkg ≠ metav1 → strings_ToLower (gvk_Kind gvk) ≠ "" →
  GetControllerOptions m = default_config → group_stopped (LeaderElection m) = false → group_started (LeaderElection m) = false →
  Complete r (For (ptr pkg name) (NewControllerManagedBy m)) = (None, with_controller m (controller_of r (ptr pkg name) gvk)).
Proof.
  intros Hk Hp Hn Hc Hs1 Hs2.
  assert (GVKForObject (ptr pkg name) None (GetScheme m) = Ok gvk) as Hg.
  { unfold GVKForObject. cbn [ptr PkgPath]. rewrite bool_decide_eq_false_2 by naive_solver.
    change (PointerTo _) with (ptr pkg name). by rewrite Hk. }
  assert (∀ P `{Decision P}, (if decide P then 0 else 0)%Z = 0%Z) as Hif by (intros P D; by destruct (decide P)).
  destruct (controller_New_spec r (strings_ToLower (gvk_Kind gvk)) (ptr pkg name) m Hn Hc Hs1 Hs2) as (i & m' & Hnew & Hw).
  unfold Complete, doController, getControllerName. cbn [For NewControllerManagedBy for_object bld_mgr bld_ctrlOptions
    Reconciler for_err bld_name MaxConcurrentReconciles CacheSyncTimeout RecoverPanic opt_NeedLeaderElection].
  rewrite Hg. cbn [mbind result_bind]. rewrite Hc. cbn [GroupKindConcurrency default_config global_CacheSyncTimeout].
  rewrite lookup_empty, !Hif. rewrite (decide_False (P := "" ≠ "")) by naive_solver. rewrite Hnew. by rewrite Hw.
Qed.
End manager.
