(* ===== verification/FakeClient.v ===== *)
(** * The fake clients

    pkg/generated/clientset/versioned/fake and .../typed/.../fake: the in-memory
    clientset that tests use in the place of an API server. A typed fake makes an
    action and hands it to the chain of reactors of [testing.Fake]; the reactor of
    [NewSimpleClientset] keeps the objects in a tracker. [testing] and its tracker
    (vendor/k8s.io/client-go/testing) are translated from the vendored source; the
    parsing of selectors and the application of patches are parameters.

    A method that the program calls on a fake is a function of the clientset,
    which it returns changed; locks make each of them one step. *)
From S2P Require Import Prelude GoText GoPath KubeApi.

(** ** Watches (k8s.io/apimachinery/pkg/watch, [RaceFreeFakeWatcher]) *)

Inductive event (C : Type) :=
| Added (o : object C)
| Modified (o : object C)
| Deleted (o : object C).
Arguments Added {C}.
Arguments Modified {C}.
Arguments Deleted {C}.

(** The events that wait in the channel, oldest first. *)
Record watcher (C : Type) := mkWatcher { w_Stopped : bool; w_result : list (event C) }.
Arguments mkWatcher {C}.
Arguments w_Stopped {C}.
Arguments w_result {C}.

Definition DefaultChanSize : nat := 100.

(** ** The tracker *)

(** The channels of watchers are in a store, those of a resource and a
    namespace lists of places in it. *)
Record tracker (C : Type) := mkTracker {
  objects : gmap GroupVersionResource (gmap (string * string) (object C));
  watchers : gmap GroupVersionResource (gmap string (list nat));
  channels : list (watcher C)
}.
Arguments mkTracker {C}.
Arguments objects {C}.
Arguments watchers {C}.
Arguments channels {C}.

(** What a reactor returns: an object, or a list of objects of a type. *)
Inductive runtime_object (C : Type) :=
| RObject (o : object C)
| RList (ty : go_type) (items : list (object C)).
Arguments RObject {C}.
Arguments RList {C}.

Inductive action (C : Type) :=
| ListAction (r : GroupVersionResource) (kind : GroupVersionKind) (ns : string)
| GetAction (r : GroupVersionResource) (ns name : string)
| CreateAction (r : GroupVersionResource) (ns sub : string) (o : object C)
| UpdateAction (r : GroupVersionResource) (ns sub : string) (o : object C)
| DeleteAction (r : GroupVersionResource) (ns name : string)
| DeleteCollectionAction (r : GroupVersionResource) (ns : string)
| PatchAction (r : GroupVersionResource) (ns name sub patchType : string) (patch : list ascii)
| WatchAction (r : GroupVersionResource) (ns : string).
Arguments ListAction {C}.
Arguments GetAction {C}.
Arguments CreateAction {C}.
Arguments UpdateAction {C}.
Arguments DeleteAction {C}.
Arguments DeleteCollectionAction {C}.
Arguments PatchAction {C}.
Arguments WatchAction {C}.

(** What is outside: the rest of an object that is all zero, and the result of
    applying a patch to an object, which keeps its Go type. *)
Class FakeApi (C : Type) := {
  zero_content : C;
  apply_patch : string → list ascii → object C → kube_error + object C;
  apply_patch_type pt patch o o' : apply_patch pt patch o = inr o' → obj_Type o' = obj_Type o
}.

Section tracker.
Context {C : Type} `{FakeApi C}.
Implicit Types (t : tracker C) (o : object C).

Definition NewObjectTracker : tracker C := mkTracker ∅ ∅ [].

Definition with_objects t objs : tracker C := mkTracker objs (watchers t) (channels t).
Definition with_channels t chans : tracker C := mkTracker (objects t) (watchers t) chans.

(** The objects of a resource; a missing map has none. *)
Definition objects_of t (gvr : GroupVersionResource) : gmap (string * string) (object C) :=
  default ∅ (objects t !! gvr).

(** [Add], [Modify], [Delete] of a watcher. *)
Definition send (e : event C) (w : watcher C) : outcome (watcher C) :=
  if w_Stopped w then Done w
  else if decide (length (w_result w) < DefaultChanSize)
       then Done (mkWatcher false (w_result w ++ [e])) else Panic "channel full".

Fixpoint notify (e : event C) (ws : list nat) (chans : list (watcher C)) : outcome (list (watcher C)) :=
  match ws with
  | [] => Done chans
  | i :: ws' =>
    match chans !! i with
    | Some w => w' ← send e w; notify e ws' (<[i := w']> chans)
    | None => notify e ws' chans
    end
  end.

Definition getWatches t (gvr : GroupVersionResource) (ns : string) : list nat :=
  match watchers t !! gvr with
  | None => []
  | Some by_ns =>
    default [] (by_ns !! ns) ++
    (if decide (ns = NamespaceAll) then [] else default [] (by_ns !! NamespaceAll))
  end.

Definition tracker_add (gvr : GroupVersionResource) o (ns : string) (replaceExisting : bool) t :
    outcome (option kube_error * tracker C) :=
  let gr := gvr_GroupResource gvr in
  let obj := if decide (obj_Namespace o = "") then SetNamespace o ns else o in
  if decide (ns ≠ obj_Namespace obj) then
    Done (Some (NewBadRequest "request namespace does not match object namespace"), t)
  else
    let objs := objects_of t gvr in
    let t := with_objects t (<[gvr := objs]> (objects t)) in
    let namespacedName := (obj_Namespace obj, obj_Name obj) in
    match objs !! namespacedName with
    | Some _ =>
      if replaceExisting then
        chans ← notify (Modified obj) (getWatches t gvr ns) (channels t);
        Done (None, with_objects (with_channels t chans) (<[gvr := <[namespacedName := obj]> objs]> (objects t)))
      else Done (Some (NewAlreadyExists gr (obj_Name obj)), t)
    | None =>
      if replaceExisting then Done (Some (NewNotFound gr (obj_Name obj)), t)
      else
        let t := with_objects t (<[gvr := <[namespacedName := obj]> objs]> (objects t)) in
        chans ← notify (Added obj) (getWatches t gvr ns) (channels t);
        Done (None, with_channels t chans)
    end.

Definition tracker_Create gvr o ns t := tracker_add gvr o ns false t.
Definition tracker_Update gvr o ns t := tracker_add gvr o ns true t.

Definition tracker_Get (gvr : GroupVersionResource) (ns name : string) t : kube_error + object C :=
  match objects t !! gvr with
  | None => inl (NewNotFound (gvr_GroupResource gvr) name)
  | Some objs =>
    match objs !! (ns, name) with
    | None => inl (NewNotFound (gvr_GroupResource gvr) name)
    | Some matchingObj => inr matchingObj
    end
  end.

Definition tracker_Delete (gvr : GroupVersionResource) (ns name : string) t :
    outcome (option kube_error * tracker C) :=
  match objects t !! gvr with
  | None => Done (Some (NewNotFound (gvr_GroupResource gvr) name), t)
  | Some objs =>
    match objs !! (ns, name) with
    | None => Done (Some (NewNotFound (gvr_GroupResource gvr) name), t)
    | Some obj =>
      let t := with_objects t (<[gvr := delete (ns, name) objs]> (objects t)) in
      chans ← notify (Deleted obj) (getWatches t gvr ns) (channels t);
      Done (None, with_channels t chans)
    end
  end.

(** The order of the results: by namespace, then by name. *)
Definition object_le (o1 o2 : object C) : Prop :=
  if decide (obj_Namespace o1 = obj_Namespace o2) then String.le (obj_Name o1) (obj_Name o2)
  else String.le (obj_Namespace o1) (obj_Namespace o2).

#[export] Instance object_le_dec : RelDecision object_le.
Proof. intros o1 o2. unfold object_le. case_decide; apply _. Defined.

(** The map's order does not matter, since the objects are sorted after. *)
Definition filterByNamespace (objs : gmap (string * string) (object C)) (ns : string) : list (object C) :=
  merge_sort object_le
    (filter (λ o, ns = "" ∨ obj_Namespace o = ns) (map_to_list objs).*2).

(** [meta.SetList]: every object must have the type of the items. *)
Definition SetList (ty : go_type) (objs : list (object C)) : kube_error + list (object C) :=
  if decide (Forall (λ o, obj_Type o = ty) objs) then inr objs
  else inl (OtherError (Errorf "item: can't assign or convert")).

(** [t.scheme.New(listGVK)]: the list types that are registered. *)
Definition new_list (kind : GroupVersionKind) : kube_error + go_type :=
  let listGVK := WithKind (gvk_GroupVersion kind) (gvk_Kind kind +:+ "List") in
  if decide (listGVK ∈ known_kinds) then
    if decide (gvk_Kind kind = "Monitor") then inr TMonitor else inr TPrometheusPush
  else inl (OtherError (Errorf "no kind is registered")).

Definition tracker_List (gvr : GroupVersionResource) (kind : GroupVersionKind) (ns : string) t :
    kube_error + (go_type * list (object C)) :=
  match new_list kind with
  | inl err => inl err
  | inr ty =>
    match objects t !! gvr with
    | None => inr (ty, [])
    | Some objs =>
      match SetList ty (filterByNamespace objs ns) with
      | inl err => inl err
      | inr items => inr (ty, items)
      end
    end
  end.

Definition tracker_Watch (gvr : GroupVersionResource) (ns : string) t : nat * tracker C :=
  let fakewatcher := length (channels t) in
  let by_ns := default ∅ (watchers t !! gvr) in
  (fakewatcher,
   mkTracker (objects t) (<[gvr := <[ns := default [] (by_ns !! ns) ++ [fakewatcher]]> by_ns]> (watchers t))
     (channels t ++ [mkWatcher false []])).

(** [meta.UnsafeGuessKindToResource]; a kind is not empty. *)
Definition UnsafeGuessKindToResource `{UnicodeTables} (kind : GroupVersionKind) : GroupVersionResource :=
  let singularName := strings_ToLower (gvk_Kind kind) in
  let with_resource := WithResource (gvk_GroupVersion kind) in
  if HasSuffix singularName "endpoints" then with_resource singularName
  else if HasSuffix singularName "s" then with_resource (singularName +:+ "es")
  else if HasSuffix singularName "y" then with_resource (TrimSuffix singularName "y" +:+ "ies")
  else with_resource (singularName +:+ "s").

(** [Add] for an object that is not a list; the scheme has one kind for each of
    its types. *)
Definition tracker_Add `{UnicodeTables} o t : outcome (option kube_error * tracker C) :=
  let gvk := WithKind SchemeGroupVersion (type_name (obj_Type o)) in
  tracker_add (UnsafeGuessKindToResource gvk) o (obj_Namespace o) false t.

(** ** Reactors and the clientset *)

(** Whether the action was handled, the object and the error returned, and the
    tracker. *)
Definition reaction : Type :=
  action C → tracker C → outcome (bool * option (runtime_object C) * option kube_error * tracker C).

Definition get_result (t : tracker C) (r : kube_error + object C) :
    bool * option (runtime_object C) * option kube_error * tracker C :=
  match r with inl err => (true, None, Some err, t) | inr o => (true, Some (RObject o), None, t) end.

(** The result of a change, and then what [Get] finds. *)
Definition changed gvr ns name (c : outcome (option kube_error * tracker C)) :
    outcome (bool * option (runtime_object C) * option kube_error * tracker C) :=
  '(err, t) ← c;
  match err with
  | Some err => Done (true, None, Some err, t)
  | None => Done (get_result t (tracker_Get gvr ns name t))
  end.

Definition ObjectReaction : reaction := λ a t,
  match a with
  | ListAction gvr kind ns =>
    match tracker_List gvr kind ns t with
    | inl err => Done (true, None, Some err, t)
    | inr (ty, items) => Done (true, Some (RList ty items), None, t)
    end
  | GetAction gvr ns name => Done (get_result t (tracker_Get gvr ns name t))
  | CreateAction gvr ns sub o =>
    if decide (sub = "") then changed gvr ns (obj_Name o) (tracker_Create gvr o ns t)
    else
      match tracker_Get gvr ns (obj_Name o) t with
      | inl err => Done (true, None, Some err, t)
      | inr oldObj =>
        if decide (obj_Type oldObj = obj_Type o)
        then changed gvr ns (obj_Name o) (tracker_Update gvr o ns t)
        else Done (true, Some (RObject o), None, t)
      end
  | UpdateAction gvr ns sub o => changed gvr ns (obj_Name o) (tracker_Update gvr o ns t)
  | DeleteAction gvr ns name =>
    '(err, t) ← tracker_Delete gvr ns name t; Done (true, None, err, t)
  | PatchAction gvr ns name sub pt patch =>
    match tracker_Get gvr ns name t with
    | inl err => Done (true, None, Some err, t)
    | inr obj =>
      match apply_patch pt patch obj with
      | inl err => Done (true, None, Some err, t)
      | inr obj =>
        '(err, t) ← tracker_Update gvr obj ns t;
        match err with
        | Some err => Done (true, None, Some err, t)
        | None => Done (true, Some (RObject obj), None, t)
        end
      end
    end
  | DeleteCollectionAction _ _ | WatchAction _ _ =>
    Done (false, None, Some (OtherError (Errorf "no reaction implemented")), t)
  end.

Definition GetVerb (a : action C) : string :=
  match a with
  | ListAction _ _ _ => "list" | GetAction _ _ _ => "get" | CreateAction _ _ _ _ => "create"
  | UpdateAction _ _ _ _ => "update" | DeleteAction _ _ _ => "delete"
  | DeleteCollectionAction _ _ => "delete-collection" | PatchAction _ _ _ _ _ _ => "patch"
  | WatchAction _ _ => "watch"
  end.

Definition GetResource (a : action C) : GroupVersionResource :=
  match a with
  | ListAction r _ _ | GetAction r _ _ | CreateAction r _ _ _ | UpdateAction r _ _ _ | DeleteAction r _ _
  | DeleteCollectionAction r _ | PatchAction r _ _ _ _ _ | WatchAction r _ => r
  end.

Definition GetNamespace (a : action C) : string :=
  match a with
  | ListAction _ _ ns | GetAction _ ns _ | CreateAction _ ns _ _ | UpdateAction _ ns _ _ | DeleteAction _ ns _
  | DeleteCollectionAction _ ns | PatchAction _ ns _ _ _ _ | WatchAction _ ns => ns
  end.

Definition GetSubresource (a : action C) : string :=
  match a with CreateAction _ _ s _ | UpdateAction _ _ s _ | PatchAction _ _ _ s _ _ => s | _ => "" end.

Definition resourceCovers (resource : string) (a : action C) : bool :=
  bool_decide (resource = "*") || bool_decide (resource = gvr_Resource (GetResource a)) ||
  match String.index 0 "/" resource with
  | Some i => bool_decide (String.substring 0 i resource = gvr_Resource (GetResource a)) &&
              bool_decide (String.substring (S i) (String.length resource) resource = GetSubresource a)
  | None => false
  end.

(** [SimpleReactor]. *)
Record reactor := mkReactor { r_Verb : string; r_Resource : string; r_Reaction : reaction }.

Definition Handles (r : reactor) (a : action C) : bool :=
  (bool_decide (r_Verb r = "*") || bool_decide (r_Verb r = GetVerb a)) && resourceCovers (r_Resource r) a.

(** A watch reactor returns a place in the tracker's store of channels. *)
Definition watch_reaction : Type :=
  action C → tracker C → outcome (bool * option nat * option kube_error * tracker C).

Record watch_reactor := mkWatchReactor { wr_Resource : string; wr_Reaction : watch_reaction }.

(** [testing.Fake] and the tracker its reactors share. *)
Record Clientset := mkClientset {
  actions : list (action C);
  ReactionChain : list reactor;
  WatchReactionChain : list watch_reactor;
  cs_tracker : tracker C
}.

Fixpoint react (chain : list reactor) (a : action C) (default_ : option (runtime_object C)) (t : tracker C) :
    outcome (option (runtime_object C) * option kube_error * tracker C) :=
  match chain with
  | [] => Done (default_, None, t)
  | r :: chain' =>
    if Handles r a then
      '(handled, ret, err, t) ← r_Reaction r a t;
      if (handled : bool) then Done (ret, err, t) else react chain' a default_ t
    else react chain' a default_ t
  end.

Definition Invokes (a : action C) (defaultReturnObj : runtime_object C) (cs : Clientset) :
    outcome (option (runtime_object C) * option kube_error * Clientset) :=
  '(ret, err, t) ← react (ReactionChain cs) a (Some defaultReturnObj) (cs_tracker cs);
  Done (ret, err, mkClientset (actions cs ++ [a]) (ReactionChain cs) (WatchReactionChain cs) t).

Fixpoint watch_react (chain : list watch_reactor) (a : action C) (t : tracker C) :
    outcome (option nat * option kube_error * tracker C) :=
  match chain with
  | [] => Done (None, Some (OtherError (Errorf "unhandled watch")), t)
  | r :: chain' =>
    if resourceCovers (wr_Resource r) a then
      '(handled, ret, err, t) ← wr_Reaction r a t;
      if (handled : bool) then Done (ret, err, t) else watch_react chain' a t
    else watch_react chain' a t
  end.

Definition InvokesWatch (a : action C) (cs : Clientset) : outcome (option nat * option kube_error * Clientset) :=
  '(ret, err, t) ← watch_react (WatchReactionChain cs) a (cs_tracker cs);
  Done (ret, err, mkClientset (actions cs ++ [a]) (ReactionChain cs) (WatchReactionChain cs) t).

(** The watch reactor that [NewSimpleClientset] adds. *)
Definition tracker_watch_reaction : watch_reaction := λ a t,
  let '(w, t) := tracker_Watch (GetResource a) (GetNamespace a) t in Done (true, Some w, None, t).

Fixpoint add_objects `{UnicodeTables} (objs : list (object C)) (t : tracker C) : outcome (tracker C) :=
  match objs with
  | [] => Done t
  | o :: objs' =>
    '(err, t) ← tracker_Add o t;
    match err with Some _ => Panic "error adding the object" | None => add_objects objs' t end
  end.

Definition NewSimpleClientset `{UnicodeTables} (objs : list (object C)) : outcome Clientset :=
  o ← add_objects objs NewObjectTracker;
  Done (mkClientset [] [mkReactor "*" "*" ObjectReaction] [mkWatchReactor "*" tracker_watch_reaction] o).

(** ** The typed fakes

    fake_monitor.go and fake_prometheuspush.go are one text over the type, its
    resource and its kind; each method is written once, in a section over the
    three, and both files' methods are its instances. *)
Section typed.
Context `{Selectors} (ty : go_type) (resource : GroupVersionResource) (kind : GroupVersionKind).
Implicit Types (cs : Clientset).

(** [&v1.Monitor{}] and its like. *)
Definition zero_object : object C := mkObject ty "" "" ∅ zero_content.

(** [obj.(T)], for a pointer to the type and for one to its list. *)
Definition assert_object (r : runtime_object C) : outcome (object C) :=
  match r with
  | RObject o => if decide (obj_Type o = ty) then Done o else Panic "interface conversion"
  | RList _ _ => Panic "interface conversion"
  end.

Definition assert_list (r : runtime_object C) : outcome (list (object C)) :=
  match r with
  | RList ty' items => if decide (ty' = ty) then Done items else Panic "interface conversion"
  | RObject _ => Panic "interface conversion"
  end.

(** [if obj == nil { return nil, err }; return obj.(T), err]. *)
Definition return_object (o : outcome (option (runtime_object C) * option kube_error * Clientset)) :
    outcome (option (object C) * option kube_error * Clientset) :=
  '(obj, err, cs) ← o;
  match obj with
  | None => Done (None, err, cs)
  | Some r => o ← assert_object r; Done (Some o, err, cs)
  end.

Definition Fake_Get (ns name : string) cs :=
  return_object (Invokes (GetAction resource ns name) (RObject zero_object) cs).

(** [testing.ExtractFromListOptions], which panics on texts that do not parse. *)
Definition ExtractFromListOptions (opts : ListOptions) : outcome selector :=
  match labels_Parse (LabelSelector opts), fields_ParseError (FieldSelector opts) with
  | Ok s, None => Done (default Everything s)
  | _, _ => Panic "invalid selector"
  end.

Definition Fake_List (ns : string) (opts : ListOptions) cs :
    outcome (option (list (object C)) * option kube_error * Clientset) :=
  _ ← ExtractFromListOptions opts;
  '(obj, err, cs) ← Invokes (ListAction resource kind ns) (RList ty []) cs;
  match obj with
  | None => Done (None, err, cs)
  | Some r =>
    label ← ExtractFromListOptions opts;
    items ← assert_list r;
    Done (Some (filter (λ item, Matches label (obj_Labels item) = true) items), err, cs)
  end.

Definition Fake_Watch (ns : string) (opts : ListOptions) cs :
    outcome (option nat * option kube_error * Clientset) :=
  _ ← ExtractFromListOptions opts;
  InvokesWatch (WatchAction resource ns) cs.

Definition Fake_Create (ns : string) (o : object C) cs :=
  return_object (Invokes (CreateAction resource ns "" o) (RObject zero_object) cs).

Definition Fake_Update (ns : string) (o : object C) cs :=
  return_object (Invokes (UpdateAction resource ns "" o) (RObject zero_object) cs).

Definition Fake_UpdateStatus (ns : string) (o : object C) cs :=
  return_object (Invokes (UpdateAction resource ns "status" o) (RObject zero_object) cs).

Definition Fake_Delete (ns name : string) cs : outcome (option kube_error * Clientset) :=
  '(_, err, cs) ← Invokes (DeleteAction resource ns name) (RObject zero_object) cs; Done (err, cs).

Definition Fake_DeleteCollection (ns : string) (listOpts : ListOptions) cs :
    outcome (option kube_error * Clientset) :=
  _ ← ExtractFromListOptions listOpts;
  '(_, err, cs) ← Invokes (DeleteCollectionAction resource ns) (RList ty []) cs; Done (err, cs).

Definition Fake_Patch (ns name pt : string) (data : list ascii) (subresources : list string) cs :=
  return_object
    (Invokes (PatchAction resource ns name (path_Join subresources) pt data) (RObject zero_object) cs).
End typed.

(** ** The reader of a watch *)

(** The reader of [ResultChan] takes the oldest event, if one waits. *)
Definition receive (i : nat) t : option (event C) * tracker C :=
  match channels t !! i with
  | Some w =>
    match w_result w with
    | [] => (None, t)
    | e :: es => (Some e, with_channels t (<[i := mkWatcher (w_Stopped w) es]> (channels t)))
    end
  | None => (None, t)
  end.

Definition watcher_Stop (i : nat) t : tracker C :=
  match channels t !! i with
  | Some w => with_channels t (<[i := mkWatcher true (w_result w)]> (channels t))
  | None => t
  end.
End tracker.

(** ** The two files *)

Definition monitorsResource : GroupVersionResource := WithResource SchemeGroupVersion "monitors".
Definition monitorsKind : GroupVersionKind := WithKind SchemeGroupVersion "Monitor".
Definition prometheuspushesResource : GroupVersionResource := WithResource SchemeGroupVersion "prometheuspushes".
Definition prometheuspushesKind : GroupVersionKind := WithKind SchemeGroupVersion "PrometheusPush".

Section files.
Context {C : Type} `{FakeApi C} `{Selectors}.

Definition FakeMonitors_Get := Fake_Get (C:=C) TMonitor monitorsResource.
Definition FakeMonitors_List := Fake_List (C:=C) TMonitor monitorsResource monitorsKind.
Definition FakeMonitors_Watch := Fake_Watch (C:=C) monitorsResource.
Definition FakeMonitors_Create := Fake_Create (C:=C) TMonitor monitorsResource.
Definition FakeMonitors_Update := Fake_Update (C:=C) TMonitor monitorsResource.
Definition FakeMonitors_UpdateStatus := Fake_UpdateStatus (C:=C) TMonitor monitorsResource.
Definition FakeMonitors_Delete := Fake_Delete (C:=C) TMonitor monitorsResource.
Definition FakeMonitors_DeleteCollection := Fake_DeleteCollection (C:=C) TMonitor monitorsResource.
Definition FakeMonitors_Patch := Fake_Patch (C:=C) TMonitor monitorsResource.

Definition FakePrometheusPushes_Get := Fake_Get (C:=C) TPrometheusPush prometheuspushesResource.
Definition FakePrometheusPushes_List := Fake_List (C:=C) TPrometheusPush prometheuspushesResource prometheuspushesKind.
Definition FakePrometheusPushes_Watch := Fake_Watch (C:=C) prometheuspushesResource.
Definition FakePrometheusPushes_Create := Fake_Create (C:=C) TPrometheusPush prometheuspushesResource.
Definition FakePrometheusPushes_Update := Fake_Update (C:=C) TPrometheusPush prometheuspushesResource.
Definition FakePrometheusPushes_UpdateStatus := Fake_UpdateStatus (C:=C) TPrometheusPush prometheuspushesResource.
Definition FakePrometheusPushes_Delete := Fake_Delete (C:=C) TPrometheusPush prometheuspushesResource.
Definition FakePrometheusPushes_DeleteCollection := Fake_DeleteCollection (C:=C) TPrometheusPush prometheuspushesResource.
Definition FakePrometheusPushes_Patch := Fake_Patch (C:=C) TPrometheusPush prometheuspushesResource.
End files.
