(* ===== verification/FakeClientProps.v ===== *)
(** * What the fake clients promise

    The contract of the fake clientset: a store of objects by type, namespace and
    name. Each call on the clients, whatever the file it is in, answers from the
    store and publishes at most one event, which says how the store changes and
    which the watches of its namespace, and of all namespaces, are sent. *)
From S2P Require Import Prelude GoText GoPath KubeApi FakeClient.

Definition resource_of (ty : go_type) : GroupVersionResource :=
  match ty with TMonitor => monitorsResource | TPrometheusPush => prometheuspushesResource end.
Definition kind_of (ty : go_type) : GroupVersionKind :=
  match ty with TMonitor => monitorsKind | TPrometheusPush => prometheuspushesKind end.

Section fakes.
Context {C : Type} `{FakeApi C} `{Selectors}.
Implicit Types (t : tracker C) (o : object C) (e : event C).
#[local] Notation clientset := (Clientset (C:=C)).

(** ** Calls *)

Inductive fake_call :=
| QGet (ns name : string)
| QList (ns : string) (opts : ListOptions)
| QWatch (ns : string) (opts : ListOptions)
| QCreate (ns : string) (o : object C)
| QUpdate (ns : string) (o : object C)
| QUpdateStatus (ns : string) (o : object C)
| QDelete (ns name : string)
| QDeleteCollection (ns : string) (opts : ListOptions)
| QPatch (ns name pt : string) (data : list ascii) (subresources : list string)
| QReceive (i : nat)
| QStop (i : nat).

Inductive reply :=
| ObjectReply (o : option (object C)) (err : option kube_error)
| ListReply (items : option (list (object C))) (err : option kube_error)
| WatchReply (w : option nat) (err : option kube_error)
| ErrorReply (err : option kube_error)
| EventReply (e : option (event C))
| NoReply.

Definition with_tracker (cs : clientset) t : clientset :=
  mkClientset (C:=C) (actions cs) (ReactionChain cs) (WatchReactionChain cs) t.

Definition object_reply (p : option (object C) * option kube_error * clientset) : reply * clientset :=
  let '(o, err, cs) := p in (ObjectReply o err, cs).
Definition list_reply (p : option (list (object C)) * option kube_error * clientset) : reply * clientset :=
  let '(l, err, cs) := p in (ListReply l err, cs).
Definition watch_reply (p : option nat * option kube_error * clientset) : reply * clientset :=
  let '(w, err, cs) := p in (WatchReply w err, cs).
Definition error_reply (p : option kube_error * clientset) : reply * clientset :=
  let '(err, cs) := p in (ErrorReply err, cs).

Definition outcome_map {A B} (f : A → B) (o : outcome A) : outcome B := a ← o; Done (f a).

Definition serve_Monitor (q : fake_call) (cs : clientset) : outcome (reply * clientset) :=
  match q with
  | QGet ns name => outcome_map object_reply (FakeMonitors_Get ns name cs)
  | QList ns opts => outcome_map list_reply (FakeMonitors_List ns opts cs)
  | QWatch ns opts => outcome_map watch_reply (FakeMonitors_Watch ns opts cs)
  | QCreate ns o => outcome_map object_reply (FakeMonitors_Create ns o cs)
  | QUpdate ns o => outcome_map object_reply (FakeMonitors_Update ns o cs)
  | QUpdateStatus ns o => outcome_map object_reply (FakeMonitors_UpdateStatus ns o cs)
  | QDelete ns name => outcome_map error_reply (FakeMonitors_Delete ns name cs)
  | QDeleteCollection ns opts => outcome_map error_reply (FakeMonitors_DeleteCollection ns opts cs)
  | QPatch ns name pt data subs => outcome_map object_reply (FakeMonitors_Patch ns name pt data subs cs)
  | QReceive i => let '(e, t) := receive i (cs_tracker cs) in Done (EventReply e, with_tracker cs t)
  | QStop i => Done (NoReply, with_tracker cs (watcher_Stop i (cs_tracker cs)))
  end.

Definition serve_PrometheusPush (q : fake_call) (cs : clientset) : outcome (reply * clientset) :=
  match q with
  | QGet ns name => outcome_map object_reply (FakePrometheusPushes_Get ns name cs)
  | QList ns opts => outcome_map list_reply (FakePrometheusPushes_List ns opts cs)
  | QWatch ns opts => outcome_map watch_reply (FakePrometheusPushes_Watch ns opts cs)
  | QCreate ns o => outcome_map object_reply (FakePrometheusPushes_Create ns o cs)
  | QUpdate ns o => outcome_map object_reply (FakePrometheusPushes_Update ns o cs)
  | QUpdateStatus ns o => outcome_map object_reply (FakePrometheusPushes_UpdateStatus ns o cs)
  | QDelete ns name => outcome_map error_reply (FakePrometheusPushes_Delete ns name cs)
  | QDeleteCollection ns opts => outcome_map error_reply (FakePrometheusPushes_DeleteCollection ns opts cs)
  | QPatch ns name pt data subs => outcome_map object_reply (FakePrometheusPushes_Patch ns name pt data subs cs)
  | QReceive i => let '(e, t) := receive i (cs_tracker cs) in Done (EventReply e, with_tracker cs t)
  | QStop i => Done (NoReply, with_tracker cs (watcher_Stop i (cs_tracker cs)))
  end.

Definition serve (ty : go_type) (q : fake_call) (cs : clientset) : outcome (reply * clientset) :=
  match ty with TMonitor => serve_Monitor q cs | TPrometheusPush => serve_PrometheusPush q cs end.

(** The calls of Go that the types allow. *)
Definition well_typed (ty : go_type) (q : fake_call) : Prop :=
  match q with QCreate _ o | QUpdate _ o | QUpdateStatus _ o => obj_Type o = ty | _ => True end.

Fixpoint run (qs : list (go_type * fake_call)) (cs : clientset) : outcome (list reply * clientset) :=
  match qs with
  | [] => Done ([], cs)
  | (ty, q) :: qs' =>
    '(r, cs) ← serve ty q cs;
    '(rs, cs) ← run qs' cs;
    Done (r :: rs, cs)
  end.

(** ** The contract *)

#[local] Notation store := (gmap (string * string) (object C)).

Definition object_key o : string * string := (obj_Namespace o, obj_Name o).

Definition event_object e : object C := match e with Added o | Modified o | Deleted o => o end.

Definition apply_event e (m : store) : store :=
  match e with
  | Added o | Modified o => <[object_key o := o]> m
  | Deleted o => delete (object_key o) m
  end.

(** A request's object takes the client's namespace when it has none. *)
Definition in_namespace (ns : string) o : object C :=
  if decide (obj_Namespace o = "") then SetNamespace o ns else o.

Definition not_found (ty : go_type) (name : string) : kube_error :=
  NewNotFound (gvr_GroupResource (resource_of ty)) name.

(** The answer of a store of one type and the event that it publishes. *)
Definition write_answer (ty : go_type) (ns : string) o (replaceExisting : bool) (m : store) :
    kube_error + event C :=
  let o := in_namespace ns o in
  if decide (ns ≠ obj_Namespace o) then
    inl (NewBadRequest "request namespace does not match object namespace")
  else match m !! object_key o, replaceExisting with
  | Some _, true => inr (Modified o)
  | Some _, false => inl (NewAlreadyExists (gvr_GroupResource (resource_of ty)) (obj_Name o))
  | None, true => inl (not_found ty (obj_Name o))
  | None, false => inr (Added o)
  end.

Definition written (w : kube_error + event C) : reply * option (event C) :=
  match w with
  | inl err => (ObjectReply None (Some err), None)
  | inr e => (ObjectReply (Some (event_object e)) None, Some e)
  end.

Definition answer (ty : go_type) (q : fake_call) (m : store) : reply * option (event C) :=
  match q with
  | QGet ns name =>
    match m !! (ns, name) with
    | Some o => (ObjectReply (Some o) None, None)
    | None => (ObjectReply None (Some (not_found ty name)), None)
    end
  | QCreate ns o => written (write_answer ty ns o false m)
  | QUpdate ns o | QUpdateStatus ns o => written (write_answer ty ns o true m)
  | QDelete ns name =>
    match m !! (ns, name) with
    | Some o => (ErrorReply None, Some (Deleted o))
    | None => (ErrorReply (Some (not_found ty name)), None)
    end
  | QPatch ns name pt data subs =>
    match m !! (ns, name) with
    | None => (ObjectReply None (Some (not_found ty name)), None)
    | Some o =>
      match apply_patch pt data o with
      | inl err => (ObjectReply None (Some err), None)
      | inr o =>
        match write_answer ty ns o true m with
        | inl err => (ObjectReply None (Some err), None)
        | inr e => (ObjectReply (Some o) None, Some e)
        end
      end
    end
  | QDeleteCollection _ _ => (ErrorReply None, None)
  | _ => (NoReply, None)
  end.

(** What a list selects. *)
Definition selects (ns : string) (opts : ListOptions) o : Prop :=
  (ns = "" ∨ obj_Namespace o = ns) ∧
  ∃ s, labels_Parse (LabelSelector opts) = Ok s ∧ Matches (default Everything s) (obj_Labels o) = true.

Definition answers (ty : go_type) (q : fake_call) (m : store) (r : reply) (oe : option (event C)) : Prop :=
  match q with
  | QList ns opts => oe = None ∧ ∃ items, r = ListReply (Some items) None ∧
      StronglySorted object_le items ∧ NoDup items ∧
      ∀ o, o ∈ items ↔ m !! object_key o = Some o ∧ selects ns opts o
  | QWatch _ _ => oe = None ∧ ∃ i, r = WatchReply (Some i) None
  | QReceive _ => oe = None ∧ ∃ got, r = EventReply got
  | _ => (r, oe) = answer ty q m
  end.

(** ** Trackers as stores *)

Definition store_at t (ty : go_type) : store := objects_of t (resource_of ty).

(** The watches of a resource in a namespace, and the events that wait in one. *)
Definition watching t (gvr : GroupVersionResource) (ns : string) : list nat :=
  default [] (default ∅ (watchers t !! gvr) !! ns).

(** The objects of a store are of its type and under their names. *)
Definition typed (ty : go_type) (m : store) : Prop :=
  map_Forall (λ k o, obj_Type o = ty ∧ object_key o = k) m.

Definition publishes (ty : go_type) (oe : option (event C)) t t' : Prop :=
  (∀ ty', store_at t' ty' = if decide (ty' = ty) then from_option apply_event id oe (store_at t ty)
                            else store_at t ty') ∧
  watchers t' = watchers t ∧
  match oe with
  | None => channels t' = channels t
  | Some e =>
    notify e (getWatches t (resource_of ty) (obj_Namespace (event_object e))) (channels t) = Done (channels t')
  end.

#[export] Instance resource_of_inj : Inj (=) (=) resource_of.
Proof. by intros [] []. Qed.

Lemma store_at_insert t chans ty ty' m :
  store_at (mkTracker (<[resource_of ty := m]> (objects t)) (watchers t) chans) ty' =
  if decide (ty' = ty) then m else store_at t ty'.
Proof.
  unfold store_at, objects_of. simpl. case_decide as Ht; [by subst; rewrite lookup_insert_eq|].
  rewrite lookup_insert_ne; [done|]. intros Hr. by apply Ht, (inj resource_of).
Qed.

Lemma publishes_none ty t : publishes ty None t t.
Proof. split; [|done]. intros ty'. by case_decide; subst. Qed.

(** ** The tracker's operations *)

Lemma in_namespace_type ns o : obj_Type (in_namespace ns o) = obj_Type o.
Proof. unfold in_namespace. by case_decide. Qed.

Lemma in_own_namespace o : in_namespace (obj_Namespace o) o = o.
Proof. unfold in_namespace. destruct o. by case_decide. Qed.

Lemma tracker_add_publishes ty ns o replaceExisting t err t' :
  tracker_add (resource_of ty) o ns replaceExisting t = Done (err, t') →
  match write_answer ty ns o replaceExisting (store_at t ty) with
  | inl err' => err = Some err' ∧ publishes ty None t t'
  | inr e => err = None ∧ publishes ty (Some e) t t' ∧ obj_Namespace (event_object e) = ns ∧
             event_object e = in_namespace ns o
  end.
Proof.
  unfold tracker_add, write_answer, in_namespace.
  set (obj := if decide (obj_Namespace o = "") then _ else _). clearbody obj. intros Ht.
  destruct (decide (ns ≠ obj_Namespace obj)) as [Hns|Hns]; simplify_eq/=.
  { split; [done|apply publishes_none]. }
  apply dec_stable in Hns as ->. unfold store_at in *.
  change (obj_Namespace obj, obj_Name obj) with (object_key obj) in Ht.
  assert (Hsame : ∀ w c, publishes ty None t (mkTracker
    (<[resource_of ty := objects_of t (resource_of ty)]> (objects t)) w c) ↔ w = watchers t ∧ c = channels t).
  { intros w c. unfold publishes. simpl. split; [naive_solver|]. intros [-> ->]. split; [|done].
    intros ty'. rewrite store_at_insert. by case_decide; subst. }
  destruct (objects_of t (resource_of ty) !! object_key obj) eqn:Hk, replaceExisting; simplify_eq/=.
  - apply bind_done in Ht; destruct Ht as (chans & Hn & Ht); simplify_eq/=. split; [done|]. split; [|done]. split; [|done].
    intros ty'. unfold with_objects. simpl. rewrite insert_insert_eq, store_at_insert. by case_decide; subst.
  - split; [done|]. by apply Hsame.
  - split; [done|]. by apply Hsame.
  - apply bind_done in Ht; destruct Ht as (chans & Hn & Ht); simplify_eq/=. split; [done|]. split; [|done]. split; [|done].
    intros ty'. unfold with_objects, with_channels. simpl. rewrite insert_insert_eq, store_at_insert. by case_decide; subst.
Qed.

Lemma tracker_Get_store ty ns name t :
  tracker_Get (resource_of ty) ns name t =
  match store_at t ty !! (ns, name) with Some o => inr o | None => inl (not_found ty name) end.
Proof.
  unfold tracker_Get, store_at, objects_of. by destruct (objects t !! _) as [objs|].
Qed.

Lemma tracker_Delete_publishes ty ns name t err t' :
  typed ty (store_at t ty) →
  tracker_Delete (resource_of ty) ns name t = Done (err, t') →
  match store_at t ty !! (ns, name) with
  | None => err = Some (not_found ty name) ∧ publishes ty None t t'
  | Some o => err = None ∧ publishes ty (Some (Deleted o)) t t'
  end.
Proof.
  unfold tracker_Delete. intros Hty Ht. pose proof (publishes_none ty t) as Hno.
  unfold store_at, objects_of in *.
  destruct (objects t !! resource_of ty) as [objs|] eqn:Hobjs; simplify_eq/=; [|done].
  destruct (objs !! (ns, name)) as [o|] eqn:Hk; simplify_eq/=; [|done].
  apply bind_done in Ht; destruct Ht as (chans & Hn & Ht); simplify_eq/=.
  destruct (Hty _ _ Hk) as [_ [= Hns Hname]]. split; [done|]. split; [|by subst].
  intros ty'. unfold with_objects, with_channels. simpl. rewrite store_at_insert.
  case_decide as Hty'; [|done]. subst. unfold store_at, objects_of. by rewrite Hobjs.
Qed.

Lemma elem_of_filterByNamespace (m : store) ns o :
  (∀ k o, m !! k = Some o → object_key o = k) →
  o ∈ filterByNamespace m ns ↔ m !! object_key o = Some o ∧ (ns = "" ∨ obj_Namespace o = ns).
Proof.
  intros Hm. unfold filterByNamespace. rewrite merge_sort_Permutation, list_elem_of_filter, list_elem_of_fmap.
  split.
  - intros [Hns ([k o'] & -> & Hk%elem_of_map_to_list)]. split; [|done]. simpl. by rewrite (Hm _ _ Hk).
  - intros [Hk Hns]. split; [done|]. exists (object_key o, o). split; [done|]. by apply elem_of_map_to_list.
Qed.

Lemma NoDup_filterByNamespace (m : store) ns :
  (∀ k o, m !! k = Some o → object_key o = k) → NoDup (filterByNamespace m ns).
Proof.
  intros Hm. unfold filterByNamespace. rewrite merge_sort_Permutation. apply NoDup_filter.
  apply (NoDup_fmap_1 object_key).
  rewrite <- list_fmap_compose. replace ((object_key ∘ snd) <$> map_to_list m) with (map_to_list m).*1.
  - apply NoDup_fst_map_to_list.
  - apply list_fmap_ext. intros i [k o] Hi%list_elem_of_lookup_2. simpl. symmetry.
    by apply Hm, elem_of_map_to_list.
Qed.

#[export] Instance object_le_total : Total (object_le (C:=C)).
Proof.
  intros o1 o2. unfold object_le.
  destruct (decide (obj_Namespace o1 = obj_Namespace o2)) as [->|Hne]; [|rewrite decide_False by done].
  - rewrite decide_True by done. apply (total String.le).
  - apply (total String.le).
Qed.

#[export] Instance object_le_trans : Transitive (object_le (C:=C)).
Proof.
  intros o1 o2 o3. unfold object_le.
  destruct (decide (obj_Namespace o1 = obj_Namespace o2)) as [E12|N12],
    (decide (obj_Namespace o2 = obj_Namespace o3)) as [E23|N23]; rewrite ?E12, <- ?E23.
  - rewrite decide_True by done. apply transitivity.
  - by rewrite decide_False.
  - by rewrite decide_False.
  - intros L12 L23. case_decide as E13; [|by trans (obj_Namespace o2)].
    rewrite <- E13 in L23. by destruct N12; apply (anti_symm String.le).
Qed.

Lemma StronglySorted_filter {A} (R : relation A) (P : A → Prop) `{∀ x, Decision (P x)} (l : list A) :
  StronglySorted R l → StronglySorted R (filter P l).
Proof.
  induction 1 as [|x l Hl IH Hx]; [constructor|]. rewrite filter_cons. case_decide; [|done].
  constructor; [done|]. apply Forall_forall. intros y [_ Hy]%list_elem_of_filter.
  revert y Hy. by apply Forall_forall.
Qed.

Lemma sorted_list (m : store) ns : StronglySorted object_le (filterByNamespace m ns).
Proof. apply Sorted_StronglySorted; [apply _|]. unfold filterByNamespace. apply Sorted_merge_sort, _. Qed.

(** ** The chain of reactors *)

(** A clientset as [NewSimpleClientset] makes it. *)
Definition simple (cs : clientset) : Prop :=
  ReactionChain cs = [mkReactor "*" "*" ObjectReaction] ∧
  WatchReactionChain cs = [mkWatchReactor "*" tracker_watch_reaction].

Definition after (cs : clientset) (a : action C) t : clientset :=
  mkClientset (actions cs ++ [a]) (ReactionChain cs) (WatchReactionChain cs) t.

Lemma simple_after cs a t : simple cs → simple (after cs a t).
Proof. done. Qed.

Lemma Invokes_simple a d cs : simple cs →
  Invokes a d cs =
    '(handled, ret, err, t) ← ObjectReaction a (cs_tracker cs);
    Done (if (handled : bool) then (ret, err, after cs a t) else (Some d, None, after cs a t)).
Proof.
  intros [Hr _]. unfold Invokes, after. rewrite Hr. simpl.
  destruct (ObjectReaction a (cs_tracker cs)) as [[[[[] ret] err] t]|]; done.
Qed.

Lemma InvokesWatch_simple a cs : simple cs →
  InvokesWatch a cs =
    let '(w, t) := tracker_Watch (GetResource a) (GetNamespace a) (cs_tracker cs) in
    Done (Some w, None, after cs a t).
Proof. intros [_ Hr]. unfold InvokesWatch, after. by rewrite Hr. Qed.

(** The calls of both files, by type. *)
Definition serve_any (ty : go_type) (q : fake_call) (cs : clientset) : outcome (reply * clientset) :=
  match q with
  | QGet ns name => outcome_map object_reply (Fake_Get ty (resource_of ty) ns name cs)
  | QList ns opts => outcome_map list_reply (Fake_List ty (resource_of ty) (kind_of ty) ns opts cs)
  | QWatch ns opts => outcome_map watch_reply (Fake_Watch (resource_of ty) ns opts cs)
  | QCreate ns o => outcome_map object_reply (Fake_Create ty (resource_of ty) ns o cs)
  | QUpdate ns o => outcome_map object_reply (Fake_Update ty (resource_of ty) ns o cs)
  | QUpdateStatus ns o => outcome_map object_reply (Fake_UpdateStatus ty (resource_of ty) ns o cs)
  | QDelete ns name => outcome_map error_reply (Fake_Delete ty (resource_of ty) ns name cs)
  | QDeleteCollection ns opts =>
    outcome_map error_reply (Fake_DeleteCollection ty (resource_of ty) ns opts cs)
  | QPatch ns name pt data subs =>
    outcome_map object_reply (Fake_Patch ty (resource_of ty) ns name pt data subs cs)
  | QReceive i => let '(e, t) := receive i (cs_tracker cs) in Done (EventReply e, with_tracker cs t)
  | QStop i => Done (NoReply, with_tracker cs (watcher_Stop i (cs_tracker cs)))
  end.

Lemma serve_eq ty q cs : serve ty q cs = serve_any ty q cs.
Proof. by destruct ty, q. Qed.

(** An action whose reaction is final. *)
Definition handled (a : action C) : Prop :=
  match a with DeleteCollectionAction _ _ | WatchAction _ _ => False | _ => True end.

Lemma changed_done gvr ns name c res t' :
  changed gvr ns name c = Done (res, t') →
  ∃ err, c = Done (err, t') ∧
    res = match err with Some err => (true, None, Some err) | None => (get_result t' (tracker_Get gvr ns name t')).1 end.
Proof.
  unfold changed, get_result. intros Hc. apply bind_done in Hc. destruct Hc as ([err t] & -> & Hc).
  destruct err, (tracker_Get gvr ns name t) eqn:Hg; simplify_eq/=; eexists; (split; [done|]); simpl; by rewrite ?Hg.
Qed.

Lemma handled_reaction a t h ret err t' :
  handled a → ObjectReaction a t = Done (h, ret, err, t') → h = true.
Proof.
  destruct a; simpl; intros Ha Hr; try done; split_and?; inv_matches; try done;
    repeat match goal with
    | H : changed _ _ _ _ = _ |- _ => apply changed_done in H; destruct H as (? & ? & ?)
    | H : _ ≫= _ = Done _ |- _ => apply bind_done in H; destruct H as ([? ?] & ? & ?)
    end; unfold get_result in *; inv_matches; by simplify_eq.
Qed.

Definition object_in (ret : option (runtime_object C)) : option (object C) :=
  match ret with Some (RObject o) => Some o | _ => None end.

Lemma object_call ty a d cs r cs' :
  simple cs → handled a →
  outcome_map object_reply (return_object ty (Invokes a d cs)) = Done (r, cs') →
  ∃ ret err t', ObjectReaction a (cs_tracker cs) = Done (true, ret, err, t') ∧
    cs' = after cs a t' ∧ r = ObjectReply (object_in ret) err.
Proof.
  intros Hcs Ha. rewrite Invokes_simple by done.
  destruct (ObjectReaction a (cs_tracker cs)) as [[[[h ret] err] t']|] eqn:Hr; [|done].
  rewrite (handled_reaction _ _ _ _ _ _ Ha Hr). unfold return_object, assert_object, outcome_map. simpl.
  intros Hdone. exists ret, err, t'. destruct ret as [[o|ty' items]|]; simplify_eq/=; [|done].
  case_decide; simplify_eq/=. done.
Qed.

(** ** Every call follows the contract *)

Lemma write_call ty ns o replaceExisting t err t' :
  tracker_add (resource_of ty) o ns replaceExisting t = Done (err, t') →
  ∃ oe, publishes ty oe t t' ∧
    match write_answer ty ns o replaceExisting (store_at t ty) with
    | inl err' => err = Some err' ∧ oe = None
    | inr e => err = None ∧ oe = Some e ∧
        store_at t' ty !! (ns, obj_Name o) = Some (event_object e)
    end.
Proof.
  intros Ht%tracker_add_publishes. destruct (write_answer _ _ _ _ _) as [err'|e] eqn:Hw.
  { destruct Ht as [-> Hp]. by exists None. }
  destruct Ht as (-> & Hp & Hns & Ho). exists (Some e). split; [done|]. split_and!; [done..|].
  destruct Hp as [Hs _]. rewrite Hs, decide_True by done. simpl.
  assert (Hk : object_key (event_object e) = (ns, obj_Name o)).
  { unfold object_key. rewrite Hns, Ho. unfold in_namespace. by case_decide. }
  rewrite <- Hk. destruct e; [apply lookup_insert_eq..|]. unfold write_answer in Hw. by inv_matches.
Qed.

Lemma changed_call ty ns o replaceExisting t res t' :
  changed (resource_of ty) ns (obj_Name o) (tracker_add (resource_of ty) o ns replaceExisting t) = Done (res, t') →
  ∃ oe, publishes ty oe t t' ∧
    (ObjectReply (object_in res.1.2) res.2, oe) = written (write_answer ty ns o replaceExisting (store_at t ty)).
Proof.
  intros (err & (oe & Hp & Hw)%write_call & ->)%changed_done. exists oe. split; [done|].
  destruct (write_answer _ _ _ _ _) as [err'|e]; [by destruct Hw as [-> ->]|].
  destruct Hw as (-> & -> & Hs). by rewrite tracker_Get_store, Hs.
Qed.

Definition typed_tracker t : Prop := ∀ ty, typed ty (store_at t ty).

Lemma tracker_List_typed ty ns t :
  typed_tracker t →
  tracker_List (resource_of ty) (kind_of ty) ns t = inr (ty, filterByNamespace (store_at t ty) ns).
Proof.
  intros Hty. specialize (Hty ty). unfold tracker_List. replace (new_list (kind_of ty)) with (@inr kube_error _ ty) by by destruct ty.
  unfold store_at, objects_of in *. destruct (objects t !! resource_of ty) as [objs|]; [|done]. simpl in *.
  unfold SetList. rewrite decide_True; [done|]. apply Forall_forall. intros o Ho.
  apply elem_of_filterByNamespace in Ho; [|by intros k o' [_ ?]%Hty]. by destruct Ho as [[? _]%Hty _].
Qed.

(** How a call moves the tracker. *)
Definition moves (ty : go_type) (q : fake_call) (r : reply) (oe : option (event C)) t t' : Prop :=
  match q with
  | QWatch ns _ => tracker_Watch (resource_of ty) ns t = (length (channels t), t') ∧
                   r = WatchReply (Some (length (channels t))) None
  | QReceive i => ∃ got, receive i t = (got, t') ∧ r = EventReply got
  | QStop i => t' = watcher_Stop i t
  | _ => publishes ty oe t t'
  end.

Lemma list_call ty ns opts cs r cs' :
  simple cs → typed_tracker (cs_tracker cs) →
  outcome_map list_reply (Fake_List ty (resource_of ty) (kind_of ty) ns opts cs) = Done (r, cs') →
  simple cs' ∧ cs_tracker cs' = cs_tracker cs ∧ answers ty (QList ns opts) (store_at (cs_tracker cs) ty) r None.
Proof.
  intros Hcs Hty. unfold Fake_List, outcome_map, ExtractFromListOptions. rewrite Invokes_simple by done. simpl.
  rewrite (tracker_List_typed _ _ _ Hty).
  destruct (labels_Parse (LabelSelector opts)) as [s|] eqn:Hs, (fields_ParseError (FieldSelector opts)); simpl; try done.
  rewrite decide_True by done. intros [= <- <-]. split; [by apply simple_after|]. split; [done|]. split; [done|].
  eexists; split; [done|].
  assert (Hkey : ∀ k o, store_at (cs_tracker cs) ty !! k = Some o → object_key o = k) by (by intros k o [_ ?]%Hty).
  split; [|split].
  - apply StronglySorted_filter, sorted_list.
  - by apply NoDup_filter, NoDup_filterByNamespace.
  - intros o. rewrite list_elem_of_filter, elem_of_filterByNamespace by done. unfold selects. rewrite Hs. naive_solver.
Qed.

(** From the reaction to a call for an object. *)
Ltac object_call Hs :=
  apply object_call in Hs; [|done|done]; destruct Hs as (ret & err & t' & Hr & -> & ->);
  split; [by apply simple_after|]; cbn [ObjectReaction] in Hr.

Lemma get_call ty ns name cs r cs' : simple cs →
  outcome_map object_reply (Fake_Get ty (resource_of ty) ns name cs) = Done (r, cs') →
  simple cs' ∧ cs_tracker cs' = cs_tracker cs ∧ (r, None) = answer ty (QGet ns name) (store_at (cs_tracker cs) ty).
Proof.
  intros Hcs Hs. object_call Hs. rewrite tracker_Get_store in Hr. simpl.
  destruct (_ !! (ns, name)); simplify_eq/=; done.
Qed.

Lemma delete_call ty ns name cs r cs' : simple cs → typed_tracker (cs_tracker cs) →
  outcome_map error_reply (Fake_Delete ty (resource_of ty) ns name cs) = Done (r, cs') →
  simple cs' ∧ ∃ oe, publishes ty oe (cs_tracker cs) (cs_tracker cs') ∧
    (r, oe) = answer ty (QDelete ns name) (store_at (cs_tracker cs) ty).
Proof.
  intros Hcs Hty Hs. unfold Fake_Delete, outcome_map in Hs. rewrite Invokes_simple in Hs by done. simpl in Hs.
  destruct (tracker_Delete (resource_of ty) ns name (cs_tracker cs)) as [[err t']|] eqn:Hd; simplify_eq/=.
  split; [by apply simple_after|]. apply tracker_Delete_publishes in Hd; [|apply Hty].
  destruct (_ !! (ns, name)) as [o|]; destruct Hd as [-> Hp]; eauto.
Qed.

Lemma patch_call ty ns name pt data subs cs r cs' : simple cs →
  outcome_map object_reply (Fake_Patch ty (resource_of ty) ns name pt data subs cs) = Done (r, cs') →
  simple cs' ∧ ∃ oe, publishes ty oe (cs_tracker cs) (cs_tracker cs') ∧
    (r, oe) = answer ty (QPatch ns name pt data subs) (store_at (cs_tracker cs) ty).
Proof.
  intros Hcs Hs. object_call Hs. rewrite tracker_Get_store in Hr. cbn [answer cs_tracker after].
  destruct (_ !! (ns, name)) as [o|]; simplify_eq/=; [|by eauto using publishes_none].
  destruct (apply_patch pt data o) as [err'|o']; simplify_eq/=; [by eauto using publishes_none|].
  apply bind_done in Hr. destruct Hr as ([err' t''] & Ha & Hr). apply write_call in Ha as (oe & Hp & Hw).
  destruct (write_answer _ _ _ _ _) as [err''|e]; [destruct Hw as [-> ->]|destruct Hw as (-> & -> & _)];
    simplify_eq/=; eauto.
Qed.

Lemma serve_answers ty q cs r cs' :
  simple cs → typed_tracker (cs_tracker cs) → serve ty q cs = Done (r, cs') →
  simple cs' ∧ ∃ oe, answers ty q (store_at (cs_tracker cs) ty) r oe ∧
    moves ty q r oe (cs_tracker cs) (cs_tracker cs').
Proof.
  intros Hcs Hty. rewrite serve_eq. destruct q; cbn [serve_any answers moves]; intros Hs.
  - apply get_call in Hs as (Hs & -> & Ha); [|done]. split; [done|]. exists None. split; [done|apply publishes_none].
  - apply list_call in Hs as (Hs & -> & Ha); [|done..]. split; [done|]. exists None. split; [done|apply publishes_none].
  - unfold Fake_Watch, outcome_map, ExtractFromListOptions in Hs. rewrite InvokesWatch_simple in Hs by done.
    inv_matches. split; [by apply simple_after|]. exists None. unfold tracker_Watch in *. simplify_eq/=. eauto 6.
  - object_call Hs. apply changed_call in Hr as (oe & Hp & Ha). eauto.
  - object_call Hs. apply changed_call in Hr as (oe & Hp & Ha). eauto.
  - object_call Hs. apply changed_call in Hr as (oe & Hp & Ha). eauto.
  - apply delete_call in Hs as (? & oe & ? & ?); eauto.
  - unfold Fake_DeleteCollection, outcome_map, ExtractFromListOptions in Hs. rewrite Invokes_simple in Hs by done.
    inv_matches. split; [by apply simple_after|]. exists None. split; [done|apply publishes_none].
  - apply patch_call in Hs as (? & oe & ? & ?); eauto.
  - destruct (receive i (cs_tracker cs)) as [e t] eqn:Hr. simplify_eq/=. split; [done|]. exists None. eauto 6.
  - simplify_eq/=. eauto.
Qed.

(** ** Invariants of the tracker *)

Lemma answers_typed ty q m r e :
  typed ty m → well_typed ty q → answers ty q m r (Some e) → typed ty (apply_event e m).
Proof.
  intros Hm Hq Ha.
  assert (Hins : ∀ ns o, obj_Type o = ty →
    typed ty (<[object_key (in_namespace ns o) := in_namespace ns o]> m)).
  { intros ns o Ho. apply map_Forall_insert_2; [|done]. by rewrite in_namespace_type. }
  assert (Hdel : ∀ o, typed ty (delete (object_key o) m)) by (intros o; by apply map_Forall_delete).
  destruct q; simpl in Ha, Hq; unfold written, write_answer in Ha; inv_matches;
    try (by destruct Ha); try done; auto.
  all: apply Hins; eapply eq_trans; [by eapply apply_patch_type|]; by eapply Hm.
Qed.

Record watches_ok t : Prop := {
  watching_NoDup gvr ns : NoDup (watching t gvr ns);
  watching_inj i gvr ns gvr' ns' :
    i ∈ watching t gvr ns → i ∈ watching t gvr' ns' → gvr = gvr' ∧ ns = ns';
  watching_bound i gvr ns : i ∈ watching t gvr ns → i < length (channels t)
}.

Lemma getWatches_watching t gvr ns :
  getWatches t gvr ns = watching t gvr ns ++ if decide (ns = NamespaceAll) then [] else watching t gvr NamespaceAll.
Proof. unfold getWatches, watching. destruct (watchers t !! gvr); [done|]. by case_decide. Qed.

Lemma getWatches_NoDup t gvr ns : watches_ok t → NoDup (getWatches t gvr ns).
Proof.
  intros Ht. rewrite getWatches_watching. apply NoDup_app. split_and!.
  - apply Ht.
  - intros i Hi. case_decide; [apply not_elem_of_nil|]. intros Hi'.
    by destruct (watching_inj _ Ht _ _ _ _ _ Hi Hi').
  - case_decide; [constructor|apply Ht].
Qed.

Lemma elem_of_getWatches t gvr gvr0 ns ns0 i :
  watches_ok t → i ∈ watching t gvr0 ns0 →
  i ∈ getWatches t gvr ns ↔ gvr = gvr0 ∧ (ns0 = NamespaceAll ∨ ns = ns0).
Proof.
  intros Ht Hi. rewrite getWatches_watching, elem_of_app. split.
  - intros [Hi'|Hi'].
    + destruct (watching_inj _ Ht _ _ _ _ _ Hi Hi') as [-> ->]. auto.
    + case_decide; [by apply not_elem_of_nil in Hi'|].
      destruct (watching_inj _ Ht _ _ _ _ _ Hi Hi') as [-> ->]. auto.
  - intros [-> [->| ->]]; [|by left]. case_decide; subst; auto.
Qed.

Lemma watching_Watch t gvr ns gvr' ns' :
  watching (tracker_Watch gvr ns t).2 gvr' ns' =
  watching t gvr' ns' ++ if decide (gvr' = gvr ∧ ns' = ns) then [length (channels t)] else [].
Proof.
  unfold watching, tracker_Watch. simpl. destruct (decide (gvr' = gvr)) as [->|Hg].
  - rewrite lookup_insert_eq. simpl. destruct (decide (ns' = ns)) as [->|Hn].
    + by rewrite lookup_insert_eq, decide_True.
    + rewrite lookup_insert_ne, decide_False, app_nil_r by naive_solver. done.
  - rewrite lookup_insert_ne, decide_False, app_nil_r by naive_solver. done.
Qed.

Definition delivered e (w : watcher C) : watcher C :=
  if w_Stopped w then w else mkWatcher false (w_result w ++ [e]).

Lemma notify_delivered e ws chans chans' :
  NoDup ws → notify e ws chans = Done chans' →
  length chans' = length chans ∧
  ∀ i, chans' !! i = if decide (i ∈ ws) then delivered e <$> chans !! i else chans !! i.
Proof.
  intros Hnd. revert chans. induction Hnd as [|j ws Hj _ IH]; intros chans Hn; simplify_eq/=.
  { split; [done|]. by intros i. }
  destruct (chans !! j) as [w|] eqn:Hw.
  - apply bind_done in Hn. destruct Hn as (w' & Hsend & Hn).
    assert (w' = delivered e w) as ->.
    { unfold send, delivered in *. inv_matches; done. }
    apply IH in Hn as [Hlen Hl]. rewrite length_insert in Hlen. split; [done|]. intros i. rewrite Hl.
    destruct (decide (i = j)) as [->|Hne].
    + rewrite (decide_False (P:=j ∈ ws)), (decide_True (P:=j ∈ j :: ws)) by (done || apply list_elem_of_here).
      rewrite Hw. apply list_lookup_insert_eq. by eapply lookup_lt_Some.
    + rewrite list_lookup_insert_ne by done. apply decide_ext. set_solver.
  - apply IH in Hn as [Hlen Hl]. split; [done|]. intros i. rewrite Hl.
    destruct (decide (i = j)) as [->|Hne].
    + by rewrite (decide_False (P:=j ∈ ws)), (decide_True (P:=j ∈ j :: ws)), Hw by (done || apply list_elem_of_here).
    + apply decide_ext. set_solver.
Qed.

Lemma watches_ok_same t t' :
  watches_ok t → watchers t' = watchers t → length (channels t') = length (channels t) → watches_ok t'.
Proof. intros [] Hw Hl. split; unfold watching in *; rewrite ?Hw; [done..|]. rewrite Hl. done. Qed.

Lemma watches_ok_Watch t gvr ns : watches_ok t → watches_ok (tracker_Watch gvr ns t).2.
Proof.
  intros Ht.
  assert (Hnew : ∀ gvr' ns', length (channels t) ∉ watching t gvr' ns').
  { intros gvr' ns' Hi. apply (watching_bound _ Ht) in Hi. lia. }
  split.
  - intros gvr' ns'. rewrite watching_Watch. apply NoDup_app. split_and!; [apply Ht| |].
    + intros i Hi. case_decide; [|apply not_elem_of_nil]. rewrite list_elem_of_singleton. intros ->. by destruct (Hnew gvr' ns').
    + case_decide; [apply NoDup_singleton|constructor].
  - intros i gvr1 ns1 gvr2 ns2. rewrite !watching_Watch, !elem_of_app.
    intros [H1|H1] [H2|H2]; [by eapply watching_inj|..]; repeat case_decide;
      rewrite ?list_elem_of_singleton, ?elem_of_nil in *; naive_solver.
  - intros i gvr' ns'. rewrite watching_Watch, elem_of_app. unfold tracker_Watch. simpl. rewrite length_app. simpl.
    intros [Hi|Hi]; [apply (watching_bound _ Ht) in Hi; lia|]. case_decide; [|by apply not_elem_of_nil in Hi].
    apply list_elem_of_singleton in Hi. lia.
Qed.

Definition good (cs : clientset) : Prop :=
  simple cs ∧ typed_tracker (cs_tracker cs) ∧ watches_ok (cs_tracker cs).

Lemma receive_channels i t got t' : receive i t = (got, t') →
  objects t' = objects t ∧ watchers t' = watchers t ∧ length (channels t') = length (channels t).
Proof. unfold receive. intros Hr. inv_matches; by rewrite ?length_insert. Qed.

Lemma watcher_Stop_channels i t :
  objects (watcher_Stop i t) = objects t ∧ watchers (watcher_Stop i t) = watchers t ∧
  length (channels (watcher_Stop i t)) = length (channels t).
Proof. unfold watcher_Stop. destruct (channels t !! i); simpl; by rewrite ?length_insert. Qed.

(** How the stores move. *)
Lemma moves_stores ty q m r oe t t' :
  answers ty q m r oe → moves ty q r oe t t' →
  ∀ ty', store_at t' ty' = if decide (ty' = ty) then from_option apply_event id oe (store_at t ty) else store_at t ty'.
Proof.
  intros Ha Hm. assert (Hsame : ∀ t1 t2, objects t2 = objects t1 → oe = None → ∀ ty',
    store_at t2 ty' = if decide (ty' = ty) then from_option apply_event id oe (store_at t1 ty) else store_at t1 ty').
  { intros t1 t2 Ho -> ty'. unfold store_at, objects_of. rewrite Ho. by case_decide; subst. }
  destruct q; try apply Hm; simpl in Hm, Ha.
  - destruct Hm as [Hm _]. unfold tracker_Watch in Hm. simplify_eq/=. by apply Hsame, Ha.
  - destruct Hm as (got & Hm & _). apply receive_channels in Hm as [Ho _]. by apply Hsame, Ha.
  - subst. apply Hsame; [apply watcher_Stop_channels|]. by simplify_eq.
Qed.

Lemma moves_watches_ok ty q r oe t t' : watches_ok t → moves ty q r oe t t' → watches_ok t'.
Proof.
  intros Ht Hm.
  assert (Hp : publishes ty oe t t' → watches_ok t').
  { intros (_ & Hw & Hc). apply (watches_ok_same t); [done..|]. destruct oe as [e|]; [|by rewrite Hc].
    apply notify_delivered in Hc as [? _]; [done|]. by apply getWatches_NoDup. }
  destruct q; try by apply Hp; simpl in Hm.
  - destruct Hm as [Hm _]. replace t' with (tracker_Watch (resource_of ty) ns t).2 by by rewrite Hm.
    by apply watches_ok_Watch.
  - destruct Hm as (got & Hm & _). apply receive_channels in Hm as (_ & ? & ?). by apply (watches_ok_same t).
  - destruct (watcher_Stop_channels i t) as (_ & ? & ?). simpl in Hm. subst. by apply (watches_ok_same t).
Qed.

Lemma serve_good ty q cs r cs' :
  good cs → well_typed ty q → serve ty q cs = Done (r, cs') →
  good cs' ∧ ∃ oe, answers ty q (store_at (cs_tracker cs) ty) r oe ∧
    moves ty q r oe (cs_tracker cs) (cs_tracker cs').
Proof.
  intros (Hcs & Hty & Hw) Hq Hs. apply serve_answers in Hs as (Hcs' & oe & Ha & Hm); [|done..].
  split; [|by eauto]. split; [done|]. split; [|by eapply moves_watches_ok].
  intros ty'. rewrite (moves_stores _ _ _ _ _ _ _ Ha Hm). case_decide as Ht; [|done]. subst.
  destruct oe as [e|]; [by eapply answers_typed|done].
Qed.

(** ** Runs against the contract *)

Definition stores : Type := go_type → store.

Definition publish (ty : go_type) (oe : option (event C)) (S : stores) : stores :=
  λ ty', if decide (ty' = ty) then from_option apply_event id oe (S ty) else S ty'.

Inductive spec_run : stores → list (go_type * fake_call) → list reply → stores → Prop :=
| spec_nil S : spec_run S [] [] S
| spec_cons S ty q r oe qs rs S' :
  answers ty q (S ty) r oe → spec_run (publish ty oe S) qs rs S' →
  spec_run S ((ty, q) :: qs) (r :: rs) S'.

Lemma run_cons_done ty q qs cs rs cs' :
  run ((ty, q) :: qs) cs = Done (rs, cs') →
  ∃ r cs1 rs', serve ty q cs = Done (r, cs1) ∧ run qs cs1 = Done (rs', cs') ∧ rs = r :: rs'.
Proof.
  simpl. destruct (serve ty q cs) as [[r cs1]|] eqn:Hs; [|done]. simpl.
  destruct (run qs cs1) as [[rs' cs2]|] eqn:Hr; [|done]. simpl. intros [= <- <-]. eauto 6.
Qed.

Lemma run_good qs cs rs cs' S :
  good cs → Forall (λ p, well_typed p.1 p.2) qs → run qs cs = Done (rs, cs') →
  (∀ ty, S ty = store_at (cs_tracker cs) ty) →
  good cs' ∧ ∃ S', spec_run S qs rs S' ∧ ∀ ty, S' ty = store_at (cs_tracker cs') ty.
Proof.
  revert cs rs S. induction qs as [|[ty q] qs IH]; intros cs rs S Hcs Hqs Hrun HS.
  { simplify_eq/=. split; [done|]. eauto using spec_nil. }
  apply run_cons_done in Hrun as (r & cs1 & rs' & Hs & Hrun & ->). inversion_clear Hqs as [|? ? Hq Hqs'].
  apply serve_good in Hs as (Hcs1 & oe & Ha & Hm); [|done..].
  destruct (IH cs1 rs' (publish ty oe S) Hcs1 Hqs' Hrun) as (? & S' & Hspec & HS').
  { intros ty'. unfold publish. rewrite !HS. symmetry. by eapply moves_stores. }
  split; [done|]. exists S'. split; [|done]. eapply spec_cons; [by rewrite HS|done].
Qed.

(** ** Watches *)

Definition visible (ns : string) (m : store) : store := filter (λ kv : string * string * object C, ns = "" ∨ kv.1.1 = ns) m.

Definition replay (es : list (event C)) (m : store) : store := foldl (λ m e, apply_event e m) m es.

(** What one call, and a run, received from a watch. *)
Definition received_one (i : nat) (q : fake_call) (r : reply) : list (event C) :=
  match q, r with
  | QReceive j, EventReply (Some e) => if decide (j = i) then [e] else []
  | _, _ => []
  end.

Fixpoint received (i : nat) (qs : list (go_type * fake_call)) (rs : list reply) : list (event C) :=
  match qs, rs with
  | (_, q) :: qs', r :: rs' => received_one i q r ++ received i qs' rs'
  | _, _ => []
  end.

Lemma visible_event (ns : string) e (m : store) :
  visible ns (apply_event e m) =
  if decide (ns = "" ∨ ns = obj_Namespace (event_object e)) then apply_event e (visible ns m) else visible ns m.
Proof.
  unfold visible. case_decide as Hns.
  - destruct e as [o|o|o]; simpl; [rewrite map_filter_insert_True by naive_solver..|rewrite map_filter_delete]; done.
  - destruct e as [o|o|o]; simpl.
    1, 2: rewrite map_filter_insert_False by naive_solver; apply map_filter_delete_not; naive_solver.
    apply map_filter_delete_not. naive_solver.
Qed.

(** A watch that has been given [es] since. *)
Definition advances (i : nat) (p : list (event C)) ty ns t (got : list (event C)) t' : Prop :=
  ∃ p' es, channels t' !! i = Some (mkWatcher false p') ∧ got ++ p' = p ++ es ∧
    replay es (visible ns (store_at t ty)) = visible ns (store_at t' ty).

Lemma advances_same i p ty ns t t' :
  channels t' !! i = Some (mkWatcher false p) → store_at t' ty = store_at t ty → advances i p ty ns t [] t'.
Proof. intros Hi Hs. exists p, []. rewrite app_nil_r. split_and!; [done..|]. by rewrite Hs. Qed.

Lemma publishes_advances i p ty ns ty' oe t t' :
  watches_ok t → i ∈ watching t (resource_of ty) ns → channels t !! i = Some (mkWatcher false p) →
  publishes ty' oe t t' → advances i p ty ns t [] t'.
Proof.
  intros Ht Hi Hp (Hs & _ & Hc). destruct oe as [e|].
  2: { apply advances_same; [by rewrite Hc|]. rewrite Hs. by case_decide; subst. }
  apply notify_delivered in Hc as [_ Hc]; [|by apply getWatches_NoDup]. specialize (Hc i).
  rewrite Hp in Hc. destruct (decide (i ∈ _)) as [Hin|Hin] in Hc.
  - apply (elem_of_getWatches _ _ _ _ _ _ Ht Hi) in Hin as [->%(inj resource_of) Hns]. simpl in Hc.
    exists (p ++ [e]), [e]. split_and!; [done..|]. rewrite Hs, decide_True by done. simpl.
    rewrite visible_event, decide_True; [done|]. unfold NamespaceAll in Hns. naive_solver.
  - rewrite (elem_of_getWatches _ _ _ _ _ _ Ht Hi) in Hin. exists p, []. rewrite app_nil_r. split_and!; [done..|].
    rewrite Hs. case_decide as Hty; [|done]. subst. simpl. rewrite visible_event, decide_False; [done|].
    unfold NamespaceAll in Hin. naive_solver.
Qed.

Lemma receive_advances i j p ty ns t got t' :
  channels t !! i = Some (mkWatcher false p) → receive j t = (got, t') →
  advances i p ty ns t (received_one i (QReceive j) (EventReply got)) t'.
Proof.
  intros Hp Hr. assert (Hs : store_at t' ty = store_at t ty).
  { apply receive_channels in Hr as [Ho _]. unfold store_at, objects_of. by rewrite Ho. }
  unfold receive in Hr. destruct (channels t !! j) as [w|] eqn:Hj; simplify_eq/=; [|by apply advances_same].
  destruct (w_result w) as [|e es] eqn:Hw; simplify_eq/=; [by apply advances_same|].
  case_decide as Hji; subst.
  - simplify_eq/=. exists es, []. rewrite app_nil_r. split_and!; [|done|by rewrite Hs].
    apply list_lookup_insert_eq. by eapply lookup_lt_Some.
  - apply advances_same; [|done]. simpl. by rewrite list_lookup_insert_ne.
Qed.

Lemma moves_advances i p ty ns ty' q r oe t t' :
  watches_ok t → i ∈ watching t (resource_of ty) ns → channels t !! i = Some (mkWatcher false p) →
  q ≠ QStop i → moves ty' q r oe t t' → advances i p ty ns t (received_one i q r) t'.
Proof.
  intros Ht Hi Hp Hq Hm. destruct q; try (by eapply publishes_advances); simpl in Hm.
  - destruct Hm as [Hm _]. unfold tracker_Watch in Hm. simplify_eq/=. apply advances_same; [|done]. simpl.
    rewrite lookup_app_l; [done|]. by eapply lookup_lt_Some.
  - destruct Hm as (got & Hm & ->). by apply receive_advances.
  - subst t'. unfold watcher_Stop. destruct (channels t !! i0) eqn:Hi0; [|by apply advances_same].
    apply advances_same; [|done]. simpl. rewrite list_lookup_insert_ne; [done|congruence].
Qed.

Lemma moves_watching i gvr ns ty' q r oe t t' :
  moves ty' q r oe t t' → i ∈ watching t gvr ns → i ∈ watching t' gvr ns.
Proof.
  intros Hm Hi. assert (Hsame : watchers t' = watchers t → i ∈ watching t' gvr ns).
  { intros Hw. unfold watching. by rewrite Hw. }
  destruct q; try by apply Hsame, Hm; simpl in Hm.
  - destruct Hm as [Hm _]. replace t' with (tracker_Watch (resource_of ty') ns0 t).2 by by rewrite Hm.
    rewrite watching_Watch. set_solver.
  - destruct Hm as (got & Hm & _). apply Hsame. by apply receive_channels in Hm as (_ & ? & _).
  - simpl in Hm. subst. apply Hsame, watcher_Stop_channels.
Qed.

Lemma replay_app es es' m : replay (es ++ es') m = replay es' (replay es m).
Proof. apply foldl_app. Qed.

Lemma run_advances i p ty ns qs cs rs cs' :
  good cs → Forall (λ q, well_typed q.1 q.2) qs → QStop i ∉ qs.*2 → run qs cs = Done (rs, cs') →
  i ∈ watching (cs_tracker cs) (resource_of ty) ns →
  channels (cs_tracker cs) !! i = Some (mkWatcher false p) →
  advances i p ty ns (cs_tracker cs) (received i qs rs) (cs_tracker cs').
Proof.
  revert cs p rs. induction qs as [|[ty' q] qs IH]; intros cs p rs Hcs Hqs Hstop Hrun Hi Hp.
  { simplify_eq/=. by apply advances_same. }
  apply run_cons_done in Hrun as (r & cs1 & rs' & Hs & Hrun & ->). inversion_clear Hqs as [|? ? Hq Hqs'].
  rewrite fmap_cons, not_elem_of_cons in Hstop. destruct Hstop as [Hq' Hstop]. simpl in Hq'.
  apply serve_good in Hs as (Hcs1 & oe & _ & Hm); [|done..].
  pose proof (moves_advances i p ty ns _ _ _ _ _ _ (proj2 (proj2 Hcs)) Hi Hp (not_eq_sym Hq') Hm)
    as (p1 & es & Hp1 & Hgot & Hre).
  destruct (IH cs1 p1 rs') as (p' & es' & Hp' & Hgot' & Hre'); [done..|by eapply moves_watching|done|].
  exists p', (es ++ es'). split; [done|]. split.
  - cbn [received]. by rewrite <- app_assoc, Hgot', app_assoc, Hgot, <- app_assoc.
  - by rewrite replay_app, Hre.
Qed.

(** ** The objects a clientset starts with *)

(** Of the objects given to [NewSimpleClientset], the clients find the monitors. *)
Definition preset_one (o : object C) (S : stores) : stores :=
  if decide (obj_Type o = TMonitor) then publish TMonitor (Some (Added o)) S else S.

Definition no_watch t : Prop := watchers t = ∅ ∧ channels t = [].

Section presets.
Context `{UnicodeTables}.

Lemma tracker_Add_preset o t err t' :
  no_watch t → tracker_Add o t = Done (err, t') → err = None →
  no_watch t' ∧ ∀ ty, store_at t' ty = preset_one o (store_at t) ty.
Proof.
  intros [Hw Hc] Ht ->. unfold tracker_Add, preset_one in *. destruct (obj_Type o) eqn:Hty.
  - change (UnsafeGuessKindToResource _) with (resource_of TMonitor) in Ht. apply tracker_add_publishes in Ht.
    destruct (write_answer _ _ _ _ _) as [|e] eqn:Ha; [by destruct Ht|].
    destruct Ht as (_ & (Hs & Hw' & Hc') & _ & Ho). unfold write_answer in Ha.
    rewrite in_own_namespace in *. assert (e = Added o) as -> by by inv_matches.
    split; [|done]. split; [congruence|]. unfold getWatches in Hc'. rewrite Hw, lookup_empty, Hc in Hc'. by simplify_eq/=.
  - set (gvr := UnsafeGuessKindToResource _) in Ht.
    assert (Hg : ∀ ty, resource_of ty ≠ gvr) by (by intros []). clearbody gvr.
    unfold tracker_add in Ht. unfold getWatches, with_objects, with_channels in Ht. simpl in Ht.
    rewrite Hw, Hc, lookup_empty in Ht. split.
    + unfold no_watch. by inv_matches.
    + intros ty. unfold store_at, objects_of in *. inv_matches; by rewrite ?lookup_insert_ne.
Qed.

Lemma add_objects_preset objs t t' :
  no_watch t → add_objects objs t = Done t' →
  no_watch t' ∧ ∀ ty, store_at t' ty = foldl (λ S o, preset_one o S) (store_at t) objs ty.
Proof.
  revert t. induction objs as [|o objs IH]; intros t Ht Hadd; [by simplify_eq/=|].
  simpl in Hadd. destruct (tracker_Add o t) as [[[err|] t1]|] eqn:Ho; simplify_eq/=.
  apply tracker_Add_preset in Ho as [Hw Hs]; [|done..]. apply IH in Hadd as [Hw' Hs']; [|done].
  split; [done|]. intros ty. rewrite Hs'.
  assert (Hext : ∀ (S S' : stores), (∀ ty, S ty = S' ty) →
    ∀ ty, foldl (λ S o, preset_one o S) S objs ty = foldl (λ S o, preset_one o S) S' objs ty).
  { clear. induction objs as [|o objs IH]; intros S S' HS ty; [done|]. simpl. apply IH. intros ty'.
    unfold preset_one, publish. by repeat case_decide; rewrite ?HS. }
  by apply Hext.
Qed.
End presets.

(** ** Calls return *)

(** The list options that do not make the fakes panic. *)
Definition parses (q : fake_call) : Prop :=
  match q with
  | QList _ opts | QWatch _ opts | QDeleteCollection _ opts =>
    is_ok (labels_Parse (LabelSelector opts)) ∧ fields_ParseError (FieldSelector opts) = None
  | _ => True
  end.

(** There is room for [n] more events in every watch. *)
Definition room (n : nat) t : Prop :=
  n ≤ DefaultChanSize ∧ Forall (λ w, length (w_result w) + n ≤ DefaultChanSize) (channels t).

Lemma notify_done n e ws chans :
  NoDup ws → Forall (λ w, length (w_result w) + S n ≤ DefaultChanSize) chans → is_done (notify e ws chans).
Proof.
  intros Hnd Hch.
  assert (Hws : ∀ i w, i ∈ ws → chans !! i = Some w → length (w_result w) < DefaultChanSize).
  { intros i w _ Hi. rewrite Forall_lookup in Hch. specialize (Hch i w Hi). simpl in Hch. lia. }
  clear n Hch. revert chans Hws. induction Hnd as [|j ws Hj _ IH]; intros chans Hws; [by eexists|]. simpl.
  destruct (chans !! j) as [w|] eqn:Hw.
  - unfold send. rewrite (decide_True (P:=length (w_result w) < _)) by (eapply Hws; [apply list_elem_of_here|done]).
    destruct (w_Stopped w); apply IH; intros i w' Hi; rewrite list_lookup_insert_ne by (by intros ->);
      apply Hws; by apply list_elem_of_further.
  - apply IH. intros i w Hi. apply Hws. by apply list_elem_of_further.
Qed.

Lemma room_weaken n t : room (S n) t → room n t.
Proof. intros [Hn Hr]. split; [lia|]. eapply Forall_impl; [exact Hr|]. simpl. lia. Qed.

Lemma room_publishes n ty oe t t' : watches_ok t → room (S n) t → publishes ty oe t t' → room n t'.
Proof.
  intros Ht Hr (_ & _ & Hc). destruct oe as [e|]; [|unfold room; rewrite Hc; by apply room_weaken].
  apply notify_delivered in Hc as [_ Hc]; [|by apply getWatches_NoDup]. destruct Hr as [Hn Hr]. split; [lia|].
  apply Forall_lookup. intros i w Hi. rewrite Hc in Hi. rewrite Forall_lookup in Hr.
  case_decide; [|specialize (Hr _ _ Hi); simpl in Hr; lia].
  apply fmap_Some in Hi as (w0 & Hi & ->). specialize (Hr _ _ Hi). simpl in Hr.
  unfold delivered. destruct (w_Stopped w0); simpl; rewrite ?length_app; simpl; lia.
Qed.

Lemma room_moves n ty q r oe t t' : watches_ok t → room (S n) t → moves ty q r oe t t' → room n t'.
Proof.
  intros Ht Hr Hm. pose proof (room_weaken _ _ Hr) as [Hn Hw].
  destruct q; try (by eapply room_publishes); simpl in Hm; (split; [done|]).
  - destruct Hm as [Hm _]. unfold tracker_Watch in Hm. simplify_eq/=. apply Forall_app. split; [done|].
    by apply Forall_singleton.
  - destruct Hm as (got & Hm & _). unfold receive in Hm. destruct (channels t !! i) as [w|] eqn:Hi; simplify_eq/=; [|done].
    pose proof (proj1 (Forall_lookup _ _) Hw _ _ Hi) as Hl. simpl in Hl.
    destruct (w_result w); simplify_eq/=; [done|]. apply Forall_insert; [done|]. simpl. lia.
  - subst. unfold watcher_Stop. destruct (channels t !! i) eqn:Hi; [|done]. simpl. apply Forall_insert; [done|].
    by apply (proj1 (Forall_lookup _ _) Hw _ _ Hi).
Qed.

Lemma tracker_add_done n gvr o ns replaceExisting t :
  watches_ok t → room (S n) t → is_done (tracker_add gvr o ns replaceExisting t).
Proof.
  intros Ht [_ Hr]. unfold tracker_add. case_decide; [by eexists|].
  set (obj := if decide (obj_Namespace o = "") then _ else _).
  destruct (notify_done n (Modified obj) (getWatches t gvr ns) (channels t)) as [c1 Hc1]; [by apply getWatches_NoDup|done|].
  destruct (notify_done n (Added obj) (getWatches t gvr ns) (channels t)) as [c2 Hc2]; [by apply getWatches_NoDup|done|].
  destruct (_ !! _), replaceExisting; try by eexists.
  - unfold getWatches in *. simpl in *. rewrite Hc1. by eexists.
  - unfold getWatches in *. simpl in *. rewrite Hc2. by eexists.
Qed.

Lemma tracker_Delete_done n gvr ns name t :
  watches_ok t → room (S n) t → is_done (tracker_Delete gvr ns name t).
Proof.
  intros Ht [_ Hr]. unfold tracker_Delete.
  destruct (objects t !! gvr) as [objs|]; [|by eexists]. destruct (objs !! (ns, name)) as [o|]; [|by eexists].
  destruct (notify_done n (Deleted o) (getWatches t gvr ns) (channels t)) as [c Hc]; [by apply getWatches_NoDup|done|].
  unfold getWatches in *. simpl in *. rewrite Hc. by eexists.
Qed.

(** A call for an object whose reaction returns objects of the type. *)
Definition returns_typed (ty : go_type) (ret : option (runtime_object C)) : Prop :=
  match ret with None => True | Some (RObject o) => obj_Type o = ty | Some (RList _ _) => False end.

Lemma object_call_done ty a d cs :
  simple cs → handled a →
  (∃ res t', ObjectReaction a (cs_tracker cs) = Done (res, t') ∧ returns_typed ty res.1.2) →
  is_done (outcome_map object_reply (return_object ty (Invokes a d cs))).
Proof.
  intros Hcs Ha ([[h ret] err] & t' & Hr & Hret). rewrite Invokes_simple, Hr by done.
  rewrite (handled_reaction _ _ _ _ _ _ Ha Hr). unfold return_object, outcome_map. simpl in *.
  destruct ret as [[o|]|]; simpl in *; [|done|by eexists]. rewrite decide_True by done. by eexists.
Qed.

Lemma write_typed ty ns o replaceExisting t err t' :
  typed_tracker t → obj_Type o = ty → tracker_add (resource_of ty) o ns replaceExisting t = Done (err, t') →
  typed_tracker t'.
Proof.
  intros Ht Ho (oe & [Hs _] & Hw)%write_call ty'. rewrite Hs. case_decide as Hty; [|done]. subst ty'.
  destruct (write_answer _ _ _ _ _) as [|e] eqn:Ha; [by destruct Hw as [_ ->]|]. destruct Hw as (_ & -> & _). simpl.
  apply (answers_typed ty (if replaceExisting then QUpdate ns o else QCreate ns o) _
    (ObjectReply (Some (event_object e)) None)); [done|by destruct replaceExisting|].
  destruct replaceExisting; simpl; by rewrite Ha.
Qed.

Lemma write_done n ty ns o replaceExisting t :
  watches_ok t → typed_tracker t → room (S n) t → obj_Type o = ty →
  ∃ res t', changed (resource_of ty) ns (obj_Name o) (tracker_add (resource_of ty) o ns replaceExisting t)
              = Done (res, t') ∧ returns_typed ty res.1.2.
Proof.
  intros Hw Ht Hr Ho.
  destruct (tracker_add_done n (resource_of ty) o ns replaceExisting t Hw Hr) as [[err t'] Hadd].
  pose proof (write_typed _ _ _ _ _ _ _ Ht Ho Hadd ty) as Ht'. rewrite Hadd. unfold changed, get_result. simpl.
  destruct err as [err|]; [by eexists _, _|]. rewrite tracker_Get_store.
  destruct (_ !! (ns, obj_Name o)) eqn:Hk; eexists _, _; (split; [done|]); simpl; [|done]. by apply Ht' in Hk as [? _].
Qed.

Lemma serve_done n ty q cs :
  good cs → well_typed ty q → parses q → room (S n) (cs_tracker cs) → is_done (serve ty q cs).
Proof.
  intros (Hcs & Ht & Hw) Hq Hparse Hr. rewrite serve_eq.
  destruct q; cbn [serve_any]; simpl in Hq, Hparse.
  - apply object_call_done; [done..|]. simpl. rewrite tracker_Get_store.
    destruct (_ !! (ns, name)) eqn:Hk; eexists _, _; (split; [done|]); simpl; [|done]. by apply (Ht ty) in Hk as [? _].
  - destruct Hparse as [[s Hs] Hf]. unfold Fake_List, outcome_map, ExtractFromListOptions. rewrite Hs, Hf. simpl.
    rewrite Invokes_simple by done. simpl. rewrite (tracker_List_typed _ _ _ Ht). simpl. rewrite decide_True by done. by eexists.
  - destruct Hparse as [[s Hs] Hf]. unfold Fake_Watch, outcome_map, ExtractFromListOptions. rewrite Hs, Hf. simpl.
    rewrite InvokesWatch_simple by done. by eexists.
  - apply object_call_done; [done..|]. by eapply write_done.
  - apply object_call_done; [done..|]. by eapply write_done.
  - apply object_call_done; [done..|]. by eapply write_done.
  - unfold Fake_Delete, outcome_map. rewrite Invokes_simple by done. simpl.
    destruct (tracker_Delete_done n (resource_of ty) ns name (cs_tracker cs) Hw Hr) as [[err t'] ->]. by eexists.
  - destruct Hparse as [[s Hs] Hf]. unfold Fake_DeleteCollection, outcome_map, ExtractFromListOptions. rewrite Hs, Hf. simpl.
    rewrite Invokes_simple by done. by eexists.
  - apply object_call_done; [done..|]. simpl. rewrite tracker_Get_store.
    destruct (_ !! (ns, name)) as [o|] eqn:Hk; [|by eexists _, _]. apply (Ht ty) in Hk as [Ho _].
    destruct (apply_patch pt data o) as [err|o'] eqn:Hp; [by eexists _, _|].
    destruct (tracker_add_done n (resource_of ty) o' ns true (cs_tracker cs) Hw Hr) as [[err t'] Ha].
    unfold tracker_Update. rewrite Ha. simpl. destruct err; [by eexists _, _|]. eexists _, _. split; [done|]. simpl.
    rewrite <- Ho. by eapply apply_patch_type.
  - destruct (receive i (cs_tracker cs)). by eexists.
  - by eexists.
Qed.

Lemma run_done n qs cs :
  good cs → Forall (λ q, well_typed q.1 q.2 ∧ parses q.2) qs → length qs ≤ n → room n (cs_tracker cs) →
  is_done (run qs cs).
Proof.
  revert n cs. induction qs as [|[ty q] qs IH]; intros n cs Hcs Hqs Hn Hr; [by eexists|].
  destruct n as [|n]; simpl in Hn; [lia|]. inversion_clear Hqs as [|? ? [Hq Hp] Hqs']. simpl in *.
  destruct (serve_done n ty q cs Hcs Hq Hp Hr) as [[r cs1] Hs]. rewrite Hs. simpl.
  apply serve_good in Hs as (Hcs1 & oe & _ & Hm); [|done..].
  destruct (IH n cs1) as [[rs cs2] Hrun]; [done..|lia| |by rewrite Hrun; eexists].
  eapply room_moves; [apply Hcs|done|done].
Qed.

(** ** The clientset of a test *)

Section clientsets.
Context `{UnicodeTables}.

Definition presets (objs : list (object C)) : stores := foldl (λ S o, preset_one o S) (λ _, ∅) objs.

Lemma presets_typed objs : ∀ ty, typed ty (presets objs ty).
Proof.
  unfold presets. assert (Hgen : ∀ (S : stores), (∀ ty, typed ty (S ty)) →
    ∀ ty, typed ty (foldl (λ S o, preset_one o S) S objs ty)).
  { induction objs as [|o objs IH]; intros S HS; [done|]. simpl. apply IH. intros ty. unfold preset_one, publish.
    repeat case_decide; subst; try done. simpl. apply map_Forall_insert_2; [done|apply HS]. }
  apply Hgen. intros ty. apply map_Forall_empty.
Qed.

Lemma NewSimpleClientset_good objs cs :
  NewSimpleClientset objs = Done cs →
  good cs ∧ room DefaultChanSize (cs_tracker cs) ∧ ∀ ty, store_at (cs_tracker cs) ty = presets objs ty.
Proof.
  unfold NewSimpleClientset. intros Hdone. apply bind_done in Hdone. destruct Hdone as (t & Hadd & [= <-]).
  apply add_objects_preset in Hadd as [[Hw Hc] Hs]; [|done].
  assert (Hpre : ∀ ty, store_at t ty = presets objs ty).
  { intros ty. rewrite Hs. unfold presets. f_equal. }
  split; [|split; [|done]].
  - split; [done|]. split; [|split].
    + intros ty. rewrite Hpre. apply presets_typed.
    + intros gvr ns. unfold watching. simpl. rewrite Hw. constructor.
    + intros i gvr ns gvr' ns' Hi. unfold watching in Hi. simpl in Hi. rewrite Hw in Hi. by apply not_elem_of_nil in Hi.
    + intros i gvr ns Hi. unfold watching in Hi. simpl in Hi. rewrite Hw in Hi. by apply not_elem_of_nil in Hi.
  - split; [done|]. simpl. rewrite Hc. constructor.
Qed.
End clientsets.


(** ** The promises *)

Section promises.
Context `{UnicodeTables}.

(** C16: Whatever calls are made on the fake clients of both types, after
    [NewSimpleClientset], in whatever order, every reply is the one of a store of
    objects by type, namespace and name, which each call's event changes; and the
    tracker holds that store in the end. *)
Theorem fakes_refine_stores objs cs0 qs rs cs :
  NewSimpleClientset objs = Done cs0 → Forall (λ p, well_typed p.1 p.2) qs → run qs cs0 = Done (rs, cs) →
  ∃ S, spec_run (presets objs) qs rs S ∧ ∀ ty, S ty = store_at (cs_tracker cs) ty.
Proof.
  intros Hnew%NewSimpleClientset_good Hqs Hrun. destruct Hnew as (Hcs & _ & Hs).
  by apply (run_good qs cs0 rs cs (presets objs)) in Hrun as [_ ?].
Qed.

Lemma watch_follows ty ns opts cs1 i cs2 qs' rs' cs :
  good cs1 → serve ty (QWatch ns opts) cs1 = Done (WatchReply (Some i) None, cs2) →
  Forall (λ p, well_typed p.1 p.2) qs' → QStop i ∉ qs'.*2 → run qs' cs2 = Done (rs', cs) →
  good cs2 ∧ (∀ ty', store_at (cs_tracker cs2) ty' = store_at (cs_tracker cs1) ty') ∧
  ∃ waiting, channels (cs_tracker cs) !! i = Some (mkWatcher false waiting) ∧
    replay (received i qs' rs' ++ waiting) (visible ns (store_at (cs_tracker cs2) ty)) =
    visible ns (store_at (cs_tracker cs) ty).
Proof.
  intros Hcs1 Hwatch Hqs' Hstop Hrun'.
  apply serve_good in Hwatch as (Hcs2 & oe & _ & [Hw Hi]); [|done..]. injection Hi as ->. split; [done|].
  assert (Ht : cs_tracker cs2 = (tracker_Watch (resource_of ty) ns (cs_tracker cs1)).2) by by rewrite Hw.
  split; [intros ty'; by rewrite Ht|].
  assert (Hin : length (channels (cs_tracker cs1)) ∈ watching (cs_tracker cs2) (resource_of ty) ns).
  { rewrite Ht, watching_Watch, decide_True by done. apply elem_of_app. right. apply list_elem_of_here. }
  destruct (run_advances _ [] ty ns _ _ _ _ Hcs2 Hqs' Hstop Hrun' Hin) as (p' & es & Hp & Hgot & Hre).
  - rewrite Ht. simpl. by apply list_lookup_middle.
  - exists p'. split; [done|]. by rewrite Hgot.
Qed.

(** C17: A watch that nobody stops misses nothing: what its reader has received,
    followed by what waits in its channel, turns the objects of its namespace at
    the time of the watch into those at the end, and the channel is within its
    bound. *)
Theorem watch_replays objs cs0 qs rs cs1 ty ns opts i cs2 qs' rs' cs :
  NewSimpleClientset objs = Done cs0 → Forall (λ p, well_typed p.1 p.2) (qs ++ qs') → run qs cs0 = Done (rs, cs1) →
  serve ty (QWatch ns opts) cs1 = Done (WatchReply (Some i) None, cs2) →
  QStop i ∉ qs'.*2 → run qs' cs2 = Done (rs', cs) →
  ∃ waiting, channels (cs_tracker cs) !! i = Some (mkWatcher false waiting) ∧
    replay (received i qs' rs' ++ waiting) (visible ns (store_at (cs_tracker cs2) ty)) =
    visible ns (store_at (cs_tracker cs) ty).
Proof.
  intros Hnew%NewSimpleClientset_good [Hqs Hqs']%Forall_app Hrun Hwatch Hstop Hrun'. destruct Hnew as (Hcs & _ & Hs).
  apply (run_good qs cs0 rs cs1 (presets objs)) in Hrun as [Hcs1 _]; [|done..]. by eapply watch_follows.
Qed.

(** C34: The fakes answer every call whose list options parse, as long as there
    are no more calls than a watch's channel has places: nothing else panics,
    no type assertion and no list. *)
Theorem fakes_answer objs cs0 qs :
  NewSimpleClientset objs = Done cs0 → Forall (λ p, well_typed p.1 p.2 ∧ parses p.2) qs →
  length qs ≤ DefaultChanSize → is_done (run qs cs0).
Proof. intros (Hcs & Hr & _)%NewSimpleClientset_good Hqs Hlen. by eapply run_done. Qed.

(** The pushes given to [NewSimpleClientset] are filed under a resource that the
    client of pushes does not ask for: it finds none of them. *)
Theorem preset_pushes_lost objs cs ns name :
  NewSimpleClientset objs = Done cs →
  ∃ cs', FakePrometheusPushes_Get ns name cs = Done (None, Some (not_found TPrometheusPush name), cs').
Proof.
  intros Hnew%NewSimpleClientset_good. destruct Hnew as ((Hcs & _) & _ & Hs).
  unfold FakePrometheusPushes_Get, Fake_Get. rewrite Invokes_simple by done. simpl.
  change prometheuspushesResource with (resource_of TPrometheusPush). rewrite tracker_Get_store, Hs.
  replace (presets objs TPrometheusPush) with (∅ : store); [rewrite lookup_empty; by eexists|].
  unfold presets. assert (Hgen : ∀ S : stores,
    foldl (λ S o, preset_one o S) S objs TPrometheusPush = S TPrometheusPush); [|by rewrite Hgen].
  clear. induction objs as [|o objs IH]; intros S; [done|]. simpl. rewrite IH. unfold preset_one. by case_decide.
Qed.
End promises.

End fakes.

(** ** Witnesses *)

Module fake_demo.

#[export] Instance demo_tables : UnicodeTables := ascii_tables.
#[export] Instance demo_selectors : Selectors := label_selectors.

(** An object's content is a number; a patch writes its length. *)
#[export] Instance numbers : FakeApi nat.
Proof.
  refine {| zero_content := 0;
    apply_patch pt patch o := inr (mkObject (obj_Type o) (obj_Namespace o) (obj_Name o) (obj_Labels o) (length patch)) |}.
  by intros pt patch o o' [= <-].
Defined.

Definition monitor (name : string) (content : nat) : object nat :=
  mkObject TMonitor "" name {["app" := name]} content.
Definition push (name : string) : object nat := mkObject TPrometheusPush "prod" name ∅ 1.
Definition no_options : ListOptions := mkListOptions "" "" false "" None.

Definition setup : list (go_type * fake_call) :=
  [(TMonitor, QCreate "prod" (monitor "redis" 1)); (TMonitor, QCreate "prod" (monitor "mysql" 2))].
Definition calls : list (go_type * fake_call) :=
  [(TMonitor, QPatch "prod" "redis" "merge" ["x"; "y"]%char []);
   (TMonitor, QReceive 0);
   (TPrometheusPush, QCreate "prod" (push "gateway"));
   (TMonitor, QDelete "prod" "mysql");
   (TMonitor, QCreate "test" (monitor "mysql" 3));
   (TMonitor, QGet "prod" "mysql");
   (TMonitor, QList "" no_options)].
Definition redis : object nat := mkObject TMonitor "prod" "redis" {["app" := "redis"]} 2.

(** A clientset holds functions: what is evaluated is whether a call is done. *)
Definition finished {A} (o : outcome A) : bool := match o with Done _ => true | Panic _ => false end.
Definition value {A} (d : A) (o : outcome A) : A := match o with Done a => a | Panic _ => d end.

Lemma finished_value {A} (d : A) o : finished o = true → o = Done (value d o).
Proof. by destruct o. Qed.

Definition no_clientset : Clientset (C:=nat) := mkClientset [] [] [] NewObjectTracker.
Definition fresh (objs : list (object nat)) : Clientset (C:=nat) := value no_clientset (NewSimpleClientset objs).
Definition replies (qs : list (go_type * fake_call)) (cs : Clientset (C:=nat)) : list reply :=
  (value ([], no_clientset) (run qs cs)).1.
Definition ran (qs : list (go_type * fake_call)) (cs : Clientset (C:=nat)) : Clientset (C:=nat) :=
  (value ([], no_clientset) (run qs cs)).2.

Lemma fresh_done objs : finished (NewSimpleClientset objs) = true → NewSimpleClientset objs = Done (fresh objs).
Proof. apply finished_value. Qed.

Lemma ran_done qs cs : finished (run qs cs) = true → run qs cs = Done (replies qs cs, ran qs cs).
Proof. unfold replies, ran. intros Hf. rewrite <- surjective_pairing. by apply finished_value. Qed.

Ltac check_calls := unfold setup, calls; cbn [app];
  repeat (apply Forall_cons; split; [first [exact I | reflexivity]|]); apply Forall_nil; exact I.

Lemma fakes_refine_stores_witness :
  let cs := fresh [push "lost"] in let qs := setup ++ calls in
  last (replies qs cs) = Some (ListReply (Some [redis; SetNamespace (monitor "mysql" 3) "test"]) None) ∧
  ∃ S, spec_run (presets [push "lost"]) qs (replies qs cs) S ∧
       ∀ ty, S ty = store_at (cs_tracker (ran qs cs)) ty.
Proof.
  split; [vm_compute; reflexivity|].
  refine (fakes_refine_stores [push "lost"] _ _ _ _ (fresh_done _ _) _ (ran_done _ _ _));
    [vm_compute; reflexivity|check_calls|vm_compute; reflexivity].
Defined.

Definition watched : Clientset (C:=nat) := ran setup (fresh []).
Definition watching_prod : Clientset (C:=nat) :=
  (value (NoReply, no_clientset) (serve TMonitor (QWatch "prod" no_options) watched)).2.

Lemma watched_done : serve TMonitor (QWatch "prod" no_options) watched = Done (WatchReply (Some 0) None, watching_prod).
Proof.
  assert (Hr : (value (NoReply, no_clientset) (serve TMonitor (QWatch "prod" no_options) watched)).1
    = WatchReply (Some 0) None) by (vm_compute; reflexivity).
  rewrite <- Hr. unfold watching_prod. rewrite <- surjective_pairing. apply finished_value. vm_compute. reflexivity.
Qed.

Lemma watch_replays_witness :
  received 0 calls (replies calls watching_prod) = [Modified redis] ∧
  ∃ waiting, channels (cs_tracker (ran calls watching_prod)) !! 0 = Some (mkWatcher false waiting) ∧
    replay (received 0 calls (replies calls watching_prod) ++ waiting)
      (visible "prod" (store_at (cs_tracker watching_prod) TMonitor)) =
    visible "prod" (store_at (cs_tracker (ran calls watching_prod)) TMonitor).
Proof.
  split; [vm_compute; reflexivity|].
  refine (watch_replays [] _ setup _ _ _ _ _ _ _ calls _ _ (fresh_done _ _) _ (ran_done _ _ _) watched_done _ (ran_done _ _ _));
    [vm_compute; reflexivity|check_calls|vm_compute; reflexivity| |vm_compute; reflexivity].
  cbn. set_solver.
Defined.

Definition creates (n : nat) : list (go_type * fake_call) :=
  (λ i, (TMonitor, QCreate "prod" (monitor (of_bytes (replicate i "x"%char)) i))) <$> seq 1 n.

(** One event more than a channel has places makes the tracker panic. *)
Example full_channel_panics :
  (cs ← NewSimpleClientset []; run ((TMonitor, QWatch "prod" no_options) :: creates 101) cs) = Panic "channel full".
Proof. vm_compute. reflexivity. Qed.

Lemma fakes_answer_witness : is_done (run ((TMonitor, QWatch "prod" no_options) :: creates 99) (fresh [])).
Proof.
  apply (fakes_answer []); [apply fresh_done; vm_compute; reflexivity| |vm_compute; lia].
  apply Forall_cons. split; [split; [done|]; split; [by eexists|done]|].
  apply Forall_fmap, Forall_forall. intros i _. done.
Defined.

End fake_demo.
