(* ===== verification/Listers.v ===== *)
(** * Listers

    pkg/generated/listers: reads of an informer's store. The store (cache.Indexer
    of k8s.io/client-go) is an interface with its documented behaviour; ListAll and
    ListAllByNamespace of its package are translated. monitor.go and
    prometheuspush.go are one text over the type and a resource name; each method
    is written once and both files' methods are its instances. *)
From S2P Require Import Prelude GoText KubeApi FakeClient FakeClientProps.

(** The key of an object in a store. *)
Definition MetaNamespaceKeyFunc {C} (o : object C) : string :=
  if decide (obj_Namespace o = "") then obj_Name o else obj_Namespace o +:+ "/" +:+ obj_Name o.

(** A store with an index by namespace, and the objects that it holds by key. *)
Class Indexer (I C : Type) := {
  contents : I → gmap string (object C);
  Indexer_List : I → list (object C);
  GetByKey : I → string → result (option (object C));
  NamespaceIndex : I → string → result (list (object C))
}.

Class IndexerLaws (I C : Type) `{Indexer I C} : Prop := {
  Indexer_List_contents ix : Indexer_List ix ≡ₚ (map_to_list (contents ix)).*2;
  GetByKey_contents ix k : GetByKey ix k = Ok (contents ix !! k);
  NamespaceIndex_contents ix ns l :
    NamespaceIndex ix ns = Ok l → l ≡ₚ filter (λ o, obj_Namespace o = ns) (map_to_list (contents ix)).*2
}.

Section listers.
Context {I C : Type} `{Indexer I C} `{Selectors}.
Implicit Types (o m : object C) (ix : I).

(** [appendFn] of a typed lister, [ret = append(ret, m.(T))], and of the generic one. *)
Definition append_typed (ty : go_type) m (ret : list (object C)) : outcome (list (object C)) :=
  if decide (obj_Type m = ty) then Done (ret ++ [m]) else Panic "interface conversion".

Definition append_object m (ret : list (object C)) : outcome (list (object C)) := Done (ret ++ [m]).

Definition AppendFunc : Type := object C → list (object C) → outcome (list (object C)).

Fixpoint append_matching (appendFn : AppendFunc) (selectAll : bool) (sel : selector) (ms ret : list (object C)) :
    outcome (list (object C)) :=
  match ms with
  | [] => Done ret
  | m :: ms' =>
    if selectAll || Matches sel (obj_Labels m)
    then ret ← appendFn m ret; append_matching appendFn selectAll sel ms' ret
    else append_matching appendFn selectAll sel ms' ret
  end.

Definition ListAll (appendFn : AppendFunc) ix (sel : selector) : outcome (list (object C)) :=
  append_matching appendFn (Empty sel) sel (Indexer_List ix) [].

(** The search without the index. *)
Fixpoint append_in_namespace (appendFn : AppendFunc) (namespace : string) (sel : selector) (ms ret : list (object C)) :
    outcome (list (object C)) :=
  match ms with
  | [] => Done ret
  | m :: ms' =>
    if bool_decide (obj_Namespace m = namespace) && Matches sel (obj_Labels m)
    then ret ← appendFn m ret; append_in_namespace appendFn namespace sel ms' ret
    else append_in_namespace appendFn namespace sel ms' ret
  end.

Definition ListAllByNamespace (appendFn : AppendFunc) ix (namespace : string) (sel : selector) : outcome (list (object C)) :=
  if decide (namespace = NamespaceAll) then ListAll appendFn ix sel
  else match NamespaceIndex ix namespace with
  | Err _ => append_in_namespace appendFn namespace sel (Indexer_List ix) []
  | Ok items => append_matching appendFn (Empty sel) sel items []
  end.

(** ** The listers of one type *)

Section typed_lister.
Context (ty : go_type) (resource : string).

Definition lister_List ix (sel : selector) : outcome (list (object C)) := ListAll (append_typed ty) ix sel.

Definition namespaceLister_List ix (namespace : string) (sel : selector) : outcome (list (object C)) :=
  ListAllByNamespace (append_typed ty) ix namespace sel.

Definition namespaceLister_Get ix (namespace name : string) : outcome (kube_error + object C) :=
  match GetByKey ix (namespace +:+ "/" +:+ name) with
  | Err err => Done (inl (OtherError err))
  | Ok None => Done (inl (NewNotFound (Resource resource) name))
  | Ok (Some obj) => if decide (obj_Type obj = ty) then Done (inr obj) else Panic "interface conversion"
  end.
End typed_lister.

Record monitorLister := mkMonitorLister { ml_indexer : I }.
Record monitorNamespaceLister := mkMonitorNamespaceLister { mnl_indexer : I; mnl_namespace : string }.

Definition NewMonitorLister ix : monitorLister := mkMonitorLister ix.
Definition monitorLister_List (s : monitorLister) (sel : selector) : outcome (list (object C)) :=
  lister_List TMonitor (ml_indexer s) sel.
Definition monitorLister_Monitors (s : monitorLister) (namespace : string) : monitorNamespaceLister :=
  mkMonitorNamespaceLister (ml_indexer s) namespace.
Definition monitorNamespaceLister_List (s : monitorNamespaceLister) (sel : selector) : outcome (list (object C)) :=
  namespaceLister_List TMonitor (mnl_indexer s) (mnl_namespace s) sel.
Definition monitorNamespaceLister_Get (s : monitorNamespaceLister) (name : string) : outcome (kube_error + object C) :=
  namespaceLister_Get TMonitor "monitor" (mnl_indexer s) (mnl_namespace s) name.

Record prometheusPushLister := mkPrometheusPushLister { pl_indexer : I }.
Record prometheusPushNamespaceLister := mkPrometheusPushNamespaceLister { pnl_indexer : I; pnl_namespace : string }.

Definition NewPrometheusPushLister ix : prometheusPushLister := mkPrometheusPushLister ix.
Definition prometheusPushLister_List (s : prometheusPushLister) (sel : selector) : outcome (list (object C)) :=
  lister_List TPrometheusPush (pl_indexer s) sel.
Definition prometheusPushLister_PrometheusPushes (s : prometheusPushLister) (namespace : string) : prometheusPushNamespaceLister :=
  mkPrometheusPushNamespaceLister (pl_indexer s) namespace.
Definition prometheusPushNamespaceLister_List (s : prometheusPushNamespaceLister) (sel : selector) : outcome (list (object C)) :=
  namespaceLister_List TPrometheusPush (pnl_indexer s) (pnl_namespace s) sel.
Definition prometheusPushNamespaceLister_Get (s : prometheusPushNamespaceLister) (name : string) : outcome (kube_error + object C) :=
  namespaceLister_Get TPrometheusPush "prometheuspush" (pnl_indexer s) (pnl_namespace s) name.

(** The generic lister, of [runtime.Object]s. *)
Record genericLister := mkGenericLister { gl_indexer : I; gl_resource : GroupResource }.
Record genericNamespaceLister := mkGenericNamespaceLister { gnl_indexer : I; gnl_namespace : string; gnl_resource : GroupResource }.

Definition NewGenericLister ix (resource : GroupResource) : genericLister := mkGenericLister ix resource.

Definition generic_Get ix (resource : GroupResource) (key name : string) : kube_error + object C :=
  match GetByKey ix key with
  | Err err => inl (OtherError err)
  | Ok None => inl (NewNotFound resource name)
  | Ok (Some obj) => inr obj
  end.

Definition genericLister_List (s : genericLister) (sel : selector) : outcome (list (object C)) :=
  ListAll append_object (gl_indexer s) sel.
Definition genericLister_ByNamespace (s : genericLister) (namespace : string) : genericNamespaceLister :=
  mkGenericNamespaceLister (gl_indexer s) namespace (gl_resource s).
Definition genericLister_Get (s : genericLister) (name : string) : kube_error + object C :=
  generic_Get (gl_indexer s) (gl_resource s) name name.
Definition genericNamespaceLister_List (s : genericNamespaceLister) (sel : selector) : outcome (list (object C)) :=
  ListAllByNamespace append_object (gnl_indexer s) (gnl_namespace s) sel.
Definition genericNamespaceLister_Get (s : genericNamespaceLister) (name : string) : kube_error + object C :=
  generic_Get (gnl_indexer s) (gnl_resource s) (gnl_namespace s +:+ "/" +:+ name) name.

(** ** What they return *)

(** A store that holds objects of a type under their keys; names and namespaces of
    the API have no slash. *)
Definition holds (ty : go_type) (m : gmap string (object C)) : Prop :=
  map_Forall (λ k o, k = MetaNamespaceKeyFunc o ∧ obj_Type o = ty ∧
    "/"%char ∉ bytes_of (obj_Namespace o) ∧ "/"%char ∉ bytes_of (obj_Name o)) m.

(** A function that appends, for the objects of a list. *)
Definition appends (appendFn : AppendFunc) (ms : list (object C)) : Prop :=
  Forall (λ m, ∀ ret, appendFn m ret = Done (ret ++ [m])) ms.

Lemma append_typed_appends ty ms : Forall (λ m, obj_Type m = ty) ms → appends (append_typed ty) ms.
Proof. intros Hms. eapply Forall_impl; [exact Hms|]. intros m Hm ret. unfold append_typed. by rewrite decide_True. Qed.

Lemma append_object_appends ms : appends append_object ms.
Proof. by apply Forall_forall. Qed.

Lemma append_matching_filter `{!SelectorLaws} appendFn sel ms ret :
  appends appendFn ms →
  append_matching appendFn (Empty sel) sel ms ret = Done (ret ++ filter (λ m, Matches sel (obj_Labels m) = true) ms).
Proof.
  intros Hms. revert ret. induction Hms as [|m ms Hm Hms IH]; intros ret; simpl; [by rewrite app_nil_r|].
  replace (Empty sel || Matches sel (obj_Labels m)) with (Matches sel (obj_Labels m)).
  - rewrite filter_cons. destruct (Matches sel (obj_Labels m)) eqn:Hsel.
    + rewrite Hm, decide_True by done. simpl. by rewrite IH, <- app_assoc.
    + by rewrite decide_False.
  - destruct (Empty sel) eqn:He; [|done]. by rewrite Matches_Empty.
Qed.

Lemma append_in_namespace_filter appendFn namespace sel ms ret :
  appends appendFn ms →
  append_in_namespace appendFn namespace sel ms ret =
  Done (ret ++ filter (λ m, obj_Namespace m = namespace ∧ Matches sel (obj_Labels m) = true) ms).
Proof.
  intros Hms. revert ret. induction Hms as [|m ms Hm Hms IH]; intros ret; simpl; [by rewrite app_nil_r|].
  rewrite filter_cons. destruct (decide (obj_Namespace m = namespace)) as [Hns|Hns].
  - rewrite bool_decide_true by done. simpl. destruct (Matches sel (obj_Labels m)) eqn:Hsel.
    + rewrite Hm, decide_True by done. simpl. by rewrite IH, <- app_assoc.
    + rewrite decide_False by naive_solver. apply IH.
  - rewrite bool_decide_false by done. rewrite decide_False by naive_solver. apply IH.
Qed.

Lemma key_inj ns1 n1 ns2 n2 :
  "/"%char ∉ bytes_of ns1 → "/"%char ∉ bytes_of n1 → "/"%char ∉ bytes_of ns2 → "/"%char ∉ bytes_of n2 →
  ns1 +:+ "/" +:+ n1 = ns2 +:+ "/" +:+ n2 → ns1 = ns2 ∧ n1 = n2.
Proof.
  intros H1 H2 H3 H4 He. apply (f_equal (Split "/")) in He.
  change ("/" +:+ n1) with (String "/" n1) in He. change ("/" +:+ n2) with (String "/" n2) in He.
  rewrite !Split_app_sep, !Split_no_sep in He by done. by injection He.
Qed.

Lemma contains_slash s t : "/"%char ∈ bytes_of (s +:+ "/" +:+ t).
Proof.
  induction s as [|c s IH]; [apply list_elem_of_here|]. rewrite append_cons. by apply list_elem_of_further.
Qed.

Lemma filter_all (l : list (object C)) : filter (λ _, True) l = l.
Proof. induction l as [|o l IH]; [done|]. by rewrite filter_cons_True, IH. Qed.

Section stores.
Context `{!IndexerLaws I C, !SelectorLaws} (ty : go_type) (ix : I) (Hix : holds ty (contents ix)).

Lemma stored o : o ∈ (map_to_list (contents ix)).*2 ↔ contents ix !! MetaNamespaceKeyFunc o = Some o.
Proof.
  rewrite list_elem_of_fmap. split.
  - intros ([k o'] & -> & Hk%elem_of_map_to_list). pose proof (Hix _ _ Hk) as [Hk' _]. simpl in *. by rewrite <- Hk'.
  - intros Ho. exists (MetaNamespaceKeyFunc o, o). split; [done|]. by apply elem_of_map_to_list.
Qed.

Lemma stored_NoDup : NoDup (map_to_list (contents ix)).*2.
Proof.
  apply (NoDup_fmap_1 MetaNamespaceKeyFunc). rewrite <- list_fmap_compose.
  replace ((MetaNamespaceKeyFunc ∘ snd) <$> map_to_list (contents ix)) with (map_to_list (contents ix)).*1.
  - apply NoDup_fst_map_to_list.
  - apply list_fmap_ext. intros i [k o] Hi%list_elem_of_lookup_2. simpl.
    by apply elem_of_map_to_list, Hix in Hi as [? _].
Qed.

(** What is appended are the objects of the store that are in the namespace, or in any,
    and match the selector, each once, whether the index answers or not. *)
Lemma ListAllByNamespace_spec appendFn (namespace : string) (sel : selector) :
  (∀ ms, Forall (λ m, obj_Type m = ty) ms → appends appendFn ms) →
  ∃ items, ListAllByNamespace appendFn ix namespace sel = Done items ∧ NoDup items ∧
    ∀ o, o ∈ items ↔ contents ix !! MetaNamespaceKeyFunc o = Some o ∧
      (namespace = "" ∨ obj_Namespace o = namespace) ∧ Matches sel (obj_Labels o) = true.
Proof.
  intros Happ.
  assert (Hperm : ∀ (P : object C → Prop) `{∀ o, Decision (P o)} ms, ms ≡ₚ filter P (map_to_list (contents ix)).*2 →
    NoDup ms ∧ appends appendFn ms ∧ ∀ o, o ∈ ms ↔ contents ix !! MetaNamespaceKeyFunc o = Some o ∧ P o).
  { intros P ? ms Hms. assert (Hin : ∀ o, o ∈ ms ↔ contents ix !! MetaNamespaceKeyFunc o = Some o ∧ P o).
    { intros o. rewrite Hms, list_elem_of_filter, stored. naive_solver. }
    split; [rewrite Hms; apply NoDup_filter, stored_NoDup|]. split; [|done].
    apply Happ, Forall_forall. intros o Ho. apply Hin in Ho as [Ho _]. by apply Hix in Ho as (_ & ? & _). }
  assert (Hall : Indexer_List ix ≡ₚ filter (λ _, True) (map_to_list (contents ix)).*2).
  { by rewrite filter_all, Indexer_List_contents. }
  unfold ListAllByNamespace, ListAll. case_decide as Hns; [|destruct (NamespaceIndex ix namespace) eqn:Hi].
  - destruct (Hperm _ _ _ Hall) as (Hnd & Hty & Hin). rewrite append_matching_filter by done. eexists; split; [done|].
    split; [by apply NoDup_filter|]. intros o. simpl. rewrite list_elem_of_filter, Hin. naive_solver.
  - apply NamespaceIndex_contents, Hperm in Hi as (Hnd & Hty & Hin). rewrite append_matching_filter by done.
    eexists; split; [done|]. split; [by apply NoDup_filter|]. intros o. simpl. rewrite list_elem_of_filter, Hin. naive_solver.
  - destruct (Hperm _ _ _ Hall) as (Hnd & Hty & Hin). rewrite append_in_namespace_filter by done. eexists; split; [done|].
    split; [by apply NoDup_filter|]. intros o. simpl. rewrite list_elem_of_filter, Hin. naive_solver.
Qed.

(** A lister's list, of the type's lister and of the generic one. *)
Theorem lister_lists (namespace : string) (sel : selector) :
  ∃ items, namespaceLister_List ty ix namespace sel = Done items ∧ NoDup items ∧
    ∀ o, o ∈ items ↔ contents ix !! MetaNamespaceKeyFunc o = Some o ∧
      (namespace = "" ∨ obj_Namespace o = namespace) ∧ Matches sel (obj_Labels o) = true.
Proof. apply ListAllByNamespace_spec, append_typed_appends. Qed.

Theorem generic_lister_lists (namespace : string) (resource : GroupResource) (sel : selector) :
  ∃ items, genericNamespaceLister_List (genericLister_ByNamespace (NewGenericLister ix resource) namespace) sel = Done items ∧
    NoDup items ∧ ∀ o, o ∈ items ↔ contents ix !! MetaNamespaceKeyFunc o = Some o ∧
      (namespace = "" ∨ obj_Namespace o = namespace) ∧ Matches sel (obj_Labels o) = true.
Proof. apply ListAllByNamespace_spec. intros ms _. apply append_object_appends. Qed.

(** [Get] of a namespace finds the object of that namespace and name, or says it is
    not there; with the namespace empty it finds nothing. *)
Theorem lister_gets (resource namespace name : string) :
  "/"%char ∉ bytes_of namespace → "/"%char ∉ bytes_of name →
  namespaceLister_Get ty resource ix namespace name = Done (inl (NewNotFound (Resource resource) name)) ∧
    (∀ o, contents ix !! MetaNamespaceKeyFunc o = Some o → namespace ≠ "" → object_key o ≠ (namespace, name)) ∨
  ∃ o, namespaceLister_Get ty resource ix namespace name = Done (inr o) ∧
    contents ix !! MetaNamespaceKeyFunc o = Some o ∧ object_key o = (namespace, name) ∧ namespace ≠ "".
Proof.
  intros Hns Hname. unfold namespaceLister_Get. rewrite GetByKey_contents.
  destruct (contents ix !! _) as [o|] eqn:Ho.
  - right. pose proof (Hix _ _ Ho) as (Hk & Hty & Hs1 & Hs2). exists o. rewrite decide_True by done.
    unfold MetaNamespaceKeyFunc in Hk. case_decide as He.
    + exfalso. apply Hs2. rewrite <- Hk. apply contains_slash.
    + apply key_inj in Hk as [-> ->]; [|done..]. split_and!; [done| |done|done].
      unfold MetaNamespaceKeyFunc. by rewrite decide_False.
  - left. split; [done|]. intros o Hk Hne [= <- <-]. unfold MetaNamespaceKeyFunc in Hk.
    rewrite decide_False in Hk by done. congruence.
Qed.

(** A lister whose store holds what the API holds lists what a client lists. *)
Theorem lister_agrees_with_client `{FakeApi C} cs namespace opts r cs' :
  good cs → (∀ o, contents ix !! MetaNamespaceKeyFunc o = Some o ↔
                  store_at (cs_tracker cs) ty !! object_key o = Some o) →
  serve ty (QList namespace opts) cs = Done (r, cs') →
  ∃ sel items listed, labels_Parse (LabelSelector opts) = Ok sel ∧ r = ListReply (Some items) None ∧
    namespaceLister_List ty ix namespace (default Everything sel) = Done listed ∧ listed ≡ₚ items.
Proof.
  intros Hcs Hmirror Hs. assert (Hp : ∃ sel, labels_Parse (LabelSelector opts) = Ok sel).
  { rewrite serve_eq in Hs. simpl in Hs. unfold Fake_List, ExtractFromListOptions in Hs.
    destruct (labels_Parse _) as [sel|]; [by exists sel|done]. }
  destruct Hp as [sel Hsel].
  apply serve_good in Hs as (_ & oe & (_ & items & -> & _ & Hnd & Hin) & _); [|done..].
  destruct (lister_lists namespace (default Everything sel)) as (listed & Hl & Hnd' & Hin').
  exists sel, items, listed. split_and!; [done..|]. apply NoDup_Permutation; [done..|]. intros o.
  rewrite Hin', Hin, Hmirror. unfold selects. rewrite Hsel. naive_solver.
Qed.
End stores.
End listers.
Arguments monitorLister : clear implicits.
Arguments prometheusPushLister : clear implicits.
Arguments genericLister : clear implicits.

(** ** Witnesses *)

Module lister_demo.
Import fake_demo.

(** A store of objects by key, whose index can be missing. *)
Record cache := mkCache { cache_items : gmap string (object nat); cache_indexed : bool }.

#[export] Instance cache_indexer : Indexer cache nat := {|
  contents := cache_items;
  Indexer_List ix := (map_to_list (cache_items ix)).*2;
  GetByKey ix k := Ok (cache_items ix !! k);
  NamespaceIndex ix ns :=
    if cache_indexed ix then Ok (filter (λ o, obj_Namespace o = ns) (map_to_list (cache_items ix)).*2)
    else Err (Errorf "Index with name namespace does not exist")
|}.

#[export] Instance cache_laws : IndexerLaws cache nat.
Proof. split; [done..|]. intros [m []] ns l; simpl; [|done]. by intros [= ->]. Qed.

#[local] Instance demo_selector_laws : SelectorLaws := label_selectors_laws.

(** The store of the monitors of [fake_demo]'s run. *)
Definition mysql_test : object nat := SetNamespace (monitor "mysql" 3) "test".
Definition synced (indexed : bool) : cache :=
  mkCache {["prod/redis" := redis; "test/mysql" := mysql_test]} indexed.

Lemma synced_holds indexed : holds TMonitor (contents (synced indexed)).
Proof.
  apply map_Forall_insert_2; [|apply map_Forall_singleton];
    (split; [reflexivity|]; split; [reflexivity|]; split; refine (bool_decide_unpack _ _); vm_compute; exact I).
Qed.

Lemma lister_lists_witness :
  namespaceLister_List TMonitor (synced false) "prod" (Some ("app", "redis")) = Done [redis] ∧
  ∃ items, namespaceLister_List TMonitor (synced false) "prod" (Some ("app", "redis")) = Done items ∧ NoDup items ∧
    ∀ o, o ∈ items ↔ contents (synced false) !! MetaNamespaceKeyFunc o = Some o ∧
      ("prod" = "" ∨ obj_Namespace o = "prod") ∧ Matches (Some ("app", "redis") : selector) (obj_Labels o) = true.
Proof. split; [vm_compute; reflexivity|]. apply (lister_lists TMonitor (synced false) (synced_holds false)). Defined.

Definition tested : Clientset (C:=nat) := ran (setup ++ calls) (fresh []).

Lemma tested_good : good tested.
Proof.
  destruct (NewSimpleClientset_good (C:=nat) [] (fresh [])) as (Hg & _); [apply fresh_done; vm_compute; reflexivity|].
  refine (proj1 (run_good (setup ++ calls) (fresh []) (replies (setup ++ calls) (fresh [])) _ _ Hg _ (ran_done _ _ _) (λ _, eq_refl)));
    [check_calls|vm_compute; reflexivity].
Qed.

Lemma tested_store : store_at (cs_tracker tested) TMonitor =
  {[("prod", "redis") := redis; ("test", "mysql") := mysql_test]}.
Proof. vm_compute. reflexivity. Qed.

Definition after_list : Clientset (C:=nat) :=
  (value (NoReply, no_clientset) (serve TMonitor (QList "" no_options) tested)).2.

Lemma tested_lists :
  serve TMonitor (QList "" no_options) tested = Done (ListReply (Some [redis; mysql_test]) None, after_list).
Proof.
  assert (Hr : (value (NoReply, no_clientset) (serve TMonitor (QList "" no_options) tested)).1 =
    ListReply (Some [redis; mysql_test]) None) by (vm_compute; reflexivity).
  rewrite <- Hr. unfold after_list. rewrite <- surjective_pairing. apply finished_value. vm_compute. reflexivity.
Qed.

Lemma tested_mirror o : contents (synced true) !! MetaNamespaceKeyFunc o = Some o ↔
  store_at (cs_tracker tested) TMonitor !! object_key o = Some o.
Proof.
  rewrite tested_store. simpl. rewrite !lookup_insert_Some, !lookup_singleton_Some. split.
  - intros [[_ <-]|[_ [_ <-]]]; [by left|right; split; [|split]; vm_compute; done].
  - intros [[_ <-]|[_ [_ <-]]]; [by left|right; split; [|split]; vm_compute; done].
Qed.

Lemma lister_agrees_with_client_witness : ∃ sel items listed,
  labels_Parse (LabelSelector no_options) = Ok sel ∧ ListReply (Some [redis; mysql_test]) None = ListReply (Some items) None ∧
  namespaceLister_List TMonitor (synced true) "" (default Everything sel) = Done listed ∧ listed ≡ₚ items.
Proof.
  exact (lister_agrees_with_client TMonitor (synced true) (synced_holds true) tested "" no_options _ _
    tested_good tested_mirror tested_lists).
Defined.

End lister_demo.
