(* ===== verification/Store.v ===== *)
(** * Stores

    The store behind an informer (k8s.io/client-go, tools/cache: thread_safe_store.go,
    store.go and the index functions of index.go), translated from the vendored source:
    a map of objects by key, with an index for each index function. Its lock makes each
    method one step. Objects are of any type [A]; a nil interface is [None]. *)
From S2P Require Import Prelude GoText.

Section store.
Context `{RangeOrder} {A : Type}.
Implicit Types (o : A) (m : gmap string A) (key v : string).

(** ** Indices *)

#[local] Notation IndexFunc := (A → result (list string)).
#[local] Notation Index := (gmap string (gset string)).

Record storeIndex := mkStoreIndex { indexers : gmap string IndexFunc; indices : gmap string Index }.
Implicit Types (i : storeIndex) (ix : Index) (f : IndexFunc).

(** The set of a value; there is none for nil. *)
Definition keys_at ix v : gset string := default ∅ (ix !! v).

Definition addKeyToIndex key ix v : Index := <[v := {[key]} ∪ keys_at ix v]> ix.

Definition deleteKeyFromIndex key ix v : Index :=
  match ix !! v with
  | None => ix
  | Some set => if decide (set ∖ {[key]} = ∅) then delete v ix else <[v := set ∖ {[key]}]> ix
  end.

Definition index_values f (obj : option A) : result (list string) :=
  match obj with Some o => f o | None => Ok [] end.

(** What the body of the loop does to its index. *)
Definition move_key key (oldIndexValues indexValues : list string) ix : Index :=
  match indexValues, oldIndexValues with
  | [v], [w] => if decide (v = w) then ix else addKeyToIndex key (deleteKeyFromIndex key ix w) v
  | _, _ => foldl (addKeyToIndex key) (foldl (deleteKeyFromIndex key) ix oldIndexValues) indexValues
  end.

Fixpoint update_indices (oldObj newObj : option A) key (l : list (string * IndexFunc)) (ids : gmap string Index) :
    outcome (gmap string Index) :=
  match l with
  | [] => Done ids
  | (name, f) :: l =>
    match index_values f oldObj with
    | Err _ => Panic "unable to calculate an index entry"
    | Ok oldIndexValues =>
      match index_values f newObj with
      | Err _ => Panic "unable to calculate an index entry"
      | Ok indexValues =>
        update_indices oldObj newObj key l (<[name := move_key key oldIndexValues indexValues (default ∅ (ids !! name))]> ids)
      end
    end
  end.

(** [n] is the number of the loop over the indexers. *)
Definition updateIndices n (oldObj newObj : option A) key i : outcome storeIndex :=
  ids ← update_indices oldObj newObj key (range_list n (indexers i)) (indices i);
  Done (mkStoreIndex (indexers i) ids).

Definition reset i : storeIndex := mkStoreIndex (indexers i) ∅.

Definition getKeysByIndex i (indexName indexedValue : string) : result (gset string) :=
  match indexers i !! indexName with
  | None => Err (Errorf "Index with name does not exist")
  | Some _ => Ok (keys_at (default ∅ (indices i !! indexName)) indexedValue)
  end.

Definition getKeysFromIndex i (indexName : string) o : result (gset string) :=
  match indexers i !! indexName with
  | None => Err (Errorf "Index with name does not exist")
  | Some f =>
    indexedValues ← f o;
    let ix := default ∅ (indices i !! indexName) in
    Ok (match indexedValues with [v] => keys_at ix v | _ => ⋃ (keys_at ix <$> indexedValues) end)
  end.

Definition getIndexValues n i (indexName : string) : list string :=
  (range_list n (default ∅ (indices i !! indexName))).*1.

Definition addIndexers (newIndexers : gmap string IndexFunc) i : option error * storeIndex :=
  if decide (dom (indexers i) ∩ dom newIndexers = ∅)
  then (None, mkStoreIndex (newIndexers ∪ indexers i) (indices i))
  else (Some (Errorf "indexer conflict"), i).

(** ** The store *)

Record threadSafeMap := mkThreadSafeMap { items : gmap string A; index : storeIndex }.
Implicit Types c : threadSafeMap.

Definition threadSafeMap_Update n key o c : outcome threadSafeMap :=
  let oldObject := items c !! key in
  let items := <[key := o]> (items c) in
  i ← updateIndices n oldObject (Some o) key (index c);
  Done (mkThreadSafeMap items i).

Definition threadSafeMap_Add := threadSafeMap_Update.

Definition threadSafeMap_Delete n key c : outcome threadSafeMap :=
  match items c !! key with
  | Some obj =>
    i ← updateIndices n (Some obj) None key (index c);
    Done (mkThreadSafeMap (delete key (items c)) i)
  | None => Done c
  end.

Definition threadSafeMap_Get key c : option A := items c !! key.
Definition threadSafeMap_List n c : list A := (range_list n (items c)).*2.
Definition threadSafeMap_ListKeys n c : list string := (range_list n (items c)).*1.

(** The loop of [Replace]; each turn has a loop over the indexers. *)
Fixpoint index_items n (l : list (string * A)) i : outcome storeIndex :=
  match l with
  | [] => Done i
  | (key, item) :: l => i ← updateIndices n None (Some item) key i; index_items (S n) l i
  end.

Definition threadSafeMap_Replace n (newItems : gmap string A) c : outcome threadSafeMap :=
  i ← index_items (S n) (range_list n newItems) (reset (index c));
  Done (mkThreadSafeMap newItems i).

(** [for key := range set]: the objects of the keys, nil when there is none. *)
Definition items_at n (set : gset string) c : list (option A) :=
  (λ kv, items c !! kv.1) <$> range_list n (gset_to_gmap tt set).

Definition threadSafeMap_Index n (indexName : string) o c : result (list (option A)) :=
  set ← getKeysFromIndex (index c) indexName o; Ok (items_at n set c).

Definition threadSafeMap_ByIndex n (indexName indexedValue : string) c : result (list (option A)) :=
  set ← getKeysByIndex (index c) indexName indexedValue; Ok (items_at n set c).

(** The keys are sorted. *)
Definition threadSafeMap_IndexKeys (indexName indexedValue : string) c : result (list string) :=
  set ← getKeysByIndex (index c) indexName indexedValue; Ok (merge_sort String.le (elements set)).

Definition threadSafeMap_ListIndexFuncValues n (indexName : string) c : list string :=
  getIndexValues n (index c) indexName.

Definition threadSafeMap_GetIndexers c : gmap string IndexFunc := indexers (index c).

Definition threadSafeMap_AddIndexers (newIndexers : gmap string IndexFunc) c : option error * threadSafeMap :=
  if decide (items c = ∅) then
    let '(err, i) := addIndexers newIndexers (index c) in (err, mkThreadSafeMap (items c) i)
  else (Some (Errorf "cannot add indexers to running index"), c).

Definition NewThreadSafeStore (ixs : gmap string IndexFunc) (ids : gmap string Index) : threadSafeMap :=
  mkThreadSafeMap ∅ (mkStoreIndex ixs ids).

(** ** The cache: a store with the function that makes keys *)

Record cache := mkCache { cacheStorage : threadSafeMap; keyFunc : A → result string }.
Implicit Types s : cache.

Definition KeyError : error := Errorf "couldn't create key for object".

Definition with_storage s c : cache := mkCache c (keyFunc s).

Definition cache_Update n o s : outcome (option error * cache) :=
  match keyFunc s o with
  | Err _ => Done (Some KeyError, s)
  | Ok key => c ← threadSafeMap_Update n key o (cacheStorage s); Done (None, with_storage s c)
  end.

Definition cache_Add n o s : outcome (option error * cache) :=
  match keyFunc s o with
  | Err _ => Done (Some KeyError, s)
  | Ok key => c ← threadSafeMap_Add n key o (cacheStorage s); Done (None, with_storage s c)
  end.

Definition cache_Delete n o s : outcome (option error * cache) :=
  match keyFunc s o with
  | Err _ => Done (Some KeyError, s)
  | Ok key => c ← threadSafeMap_Delete n key (cacheStorage s); Done (None, with_storage s c)
  end.

Definition cache_GetByKey key s : option A := threadSafeMap_Get key (cacheStorage s).

Definition cache_Get o s : result (option A) :=
  match keyFunc s o with Err _ => Err KeyError | Ok key => Ok (cache_GetByKey key s) end.

Definition cache_List n s : list A := threadSafeMap_List n (cacheStorage s).
Definition cache_ListKeys n s : list string := threadSafeMap_ListKeys n (cacheStorage s).
Definition cache_ByIndex n (indexName indexedValue : string) s : result (list (option A)) :=
  threadSafeMap_ByIndex n indexName indexedValue (cacheStorage s).
Definition cache_Index n (indexName : string) o s : result (list (option A)) :=
  threadSafeMap_Index n indexName o (cacheStorage s).
Definition cache_ListIndexFuncValues n (indexName : string) s : list string :=
  threadSafeMap_ListIndexFuncValues n indexName (cacheStorage s).

Fixpoint keyed (kf : A → result string) (list : list A) (m : gmap string A) : result (gmap string A) :=
  match list with
  | [] => Ok m
  | item :: list =>
    match kf item with Err _ => Err KeyError | Ok key => keyed kf list (<[key := item]> m) end
  end.

Definition cache_Replace n (list : list A) s : outcome (option error * cache) :=
  match keyed (keyFunc s) list ∅ with
  | Err err => Done (Some err, s)
  | Ok newItems => c ← threadSafeMap_Replace n newItems (cacheStorage s); Done (None, with_storage s c)
  end.

Definition NewIndexer (kf : A → result string) (ixs : gmap string IndexFunc) : cache :=
  mkCache (NewThreadSafeStore ixs ∅) kf.

(** ** One index *)

(** The index [ix] of the values that [f] gives to the objects of [m]: each value has
    the keys of the objects that have it, and a value that none has takes no place. *)
Record indexes f m ix : Prop := {
  indexes_keys v key : key ∈ keys_at ix v ↔ ∃ o vs, m !! key = Some o ∧ f o = Ok vs ∧ v ∈ vs;
  indexes_used v set : ix !! v = Some set → set ≠ ∅
}.

Lemma keys_at_insert ix v w set : keys_at (<[v := set]> ix) w = if decide (w = v) then set else keys_at ix w.
Proof. unfold keys_at. rewrite lookup_insert. by repeat case_decide; subst. Qed.

Lemma keys_at_delete ix v w : keys_at (delete v ix) w = if decide (w = v) then ∅ else keys_at ix w.
Proof. unfold keys_at. rewrite lookup_delete. by repeat case_decide; subst. Qed.

Lemma addKeyToIndex_keys key ix v w key' :
  key' ∈ keys_at (addKeyToIndex key ix v) w ↔ key' ∈ keys_at ix w ∨ key' = key ∧ w = v.
Proof. unfold addKeyToIndex. rewrite keys_at_insert. case_decide; subst; set_solver. Qed.

Lemma deleteKeyFromIndex_keys key ix v w key' :
  key' ∈ keys_at (deleteKeyFromIndex key ix v) w ↔ key' ∈ keys_at ix w ∧ ¬ (key' = key ∧ w = v).
Proof.
  unfold deleteKeyFromIndex. destruct (ix !! v) as [set|] eqn:Hv.
  - assert (keys_at ix v = set) as Hk by (unfold keys_at; by rewrite Hv).
    case_decide as Hs; rewrite ?keys_at_insert, ?keys_at_delete; case_decide; subst; set_solver.
  - assert (keys_at ix v = ∅) as Hk by (unfold keys_at; by rewrite Hv).
    split; [|tauto]. intros Hw. split; [done|]. intros [-> ->]. set_solver.
Qed.

Lemma add_keys key vs ix w key' :
  key' ∈ keys_at (foldl (addKeyToIndex key) ix vs) w ↔ key' ∈ keys_at ix w ∨ key' = key ∧ w ∈ vs.
Proof.
  revert ix. induction vs as [|v vs IH]; intros ix; simpl; [set_solver|].
  rewrite IH, addKeyToIndex_keys. set_solver.
Qed.

Lemma delete_keys key vs ix w key' :
  key' ∈ keys_at (foldl (deleteKeyFromIndex key) ix vs) w ↔ key' ∈ keys_at ix w ∧ ¬ (key' = key ∧ w ∈ vs).
Proof.
  revert ix. induction vs as [|v vs IH]; intros ix; simpl; [set_solver|].
  rewrite IH, deleteKeyFromIndex_keys. set_solver.
Qed.

Definition used ix : Prop := ∀ v set, ix !! v = Some set → set ≠ ∅.

Lemma add_used key vs ix : used ix → used (foldl (addKeyToIndex key) ix vs).
Proof.
  revert ix. induction vs as [|v vs IH]; intros ix Hix; simpl; [done|]. apply IH.
  intros w set. unfold addKeyToIndex. rewrite lookup_insert_Some. intros [[_ <-]|[_ ?]]; [set_solver|eauto].
Qed.

Lemma delete_used key vs ix : used ix → used (foldl (deleteKeyFromIndex key) ix vs).
Proof.
  revert ix. induction vs as [|v vs IH]; intros ix Hix; simpl; [done|]. apply IH.
  intros w set. unfold deleteKeyFromIndex. destruct (ix !! v); [|eauto]. case_decide.
  - rewrite lookup_delete_Some. intros [_ ?]. eauto.
  - rewrite lookup_insert_Some. intros [[_ <-]|[_ ?]]; eauto.
Qed.

Lemma move_key_spec key olds news ix :
  (∀ w, w ∈ olds → key ∈ keys_at ix w) → used ix → used (move_key key olds news ix) ∧
  ∀ w key', key' ∈ keys_at (move_key key olds news ix) w ↔
    key' ∈ keys_at ix w ∧ ¬ (key' = key ∧ w ∈ olds) ∨ key' = key ∧ w ∈ news.
Proof.
  intros Hold Hu.
  assert (move_key key olds news ix = foldl (addKeyToIndex key) (foldl (deleteKeyFromIndex key) ix olds) news ∨
    ∃ v, olds = [v] ∧ news = [v] ∧ move_key key olds news ix = ix) as [->|(v & -> & -> & ->)].
  { unfold move_key. destruct news as [|v [|]], olds as [|w [|]]; auto. case_decide as Hv; subst; eauto. }
  - split; [by apply add_used, delete_used|]. intros w key'. by rewrite add_keys, delete_keys.
  - split; [done|]. intros w key'. specialize (Hold v ltac:(left)).
    rewrite list_elem_of_singleton. destruct (decide (key' = key ∧ w = v)) as [[-> ->]|]; tauto.
Qed.

(** Moving a key keeps an index of the map in step with the map. *)
Lemma move_indexes f m ix key new olds news :
  indexes f m ix → index_values f (m !! key) = Ok olds → index_values f new = Ok news →
  indexes f (partial_alter (λ _, new) key m) (move_key key olds news ix).
Proof.
  intros [Hk Hu] Ho Hn. destruct (move_key_spec key olds news ix) as [Hu' Hk'].
  { intros w Hw. apply Hk. destruct (m !! key) as [o|]; simpl in Ho; [eauto|]. injection Ho as <-. by apply elem_of_nil in Hw. }
  { exact Hu. }
  split; [|exact Hu']. intros v key'. rewrite Hk'. destruct (decide (key' = key)) as [->|Hne].
  - rewrite lookup_partial_alter_eq. transitivity (v ∈ news).
    + split; [|by right]. intros [[Hin Hnot]|[_ ?]]; [|done]. destruct Hnot. split; [done|].
      apply Hk in Hin as (o & vs & Hm & Hf & Hv). rewrite Hm in Ho. simpl in Ho. congruence.
    + destruct new as [o|]; simpl in Hn.
      * split; [eauto|]. intros (o' & vs & [= <-] & Hf & Hv). congruence.
      * injection Hn as <-. split; [by intros ?%elem_of_nil|]. naive_solver.
  - rewrite lookup_partial_alter_ne by done. rewrite Hk. naive_solver.
Qed.

(** ** The indices of a store *)

Definition indexed m i : Prop :=
  ∀ name f, indexers i !! name = Some f → indexes f m (default ∅ (indices i !! name)).

(** Every index function has values for [obj]. *)
Definition indexable (fs : gmap string IndexFunc) (obj : option A) : Prop :=
  map_Forall (λ _ f, is_Some (match index_values f obj with Ok vs => Some vs | Err _ => None end)) fs.

Lemma indexable_values fs obj name f :
  indexable fs obj → fs !! name = Some f → ∃ vs, index_values f obj = Ok vs.
Proof. intros Ho Hf. specialize (Ho name f Hf). simpl in Ho. destruct (index_values f obj); [by eauto|by destruct Ho]. Qed.

Lemma update_indices_spec old new key l ids : NoDup l.*1 →
  (∀ name f, (name, f) ∈ l → ∃ vs, index_values f old = Ok vs) →
  match update_indices old new key l ids with
  | Done ids' => ∀ name, (name ∉ l.*1 → ids' !! name = ids !! name) ∧
      ∀ f, (name, f) ∈ l → ∃ olds news, index_values f old = Ok olds ∧ index_values f new = Ok news ∧
        ids' !! name = Some (move_key key olds news (default ∅ (ids !! name)))
  | Panic _ => ∃ name f err, (name, f) ∈ l ∧ index_values f new = Err err
  end.
Proof.
  revert ids. induction l as [|[name f] l IH]; intros ids Hnd Hold; simpl.
  { intros name. split; [done|]. by intros f ?%elem_of_nil. }
  csimpl in Hnd. apply NoDup_cons in Hnd as [Hn Hnd].
  destruct (Hold name f ltac:(left)) as [olds Ho]. rewrite Ho.
  destruct (index_values f new) as [news|err] eqn:Hnew; [|exists name, f, err; split; [left|done]].
  specialize (IH (<[name := move_key key olds news (default ∅ (ids !! name))]> ids) Hnd
    ltac:(intros n g Hg; apply (Hold n g); by right)).
  destruct (update_indices _ _ _ _ _) as [ids'|msg].
  - intros name'. destruct (IH name') as [IH1 IH2]. split.
    + csimpl. rewrite not_elem_of_cons. intros [Hne Hnl]. rewrite IH1 by done. by rewrite lookup_insert_ne.
    + intros g [Hg|Hg]%elem_of_cons.
      * injection Hg as -> ->. exists olds, news. split_and!; [done..|].
        by rewrite (proj1 (IH name) Hn), lookup_insert_eq.
      * destruct (IH2 g Hg) as (olds' & news' & Ho' & Hn' & Hid). exists olds', news'. split_and!; [done..|].
        rewrite Hid. rewrite lookup_insert_ne; [done|]. intros ->. apply Hn. by apply (list_elem_of_fmap_2 fst) in Hg.
  - destruct IH as (n' & g & err & Hg & He). exists n', g, err. split; [by right|done].
Qed.

Lemma updateIndices_spec n new key m i : indexed m i → indexable (indexers i) (m !! key) →
  match updateIndices n (m !! key) new key i with
  | Done i' => indexable (indexers i) new ∧ indexers i' = indexers i ∧ indexed (partial_alter (λ _, new) key m) i'
  | Panic _ => ¬ indexable (indexers i) new
  end.
Proof.
  intros Hi Hold. unfold updateIndices.
  assert (∀ name f, (name, f) ∈ range_list n (indexers i) ↔ indexers i !! name = Some f) as Hl.
  { intros name f. by rewrite range_list_perm, elem_of_map_to_list. }
  pose proof (update_indices_spec (m !! key) new key (range_list n (indexers i)) (indices i)) as Hs.
  destruct (update_indices _ _ _ _ _) as [ids|msg]; cbn [mbind outcome_bind].
  - lapply Hs; [clear Hs; intros Hs|rewrite range_list_perm; apply NoDup_fst_map_to_list].
    assert (∀ name f, indexers i !! name = Some f → ∃ olds news, index_values f (m !! key) = Ok olds ∧
      index_values f new = Ok news ∧ ids !! name = Some (move_key key olds news (default ∅ (indices i !! name)))) as Hn.
    { intros name f Hf. apply (Hs ltac:(intros n' g Hg%Hl; by eapply indexable_values)). by apply Hl. }
    split_and!; [|done|].
    + intros name f Hf. destruct (Hn name f Hf) as (? & ? & _ & -> & _). by eexists.
    + intros name f Hf. simpl in *. destruct (Hn name f Hf) as (olds & news & Ho & Hw & ->). simpl.
      apply move_indexes; auto.
  - destruct Hs as (name & f & err & Hf%Hl & He); [rewrite range_list_perm; apply NoDup_fst_map_to_list| |].
    { intros n' g Hg%Hl. by eapply indexable_values. }
    intros Hx. specialize (Hx name f Hf). simpl in Hx. rewrite He in Hx. by destruct Hx.
Qed.

(** ** The invariant of a store *)

Record store_ok c : Prop := {
  ok_indexed : indexed (items c) (index c);
  ok_indexable key o : items c !! key = Some o → indexable (indexers (index c)) (Some o)
}.

Lemma store_ok_new ixs : store_ok (NewThreadSafeStore ixs ∅).
Proof.
  split; simpl; [|by intros key o; rewrite lookup_empty]. intros name f _. simpl. rewrite lookup_empty. simpl.
  split; [|intros v set; by rewrite lookup_empty]. intros v key. unfold keys_at. rewrite lookup_empty. simpl.
  split; [set_solver|]. intros (o & vs & Hm & _). by rewrite lookup_empty in Hm.
Qed.

Lemma ok_old c key : store_ok c → indexable (indexers (index c)) (items c !! key).
Proof. intros [_ Ho]. destruct (items c !! key) eqn:Hk; [by eapply Ho|]. intros name f _. simpl. by eexists. Qed.

Lemma Update_spec n key o c : store_ok c →
  match threadSafeMap_Update n key o c with
  | Done c' => indexable (indexers (index c)) (Some o) ∧ store_ok c' ∧ items c' = <[key := o]> (items c) ∧
      indexers (index c') = indexers (index c)
  | Panic _ => ¬ indexable (indexers (index c)) (Some o)
  end.
Proof.
  intros Hc. unfold threadSafeMap_Update.
  pose proof (updateIndices_spec n (Some o) key (items c) (index c) (ok_indexed c Hc) (ok_old c key Hc)) as Hu.
  destruct (updateIndices _ _ _ _ _) as [i|msg]; [|done]. cbn [mbind outcome_bind items index].
  destruct Hu as (Ho & Hi & Hix). split_and!; try done. split; [exact Hix|]. simpl. rewrite Hi.
  intros key' o'. rewrite lookup_insert_Some. intros [[_ <-]|[_ ?]]; [done|]. by eapply ok_indexable.
Qed.

Lemma Delete_spec n key c : store_ok c → ∃ c', threadSafeMap_Delete n key c = Done c' ∧ store_ok c' ∧
  items c' = delete key (items c) ∧ indexers (index c') = indexers (index c).
Proof.
  intros Hc. unfold threadSafeMap_Delete. destruct (items c !! key) as [obj|] eqn:Hk.
  2: { exists c. by rewrite delete_id. }
  pose proof (updateIndices_spec n None key (items c) (index c) (ok_indexed c Hc) (ok_old c key Hc)) as Hu.
  rewrite Hk in Hu. destruct (updateIndices _ _ _ _ _) as [i|msg].
  2: { destruct Hu. intros name f _. simpl. by eexists. }
  eexists. split; [reflexivity|]. destruct Hu as (_ & Hi & Hix). split_and!; try done. split; [exact Hix|].
  cbn [items index]. rewrite Hi. intros key' o'. rewrite lookup_delete_Some. intros [_ ?]. by eapply ok_indexable.
Qed.

Lemma index_items_spec n l m i : NoDup l.*1 → (∀ key o, (key, o) ∈ l → m !! key = None) → indexed m i →
  match index_items n l i with
  | Done i' => Forall (λ kv, indexable (indexers i) (Some kv.2)) l ∧ indexers i' = indexers i ∧
      indexed (list_to_map l ∪ m) i'
  | Panic _ => ∃ key o, (key, o) ∈ l ∧ ¬ indexable (indexers i) (Some o)
  end.
Proof.
  revert n m i. induction l as [|[key o] l IH]; intros n m i Hnd Hm Hi; simpl.
  { split_and!; [by constructor|done|]. by rewrite (left_id_L ∅ (∪)). }
  csimpl in Hnd. apply NoDup_cons in Hnd as [Hk Hnd].
  pose proof (updateIndices_spec n (Some o) key m i Hi) as Hu. rewrite (Hm key o ltac:(left)) in Hu.
  lapply Hu; [clear Hu; intros Hu|by intros name f _; eexists].
  destruct (updateIndices _ _ _ _ _) as [i1|msg]; cbn [mbind outcome_bind]; [|exists key, o; split; [left|done]].
  destruct Hu as (Ho & He & Hi1). specialize (IH (S n) (<[key := o]> m) i1 Hnd). rewrite He in IH.
  lapply IH; [clear IH; intros IH|]. 2: { intros k' o' Hin. rewrite lookup_insert_ne; [apply (Hm k' o'); by right|].
    intros <-. apply Hk. by apply (list_elem_of_fmap_2 fst) in Hin. }
  specialize (IH Hi1). destruct (index_items _ _ _) as [i2|msg].
  - destruct IH as (Hl & -> & Hi2). split_and!; [by constructor|done|].
    replace (<[key := o]> (list_to_map l) ∪ m) with (list_to_map l ∪ <[key := o]> m); [done|].
    rewrite <- insert_union_l, <- insert_union_r; [done|]. by apply not_elem_of_list_to_map.
  - destruct IH as (k' & o' & Hin & Hx). exists k', o'. split; [by right|done].
Qed.

Lemma Replace_spec n m c :
  match threadSafeMap_Replace n m c with
  | Done c' => store_ok c' ∧ items c' = m ∧ indexers (index c') = indexers (index c)
  | Panic _ => ∃ key o, m !! key = Some o ∧ ¬ indexable (indexers (index c)) (Some o)
  end.
Proof.
  unfold threadSafeMap_Replace.
  assert (∀ key o, (key, o) ∈ range_list n m ↔ m !! key = Some o) as Hl.
  { intros key o. by rewrite range_list_perm, elem_of_map_to_list. }
  pose proof (index_items_spec (S n) (range_list n m) ∅ (reset (index c))) as Hs.
  rewrite range_list_perm in Hs at 1. specialize (Hs (NoDup_fst_map_to_list _) (λ key _ _, lookup_empty key)).
  lapply Hs; [clear Hs; intros Hs|apply (ok_indexed _ (store_ok_new (indexers (index c))))].
  destruct (index_items _ _ _) as [i|msg]; cbn [mbind outcome_bind].
  - destruct Hs as (Ho & He & Hi). split_and!; try done. split; cbn [items index].
    + rewrite (right_id_L ∅ (∪)) in Hi. rewrite (list_to_map_proper _ (map_to_list m)), list_to_map_to_list in Hi;
        [done|rewrite range_list_perm; apply NoDup_fst_map_to_list|apply range_list_perm].
    + rewrite He. intros key o Hk. rewrite Forall_forall in Ho. by apply (Ho (key, o)), Hl.
  - destruct Hs as (key & o & Hk%Hl & Hx). by exists key, o.
Qed.

(** ** Queries *)

Definition has_value f v o : Prop := match f o with Ok vs => v ∈ vs | Err _ => False end.

#[export] Instance has_value_dec f v o : Decision (has_value f v o).
Proof. unfold has_value. destruct (f o); apply _. Defined.

(** Two objects have a value in common. *)
Definition shares f o o' : Prop :=
  match f o with Ok vs => Exists (λ v, has_value f v o') vs | Err _ => False end.

#[export] Instance shares_dec f o o' : Decision (shares f o o').
Proof. unfold shares. destruct (f o); apply _. Defined.

Definition objects_with (P : A → Prop) `{!∀ o, Decision (P o)} m : list A := filter P (map_to_list m).*2.

Lemma filter_snd (P : A → Prop) `{!∀ o, Decision (P o)} (l : list (string * A)) :
  (filter (λ kv, P kv.2) l).*2 = filter P l.*2.
Proof. induction l as [|[k o] l IH]; [done|]. csimpl. rewrite !filter_cons. simpl. case_decide; csimpl; by rewrite IH. Qed.

Lemma items_at_spec n set c (P : A → Prop) `{!∀ o, Decision (P o)} :
  (∀ key, key ∈ set ↔ ∃ o, items c !! key = Some o ∧ P o) →
  ∃ l, items_at n set c = Some <$> l ∧ l ≡ₚ objects_with P (items c).
Proof.
  intros Hset. set (ks := filter (λ kv, P kv.2) (map_to_list (items c))).
  assert (∀ key o, (key, o) ∈ ks ↔ items c !! key = Some o ∧ P o) as Hks.
  { intros key o. unfold ks. rewrite list_elem_of_filter, elem_of_map_to_list. simpl. tauto. }
  assert (elements set ≡ₚ ks.*1) as Hel.
  { apply NoDup_Permutation; [apply NoDup_elements| |].
    - unfold ks. apply (sublist_NoDup _ (map_to_list (items c)).*1); [apply NoDup_fst_map_to_list|apply fmap_sublist, sublist_filter].
    - intros key. rewrite elem_of_elements, Hset, list_elem_of_fmap. split.
      + intros (o & Ho). exists (key, o). by rewrite Hks.
      + intros ([k o] & -> & Ho%Hks). eauto. }
  assert (items_at n set c ≡ₚ Some <$> ks.*2) as Hp.
  { unfold items_at. rewrite range_list_perm.
    assert (map_to_list (gset_to_gmap tt set) ≡ₚ (λ k, (k, tt)) <$> elements set) as ->.
    { apply NoDup_Permutation; [apply NoDup_map_to_list|apply NoDup_fmap_2; [by intros ?? [=]|apply NoDup_elements]|].
      intros [k []]. rewrite elem_of_map_to_list, lookup_gset_to_gmap_Some, list_elem_of_fmap. split.
      - intros [Hk _]. exists k. by rewrite elem_of_elements.
      - intros (k' & [= ->] & Hk). by rewrite elem_of_elements in Hk. }
    rewrite Hel, <- !list_fmap_compose. apply reflexive_eq, list_fmap_ext. intros j [k o] Hj%list_elem_of_lookup_2.
    by apply Hks in Hj as [? _]. }
  apply Permutation_map_inv in Hp as (l & Hl & Hp). exists l. split; [done|].
  rewrite <- Hp. unfold objects_with, ks. by rewrite filter_snd.
Qed.

Lemma ByIndex_spec n name f v c : store_ok c → indexers (index c) !! name = Some f →
  ∃ l, threadSafeMap_ByIndex n name v c = Ok (Some <$> l) ∧ l ≡ₚ objects_with (has_value f v) (items c).
Proof.
  intros Hc Hf. unfold threadSafeMap_ByIndex, getKeysByIndex. rewrite Hf. cbn [mbind result_bind].
  destruct (items_at_spec n (keys_at (default ∅ (indices (index c) !! name)) v) c (has_value f v)) as (l & -> & Hl); [|eauto].
  intros key. rewrite (indexes_keys _ _ _ (ok_indexed c Hc name f Hf)). apply exist_proper. intros o. unfold has_value.
  destruct (f o); naive_solver.
Qed.

Lemma Index_spec n name f o c : store_ok c → indexers (index c) !! name = Some f → is_Some (match f o with Ok vs => Some vs | Err _ => None end) →
  ∃ l, threadSafeMap_Index n name o c = Ok (Some <$> l) ∧ l ≡ₚ objects_with (shares f o) (items c).
Proof.
  intros Hc Hf Ho. unfold threadSafeMap_Index, getKeysFromIndex. rewrite Hf.
  destruct (f o) as [vs|] eqn:Hvs; [|by destruct Ho]. cbn [mbind result_bind].
  set (ix := default ∅ (indices (index c) !! name)). pose proof (ok_indexed c Hc name f Hf) as Hix. fold ix in Hix.
  destruct (items_at_spec n (match vs with [v] => keys_at ix v | _ => ⋃ (keys_at ix <$> vs) end) c (shares f o)) as (l & -> & Hl); [|eauto].
  intros key. transitivity (key ∈ ⋃ (keys_at ix <$> vs)).
  { destruct vs as [|v [|]]; [done| |done]. simpl. set_solver. }
  rewrite elem_of_union_list. unfold shares. rewrite Hvs. split.
  - intros (set & (v & -> & Hv)%list_elem_of_fmap & Hk). apply (indexes_keys _ _ _ Hix) in Hk as (o' & vs' & Hm & Hf' & Hv').
    exists o'. split; [done|]. apply Exists_exists. exists v. split; [done|]. unfold has_value. by rewrite Hf'.
  - intros (o' & Hm & (v & Hv & Hh)%Exists_exists). exists (keys_at ix v). split; [by apply list_elem_of_fmap_2|].
    apply (indexes_keys _ _ _ Hix). unfold has_value in Hh. destruct (f o') eqn:Hf'; [eauto|done].
Qed.

Lemma ListIndexFuncValues_spec n name f c v : store_ok c → indexers (index c) !! name = Some f →
  v ∈ threadSafeMap_ListIndexFuncValues n name c ↔ objects_with (has_value f v) (items c) ≠ [].
Proof.
  intros Hc Hf. unfold threadSafeMap_ListIndexFuncValues, getIndexValues. rewrite range_list_perm.
  pose proof (ok_indexed c Hc name f Hf) as [Hk Hu]. set (ix := default ∅ (indices (index c) !! name)) in *.
  transitivity (∃ key, key ∈ keys_at ix v).
  - rewrite list_elem_of_fmap. unfold keys_at. split.
    + intros ([v' set] & -> & Hs%elem_of_map_to_list). simpl. rewrite Hs. apply set_choose_L. by eapply Hu.
    + intros [key Hin]. destruct (ix !! v) as [set|] eqn:Hs; [|by apply not_elem_of_empty in Hin].
      exists (v, set). by rewrite elem_of_map_to_list.
  - split.
    + intros (key & (o & vs & Hm & Hf' & Hv)%Hk) He. apply (not_elem_of_nil o). rewrite <- He. unfold objects_with.
      rewrite list_elem_of_filter. split; [unfold has_value; by rewrite Hf'|].
      apply list_elem_of_fmap. exists (key, o). by rewrite elem_of_map_to_list.
    + destruct (objects_with (has_value f v) (items c)) as [|o l] eqn:He; [done|]. intros _.
      assert (o ∈ objects_with (has_value f v) (items c)) as Ho by (rewrite He; left).
      unfold objects_with in Ho. rewrite list_elem_of_filter in Ho.
      destruct Ho as [Hh ([key o'] & -> & Hm%elem_of_map_to_list)%list_elem_of_fmap].
      unfold has_value in Hh. simpl in Hh. destruct (f o') eqn:Hf'; [|done]. exists key. apply Hk. eauto.
Qed.

(** ** Calls *)

Inductive call := CAdd o | CUpdate o | CDelete o | CReplace (l : list A).

Definition serve n (q : call) s : outcome (option error * cache) :=
  match q with
  | CAdd o => cache_Add n o s
  | CUpdate o => cache_Update n o s
  | CDelete o => cache_Delete n o s
  | CReplace l => cache_Replace n l s
  end.

Fixpoint run n (qs : list call) s : outcome (list (option error) * cache) :=
  match qs with
  | [] => Done ([], s)
  | q :: qs => '(err, s) ← serve n q s; '(errs, s) ← run (S n) qs s; Done (err :: errs, s)
  end.

(** What a map does. *)
Definition answer (kf : A → result string) (q : call) m : option error * gmap string A :=
  match q with
  | CAdd o | CUpdate o => match kf o with Ok key => (None, <[key := o]> m) | Err _ => (Some KeyError, m) end
  | CDelete o => match kf o with Ok key => (None, delete key m) | Err _ => (Some KeyError, m) end
  | CReplace l => match keyed kf l ∅ with Ok m' => (None, m') | Err err => (Some err, m) end
  end.

Fixpoint answers kf (qs : list call) m : list (option error) * gmap string A :=
  match qs with
  | [] => ([], m)
  | q :: qs => let '(err, m) := answer kf q m in let '(errs, m) := answers kf qs m in (err :: errs, m)
  end.

(** The objects that a call gives to the store. *)
Definition given (q : call) : list A :=
  match q with CAdd o | CUpdate o => [o] | CDelete _ => [] | CReplace l => l end.

Lemma keyed_given kf l m m' key o : keyed kf l m = Ok m' → m' !! key = Some o → m !! key = Some o ∨ o ∈ l.
Proof.
  revert m. induction l as [|o' l IH]; intros m; simpl; [intros [= ->]; by left|].
  destruct (kf o'); [|done]. intros Hk Ho. destruct (IH _ Hk Ho) as [[[_ <-]|[_ ?]]%lookup_insert_Some|?]; [right; left|by left|by right; right].
Qed.

Lemma serve_spec n q s : store_ok (cacheStorage s) →
  match serve n q s with
  | Done (err, s') => answer (keyFunc s) q (items (cacheStorage s)) = (err, items (cacheStorage s')) ∧
      store_ok (cacheStorage s') ∧ keyFunc s' = keyFunc s ∧ indexers (index (cacheStorage s')) = indexers (index (cacheStorage s))
  | Panic _ => ∃ o, o ∈ given q ∧ ¬ indexable (indexers (index (cacheStorage s))) (Some o)
  end.
Proof.
  intros Hs.
  assert (∀ o, match cache_Update n o s with
    | Done (err, s') => answer (keyFunc s) (CUpdate o) (items (cacheStorage s)) = (err, items (cacheStorage s')) ∧
        store_ok (cacheStorage s') ∧ keyFunc s' = keyFunc s ∧ indexers (index (cacheStorage s')) = indexers (index (cacheStorage s))
    | Panic _ => ∃ o', o' ∈ [o] ∧ ¬ indexable (indexers (index (cacheStorage s))) (Some o')
    end) as Hu.
  { intros o. unfold cache_Update. simpl. destruct (keyFunc s o) as [key|]; [|done].
    pose proof (Update_spec n key o (cacheStorage s) Hs) as Hu. destruct (threadSafeMap_Update _ _ _ _); cbn [mbind outcome_bind].
    - destruct Hu as (_ & ? & Hit & ?). cbn. by rewrite Hit.
    - exists o. split; [left|done]. }
  destruct q as [o|o|o|l]; [apply Hu|apply Hu| |].
  - simpl. unfold cache_Delete. destruct (keyFunc s o) as [key|]; [|done].
    destruct (Delete_spec n key (cacheStorage s) Hs) as (c & -> & ? & Hit & ?). cbn. by rewrite Hit.
  - simpl. unfold cache_Replace. destruct (keyed _ l ∅) as [m|] eqn:Hk; [|done].
    pose proof (Replace_spec n m (cacheStorage s)) as Hr. destruct (threadSafeMap_Replace _ _ _); cbn [mbind outcome_bind].
    + destruct Hr as (? & Hit & ?). cbn. by rewrite Hit.
    + destruct Hr as (key & o & Ho & Hx). exists o. split; [|done].
      destruct (keyed_given _ _ _ _ _ _ Hk Ho) as [He|]; [by rewrite lookup_empty in He|done].
Qed.

Lemma run_spec n qs s : store_ok (cacheStorage s) →
  match run n qs s with
  | Done (errs, s') => answers (keyFunc s) qs (items (cacheStorage s)) = (errs, items (cacheStorage s')) ∧
      store_ok (cacheStorage s') ∧ keyFunc s' = keyFunc s ∧ indexers (index (cacheStorage s')) = indexers (index (cacheStorage s))
  | Panic _ => ∃ q o, q ∈ qs ∧ o ∈ given q ∧ ¬ indexable (indexers (index (cacheStorage s))) (Some o)
  end.
Proof.
  revert n s. induction qs as [|q qs IH]; intros n s Hs; simpl; [done|].
  pose proof (serve_spec n q s Hs) as Hq. destruct (serve n q s) as [[err s1]|msg]; simpl.
  - destruct Hq as (-> & Hs1 & Hk & Hx). specialize (IH (S n) s1 Hs1). rewrite Hk, Hx in IH.
    destruct (run (S n) qs s1) as [[errs s2]|msg]; simpl.
    + destruct IH as (-> & ? & ? & ?). by split_and!.
    + destruct IH as (q' & o & ? & ? & ?). exists q', o. split_and!; [by right|done..].
  - destruct Hq as (o & ? & ?). exists q, o. split_and!; [left|done..].
Qed.

(** C30: Whatever calls a store serves, and in whatever orders it visits its maps: it is
    a map of objects by their keys, and each of its indices answers as a search through
    that map: [ByIndex] has the objects of a value and [Index] those with a value of
    the given object, each once and none nil, and [ListIndexFuncValues] the values that
    some object has. A store panics only when an index function fails on an object
    that it was given. *)
Theorem store_is_a_map n kf ixs qs :
  match run n qs (NewIndexer kf ixs) with
  | Panic _ => ∃ q o, q ∈ qs ∧ o ∈ given q ∧ ¬ indexable ixs (Some o)
  | Done (errs, s) => ∃ m, answers kf qs ∅ = (errs, m) ∧ (∀ key, cache_GetByKey key s = m !! key) ∧
      (∀ n, cache_List n s ≡ₚ (map_to_list m).*2 ∧ cache_ListKeys n s ≡ₚ (map_to_list m).*1) ∧
      ∀ n name f, ixs !! name = Some f →
        (∀ v, ∃ l, cache_ByIndex n name v s = Ok (Some <$> l) ∧ l ≡ₚ objects_with (has_value f v) m) ∧
        (∀ o vs, f o = Ok vs → ∃ l, cache_Index n name o s = Ok (Some <$> l) ∧ l ≡ₚ objects_with (shares f o) m) ∧
        ∀ v, v ∈ cache_ListIndexFuncValues n name s ↔ objects_with (has_value f v) m ≠ []
  end.
Proof.
  pose proof (run_spec n qs (NewIndexer kf ixs) (store_ok_new ixs)) as Hr.
  destruct (run n qs _) as [[errs s]|msg]; [|exact Hr]. destruct Hr as (Ha & Hs & _ & Hx). cbn in Ha, Hx.
  exists (items (cacheStorage s)). split_and!; [done..| |].
  - intros n'. unfold cache_List, cache_ListKeys, threadSafeMap_List, threadSafeMap_ListKeys. by rewrite !range_list_perm.
  - intros n' name f Hf. rewrite <- Hx in Hf. split_and!.
    + intros v. by apply ByIndex_spec.
    + intros o vs Ho. apply Index_spec; [done..|]. rewrite Ho. by eexists.
    + intros v. by apply ListIndexFuncValues_spec.
Qed.

End store.
Arguments storeIndex : clear implicits.
Arguments threadSafeMap : clear implicits.
Arguments cache : clear implicits.
