(* ===== verification/DeltaFifo.v ===== *)
(** * The queue of an informer

    What feeds the store of a shared informer (k8s.io/client-go, tools/cache:
    delta_fifo.go, with processDeltas of controller.go and the events of watchHandler
    and syncWith of reflector.go), translated from the vendored source: the reflector
    puts what it lists and watches in the queue, and [Pop] takes all that waits for one
    object and brings it to the store and to the handlers. The queue's lock makes each
    method one step; the store changes only within [Pop]. *)
From S2P Require Import Prelude GoText KubeApi Listers Store.

(** What the queue and the store hold: an object, or the mark of one whose deletion
    was not seen. *)
Inductive item (C : Type) :=
| Object (o : object C)
| DeletedFinalStateUnknown (Key : string) (Obj : option (item C)).
Arguments Object {C}.
Arguments DeletedFinalStateUnknown {C}.

Inductive DeltaType := Added | Updated | Deleted | Replaced | Sync.
#[export] Instance DeltaType_eq_dec : EqDecision DeltaType.
Proof. solve_decision. Defined.

Record Delta (C : Type) := mkDelta { Type_ : DeltaType; delta_Object : item C }.
Arguments mkDelta {C}.
Arguments Type_ {C}.
Arguments delta_Object {C}.

Record DeltaFIFO (C : Type) := mkDeltaFIFO {
  fifo_items : gmap string (list (Delta C));
  queue : list string;
  populated : bool;
  initialPopulationCount : Z;
  fifo_closed : bool;
  emitDeltaTypeReplaced : bool;
  transformer : option (item C → result (item C))
}.
Arguments mkDeltaFIFO {C}.
Arguments fifo_items {C}.
Arguments queue {C}.
Arguments populated {C}.
Arguments initialPopulationCount {C}.
Arguments fifo_closed {C}.
Arguments emitDeltaTypeReplaced {C}.
Arguments transformer {C}.

(** What a handler hears. *)
Inductive notification (C : Type) :=
| OnAdd (obj : item C) (isInInitialList : bool)
| OnUpdate (old new : item C)
| OnDelete (obj : item C).
Arguments OnAdd {C}.
Arguments OnUpdate {C}.
Arguments OnDelete {C}.

(** The errors of the function that [Pop] calls. *)
Inductive process_error := ErrRequeue (err : option error) | ProcessError (err : error).

Section fifo.
Context `{RangeOrder} {C : Type}.
Implicit Types (o : object C) (obj : item C) (f : DeltaFIFO C) (d : Delta C) (ds : list (Delta C)) (s : cache (item C)).

(** [MetaNamespaceKeyFunc] and [MetaNamespaceIndexFunc] of what is not an object fail. *)
Definition item_KeyFunc obj : result string :=
  match obj with
  | Object o => Ok (MetaNamespaceKeyFunc o)
  | DeletedFinalStateUnknown _ _ => Err (Errorf "object has no meta")
  end.

Definition MetaNamespaceIndexFunc obj : result (list string) :=
  match obj with
  | Object o => Ok [obj_Namespace o]
  | DeletedFinalStateUnknown _ _ => Err (Errorf "object has no meta")
  end.

(** The key function of the store of an informer. *)
Definition DeletionHandlingMetaNamespaceKeyFunc obj : result string :=
  match obj with
  | DeletedFinalStateUnknown key _ => Ok key
  | _ => item_KeyFunc obj
  end.

(** ** The queue *)

Definition NewDeltaFIFO (emit : bool) (transform : option (item C → result (item C))) : DeltaFIFO C :=
  mkDeltaFIFO ∅ [] false 0 false emit transform.

Definition with_items f its q : DeltaFIFO C :=
  mkDeltaFIFO its q (populated f) (initialPopulationCount f) (fifo_closed f) (emitDeltaTypeReplaced f) (transformer f).
Definition with_populated f n : DeltaFIFO C :=
  mkDeltaFIFO (fifo_items f) (queue f) true n (fifo_closed f) (emitDeltaTypeReplaced f) (transformer f).
Definition populate f : DeltaFIFO C := with_populated f (initialPopulationCount f).
Definition Close f : DeltaFIFO C :=
  mkDeltaFIFO (fifo_items f) (queue f) (populated f) (initialPopulationCount f) true (emitDeltaTypeReplaced f) (transformer f).

Definition KeyOf obj : result string :=
  match obj with
  | DeletedFinalStateUnknown key _ => Ok key
  | _ => item_KeyFunc obj
  end.

Definition HasSynced f : bool := populated f && bool_decide (initialPopulationCount f = 0%Z).

Definition isDeletionDup (a b : Delta C) : option (Delta C) :=
  if decide (Type_ b ≠ Deleted ∨ Type_ a ≠ Deleted) then None
  else match delta_Object b with
  | DeletedFinalStateUnknown _ _ => Some a
  | Object _ => Some b
  end.

Definition isDup (a b : Delta C) : option (Delta C) := isDeletionDup a b.

(** The newest two, when there are two. *)
Definition dedupDeltas ds : list (Delta C) :=
  match reverse ds with
  | a :: b :: rest =>
    match isDup a b with
    | Some out => reverse (out :: rest)
    | None => ds
    end
  | _ => ds
  end.

Definition queueActionLocked (actionType : DeltaType) obj f : option error * DeltaFIFO C :=
  match KeyOf obj with
  | Err _ => (Some KeyError, f)
  | Ok id =>
    match match transformer f with Some transform => transform obj | None => Ok obj end with
    | Err err => (Some err, f)
    | Ok obj =>
      let newDeltas := dedupDeltas (default [] (fifo_items f !! id) ++ [mkDelta actionType obj]) in
      if decide (newDeltas ≠ []) then
        (None, with_items f (<[id := newDeltas]> (fifo_items f))
                 (match fifo_items f !! id with Some _ => queue f | None => queue f ++ [id] end))
      else match fifo_items f !! id with
      | None => (None, f)
      | Some _ => (Some (Errorf "Impossible dedupDeltas"), with_items f (<[id := newDeltas]> (fifo_items f)) (queue f))
      end
    end
  end.

Definition fifo_Add obj f : option error * DeltaFIFO C := queueActionLocked Added obj (populate f).
Definition fifo_Update obj f : option error * DeltaFIFO C := queueActionLocked Updated obj (populate f).

(** [known] is the store, or nil. *)
Definition fifo_Delete (known : option (cache (item C))) obj f : option error * DeltaFIFO C :=
  match KeyOf obj with
  | Err _ => (Some KeyError, f)
  | Ok id =>
    let f := populate f in
    match known with
    | None =>
      match fifo_items f !! id with
      | None => (None, f)
      | Some _ => queueActionLocked Deleted obj f
      end
    | Some s =>
      match cache_GetByKey id s, fifo_items f !! id with
      | None, None => (None, f)
      | _, _ => queueActionLocked Deleted obj f
      end
    end
  end.

Definition addIfNotPresent id ds f : DeltaFIFO C :=
  let f := populate f in
  match fifo_items f !! id with
  | Some _ => f
  | None => with_items f (<[id := ds]> (fifo_items f)) (queue f ++ [id])
  end.

(** ** Replace *)

Fixpoint replace_items (action : DeltaType) (list : list (item C)) (keys : gset string) f :
    option error * gset string * DeltaFIFO C :=
  match list with
  | [] => (None, keys, f)
  | obj :: list =>
    match KeyOf obj with
    | Err _ => (Some KeyError, keys, f)
    | Ok key =>
      match queueActionLocked action obj f with
      | (Some _, f) => (Some (Errorf "couldn't enqueue object"), {[key]} ∪ keys, f)
      | (None, f) => replace_items action list ({[key]} ∪ keys) f
      end
    end
  end.

Definition Newest ds : option (Delta C) := last ds.

(** Of the items that were in the queue and are not in the list. *)
Fixpoint delete_queued (l : list (string * list (Delta C))) (keys : gset string) (queuedDeletions : Z) f :
    option error * Z * DeltaFIFO C :=
  match l with
  | [] => (None, queuedDeletions, f)
  | (k, oldItem) :: l =>
    if decide (k ∈ keys) then delete_queued l keys queuedDeletions f
    else
      let deletedObj :=
        match Newest oldItem with
        | Some n => match delta_Object n with DeletedFinalStateUnknown _ obj => obj | obj => Some obj end
        | None => None
        end in
      match queueActionLocked Deleted (DeletedFinalStateUnknown k deletedObj) f with
      | (Some err, f) => (Some err, (queuedDeletions + 1)%Z, f)
      | (None, f) => delete_queued l keys (queuedDeletions + 1) f
      end
  end.

(** Of the objects of the store that are in neither. *)
Fixpoint delete_known (knownKeys : list string) s (keys : gset string) (queuedDeletions : Z) f :
    option error * Z * DeltaFIFO C :=
  match knownKeys with
  | [] => (None, queuedDeletions, f)
  | k :: knownKeys =>
    if decide (k ∈ keys) then delete_known knownKeys s keys queuedDeletions f
    else if decide (default [] (fifo_items f !! k) ≠ []) then delete_known knownKeys s keys queuedDeletions f
    else match queueActionLocked Deleted (DeletedFinalStateUnknown k (cache_GetByKey k s)) f with
    | (Some err, f) => (Some err, (queuedDeletions + 1)%Z, f)
    | (None, f) => delete_known knownKeys s keys (queuedDeletions + 1) f
    end
  end.

(** [n] is the number of the first of its loops over a map. *)
Definition fifo_Replace n (known : option (cache (item C))) (list : list (item C)) f : option error * DeltaFIFO C :=
  let action := if emitDeltaTypeReplaced f then Replaced else Sync in
  match replace_items action list ∅ f with
  | (Some err, _, f) => (Some err, f)
  | (None, keys, f) =>
    match delete_queued (range_list n (fifo_items f)) keys 0 f with
    | (Some err, _, f) => (Some err, f)
    | (None, queuedDeletions, f) =>
      let '(err, queuedDeletions, f) :=
        match known with
        | Some s => delete_known (cache_ListKeys (S n) s) s keys queuedDeletions f
        | None => (None, queuedDeletions, f)
        end in
      match err with
      | Some err => (Some err, f)
      | None =>
        (None, if populated f then f else with_populated f (Z.of_nat (size keys) + queuedDeletions))
      end
    end
  end.

(** ** Resync *)

Definition syncKeyLocked s key f : option error * DeltaFIFO C :=
  match cache_GetByKey key s with
  | None => (None, f)
  | Some obj =>
    match KeyOf obj with
    | Err _ => (Some KeyError, f)
    | Ok id =>
      if decide (default [] (fifo_items f !! id) ≠ []) then (None, f)
      else match queueActionLocked Sync obj f with
      | (Some _, f) => (Some (Errorf "couldn't queue object"), f)
      | (None, f) => (None, f)
      end
    end
  end.

Fixpoint sync_keys s (keys : list string) f : option error * DeltaFIFO C :=
  match keys with
  | [] => (None, f)
  | k :: keys =>
    match syncKeyLocked s k f with
    | (Some err, f) => (Some err, f)
    | (None, f) => sync_keys s keys f
    end
  end.

Definition fifo_Resync n (known : option (cache (item C))) f : option error * DeltaFIFO C :=
  match known with
  | None => (None, f)
  | Some s => sync_keys s (cache_ListKeys n s) f
  end.

(** ** Pop *)

Inductive popped := Blocks | FIFOClosed | Popped (ds : list (Delta C)) (err : option error).

(** The loop of [Pop], which ends with the queue at the latest; [process] runs with the
    lock held. *)
Fixpoint pop_loop {S : Type} (process : list (Delta C) → bool → S → outcome (option process_error * S))
    (q : list string) f (st : S) : outcome (popped * DeltaFIFO C * S) :=
  match q with
  | [] => Done (if fifo_closed f then FIFOClosed else Blocks, f, st)
  | id :: q =>
    let isInInitialList := negb (HasSynced f) in
    let n := if (0 <? initialPopulationCount f)%Z then (initialPopulationCount f - 1)%Z else initialPopulationCount f in
    let f := mkDeltaFIFO (fifo_items f) q (populated f) n (fifo_closed f) (emitDeltaTypeReplaced f) (transformer f) in
    match fifo_items f !! id with
    | None => pop_loop process q f st
    | Some ds =>
      let f := with_items f (delete id (fifo_items f)) (queue f) in
      '(err, st) ← process ds isInInitialList st;
      match err with
      | Some (ErrRequeue err) => Done (Popped ds err, addIfNotPresent id ds f, st)
      | Some (ProcessError err) => Done (Popped ds (Some err), f, st)
      | None => Done (Popped ds None, f, st)
      end
    end
  end.

Definition Pop {S : Type} (process : list (Delta C) → bool → S → outcome (option process_error * S)) f (st : S) :
    outcome (popped * DeltaFIFO C * S) := pop_loop process (queue f) f st.

(** ** The store and the handler *)

(** The store with what the handler has heard, oldest first. *)
Definition client : Type := cache (item C) * list (notification C).

Fixpoint processDeltas n ds (isInInitialList : bool) (st : client) : outcome (option process_error * client) :=
  match ds with
  | [] => Done (None, st)
  | d :: ds =>
    let '(s, heard) := st in
    let obj := delta_Object d in
    match Type_ d with
    | Deleted =>
      '(err, s) ← cache_Delete n obj s;
      match err with
      | Some err => Done (Some (ProcessError err), (s, heard))
      | None => processDeltas (S n) ds isInInitialList (s, heard ++ [OnDelete obj])
      end
    | _ =>
      match cache_Get obj s with
      | Ok (Some old) =>
        '(err, s) ← cache_Update n obj s;
        match err with
        | Some err => Done (Some (ProcessError err), (s, heard))
        | None => processDeltas (S n) ds isInInitialList (s, heard ++ [OnUpdate old obj])
        end
      | _ =>
        '(err, s) ← cache_Add n obj s;
        match err with
        | Some err => Done (Some (ProcessError err), (s, heard))
        | None => processDeltas (S n) ds isInInitialList (s, heard ++ [OnAdd obj isInInitialList])
        end
      end
    end
  end.

(** ** An informer at work *)

Record informer := mkInformer { inf_queue : DeltaFIFO C; inf_client : client }.
Implicit Types i : informer.

Definition inf_store i : cache (item C) := (inf_client i).1.

(** [NewSharedIndexInformer] and the queue that its [Run] makes. *)
Definition new_informer (ixs : gmap string (item C → result (list string))) : informer :=
  mkInformer (NewDeltaFIFO true None) (NewIndexer DeletionHandlingMetaNamespaceKeyFunc ixs, []).

(** What happens to an informer: a list of the reflector, an event of its watch, a
    resync, and [Pop] by the controller's loop. *)
Inductive happening :=
| Listed (list : list (object C))
| WatchAdded o
| WatchModified o
| WatchDeleted o
| Resynced
| Pops.

Definition with_queue i (r : option error * DeltaFIFO C) : informer := mkInformer r.2 (inf_client i).

(** The errors of the queue are handed to the reflector, which logs them or lists again. *)
Definition happens n (h : happening) i : outcome informer :=
  let known := Some (inf_store i) in
  match h with
  | Listed list => Done (with_queue i (fifo_Replace n known (Object <$> list) (inf_queue i)))
  | WatchAdded o => Done (with_queue i (fifo_Add (Object o) (inf_queue i)))
  | WatchModified o => Done (with_queue i (fifo_Update (Object o) (inf_queue i)))
  | WatchDeleted o => Done (with_queue i (fifo_Delete known (Object o) (inf_queue i)))
  | Resynced => Done (with_queue i (fifo_Resync n known (inf_queue i)))
  | Pops =>
    '(_, f, st) ← Pop (processDeltas n) (inf_queue i) (inf_client i);
    Done (mkInformer f st)
  end.

Fixpoint history n (hs : list happening) i : outcome informer :=
  match hs with
  | [] => Done i
  | h :: hs => i ← happens n h i; history (S n) hs i
  end.

End fifo.
