(* ===== verification/DeltaFifoProps.v ===== *)
(** * What an informer's store holds

    The invariant of the queue of [DeltaFifo] with the store that it feeds, kept by
    whatever the reflector does and whenever the queue is popped: what waits for an
    object, applied to what the store has of it, is what was last told of it. *)
From S2P Require Import Prelude GoText KubeApi Listers Store DeltaFifo.

Section fifo_props.
Context `{RangeOrder} {C : Type}.
Implicit Types (o : object C) (obj : item C) (f : DeltaFIFO C) (d : Delta C) (ds : list (Delta C))
  (s : cache (item C)) (i : informer (C:=C)) (m : gmap string (object C)) (k : string).

#[local] Notation key := MetaNamespaceKeyFunc.

(** ** What is told *)

Definition put m o : gmap string (object C) := <[key o := o]> m.

Definition tell (h : happening (C:=C)) m : gmap string (object C) :=
  match h with
  | Listed list => foldl put ∅ list
  | WatchAdded o | WatchModified o => put m o
  | WatchDeleted o => delete (key o) m
  | Resynced | Pops => m
  end.

Definition told (hs : list happening) m : gmap string (object C) := foldl (flip tell) m hs.

(** What a handler that begins with [m] knows after what it hears, when each addition
    is new to it, and each update and deletion is of what it has. *)
Fixpoint replayed (ns : list (notification C)) m m' : Prop :=
  match ns with
  | [] => m' = m
  | OnAdd (Object o) _ :: ns => m !! key o = None ∧ replayed ns (put m o) m'
  | OnUpdate (Object old) (Object new) :: ns => m !! key new = Some old ∧ replayed ns (put m new) m'
  | OnDelete obj :: ns => ∃ k, KeyOf obj = Ok k ∧ is_Some (m !! k) ∧ replayed ns (delete k m) m'
  | _ => False
  end.

Lemma replayed_app ns ns' m m1 m2 : replayed ns m m1 → replayed ns' m1 m2 → replayed (ns ++ ns') m m2.
Proof.
  intros Hm Hm'. revert m Hm. induction ns as [|x ns IH]; intros m; simpl; [by intros <-|].
  destruct x as [[]|[] []|]; naive_solver.
Qed.

(** ** Deltas *)

(** The object after a delta, and after what waits. *)
Definition delta_value d : option (object C) :=
  if decide (Type_ d = Deleted) then None
  else match delta_Object d with Object o => Some o | DeletedFinalStateUnknown _ _ => None end.

Definition after (x : option (object C)) ds : option (object C) :=
  match last ds with Some d => delta_value d | None => x end.

(** A delta of the key [k], which deletes only what is there. *)
Definition sound_delta k (x : option (object C)) d : Prop :=
  KeyOf (delta_Object d) = Ok k ∧
  if decide (Type_ d = Deleted) then is_Some x else ∃ o, delta_Object d = Object o.

Fixpoint sound k (x : option (object C)) ds : Prop :=
  match ds with
  | [] => True
  | d :: ds => sound_delta k x d ∧ sound k (delta_value d) ds
  end.

Lemma after_snoc x ds d : after x (ds ++ [d]) = delta_value d.
Proof. unfold after. by rewrite last_snoc. Qed.

Lemma after_cons x d ds : after x (d :: ds) = after (delta_value d) ds.
Proof. unfold after. rewrite last_cons. by destruct (last ds). Qed.

Lemma sound_snoc k x ds d : sound k x (ds ++ [d]) ↔ sound k x ds ∧ sound_delta k (after x ds) d.
Proof.
  revert x. induction ds as [|e ds IH]; intros x; simpl; [tauto|]. rewrite IH, after_cons. tauto.
Qed.

Lemma delta_value_Deleted obj : delta_value (mkDelta Deleted obj) = None.
Proof. done. Qed.

Lemma dedup_snoc ds d :
  dedupDeltas (ds ++ [d]) = ds ++ [d] ∧ (Type_ d = Deleted → ∀ b, last ds = Some b → Type_ b ≠ Deleted) ∨
  ∃ ds0 b out, ds = ds0 ++ [b] ∧ Type_ b = Deleted ∧ Type_ d = Deleted ∧ (out = b ∨ out = d) ∧
    dedupDeltas (ds ++ [d]) = ds0 ++ [out].
Proof.
  unfold dedupDeltas. rewrite reverse_snoc. destruct ds as [|b ds0 _] using rev_ind; [by left|].
  rewrite reverse_snoc. unfold isDup, isDeletionDup. case_decide as Ht.
  - left. split; [done|]. intros Hd b'. rewrite last_snoc. intros [= <-]. tauto.
  - right. destruct (decide (Type_ b = Deleted)), (decide (Type_ d = Deleted)); try tauto.
    destruct (delta_Object b); eexists ds0, b, _; (split_and!; [done|done|done| |]);
      [by left|by rewrite reverse_cons, reverse_involutive|by right|by rewrite reverse_cons, reverse_involutive].
Qed.

Lemma dedup_sound k x ds t obj : sound k x ds → KeyOf obj = Ok k →
  (if decide (t = Deleted) then is_Some x ∨ ds ≠ [] else ∃ o, obj = Object o) →
  dedupDeltas (ds ++ [mkDelta t obj]) ≠ [] ∧ sound k x (dedupDeltas (ds ++ [mkDelta t obj])) ∧
  after x (dedupDeltas (ds ++ [mkDelta t obj])) = delta_value (mkDelta t obj).
Proof.
  intros Hsound Hk Ht.
  destruct (dedup_snoc ds (mkDelta t obj)) as [[-> Hlast]|(ds0 & b & out & -> & Hb & Hd & Hout & ->)].
  - split; [by destruct ds|]. rewrite sound_snoc, after_snoc. split; [|done]. split; [done|]. split; [done|]. simpl in *.
    destruct (decide (t = Deleted)); [|done]. unfold after. destruct (last ds) as [b|] eqn:Hl.
    + apply last_Some in Hl as [ds0 ->]. rewrite sound_snoc in Hsound. destruct Hsound as [_ [_ Hb]].
      specialize (Hlast e b eq_refl). rewrite decide_False in Hb by done.
      destruct Hb as [o Ho]. unfold delta_value. rewrite decide_False, Ho by done. by eexists.
    + apply last_None in Hl as ->. by destruct Ht as [?|[]].
  - split; [by destruct ds0|]. rewrite sound_snoc in Hsound |- *. rewrite after_snoc. destruct Hsound as [H0 [Hkb Hxb]].
    rewrite decide_True in Hxb by done. simpl in Hd.
    assert (Type_ out = Deleted ∧ KeyOf (delta_Object out) = Ok k) as [Hto Hko] by (destruct Hout as [-> | ->]; done).
    split_and!; [done|split; [done|by rewrite decide_True]|]. unfold delta_value. simpl. by rewrite !decide_True.
Qed.

(** ** The queue *)

Definition pending f k : list (Delta C) := default [] (fifo_items f !! k).

Definition lookup_in m k : option (object C) := m !! k.

(** A queue before a store that holds [x]. *)
Record fifo_ok (x : string → option (object C)) f : Prop := {
  fifo_plain : transformer f = None;
  queue_once : NoDup (queue f);
  queue_items k : k ∈ queue f ↔ is_Some (fifo_items f !! k);
  pending_some k ds : fifo_items f !! k = Some ds → ds ≠ [] ∧ sound k (x k) ds
}.

Definition knows (x : string → option (object C)) f k : option (object C) := after (x k) (pending f k).

(** The rest of a queue. *)
Definition same_counts f f' : Prop :=
  populated f' = populated f ∧ initialPopulationCount f' = initialPopulationCount f ∧
  fifo_closed f' = fifo_closed f ∧ emitDeltaTypeReplaced f' = emitDeltaTypeReplaced f.

#[export] Instance same_counts_preorder : PreOrder same_counts.
Proof. split; unfold same_counts; [done|]. intros ??? (? & ? & ? & ?) (? & ? & ? & ?). split_and!; congruence. Qed.

(** Only what waits for [k] is changed, where something waits now. *)
Record queued k f f' : Prop := {
  queued_counts : same_counts f f';
  queued_other k' : k' ≠ k → fifo_items f' !! k' = fifo_items f !! k';
  queued_pending : pending f' k ≠ [];
  queued_queue : queue f' = if decide (is_Some (fifo_items f !! k)) then queue f else queue f ++ [k]
}.

Lemma queued_elem k f f' k' : queued k f f' → k' ∈ queue f' → k' = k ∨ k' ∈ queue f.
Proof. intros [_ _ _ ->]. case_decide; set_solver. Qed.

Lemma pending_other k f f' k' : queued k f f' → k' ≠ k → pending f' k' = pending f k'.
Proof. intros [_ Ho _ _] Hk. unfold pending. by rewrite Ho. Qed.

Lemma knows_other k f f' x k' : queued k f f' → k' ≠ k → knows x f' k' = knows x f k'.
Proof. intros Hq Hk. unfold knows. by erewrite pending_other. Qed.

(** An action is queued when its object is of the key [k], and exists when it is deleted. *)
Lemma queueAction_spec x f t obj k : fifo_ok x f → KeyOf obj = Ok k →
  (if decide (t = Deleted) then is_Some (x k) ∨ pending f k ≠ [] else ∃ o, obj = Object o) →
  ∃ f', queueActionLocked t obj f = (None, f') ∧ fifo_ok x f' ∧ queued k f f' ∧
    knows x f' k = delta_value (mkDelta t obj).
Proof.
  intros [Hp Hn Hq Hs] Hk Ht. unfold queueActionLocked. rewrite Hk, Hp.
  assert (sound k (x k) (pending f k)) as Hsound.
  { unfold pending. destruct (fifo_items f !! k) as [ds|] eqn:Hds; [by apply Hs|done]. }
  destruct (dedup_sound k (x k) (pending f k) t obj Hsound Hk Ht) as (Hne & Hsn & Ha). unfold pending in Hne, Hsn, Ha.
  set (new := dedupDeltas (default [] (fifo_items f !! k) ++ [mkDelta t obj])) in *.
  rewrite decide_True by done. eexists. split; [reflexivity|].
  assert (pending (with_items f (<[k := new]> (fifo_items f)) (match fifo_items f !! k with Some _ => queue f | None => queue f ++ [k] end)) k = new) as Hpend.
  { unfold pending. simpl. by rewrite lookup_insert_eq. }
  split_and!.
  - split; simpl; [done| | |].
    + destruct (fifo_items f !! k) eqn:Hi; [done|]. apply NoDup_app. split_and!; [done| |apply NoDup_singleton].
      intros k' Hk' ->%list_elem_of_singleton. apply Hq in Hk' as [? ?]. congruence.
    + intros k'. rewrite lookup_insert. destruct (decide (k = k')) as [<-|Hkk].
      * split; [by intros _; eexists|intros _]. destruct (fifo_items f !! k) eqn:Hi; [apply Hq; by eexists|set_solver].
      * rewrite <- Hq. destruct (fifo_items f !! k); set_solver.
    + intros k' ds. rewrite lookup_insert_Some. intros [[<- <-]|[_ ?]]; [done|by apply Hs].
  - split; [done| |by rewrite Hpend|].
    + intros k' Hk'. simpl. by rewrite lookup_insert_ne.
    + simpl. destruct (fifo_items f !! k); [rewrite decide_True by (by eexists)|rewrite decide_False by (by intros [])]; done.
  - unfold knows. by rewrite Hpend.
Qed.

(** ** Replace *)

Lemma KeyOf_Object o : KeyOf (Object o) = Ok (key o).
Proof. done. Qed.

Lemma replace_items_spec x action l keys f m : action ≠ Deleted → fifo_ok x f →
  (∀ k, k ∈ keys → knows x f k = m !! k) → (∀ k, k ∈ keys → pending f k ≠ []) →
  ∃ f', replace_items action (Object <$> l) keys f = (None, list_to_set (key <$> l) ∪ keys, f') ∧ fifo_ok x f' ∧
    same_counts f f' ∧
    (∀ k, k ∈ (list_to_set (key <$> l) : gset string) ∪ keys → knows x f' k = foldl put m l !! k ∧ pending f' k ≠ []) ∧
    (∀ k, k ∉ (list_to_set (key <$> l) : gset string) ∪ keys → fifo_items f' !! k = fifo_items f !! k) ∧
    (∀ k, k ∈ queue f' → k ∈ queue f ∨ k ∈ key <$> l) ∧ (∃ q, queue f' = queue f ++ q).
Proof.
  intros Ha. revert f keys m. induction l as [|o l IH]; intros f keys m Hf Hm Hp;
    rewrite ?fmap_cons; cbn [fmap list_fmap replace_items KeyOf item_KeyFunc foldl list_to_set].
  { exists f. rewrite (left_id_L ∅ (∪)). split_and!; [done..|by intros k Hk; split; [apply Hm|apply Hp]|done|by left|].
    exists []. by rewrite app_nil_r. }
  destruct (queueAction_spec x f action (Object o) (key o) Hf eq_refl) as (f1 & -> & Hf1 & Hq & Hv).
  { rewrite decide_False by done. by eexists. }
  destruct (IH f1 ({[key o]} ∪ keys) (put m o) Hf1) as (f' & -> & Hf' & Hc & Hk & Ho & Hqs & q & Hqq).
  - intros k Hk. unfold put. destruct (decide (k = key o)) as [->|Hne].
    + rewrite Hv, lookup_insert_eq. unfold delta_value. simpl. by rewrite decide_False.
    + rewrite lookup_insert_ne by done. rewrite (knows_other (key o) f) by done. apply Hm. set_solver.
  - intros k Hk. destruct (decide (k = key o)) as [->|Hne]; [by apply Hq|].
    rewrite (pending_other (key o) f) by done. apply Hp. set_solver.
  - assert ((list_to_set (key <$> l) : gset string) ∪ ({[key o]} ∪ keys) = {[key o]} ∪ list_to_set (key <$> l) ∪ keys)
      as He by set_solver.
    exists f'. rewrite He in Hk, Ho |- *. split_and!; [done|done|etransitivity; [apply Hq|done]|done| | |].
    + intros k Hnk. rewrite Ho by done. apply Hq. set_solver.
    + intros k [Hin|Hin]%Hqs; [apply (queued_elem _ _ _ _ Hq) in Hin as [->|?]; [right; left|by left]|right; by right].
    + rewrite (queued_queue _ _ _ Hq) in Hqq. case_decide; [by exists q|]. exists ([key o] ++ q). by rewrite Hqq, <- app_assoc.
Qed.

Lemma delete_queued_spec x l keys n f : fifo_ok x f → NoDup l.*1 →
  (∀ k, k ∈ l.*1 → is_Some (fifo_items f !! k)) →
  ∃ n' f', delete_queued l keys n f = (None, n', f') ∧ fifo_ok x f' ∧ same_counts f f' ∧ queue f' = queue f ∧
    (∀ k, k ∈ l.*1 → k ∉ keys → knows x f' k = None ∧ pending f' k ≠ []) ∧
    (∀ k, k ∉ l.*1 ∨ k ∈ keys → fifo_items f' !! k = fifo_items f !! k) ∧
    ((∀ k, k ∈ l.*1 → k ∈ keys) → n' = n).
Proof.
  revert n f. induction l as [|[k ds] l IH]; intros n f Hf Hnd Hin.
  { exists n, f. cbn. split_and!; try done. by intros k ?%elem_of_nil. }
  csimpl in Hnd. csimpl in Hin. apply NoDup_cons in Hnd as [Hk Hnd]. cbn [delete_queued]. csimpl.
  destruct (decide (k ∈ keys)) as [Hkk|Hkk].
  - destruct (IH n f Hf Hnd) as (n' & f' & -> & ? & ? & ? & Hd & Ho & Hn); [intros k' Hk'; apply Hin; by right|].
    exists n', f'. split_and!; try done.
    + intros k' [->|Hk']%elem_of_cons ?; [done|by apply Hd].
    + intros k' [Hk'|Hk']; apply Ho; [left; set_solver|by right].
    + intros Hall. apply Hn. intros k' Hk'. apply Hall. by right.
  - set (obj := match Newest ds with Some _ => _ | None => _ end).
    destruct (queueAction_spec x f Deleted (DeletedFinalStateUnknown k obj) k Hf eq_refl) as (f1 & -> & Hf1 & Hq & Hv).
    { rewrite decide_True by done. right. unfold pending. destruct (Hin k ltac:(left)) as [ds' Hds]. rewrite Hds.
      by apply (pending_some x f Hf) in Hds as [? _]. }
    destruct (IH (n + 1)%Z f1 Hf1 Hnd) as (n' & f' & -> & ? & Hc & Hqf & Hd & Ho & Hn).
    { intros k' Hk'. rewrite (queued_other _ _ _ Hq); [apply Hin; by right|]. by intros ->. }
    exists n', f'. split_and!; try done.
    + etransitivity; [apply Hq|done].
    + rewrite Hqf, (queued_queue _ _ _ Hq). rewrite decide_True; [done|]. apply Hin. left.
    + intros k' [->|Hk']%elem_of_cons Hkeys; [|by apply Hd].
      assert (fifo_items f' !! k = fifo_items f1 !! k) as He by (apply Ho; by left).
      unfold knows, pending. rewrite He. split; [|apply (queued_pending _ _ _ Hq)]. etransitivity; [exact Hv|done].
    + intros k' Hk'. assert (k' ≠ k) as Hne by (destruct Hk' as [Hk'|Hk']; [set_solver|by intros ->]).
      rewrite Ho; [by apply Hq|]. destruct Hk' as [Hk'|Hk']; [left; set_solver|by right].
    + intros Hall. destruct Hkk. apply Hall. left.
Qed.

Lemma delete_known_spec x ks s keys n f : fifo_ok x f → (∀ k, k ∈ ks → is_Some (x k)) →
  ∃ n' f', delete_known ks s keys n f = (None, n', f') ∧ fifo_ok x f' ∧ same_counts f f' ∧
    (∀ k, k ∈ ks → k ∉ keys → pending f k = [] → knows x f' k = None) ∧
    (∀ k, k ∉ ks ∨ k ∈ keys ∨ pending f k ≠ [] → fifo_items f' !! k = fifo_items f !! k) ∧
    (ks = [] → n' = n ∧ f' = f) ∧ (∃ q, queue f' = queue f ++ q).
Proof.
  revert n f. induction ks as [|k ks IH]; intros n f Hf Hks; cbn [delete_known].
  { exists n, f. split_and!; try done; [by intros k ?%elem_of_nil|exists []; by rewrite app_nil_r]. }
  assert (∀ k', k' ∈ ks → is_Some (x k')) as Hks' by (intros k' Hk'; apply Hks; by right).
  destruct (decide (k ∈ keys)) as [Hkk|Hkk]; [|fold (pending f k); destruct (decide (pending f k ≠ [])) as [Hp|Hp]].
  - destruct (IH n f Hf Hks') as (n' & f' & -> & ? & ? & Hd & Ho & _ & Hqq). exists n', f'. split_and!; try done.
    + intros k' [->|Hk']%elem_of_cons ??; [done|by apply Hd].
    + intros k' Hk'. apply Ho. set_solver.
  - destruct (IH n f Hf Hks') as (n' & f' & -> & ? & ? & Hd & Ho & _ & Hqq). exists n', f'. split_and!; try done.
    + intros k' [->|Hk']%elem_of_cons ??; [done|by apply Hd].
    + intros k' Hk'. apply Ho. set_solver.
  - destruct (queueAction_spec x f Deleted (DeletedFinalStateUnknown k (cache_GetByKey k s)) k Hf eq_refl)
      as (f1 & -> & Hf1 & Hq & Hv); [rewrite decide_True by done; left; apply Hks; left|].
    destruct (IH (n + 1)%Z f1 Hf1 Hks') as (n' & f' & -> & ? & Hc & Hd & Ho & _ & q & Hqq). exists n', f'. split_and!; try done.
    + etransitivity; [apply Hq|done].
    + intros k' Hk' Hkeys Hpk. destruct (decide (k' = k)) as [->|Hne].
      * unfold knows, pending. rewrite Ho; [|right; right; apply Hq]. etransitivity; [exact Hv|done].
      * apply elem_of_cons in Hk' as [->|Hk']; [done|]. apply Hd; [done|done|]. by rewrite (pending_other k f).
    + intros k' Hk'. destruct (decide (k' = k)) as [->|Hne].
      * destruct Hk' as [Hk'|[?|?]]; [|done..]. exfalso. apply Hk'. left.
      * rewrite Ho; [by apply Hq|]. rewrite (pending_other k f f1 k') by done. set_solver.
    + rewrite Hqq, (queued_queue _ _ _ Hq). case_decide; [by exists q|]. exists ([k] ++ q). by rewrite <- app_assoc.
Qed.

(** ** The store *)

Definition held s : gmap string (object C) :=
  omap (λ obj, match obj with Object o => Some o | DeletedFinalStateUnknown _ _ => None end) (items (cacheStorage s)).

Section informer.
Context (ixs : gmap string (item C → result (list string))).
Hypothesis indexers_total : ∀ name g o, ixs !! name = Some g → ∃ vs, g (Object o) = Ok vs.

Record store_good s : Prop := {
  good_indices : store_ok (cacheStorage s);
  good_indexers : indexers (index (cacheStorage s)) = ixs;
  good_keys : keyFunc s = DeletionHandlingMetaNamespaceKeyFunc;
  good_objects k obj : items (cacheStorage s) !! k = Some obj → ∃ o, obj = Object o ∧ key o = k
}.

Lemma held_lookup s k o : store_good s → items (cacheStorage s) !! k = Some (Object o) ↔ held s !! k = Some o.
Proof.
  intros Hs. unfold held. rewrite lookup_omap. split; [by intros ->|].
  destruct (items (cacheStorage s) !! k) as [obj|] eqn:Hk; [|done]. simpl.
  destruct (good_objects s Hs k obj Hk) as (o' & -> & _). by intros [= ->].
Qed.

Lemma held_none s k : store_good s → items (cacheStorage s) !! k = None ↔ held s !! k = None.
Proof.
  intros Hs. unfold held. rewrite lookup_omap. split; [by intros ->|].
  destruct (items (cacheStorage s) !! k) as [obj|] eqn:Hk; [|done]. simpl.
  by destruct (good_objects s Hs k obj Hk) as (o' & -> & _).
Qed.

Lemma held_key s k o : store_good s → held s !! k = Some o → key o = k.
Proof. intros Hs Hk%held_lookup; [|done]. apply (good_objects s Hs) in Hk as (o' & [= <-] & ?). done. Qed.

Lemma range_keys n {X} (m : gmap string X) k : k ∈ (range_list n m).*1 ↔ is_Some (m !! k).
Proof.
  rewrite range_list_perm, list_elem_of_fmap. split.
  - intros ([k' x] & -> & Hk%elem_of_map_to_list). by exists x.
  - intros [x Hx]. exists (k, x). by rewrite elem_of_map_to_list.
Qed.

Lemma ListKeys_held n s k : store_good s → k ∈ cache_ListKeys n s ↔ is_Some (held s !! k).
Proof.
  intros Hs. unfold cache_ListKeys, threadSafeMap_ListKeys. rewrite range_keys. split.
  - intros [obj Hk]. destruct (good_objects s Hs k obj Hk) as (o & -> & _). exists o. by apply held_lookup.
  - intros [o Ho%held_lookup]; [|done]. by exists (Object o).
Qed.

Lemma put_all_keys k l m : is_Some (foldl put m l !! k) → is_Some (m !! k) ∨ k ∈ key <$> l.
Proof.
  revert m. induction l as [|o l IH]; intros m; [by left|]. simpl. intros [Hm|Hm]%IH; [|right; by right].
  unfold put in Hm. rewrite lookup_insert_is_Some in Hm. destruct Hm as [<-|[_ ?]]; [right; left|by left].
Qed.

Lemma put_all_absent k l : k ∉ key <$> l → foldl put ∅ l !! k = None.
Proof.
  intros Hk. apply eq_None_not_Some. intros [[? He]|?]%put_all_keys; [by rewrite lookup_empty in He|done].
Qed.

(** A relist: the queue now knows what is in the list and nothing else. *)
Lemma fifo_Replace_spec n s f l : store_good s → fifo_ok (lookup_in (held s)) f →
  ∃ f', fifo_Replace n (Some s) (Object <$> l) f = (None, f') ∧ fifo_ok (lookup_in (held s)) f' ∧
    fifo_closed f' = fifo_closed f ∧ populated f' = true ∧
    (∀ k, knows (lookup_in (held s)) f' k = foldl put ∅ l !! k) ∧
    (populated f = true → initialPopulationCount f' = initialPopulationCount f) ∧ (∃ q, queue f' = queue f ++ q) ∧
    (populated f = false → queue f = [] → held s = ∅ → initialPopulationCount f' = Z.of_nat (length (queue f')) ∧
      ∀ k, k ∈ queue f' ↔ k ∈ key <$> l).
Proof.
  intros Hs Hf. unfold fifo_Replace. set (action := if emitDeltaTypeReplaced f then Replaced else Sync).
  assert (action ≠ Deleted) as Ha by (unfold action; by destruct (emitDeltaTypeReplaced f)).
  destruct (replace_items_spec (lookup_in (held s)) action l ∅ f ∅ Ha Hf) as (f1 & -> & Hf1 & Hc1 & Hk1 & Ho1 & Hq1 & q1 & Hqq1);
    [by intros k ?%not_elem_of_empty..|].
  rewrite (right_id_L ∅ (∪)) in *. set (keys := list_to_set (key <$> l)) in *.
  pose proof (range_keys n (fifo_items f1)) as Hr.
  destruct (delete_queued_spec (lookup_in (held s)) (range_list n (fifo_items f1)) keys 0 f1 Hf1)
    as (n2 & f2 & -> & Hf2 & Hc2 & Hqq2 & Hd2 & Ho2 & Hn2);
    [rewrite range_list_perm; apply NoDup_fst_map_to_list|by intros k ?%Hr|].
  destruct (delete_known_spec (lookup_in (held s)) (cache_ListKeys (S n) s) s keys n2 f2 Hf2)
    as (n3 & f3 & -> & Hf3 & Hc3 & Hd3 & Ho3 & Hn3 & q3 & Hqq3); [by intros k ?%ListKeys_held|].
  assert (∀ k, knows (lookup_in (held s)) f3 k = foldl put ∅ l !! k) as Hknows.
  { intros k. destruct (decide (k ∈ keys)) as [Hk|Hk].
    - rewrite <- (proj1 (Hk1 k Hk)). unfold knows, pending. rewrite Ho3, Ho2 by auto. done.
    - rewrite put_all_absent by (unfold keys in Hk; by rewrite elem_of_list_to_set in Hk).
      destruct (decide (is_Some (fifo_items f1 !! k))) as [Hi|Hi].
      + destruct (Hd2 k) as [Hn Hp]; [by apply Hr|done|]. unfold knows, pending. rewrite Ho3 by auto. done.
      + assert (pending f2 k = []) as Hp2.
        { unfold pending. rewrite Ho2 by (left; by rewrite Hr). by destruct (fifo_items f1 !! k); [destruct Hi; eexists|]. }
        destruct (decide (k ∈ cache_ListKeys (S n) s)) as [Hl|Hl]; [by apply Hd3|].
        unfold knows, pending. rewrite Ho3 by auto. fold (pending f2 k). rewrite Hp2. unfold after. simpl.
        rewrite ListKeys_held in Hl by done. unfold lookup_in. by destruct (held s !! k); [destruct Hl; eexists|]. }
  assert (∃ q, queue f3 = queue f ++ q) as Hqq by (exists (q1 ++ q3); by rewrite Hqq3, Hqq2, Hqq1, app_assoc).
  assert (same_counts f f3) as Hc by (etransitivity; [exact Hc1|etransitivity; [exact Hc2|exact Hc3]]).
  destruct Hc as (Hpop & Hcount & Hclosed & _). rewrite Hpop.
  destruct (populated f) eqn:Hpf.
  - exists f3. split_and!; try done; congruence.
  - eexists. split; [reflexivity|]. split_and!; try done.
    + destruct Hf3. by split.
    + intros _ Hqf Hheld. simpl.
      assert (cache_ListKeys (S n) s = []) as Hks.
      { apply elem_of_nil_inv. intros k Hk%ListKeys_held; [|done]. rewrite Hheld, lookup_empty in Hk. by destruct Hk. }
      destruct (Hn3 Hks) as [-> ->].
      assert (∀ k, k ∈ queue f1 ↔ k ∈ keys) as Hkq.
      { intros k. unfold keys. rewrite elem_of_list_to_set. split.
        - intros [Hk|Hk]%Hq1; [|done]. rewrite Hqf in Hk. by apply elem_of_nil in Hk.
        - intros Hk. apply (queue_items _ _ Hf1). destruct (Hk1 k) as [_ Hp]; [unfold keys; by rewrite elem_of_list_to_set|].
          unfold pending in Hp. destruct (fifo_items f1 !! k); [by eexists|done]. }
      rewrite Hn2; [|intros k Hk%Hr; apply Hkq; by apply (queue_items _ _ Hf1)]. rewrite Hqq2. split.
      * rewrite Z.add_0_r. f_equal. rewrite <- (size_list_to_set (C:=gset string) (queue f1)) by apply Hf1. f_equal.
        apply set_eq. intros k. by rewrite elem_of_list_to_set, Hkq.
      * intros k. rewrite Hkq. unfold keys. by rewrite elem_of_list_to_set.
Qed.

(** ** What the store does with deltas *)

Lemma good_Update n s o : store_good s → ∃ c, threadSafeMap_Update n (key o) (Object o) (cacheStorage s) = Done c ∧
  store_good (with_storage s c) ∧ held (with_storage s c) = put (held s) o.
Proof.
  intros Hs. pose proof (Update_spec n (key o) (Object o) _ (good_indices s Hs)) as Hu.
  destruct (threadSafeMap_Update _ _ _ _) as [c|msg].
  - destruct Hu as (_ & Hc & Hi & Hx). exists c. split; [done|]. split.
    + split; [done|by rewrite <- (good_indexers s Hs)|apply Hs|]. intros k obj. simpl. rewrite Hi.
      rewrite lookup_insert_Some. intros [[<- <-]|[_ ?]]; [by exists o|by apply (good_objects s Hs)].
    + unfold held, put. simpl. rewrite Hi. by erewrite omap_insert_Some.
  - destruct Hu. rewrite (good_indexers s Hs). intros name g Hg. simpl.
    destruct (indexers_total name g o Hg) as [vs Hvs]. rewrite Hvs. by eexists.
Qed.

Lemma good_Delete n s k : store_good s → ∃ c, threadSafeMap_Delete n k (cacheStorage s) = Done c ∧
  store_good (with_storage s c) ∧ held (with_storage s c) = delete k (held s).
Proof.
  intros Hs. destruct (Delete_spec n k _ (good_indices s Hs)) as (c & Hc & Hok & Hi & Hx). exists c. split; [done|]. split.
  - split; [done|by rewrite <- (good_indexers s Hs)|apply Hs|]. intros k' obj. simpl. rewrite Hi.
    rewrite lookup_delete_Some. intros [_ ?]. by apply (good_objects s Hs).
  - unfold held. simpl. by rewrite Hi, omap_delete.
Qed.

(** The notification is of the object of [k]. *)
Definition concerns k (x : notification C) : Prop :=
  match x with OnAdd obj _ | OnUpdate _ obj | OnDelete obj => KeyOf obj = Ok k end.

Lemma cache_Get_held s o : store_good s → cache_Get (Object o) s = Ok (Object <$> held s !! key o).
Proof.
  intros Hs. unfold cache_Get. rewrite (good_keys s Hs). simpl. f_equal. unfold cache_GetByKey, threadSafeMap_Get.
  destruct (held s !! key o) as [o'|] eqn:Ho; [by apply held_lookup|by apply held_none].
Qed.

Lemma processDeltas_spec n k ds b s heard : store_good s → sound k (held s !! k) ds →
  ∃ s' heard', processDeltas n ds b (s, heard) = Done (None, (s', heard ++ heard')) ∧ store_good s' ∧
    held s' = partial_alter (λ _, after (held s !! k) ds) k (held s) ∧ replayed heard' (held s) (held s') ∧
    (ds ≠ [] → Exists (concerns k) heard').
Proof.
  revert n s heard. induction ds as [|d ds IH]; intros n s heard Hs Hsound.
  { exists s, []. rewrite app_nil_r. split_and!; try done. unfold after. simpl. symmetry. by apply partial_alter_self. }
  destruct Hsound as [[Hk Hd] Hsound]. destruct d as [t obj]. simpl in Hk, Hd. unfold delta_value in Hsound. simpl in Hsound.
  assert (∀ s1 x, store_good s1 → held s1 = partial_alter (λ _, delta_value (mkDelta t obj)) k (held s) →
    replayed [x] (held s) (held s1) → concerns k x →
    ∃ s' heard', processDeltas (S n) ds b (s1, heard ++ [x]) = Done (None, (s', heard ++ heard')) ∧ store_good s' ∧
      held s' = partial_alter (λ _, after (held s !! k) (mkDelta t obj :: ds)) k (held s) ∧ replayed heard' (held s) (held s') ∧
      (mkDelta t obj :: ds ≠ [] → Exists (concerns k) heard')) as Hnext.
  { intros s1 x Hs1 Hh Hx Hcx. destruct (IH (S n) s1 (heard ++ [x]) Hs1) as (s' & heard' & -> & Hs' & Hh' & Hr & _).
    { rewrite Hh, lookup_partial_alter_eq. done. }
    exists s', (x :: heard'). rewrite <- app_assoc. split_and!; try done.
    - rewrite Hh', Hh, lookup_partial_alter_eq, partial_alter_partial_alter_eq, after_cons. done.
    - by apply (replayed_app [x] heard' _ (held s1)).
    - intros _. by left. }
  cbn [processDeltas Type_ delta_Object].
  destruct (decide (t = Deleted)) as [->|Ht].
  - destruct (good_Delete n s k Hs) as (c & Hc & Hgood & Hheld).
    assert (cache_Delete n obj s = Done (None, with_storage s c)) as ->.
    { unfold cache_Delete. rewrite (good_keys s Hs). unfold DeletionHandlingMetaNamespaceKeyFunc, KeyOf in *.
      destruct obj; simpl in Hk; simplify_eq; simpl; by rewrite Hc. }
    apply Hnext; [done|by rewrite Hheld| |done].
    simpl. exists k. by rewrite Hheld.
  - destruct Hd as [o ->]. simpl in Hk. injection Hk as <-. destruct (good_Update n s o Hs) as (c & Hc & Hgood & Hheld).
    assert (cache_Update n (Object o) s = Done (None, with_storage s c) ∧ cache_Add n (Object o) s = Done (None, with_storage s c)) as [Hup Hadd].
    { unfold cache_Update, cache_Add, threadSafeMap_Add. rewrite (good_keys s Hs). simpl. by rewrite Hc. }
    assert (delta_value (mkDelta t (Object o)) = Some o) as Hv by (unfold delta_value; simpl; by rewrite decide_False).
    rewrite cache_Get_held by done.
    destruct (held s !! key o) as [old|] eqn:Hold; simpl.
    + destruct t; try done; rewrite Hup; cbn [mbind outcome_bind]; (apply Hnext; [done|by rewrite Hheld, Hv|simpl; by rewrite Hheld|done]).
    + destruct t; try done; rewrite Hadd; cbn [mbind outcome_bind]; (apply Hnext; [done|by rewrite Hheld, Hv|simpl; by rewrite Hheld|done]).
Qed.

(** ** The informer *)

Definition heard i : list (notification C) := (inf_client i).2.

(** An informer that was told [m]. *)
Record works m i : Prop := {
  works_store : store_good (inf_store i);
  works_queue : fifo_ok (lookup_in (held (inf_store i))) (inf_queue i);
  works_knows k : knows (lookup_in (held (inf_store i))) (inf_queue i) k = m !! k;
  works_heard : replayed (heard i) ∅ (held (inf_store i))
}.

(** The queue grows behind, and a pop brings its first object to the handler. *)
Definition grows i i' : Prop :=
  heard i' = heard i ∧ (∃ q, queue (inf_queue i') = queue (inf_queue i) ++ q) ∧
  (populated (inf_queue i) = true → populated (inf_queue i') = true ∧
    initialPopulationCount (inf_queue i') = initialPopulationCount (inf_queue i)).

Definition pops i i' : Prop :=
  populated (inf_queue i') = populated (inf_queue i) ∧ ∃ k q more,
    queue (inf_queue i) = k :: q ∧ queue (inf_queue i') = q ∧ heard i' = heard i ++ more ∧ Exists (concerns k) more ∧
    initialPopulationCount (inf_queue i') = (if (0 <? initialPopulationCount (inf_queue i))%Z
      then initialPopulationCount (inf_queue i) - 1 else initialPopulationCount (inf_queue i))%Z.

Lemma works_new : works ∅ (new_informer ixs).
Proof.
  assert (held (inf_store (new_informer ixs)) = ∅) as Hh by (apply omap_empty).
  split; [| |intros k|by rewrite Hh]; rewrite ?Hh.
  - split; [apply store_ok_new|done|done|]. intros k obj. simpl. by rewrite lookup_empty.
  - split; simpl; [done|constructor|..].
    + intros k. rewrite lookup_empty, elem_of_nil. split; [done|by intros []].
    + intros k ds. by rewrite lookup_empty.
  - unfold knows, pending, lookup_in. simpl. by rewrite !lookup_empty.
Qed.

(** One action on the queue of an informer that works. *)
Lemma action_works m i f t obj k : works m i → (f = inf_queue i ∨ f = populate (inf_queue i)) → KeyOf obj = Ok k →
  (if decide (t = Deleted) then is_Some (held (inf_store i) !! k) ∨ pending (inf_queue i) k ≠ [] else ∃ o, obj = Object o) →
  let i' := with_queue i (queueActionLocked t obj f) in
  works (partial_alter (λ _, delta_value (mkDelta t obj)) k m) i' ∧ grows i i'.
Proof.
  intros [Hs Hq Hk Hh] Hf Hkey Ht.
  assert (fifo_ok (lookup_in (held (inf_store i))) f) as Hok by (destruct Hf as [-> | ->]; [done|]; destruct Hq; by split).
  destruct (queueAction_spec _ f t obj k Hok Hkey) as (f' & Hact & Hf' & [Hc Ho Hp Hqq] & Hv).
  { case_decide; [|done]. by destruct Hf as [-> | ->]. }
  rewrite Hact. split; [split|]; simpl; try done.
  - intros k'. destruct (decide (k' = k)) as [->|Hne].
    + etransitivity; [exact Hv|]. by rewrite lookup_partial_alter_eq.
    + rewrite lookup_partial_alter_ne, <- Hk by done. unfold knows, pending. simpl. rewrite Ho by done. by destruct Hf as [-> | ->].
  - split; [done|]. split.
    + simpl. rewrite Hqq. case_decide; [exists []; rewrite app_nil_r|exists [k]]; by destruct Hf as [-> | ->].
    + simpl. destruct Hc as (Hpop & Hcnt & _). rewrite Hpop, Hcnt. intros Hpi. by destruct Hf as [-> | ->].
Qed.

Lemma sync_keys_spec s ks f : store_good s → fifo_ok (lookup_in (held s)) f →
  ∃ f', sync_keys s ks f = (None, f') ∧ fifo_ok (lookup_in (held s)) f' ∧ same_counts f f' ∧
    (∀ k, knows (lookup_in (held s)) f' k = knows (lookup_in (held s)) f k) ∧ ∃ q, queue f' = queue f ++ q.
Proof.
  intros Hs. revert f. induction ks as [|k ks IH]; intros f Hf; cbn [sync_keys].
  { exists f. split_and!; try done. exists []. by rewrite app_nil_r. }
  unfold syncKeyLocked. unfold cache_GetByKey, threadSafeMap_Get.
  destruct (items (cacheStorage s) !! k) as [obj|] eqn:Hk; [|by apply IH].
  destruct (good_objects s Hs k obj Hk) as (o & -> & Hko). rewrite KeyOf_Object, Hko. fold (pending f k).
  destruct (decide (pending f k ≠ [])) as [Hp|Hp]; [by apply IH|].
  destruct (queueAction_spec _ f Sync (Object o) k Hf) as (f1 & -> & Hf1 & Hq & Hv);
    [by rewrite KeyOf_Object, Hko|rewrite decide_False by done; by eexists|].
  destruct (IH f1 Hf1) as (f' & -> & Hf' & Hc & Hkn & q & Hqq). exists f'. split_and!; try done.
  - etransitivity; [apply Hq|done].
  - intros k'. rewrite Hkn. destruct (decide (k' = k)) as [->|Hne]; [|by apply (knows_other k)].
    rewrite Hv. unfold knows. destruct (pending f k); [|by destruct Hp]. symmetry. unfold lookup_in, after. simpl.
    by apply held_lookup in Hk.
  - rewrite Hqq, (queued_queue _ _ _ Hq). case_decide; [by exists q|]. exists ([k] ++ q). by rewrite <- app_assoc.
Qed.

Lemma Pops_spec n m i : works m i →
  ∃ i', happens n Pops i = Done i' ∧ works m i' ∧ if decide (queue (inf_queue i) = []) then i' = i else pops i i'.
Proof.
  intros Hw. pose proof Hw as [Hs Hq Hk Hh]. destruct i as [f [s hd]]. unfold inf_store, heard in *. simpl in *.
  unfold Pop. destruct (queue f) as [|k q] eqn:Hqf.
  - cbn [pop_loop mbind outcome_bind]. eexists. split; [reflexivity|]. rewrite decide_True by done. by split.
  - cbn [pop_loop]. destruct (queue_items _ _ Hq k) as [Hin _]. rewrite Hqf in Hin. destruct (Hin ltac:(left)) as [ds Hds].
    cbn [fifo_items]. rewrite Hds. destruct (pending_some _ _ Hq k ds Hds) as [Hne Hsound].
    destruct (processDeltas_spec n k ds (negb (HasSynced f)) s hd Hs Hsound) as (s' & more & -> & Hs' & Hheld & Hrep & Hcon).
    cbn [mbind outcome_bind]. eexists. split; [reflexivity|]. pose proof (queue_once _ _ Hq) as Hnd. rewrite Hqf in Hnd.
    apply NoDup_cons in Hnd as [Hkq Hnd]. split.
    + split; unfold inf_store, heard; simpl; [done| | |].
      * split; simpl; [apply Hq|done| |].
        -- intros k'. rewrite lookup_delete. case_decide as Hkk; [subst; split; [done|by intros []]|].
           rewrite <- (queue_items _ _ Hq), Hqf. set_solver.
        -- intros k' ds'. rewrite lookup_delete_Some. intros [Hkk Hds']. apply (pending_some _ _ Hq) in Hds' as [? Hsd].
           split; [done|]. unfold lookup_in in *. by rewrite Hheld, lookup_partial_alter_ne.
      * intros k'. rewrite <- Hk. unfold knows, pending, lookup_in. simpl. rewrite Hheld.
        destruct (decide (k = k')) as [<-|Hkk].
        -- rewrite lookup_delete_eq, lookup_partial_alter_eq, Hds. done.
        -- by rewrite lookup_delete_ne, lookup_partial_alter_ne.
      * by eapply replayed_app.
    + rewrite decide_False by done. split; [done|]. exists k, q, more. unfold heard. simpl. split_and!; try done. by apply Hcon.
Qed.

Lemma happens_spec n h m i : works m i →
  ∃ i', happens n h i = Done i' ∧ works (tell h m) i' ∧ (grows i i' ∨ pops i i') ∧
    (h = Pops → queue (inf_queue i') = tail (queue (inf_queue i))).
Proof.
  intros Hw. pose proof Hw as [Hs Hq Hk Hh]. destruct h as [l|o|o|o| |]; cbn [happens tell].
  - eexists. split; [reflexivity|].
    destruct (fifo_Replace_spec n (inf_store i) (inf_queue i) l Hs Hq) as (f' & Hr & Hok & _ & Hpop & Hkn & Hcnt & Hqq & _).
    rewrite Hr. split; [split; done|]. split; [left|done]. split_and!; [done|done|]. intros Hp. split; [done|by apply Hcnt].
  - eexists. split; [reflexivity|].
    destruct (action_works m i (populate (inf_queue i)) Added (Object o) (key o) Hw) as [? ?];
      [by right|done|rewrite decide_False by done; by eexists|]. split; [done|]. split; [by left|done].
  - eexists. split; [reflexivity|].
    destruct (action_works m i (populate (inf_queue i)) Updated (Object o) (key o) Hw) as [? ?];
      [by right|done|rewrite decide_False by done; by eexists|]. split; [done|]. split; [by left|done].
  - eexists. split; [reflexivity|]. unfold fifo_Delete. rewrite KeyOf_Object.
    destruct (decide (held (inf_store i) !! key o = None ∧ fifo_items (inf_queue i) !! key o = None)) as [[Hn1 Hn2]|Hn].
    + assert (m !! key o = None) as Hm. { rewrite <- Hk. unfold knows, pending. rewrite Hn2. done. }
      unfold cache_GetByKey, threadSafeMap_Get. rewrite (proj2 (held_none _ _ Hs) Hn1). cbn [populate with_populated fifo_items].
      rewrite Hn2, delete_id by done. split; [|split; [left|done]].
      * split; try done. destruct Hq. by split.
      * split; [done|]. split; [exists []; by rewrite app_nil_r|done].
    + destruct (action_works m i (populate (inf_queue i)) Deleted (Object o) (key o) Hw) as [Ha Hg]; [by right|done| |].
      { rewrite decide_True by done. unfold pending. destruct (fifo_items (inf_queue i) !! key o) as [ds|] eqn:Hds.
        - right. by apply (pending_some _ _ Hq) in Hds as [? _].
        - left. destruct (held (inf_store i) !! key o) eqn:?; [by eexists|tauto]. }
      assert ((match cache_GetByKey (key o) (inf_store i), fifo_items (populate (inf_queue i)) !! key o with
        | None, None => (None, populate (inf_queue i))
        | _, _ => queueActionLocked Deleted (Object o) (populate (inf_queue i)) end) =
        queueActionLocked Deleted (Object o) (populate (inf_queue i))) as ->.
      { unfold cache_GetByKey, threadSafeMap_Get. cbn [populate with_populated fifo_items].
        destruct (items (cacheStorage (inf_store i)) !! key o) eqn:Hi; [done|]. apply held_none in Hi; [|done].
        destruct (fifo_items (inf_queue i) !! key o) eqn:?; [done|tauto]. }
      split; [done|]. split; [by left|done].
  - eexists. split; [reflexivity|]. unfold fifo_Resync.
    destruct (sync_keys_spec (inf_store i) (cache_ListKeys n (inf_store i)) (inf_queue i) Hs Hq)
      as (f' & Hsy & Hok & (Hpop & Hcnt & _) & Hkn & Hqq).
    rewrite Hsy. split; [split; try done; intros k; simpl; by rewrite Hkn|]. split; [left|done].
    split; [done|]. split; [done|]. simpl. by rewrite Hpop, Hcnt.
  - destruct (Pops_spec n m i Hw) as (i' & Hp & Hw' & Hi). exists i'. split; [exact Hp|]. split; [done|].
    case_decide as Hqi; [subst; rewrite Hqi|].
    + split; [left|done]. split; [done|]. split; [exists []; by rewrite app_nil_r|done].
    + split; [by right|]. intros _. destruct Hi as (_ & k & q & more & -> & -> & _). done.
Qed.

Lemma history_works n hs m i : works m i → ∃ i', history n hs i = Done i' ∧ works (told hs m) i'.
Proof.
  revert n m i. induction hs as [|h hs IH]; intros n m i Hw; cbn [history]; [by exists i|].
  destruct (happens_spec n h m i Hw) as (i1 & -> & Hw1 & _). by apply IH.
Qed.

(** Popping until the queue is empty. *)
Lemma drain_works n m i : works m i →
  ∃ i', history n (replicate (length (queue (inf_queue i))) Pops) i = Done i' ∧ works m i' ∧ queue (inf_queue i') = [].
Proof.
  remember (length (queue (inf_queue i))) as len eqn:Hlen. revert n i Hlen.
  induction len as [|len IH]; intros n i Hlen Hw; cbn [replicate history].
  - exists i. split_and!; [done|done|]. by apply nil_length_inv.
  - destruct (happens_spec n Pops m i Hw) as (i1 & -> & Hw1 & _ & Hq). cbn [mbind outcome_bind].
    apply IH; [|done]. rewrite Hq by done. by destruct (queue (inf_queue i)); simplify_eq/=.
Qed.

Lemma works_drained m i : works m i → queue (inf_queue i) = [] → held (inf_store i) = m.
Proof.
  intros [_ Hq Hk _] Hqi. apply map_eq. intros k. rewrite <- Hk. unfold knows, pending.
  destruct (fifo_items (inf_queue i) !! k) eqn:Hi; [|done].
  assert (k ∈ queue (inf_queue i)) as Hin by (apply (queue_items _ _ Hq); by eexists). rewrite Hqi in Hin. by apply elem_of_nil in Hin.
Qed.
End informer.

(** ** HasSynced *)

Definition is_pop (h : happening (C:=C)) : bool := match h with Pops => true | _ => false end.

(** What is left of a first list of the keys [I] is the front of the queue. *)
Definition first_list (I : list string) i : Prop :=
  populated (inf_queue i) = true ∧ (0 ≤ initialPopulationCount (inf_queue i) ≤ Z.of_nat (length (queue (inf_queue i))))%Z ∧
  ∀ k, k ∈ I → k ∈ take (Z.to_nat (initialPopulationCount (inf_queue i))) (queue (inf_queue i)) ∨ Exists (concerns k) (heard i).

Lemma first_list_step I i i' : first_list I i → grows i i' ∨ pops i i' → first_list I i'.
Proof.
  intros (Hp & Hc & Hk) [(Hh & (q & Hq) & Hpc)|(Hp' & k & q & more & Hqi & Hqi' & Hh & He & Hcnt)].
  - destruct (Hpc Hp) as [Hp' Hc']. split; [done|]. rewrite Hc', Hq. split; [rewrite length_app; lia|].
    intros k' Hk'. rewrite Hh. destruct (Hk k' Hk') as [Hin|]; [left|by right]. rewrite take_app_le by lia. done.
  - split; [by rewrite Hp'|]. rewrite Hqi in Hc, Hk. rewrite Hqi', Hcnt. simpl in Hc.
    destruct (0 <? initialPopulationCount (inf_queue i))%Z eqn:Hz; [apply Z.ltb_lt in Hz|apply Z.ltb_ge in Hz]; (split; [lia|]);
      intros k' Hk'; rewrite Hh, Exists_app; destruct (Hk k' Hk') as [Hin|]; auto.
    + replace (Z.to_nat (initialPopulationCount (inf_queue i))) with
        (S (Z.to_nat (initialPopulationCount (inf_queue i) - 1))) in Hin by lia.
      simpl in Hin. apply elem_of_cons in Hin as [->|Hin]; auto.
    + replace (Z.to_nat (initialPopulationCount (inf_queue i))) with 0 in Hin by lia. by apply elem_of_nil in Hin.
Qed.

Lemma count_step I i i' h : first_list I i → grows i i' ∨ pops i i' → (h = Pops → queue (inf_queue i') = tail (queue (inf_queue i))) →
  (initialPopulationCount (inf_queue i') ≤ Z.max 0 (initialPopulationCount (inf_queue i) -
    if is_pop h then 1 else 0))%Z.
Proof.
  intros (Hp & Hc & _) [(_ & (q & Hq) & Hpc)|(_ & k & q & more & Hqi & _ & _ & _ & ->)] Hpop.
  - destruct (Hpc Hp) as [_ ->]. destruct h; cbn [is_pop]; try lia. specialize (Hpop eq_refl). rewrite Hq in Hpop.
    destruct (queue (inf_queue i)) as [|k q']; [simpl in Hc; lia|]. apply (f_equal length) in Hpop.
    simpl in Hpop. rewrite length_app in Hpop. lia.
  - destruct (0 <? _)%Z eqn:Hz; [apply Z.ltb_lt in Hz|apply Z.ltb_ge in Hz]; destruct h; cbn [is_pop]; lia.
Qed.

Definition number_of_pops (hs : list (happening (C:=C))) : nat :=
  length (filter (λ h, is_pop h = true) hs).

Lemma history_first_list ixs n hs m i I i' : (∀ name g o, ixs !! name = Some g → ∃ vs, g (Object o) = Ok vs) →
  works ixs m i → first_list I i → history n hs i = Done i' → first_list I i' ∧
  (initialPopulationCount (inf_queue i') ≤ Z.max 0 (initialPopulationCount (inf_queue i) - Z.of_nat (number_of_pops hs)))%Z.
Proof.
  intros Hixs. unfold number_of_pops. revert n m i. induction hs as [|h hs IH]; intros n m i Hw Hi; cbn [history].
  { intros [= <-]. split; [done|]. destruct Hi as (_ & Hc & _). cbn. lia. }
  destruct (happens_spec ixs Hixs n h m i Hw) as (i1 & -> & Hw1 & Hstep & Hpop). intros Hh.
  pose proof (first_list_step I i i1 Hi Hstep) as Hi1. pose proof (count_step I i i1 h Hi Hstep Hpop) as Hc.
  destruct (IH (S n) _ i1 Hw1 Hi1 Hh) as [? Hc']. split; [done|]. rewrite filter_cons.
  destruct (is_pop h); [rewrite decide_True by done|rewrite decide_False by done]; simpl length; lia.
Qed.

(** ** Properties *)

(** C19: An informer keeps up with what it is told. Whatever its reflector lists and
    watches, however that is interleaved with resyncs and with the pops of its queue,
    nothing fails, and its handler has heard a consistent history of the store: an
    addition of what it had not, updates and deletions of what it had. What does not
    wait in the queue is in the store as it was last told, and popping the queue until
    it is empty makes the store all that was told. *)
Theorem informer_mirrors n ixs (hs : list (happening (C:=C))) :
  (∀ name g o, ixs !! name = Some g → ∃ vs, g (Object o) = Ok vs) →
  ∃ i, history n hs (new_informer ixs) = Done i ∧ replayed (heard i) ∅ (held (inf_store i)) ∧
    (∀ k, k ∉ queue (inf_queue i) → held (inf_store i) !! k = told hs ∅ !! k) ∧
    ∀ n', ∃ i', history n' (replicate (length (queue (inf_queue i))) Pops) i = Done i' ∧ queue (inf_queue i') = [] ∧
      held (inf_store i') = told hs ∅.
Proof.
  intros Hixs. destruct (history_works ixs Hixs n hs ∅ _ (works_new ixs)) as (i & Hi & Hw). exists i.
  split; [done|]. split; [apply Hw|]. split.
  - intros k Hk. rewrite <- (works_knows _ _ _ Hw). unfold knows, pending.
    destruct (fifo_items (inf_queue i) !! k) eqn:Hf; [|done]. destruct Hk. apply (queue_items _ _ (works_queue _ _ _ Hw)). by eexists.
  - intros n'. destruct (drain_works ixs Hixs n' _ i Hw) as (i' & Hi' & Hw' & Hq). exists i'. split_and!; [done..|].
    by eapply works_drained.
Qed.

(** [HasSynced] after a first list: when it is true the handler has heard of every
    object of that list, and it is true once there were as many pops as the list has
    objects, whatever happens meanwhile. *)
Theorem HasSynced_spec n ixs l hs i :
  (∀ name g (o : object C), ixs !! name = Some g → ∃ vs, g (Object o) = Ok vs) →
  history n (Listed l :: hs) (new_informer ixs) = Done i →
  (HasSynced (inf_queue i) = true → ∀ o, o ∈ l → Exists (concerns (MetaNamespaceKeyFunc o)) (heard i)) ∧
  (length l ≤ number_of_pops hs → HasSynced (inf_queue i) = true).
Proof.
  intros Hixs. pose proof (works_new ixs) as Hw. cbn [history].
  destruct (happens_spec ixs Hixs n (Listed l) ∅ _ Hw) as (i1 & Hi1 & Hw1 & _). rewrite Hi1. cbn [mbind outcome_bind]. intros Hh.
  destruct (fifo_Replace_spec ixs n (inf_store (new_informer ixs)) (inf_queue (new_informer ixs)) l (works_store _ _ _ Hw) (works_queue _ _ _ Hw))
    as (f' & Hr & Hok & _ & Hpop & _ & _ & _ & Hsync).
  destruct Hsync as [Hcnt Hin]; [done|done|apply omap_empty|].
  cbn [happens] in Hi1. rewrite Hr in Hi1. injection Hi1 as <-.
  assert (length (queue f') ≤ length l) as Hlen.
  { rewrite <- (length_fmap MetaNamespaceKeyFunc l). apply submseteq_length, NoDup_submseteq; [by apply (queue_once _ _ Hok)|].
    intros k. apply Hin. }
  destruct (history_first_list ixs (S n) hs _ _ (MetaNamespaceKeyFunc <$> l) i Hixs Hw1) as [(Hpi & Hci & Hki) Hc]; [|exact Hh|].
  { split; [done|]. simpl. rewrite Hcnt. split; [lia|]. intros k Hk. left. rewrite Nat2Z.id, take_ge by done. by apply Hin. }
  simpl in Hc. rewrite Hcnt in Hc. unfold HasSynced. rewrite Hpi. simpl. split.
  - intros Hz%bool_decide_eq_true_1 o Ho. destruct (Hki (MetaNamespaceKeyFunc o)) as [Hk|]; [by apply list_elem_of_fmap_2| |done].
    rewrite Hz in Hk. by apply elem_of_nil in Hk.
  - intros Hl. apply bool_decide_eq_true_2. lia.
Qed.
End fifo_props.

(** ** An informer, for the witnesses *)

Module fifo_demo.
#[local] Instance fifo_order : RangeOrder := canonical_order.

Definition obj (name : string) (n : nat) : object nat := mkObject TMonitor "prod" name ∅ n.
Definition by_namespace : gmap string (item nat → result (list string)) := {["namespace" := MetaNamespaceIndexFunc]}.

Lemma by_namespace_total name g (o : object nat) : by_namespace !! name = Some g → ∃ vs, g (Object o) = Ok vs.
Proof. unfold by_namespace. intros [_ <-]%lookup_singleton_Some. by eexists. Qed.

(** The watch is lost after [b] was changed, and the list after it has no [a]. *)
Definition more : list (happening (C:=nat)) := [Pops; WatchModified (obj "b" 2); Pops; Resynced; Listed [obj "b" 3; obj "c" 1]].
Definition all : list (happening (C:=nat)) := Listed [obj "a" 1; obj "b" 1] :: more.
Definition reached : informer (C:=nat) :=
  match history 0 all (new_informer by_namespace) with Done i => i | Panic _ => new_informer by_namespace end.

Lemma reached_done : history 0 all (new_informer by_namespace) = Done reached.
Proof.
  destruct (history_works by_namespace by_namespace_total 0 all ∅ _ (works_new _)) as (i & Hi & _).
  unfold reached. by rewrite Hi.
Qed.

Example heard_so_far : heard reached =
  [OnAdd (Object (obj "a" 1)) true; OnAdd (Object (obj "b" 1)) true; OnUpdate (Object (obj "b" 1)) (Object (obj "b" 2))].
Proof. vm_compute. reflexivity. Qed.

Lemma informer_mirrors_witness : ∃ i, history 0 all (new_informer by_namespace) = Done i ∧
  replayed (heard i) ∅ (held (inf_store i)) ∧
  ∃ i', history 0 (replicate (length (queue (inf_queue i))) Pops) i = Done i' ∧
    held (inf_store i') = {["prod/b" := obj "b" 3; "prod/c" := obj "c" 1]}.
Proof.
  destruct (informer_mirrors 0 by_namespace all by_namespace_total) as (i & Hi & Hr & _ & Hd).
  exists i. split; [exact Hi|]. split; [exact Hr|]. destruct (Hd 0) as (i' & Hi' & _ & Hh). exists i'. split; [exact Hi'|].
  rewrite Hh. vm_compute. reflexivity.
Defined.

Lemma HasSynced_spec_witness : HasSynced (inf_queue reached) = true ∧ Exists (concerns "prod/a") (heard reached).
Proof.
  destruct (HasSynced_spec 0 by_namespace [obj "a" 1; obj "b" 1] more reached by_namespace_total reached_done) as [Hheard Hsync].
  assert (HasSynced (inf_queue reached) = true) as Hs by (apply Hsync; vm_compute; lia).
  split; [exact Hs|]. apply (Hheard Hs (obj "a" 1)). left.
Defined.
End fifo_demo.
