(* ===== verification/Mirror.v ===== *)
(** * Listers over informers

    The store of an informer as the indexer of the listers: [Store] and [DeltaFifoProps]
    discharge the interface that [Listers] asks for; and an informer of the fake clients,
    from what they list and what their watch sends to what the listers answer. *)
From S2P Require Import Prelude GoText KubeApi Store DeltaFifo FakeClient FakeClientProps Listers DeltaFifoProps.

(** The indices that the generated informers ask for. *)
Definition namespace_indexers {C} : gmap string (item C → result (list string)) :=
  {["namespace" := MetaNamespaceIndexFunc]}.

Lemma namespace_indexers_total {C} name g (o : object C) :
  namespace_indexers !! name = Some g → ∃ vs, g (Object o) = Ok vs.
Proof. unfold namespace_indexers. intros [_ <-]%lookup_singleton_Some. by eexists. Qed.

Section mirror.
Context `{RangeOrder} {C : Type} `{FakeApi C} (n : nat).
Implicit Types (o : object C) (obj : item C) (s : cache (item C)).

#[local] Notation key := MetaNamespaceKeyFunc.
#[local] Notation store := (gmap (string * string) (object C)).

(** ** The store is an indexer *)

Definition informer_store : Type := { s : cache (item C) | store_good namespace_indexers s }.

Definition object_of obj : option (object C) :=
  match obj with Object o => Some o | DeletedFinalStateUnknown _ _ => None end.

(** Of an element that may be nil. *)
Definition element_of (x : option (item C)) : option (object C) := x ≫= object_of.

(** Whatever has the namespace stands for the [ObjectMeta] that [ListAllByNamespace]
    makes: the index function asks for nothing else. *)
Definition meta (namespace : string) : item C := Object (mkObject TMonitor namespace "" ∅ zero_content).

#[export] Instance informer_indexer : Indexer informer_store C := {|
  contents ix := held (`ix);
  Indexer_List ix := omap (M:=list) object_of (cache_List n (`ix));
  GetByKey ix k := Ok (element_of (cache_GetByKey k (`ix)));
  NamespaceIndex ix ns := l ← cache_Index n "namespace" (meta ns) (`ix); Ok (omap (M:=list) element_of l)
|}.

Lemma items_held s : store_good namespace_indexers s → items (cacheStorage s) = Object <$> held s.
Proof.
  intros Hs. apply map_eq. intros k. rewrite lookup_fmap.
  destruct (held s !! k) eqn:Hk; [by apply (held_lookup namespace_indexers)|by apply (held_none namespace_indexers)].
Qed.

Lemma items_listed s : store_good namespace_indexers s →
  (map_to_list (items (cacheStorage s))).*2 ≡ₚ Object <$> (map_to_list (held s)).*2.
Proof.
  intros Hs. rewrite items_held, map_to_list_fmap, <- !list_fmap_compose by done. apply reflexive_eq, list_fmap_ext. by intros ? [].
Qed.

Lemma objects_of_objects (l : list (object C)) : omap object_of (Object <$> l) = l.
Proof. induction l as [|o l IH]; [done|]. cbn. by rewrite <- IH at 2. Qed.

Lemma some_objects (l : list (item C)) : omap element_of (Some <$> l) = omap object_of l.
Proof. induction l as [|obj l IH]; [done|]. cbn. by rewrite <- IH. Qed.

Lemma shares_namespace o obj : shares MetaNamespaceIndexFunc (Object o) obj ↔ ∃ o', obj = Object o' ∧ obj_Namespace o' = obj_Namespace o.
Proof.
  unfold shares. simpl. rewrite Exists_cons, Exists_nil. unfold has_value. destruct obj as [o'|]; simpl.
  - rewrite list_elem_of_singleton. naive_solver.
  - naive_solver.
Qed.

Lemma filter_objects (P : item C → Prop) (Q : object C → Prop) `{!∀ obj, Decision (P obj), !∀ o, Decision (Q o)} (l : list (object C)) :
  (∀ o, P (Object o) ↔ Q o) → filter P (Object <$> l) = Object <$> filter Q l.
Proof.
  intros HPQ. induction l as [|o l IH]; [done|]. rewrite fmap_cons, !filter_cons.
  destruct (decide (Q o)) as [Ho|Ho]; [rewrite decide_True by by apply HPQ|rewrite decide_False by by rewrite HPQ]; by rewrite IH.
Qed.

#[export] Instance informer_indexer_laws : IndexerLaws informer_store C.
Proof.
  split.
  - intros [s Hs]. simpl. unfold cache_List, threadSafeMap_List. by rewrite range_list_perm, items_listed, objects_of_objects.
  - intros [s Hs] k. simpl. unfold cache_GetByKey, threadSafeMap_Get. by rewrite items_held, lookup_fmap by done; destruct (held s !! k).
  - intros [s Hs] ns l. simpl. unfold cache_Index.
    destruct (Index_spec n "namespace" MetaNamespaceIndexFunc (meta ns) (cacheStorage s)) as (l' & -> & Hl);
      [apply Hs|by rewrite (good_indexers _ _ Hs)|by eexists|].
    simpl. intros [= <-]. rewrite some_objects, Hl. unfold objects_with. rewrite items_listed by done.
    rewrite (filter_objects _ (λ o, obj_Namespace o = ns)), objects_of_objects; [done|].
    intros o. unfold meta. rewrite shares_namespace. simpl. naive_solver.
Qed.
End mirror.

(** ** What is told of a store *)

Section told.
Context `{RangeOrder} {C : Type} `{FakeApi C}.
Implicit Types (o : object C) (m : gmap string (object C)).

#[local] Notation key := MetaNamespaceKeyFunc.
#[local] Notation store := (gmap (string * string) (object C)).

(** Names and namespaces of the API have no slash. *)
Definition plain o : Prop := "/"%char ∉ bytes_of (obj_Namespace o) ∧ "/"%char ∉ bytes_of (obj_Name o).

Lemma plain_key o o' : plain o → plain o' → key o = key o' → object_key o = object_key o'.
Proof.
  intros [H1 H2] [H1' H2']. unfold key, object_key. repeat case_decide.
  - intros ->. by f_equal; etransitivity.
  - intros He. exfalso. apply H2. rewrite He. apply contains_slash.
  - intros He. exfalso. apply H2'. rewrite <- He. apply contains_slash.
  - intros [-> ->]%key_inj; done.
Qed.

Lemma object_key_key o o' : object_key o = object_key o' → key o = key o'.
Proof. unfold key, object_key. by intros [= -> ->]. Qed.

(** [m] has the objects of [M], under the keys of a store. *)
Record mirrors m (M : store) : Prop := {
  mirrors_lookup o : m !! key o = Some o ↔ M !! object_key o = Some o;
  mirrors_key k o : m !! k = Some o → k = key o;
  mirrors_plain o : M !! object_key o = Some o → plain o
}.

Lemma mirrors_put m (M : store) o : plain o → mirrors m M → mirrors (put m o) (<[object_key o := o]> M).
Proof.
  intros Ho [Hl Hk Hp]. unfold put. split.
  - intros o'. rewrite !lookup_insert. destruct (decide (object_key o = object_key o')) as [E|E].
    { by rewrite decide_True by by apply object_key_key. }
    rewrite <- Hl. destruct (decide (key o = key o')) as [Ek|Ek]; [|done]. split; [by intros [= ->]|].
    intros Ho'. exfalso. apply E. apply plain_key; [done| |done]. by apply Hp, Hl.
  - intros k o'. rewrite lookup_insert_Some. intros [[<- <-]|[_ ?]]; [done|by apply Hk].
  - intros o'. rewrite lookup_insert_Some. intros [[_ <-]|[_ ?]]; [done|by apply Hp].
Qed.

Lemma mirrors_delete m (M : store) o : plain o → mirrors m M → mirrors (delete (key o) m) (delete (object_key o) M).
Proof.
  intros Ho [Hl Hk Hp]. split.
  - intros o'. rewrite !lookup_delete_Some, <- Hl. split; intros [Hne Ho']; (split; [|done]); intros E; apply Hne.
    + by apply object_key_key.
    + apply plain_key; [done| |done]. by apply Hp, Hl.
  - intros k o' [_ ?]%lookup_delete_Some. by apply Hk.
  - intros o' [_ ?]%lookup_delete_Some. by apply Hp.
Qed.

(** What a reflector does with an event. *)
Definition happening_of (e : event C) : happening :=
  match e with
  | FakeClient.Added o => WatchAdded o
  | FakeClient.Modified o => WatchModified o
  | FakeClient.Deleted o => WatchDeleted o
  end.

Lemma mirrors_told (es : list (event C)) m (M : store) : Forall plain (event_object <$> es) → mirrors m M →
  mirrors (told (happening_of <$> es) m) (replay es M).
Proof.
  revert m M. induction es as [|e es IH]; intros m M; [done|]. rewrite fmap_cons, Forall_cons. intros [He Hes] Hm.
  rewrite fmap_cons. apply IH; [done|]. destruct e as [o|o|o]; simpl in *; [by apply mirrors_put..|by apply mirrors_delete].
Qed.

Lemma mirrors_listed (items : list (object C)) (M : store) : Forall plain items →
  (∀ k o, M !! k = Some o → k = object_key o) → (∀ o, o ∈ items ↔ M !! object_key o = Some o) → mirrors (foldl put ∅ items) M.
Proof.
  intros Hpl Hk Hin. rewrite Forall_forall in Hpl.
  assert (∀ l m k o, foldl put m l !! k = Some o → o ∈ l ∧ k = key o ∨ m !! k = Some o) as Hsome.
  { clear. induction l as [|o' l IH]; intros m k o; simpl; [by right|]. intros [[? ?]|Ho]%IH; [left; split; [by right|done]|].
    unfold put in Ho. rewrite lookup_insert_Some in Ho. destruct Ho as [[<- <-]|[_ ?]]; [left; split; [left|done]|by right]. }
  assert (∀ l m k, k ∈ key <$> l → is_Some (foldl put m l !! k)) as His.
  { clear. intros l m k. assert (∀ l m, is_Some (m !! k) → is_Some (foldl put m l !! k)) as Hk.
    { induction l0 as [|o l0 IH]; intros m0 Hm; simpl; [done|]. apply IH. unfold put. rewrite lookup_insert_is_Some'. auto. }
    revert m. induction l as [|o l IH]; intros m; simpl; [by intros ?%elem_of_nil|]. intros [->|Hin]%elem_of_cons; [|by apply IH].
    apply Hk. unfold put. rewrite lookup_insert_eq. by eexists. }
  split.
  - intros o. rewrite <- Hin. split.
    + intros [[? _]|Ho]%Hsome; [done|]. by rewrite lookup_empty in Ho.
    + intros Ho. destruct (His items ∅ (key o)) as [o' Ho']; [by apply list_elem_of_fmap_2|].
      destruct (Hsome _ _ _ _ Ho') as [[Hio' Hkk]|He]; [|by rewrite lookup_empty in He].
      rewrite Ho'. apply plain_key in Hkk; [|by apply Hpl..]. apply Hin in Ho, Hio'. congruence.
  - intros k o [[_ ?]|He]%Hsome; [done|by rewrite lookup_empty in He].
  - intros o Ho%Hin. by apply Hpl.
Qed.

Lemma visible_all (M : store) : visible "" M = M.
Proof. unfold visible. apply map_filter_id. by left. Qed.

(** Resyncs and pops tell nothing. *)
Definition tells (h : happening (C:=C)) : bool := match h with Resynced | Pops => false | _ => true end.

Lemma told_filter hs m : told hs m = told (filter (λ h, tells h = true) hs) m.
Proof.
  revert m. induction hs as [|h hs IH]; intros m; [done|]. rewrite filter_cons.
  change (told (h :: hs) m) with (told hs (tell h m)). rewrite IH. destruct h; by simpl.
Qed.
End told.

(** ** Properties *)

Section properties.
Context `{RangeOrder} {C : Type} `{FakeApi C} `{Selectors} `{!SelectorLaws} `{UnicodeTables}.

(** C18: From the fake clients through an informer to the listers. An informer of all
    namespaces lists the objects of a type, of a clientset on which any calls were
    made, and then watches it; any calls are made meanwhile, and the informer's queue
    is popped and resynced at any times. When all that the watch sent was received
    and the queue is empty, every list of a lister over the informer's store has, for
    every namespace and selector, exactly what the clients list. *)
Theorem informer_serves_listers objs cs0 qs rs cs1 ty lopts sel0 items cs2 wopts w cs3 qs' rs' cs n hs i :
  NewSimpleClientset objs = Done cs0 → Forall (λ p, well_typed p.1 p.2) (qs ++ qs') → run qs cs0 = Done (rs, cs1) →
  labels_Parse (LabelSelector lopts) = Ok sel0 → (∀ ls, Matches (default Everything sel0) ls = true) →
  serve ty (QList "" lopts) cs1 = Done (ListReply (Some items) None, cs2) →
  serve ty (QWatch "" wopts) cs2 = Done (WatchReply (Some w) None, cs3) →
  QStop w ∉ qs'.*2 → run qs' cs3 = Done (rs', cs) → channels (cs_tracker cs) !! w = Some (mkWatcher false []) →
  Forall plain (items ++ (event_object <$> received w qs' rs')) →
  filter (λ h, tells h = true) hs = Listed items :: (happening_of <$> received w qs' rs') →
  history n hs (new_informer namespace_indexers) = Done i → queue (inf_queue i) = [] →
  ∃ ix : informer_store, `ix = inf_store i ∧ ∀ n' namespace opts r cs',
    serve ty (QList namespace opts) cs = Done (r, cs') →
    ∃ sel found listed, labels_Parse (LabelSelector opts) = Ok sel ∧ r = ListReply (Some found) None ∧
      namespaceLister_List (H:=informer_indexer n') ty ix namespace (default Everything sel) = Done listed ∧ listed ≡ₚ found.
Proof.
  intros Hnew [Hqs Hqs']%Forall_app Hrun Hp Hall Hlist Hwatch Hstop Hrun' Hdry [Hpl1 Hpl2]%Forall_app Hhs Hhist Hempty.
  apply NewSimpleClientset_good in Hnew as (Hg0 & _ & Hs0).
  apply (run_good qs cs0 rs cs1 (presets objs)) in Hrun as [Hg1 _]; [|done..].
  apply serve_good in Hlist as (Hg2 & oe & (-> & items' & [= <-] & _ & _ & Hin) & (Hs2 & _)); [|done..].
  destruct (watch_follows ty "" wopts cs2 w cs3 qs' rs' cs Hg2 Hwatch Hqs' Hstop Hrun') as (Hg3 & Hs3 & waiting & Hw & Hre).
  assert (waiting = []) as -> by congruence. rewrite app_nil_r, !visible_all, Hs3, Hs2, decide_True in Hre by done. simpl in Hre.
  apply (run_good qs' cs3 rs' cs (λ ty, store_at (cs_tracker cs3) ty)) in Hrun' as [Hg _]; [|done..].
  assert (mirrors (foldl put ∅ items) (store_at (cs_tracker cs1) ty)) as Hm.
  { apply mirrors_listed; [done| |].
    - intros k o [_ ?]%(proj1 (proj2 Hg1) ty). done.
    - intros o. rewrite Hin. unfold selects. rewrite Hp. naive_solver. }
  apply (mirrors_told _ _ _ Hpl2) in Hm. rewrite Hre in Hm.
  destruct (history_works namespace_indexers namespace_indexers_total n hs ∅ _ (works_new _)) as (i' & Hi' & Hwk).
  assert (i' = i) as -> by congruence. pose proof (works_drained _ _ i Hwk Hempty) as Hheld.
  rewrite told_filter, Hhs in Hheld. change (told (Listed items :: ?l) ∅) with (told l (foldl put ∅ items)) in Hheld.
  rewrite <- Hheld in Hm. exists (exist _ (inf_store i) (works_store _ _ _ Hwk)). split; [done|].
  intros n' namespace opts r cs' Hserve.
  assert (holds ty (held (inf_store i))) as Hix.
  { intros k o Hk. pose proof (mirrors_key _ _ Hm _ _ Hk) as ->. apply (mirrors_lookup _ _ Hm) in Hk.
    split; [done|]. split; [by apply (proj1 (proj2 Hg) ty) in Hk as [? _]|]. by apply (mirrors_plain _ _ Hm). }
  exact (lister_agrees_with_client (H:=informer_indexer n') ty (exist _ (inf_store i) (works_store _ _ _ Hwk)) Hix
    cs namespace opts r cs' Hg (mirrors_lookup _ _ Hm) Hserve).
Qed.
End properties.

(** ** Witnesses *)

Module mirror_demo.
Import fake_demo.

#[local] Instance mirror_order : RangeOrder := canonical_order.
#[local] Instance mirror_selector_laws : SelectorLaws := label_selectors_laws.
#[local] Instance plain_dec (o : object nat) : Decision (plain o).
Proof. unfold plain. apply _. Defined.

(** Any two calls in a row of a monitor's client. *)
Definition after_call (q : fake_call) (cs : Clientset (C:=nat)) : reply * Clientset (C:=nat) :=
  value (NoReply, no_clientset) (serve TMonitor q cs).

Lemma called q cs r : finished (serve TMonitor q cs) = true → (after_call q cs).1 = r →
  serve TMonitor q cs = Done (r, (after_call q cs).2).
Proof. intros Hf <-. rewrite <- surjective_pairing. by apply finished_value. Qed.

(** Two monitors are listed and watched; one is changed, one deleted and one made. *)
Definition listed : Clientset (C:=nat) := (after_call (QList "" no_options) (ran setup (fresh []))).2.
Definition watched_all : Clientset (C:=nat) := (after_call (QWatch "" no_options) listed).2.
Definition meanwhile : list (go_type * fake_call) := calls ++ [(TMonitor, QReceive 0); (TMonitor, QReceive 0)].
Definition in_prod (o : object nat) : object nat := SetNamespace o "prod".
Definition mysql_prod : object nat := in_prod (monitor "mysql" 2).
Definition first : list (object nat) := [mysql_prod; in_prod (monitor "redis" 1)].
Definition mysql_of_test : object nat := SetNamespace (monitor "mysql" 3) "test".

Definition seen : list (happening (C:=nat)) :=
  [Listed first; Pops; WatchModified redis; Pops; Resynced; WatchDeleted mysql_prod; Pops; Pops; WatchAdded mysql_of_test; Pops].

Definition informer_at_end : informer (C:=nat) :=
  value (new_informer namespace_indexers) (history 0 seen (new_informer namespace_indexers)).

Example heard_at_end : heard informer_at_end =
  [OnAdd (Object mysql_prod) true; OnAdd (Object (in_prod (monitor "redis" 1))) true;
   OnUpdate (Object (in_prod (monitor "redis" 1))) (Object redis);
   OnUpdate (Object mysql_prod) (Object mysql_prod); OnDelete (Object mysql_prod);
   OnUpdate (Object redis) (Object redis); OnAdd (Object mysql_of_test) false].
Proof. vm_compute. reflexivity. Qed.

Lemma informer_serves_listers_witness : ∃ ix : informer_store (C:=nat), `ix = inf_store informer_at_end ∧
  ∃ items, namespaceLister_List (H:=informer_indexer 0) TMonitor ix "" Everything = Done items ∧
    items ≡ₚ [redis; mysql_of_test].
Proof.
  assert (received 0 meanwhile (replies meanwhile watched_all) =
    [FakeClient.Modified redis; FakeClient.Deleted mysql_prod; FakeClient.Added mysql_of_test]) as Hrec by (vm_compute; reflexivity).
  destruct (informer_serves_listers [] (fresh []) setup (replies setup (fresh [])) (ran setup (fresh [])) TMonitor no_options None
    first listed no_options 0 watched_all meanwhile (replies meanwhile watched_all) (ran meanwhile watched_all) 0 seen informer_at_end)
    as (ix & Hix & Hl).
  - apply fresh_done. vm_compute. reflexivity.
  - unfold meanwhile. check_calls.
  - apply ran_done. vm_compute. reflexivity.
  - reflexivity.
  - reflexivity.
  - apply called; vm_compute; reflexivity.
  - apply called; vm_compute; reflexivity.
  - unfold meanwhile, calls. cbn. repeat (apply not_elem_of_cons; split; [discriminate|]). apply not_elem_of_nil.
  - apply ran_done. vm_compute. reflexivity.
  - vm_compute. reflexivity.
  - rewrite Hrec. refine (bool_decide_unpack _ _). vm_compute. exact I.
  - rewrite Hrec. reflexivity.
  - apply finished_value. vm_compute. reflexivity.
  - vm_compute. reflexivity.
  - exists ix. split; [exact Hix|].
    destruct (Hl 0 "" no_options (ListReply (Some [redis; mysql_of_test]) None) (after_call (QList "" no_options) (ran meanwhile watched_all)).2)
      as (sel & found & items & Hs & [= <-] & Hi & Hp); [apply called; vm_compute; reflexivity|].
    exists items. split; [|exact Hp]. injection Hs as <-. exact Hi.
Defined.
End mirror_demo.
