(* ===== verification/Informers.v ===== *)
(** * Shared informers

    pkg/generated/informers: the factory of shared informers and the informers of
    the two types. An informer (cache.SharedIndexInformer of k8s.io/client-go) is
    what it was made from; [Run] of it returns when its stop channel is closed. The
    factory's methods hold its lock, so that each is one step of a transition
    system, [Shutdown] excepted, which first marks the factory and then waits for
    the goroutines that [Start] launched. *)
From S2P Require Import Prelude GoText KubeApi Listers.

(** The generated clientset, as the informers use it: lists and watches of the
    objects of a type in a namespace. *)
Class InformerClient (K : Type) := {
  reply : Type;
  client_List : K → go_type → string → ListOptions → reply;
  client_Watch : K → go_type → string → ListOptions → reply
}.

Definition TweakListOptionsFunc : Type := ListOptions → ListOptions.

(** What [cache.NewSharedIndexInformer] is given. *)
Record informer (K : Type) := mkInformer {
  inf_Client : K;
  inf_Type : go_type;
  inf_Namespace : string;
  inf_Tweak : option TweakListOptionsFunc;
  inf_Resync : Z;
  inf_Indexers : list string
}.
Arguments mkInformer {K}.
Arguments inf_Client {K}.
Arguments inf_Type {K}.
Arguments inf_Namespace {K}.
Arguments inf_Tweak {K}.
Arguments inf_Resync {K}.
Arguments inf_Indexers {K}.

Record factory (K : Type) := mkFactory {
  client : K;
  namespace : string;
  tweakListOptions : option TweakListOptionsFunc;
  defaultResync : Z;
  customResync : gmap go_type Z;
  informers : gmap go_type nat;
  startedInformers : gmap go_type bool;
  wg : Z;
  shuttingDown : bool
}.
Arguments mkFactory {K}.
Arguments client {K}.
Arguments namespace {K}.
Arguments tweakListOptions {K}.
Arguments defaultResync {K}.
Arguments customResync {K}.
Arguments informers {K}.
Arguments startedInformers {K}.
Arguments wg {K}.
Arguments shuttingDown {K}.

(** A goroutine of [Start]: the informer it runs and its stop channel. *)
Record routine := mkRoutine { r_informer : nat; r_stop : nat; r_ended : bool }.

(** The informers made so far, the goroutines launched, the channels closed, and for
    each call of [Shutdown] whether it has returned. *)
Record system (K : Type) := mkSystem {
  fac : factory K;
  pool : list (informer K);
  routines : list routine;
  closed : gset nat;
  shutdowns : list bool
}.
Arguments mkSystem {K}.
Arguments fac {K}.
Arguments pool {K}.
Arguments routines {K}.
Arguments closed {K}.
Arguments shutdowns {K}.

Section informers.
Context {K : Type}.
Implicit Types (f : factory K) (s : system K) (inf : informer K).

(** ** Making a factory *)

Definition SharedInformerOption : Type := factory K → factory K.

(** [for k, v := range resyncConfig]: the pairs in the order of the loop. *)
Definition WithCustomResyncConfig (resyncConfig : list (go_type * Z)) : SharedInformerOption := λ f,
  mkFactory (client f) (namespace f) (tweakListOptions f) (defaultResync f)
    (foldl (λ m kv, <[kv.1 := kv.2]> m) (customResync f) resyncConfig)
    (informers f) (startedInformers f) (wg f) (shuttingDown f).

Definition WithTweakListOptions (tweak : option TweakListOptionsFunc) : SharedInformerOption := λ f,
  mkFactory (client f) (namespace f) tweak (defaultResync f) (customResync f)
    (informers f) (startedInformers f) (wg f) (shuttingDown f).

Definition WithNamespace (ns : string) : SharedInformerOption := λ f,
  mkFactory (client f) ns (tweakListOptions f) (defaultResync f) (customResync f)
    (informers f) (startedInformers f) (wg f) (shuttingDown f).

Definition NewSharedInformerFactoryWithOptions (c : K) (resync : Z) (options : list SharedInformerOption) : factory K :=
  foldl (λ f opt, opt f) (mkFactory c NamespaceAll None resync ∅ ∅ ∅ 0 false) options.

Definition NewSharedInformerFactory (c : K) (resync : Z) : factory K :=
  NewSharedInformerFactoryWithOptions c resync [].

Definition NewFilteredSharedInformerFactory (c : K) (resync : Z) (ns : string)
    (tweak : option TweakListOptionsFunc) : factory K :=
  NewSharedInformerFactoryWithOptions c resync [WithNamespace ns; WithTweakListOptions tweak].

(** ** The factory's methods *)

Definition with_informers f (m : gmap go_type nat) : factory K :=
  mkFactory (client f) (namespace f) (tweakListOptions f) (defaultResync f) (customResync f)
    m (startedInformers f) (wg f) (shuttingDown f).

Definition with_started f (m : gmap go_type bool) (n : Z) : factory K :=
  mkFactory (client f) (namespace f) (tweakListOptions f) (defaultResync f) (customResync f)
    (informers f) m n (shuttingDown f).

Definition with_shuttingDown f : factory K :=
  mkFactory (client f) (namespace f) (tweakListOptions f) (defaultResync f) (customResync f)
    (informers f) (startedInformers f) (wg f) true.

Definition NewInformerFunc : Type := K → Z → informer K.

Definition InformerFor (informerType : go_type) (newFunc : NewInformerFunc) s : nat * system K :=
  let f := fac s in
  match informers f !! informerType with
  | Some i => (i, s)
  | None =>
    let resyncPeriod := default (defaultResync f) (customResync f !! informerType) in
    let i := length (pool s) in
    (i, mkSystem (with_informers f (<[informerType := i]> (informers f)))
          (pool s ++ [newFunc (client f) resyncPeriod]) (routines s) (closed s) (shutdowns s))
  end.

(** The loop's body: [f.wg.Add(1)], the goroutine, and the mark. *)
Definition Start_one (stopCh : nat) s (p : go_type * nat) : system K :=
  let '(informerType, i) := p in
  let f := fac s in
  if default false (startedInformers f !! informerType) then s
  else mkSystem (with_started f (<[informerType := true]> (startedInformers f)) (wg f + 1))
         (pool s) (routines s ++ [mkRoutine i stopCh false]) (closed s) (shutdowns s).

(** [order] is the order in which the loop visits [f.informers]. *)
Definition Start (order : list (go_type * nat)) (stopCh : nat) s : system K :=
  if shuttingDown (fac s) then s else foldl (Start_one stopCh) s order.

(** The end of goroutine [j]: [defer f.wg.Done()]. *)
Definition end_routine (j : nat) s : outcome (system K) :=
  let f := fac s in
  match routines s !! j with
  | None => Done s
  | Some r =>
    if decide (wg f - 1 < 0)%Z then Panic "sync: negative WaitGroup counter"
    else Done (mkSystem (with_started f (startedInformers f) (wg f - 1)) (pool s)
                 (<[j := mkRoutine (r_informer r) (r_stop r) true]> (routines s)) (closed s) (shutdowns s))
  end.

(** [Shutdown] until it waits, and its return, which [f.wg.Wait] allows at 0. *)
Definition Shutdown_mark s : system K :=
  mkSystem (with_shuttingDown (fac s)) (pool s) (routines s) (closed s) (shutdowns s ++ [false]).

Definition Shutdown_return (k : nat) s : option (system K) :=
  if decide (wg (fac s) = 0%Z) then
    Some (mkSystem (fac s) (pool s) (routines s) (closed s) (<[k := true]> (shutdowns s)))
  else None.

Definition close (ch : nat) s : system K :=
  mkSystem (fac s) (pool s) (routines s) ({[ch]} ∪ closed s) (shutdowns s).

(** [WaitForCacheSync]: the informers whose sync it waits for, read under the lock, and
    the answers; [sync i] is what [cache.WaitForCacheSync] says of informer [i]. *)
Definition WaitForCacheSync_informers f : gmap go_type nat :=
  filter (λ p, default false (startedInformers f !! p.1) = true) (informers f).

Definition WaitForCacheSync (sync : nat → bool) f : gmap go_type bool :=
  sync <$> WaitForCacheSync_informers f.

(** ** The informers of the types *)

(** [cache.ListWatch] of an informer; the functions tweak the options they are given. *)
Definition tweaked inf (options : ListOptions) : ListOptions :=
  match inf_Tweak inf with Some tweak => tweak options | None => options end.

Definition ListFunc `{InformerClient K} inf (options : ListOptions) : reply :=
  client_List (inf_Client inf) (inf_Type inf) (inf_Namespace inf) (tweaked inf options).

Definition WatchFunc `{InformerClient K} inf (options : ListOptions) : reply :=
  client_Watch (inf_Client inf) (inf_Type inf) (inf_Namespace inf) (tweaked inf options).

(** monitor.go and prometheuspush.go are one text over the type. *)
Definition NewFilteredInformer (ty : go_type) (c : K) (ns : string) (resyncPeriod : Z) (indexers : list string)
    (tweak : option TweakListOptionsFunc) : informer K := mkInformer c ty ns tweak resyncPeriod indexers.

Definition NewFilteredMonitorInformer := NewFilteredInformer TMonitor.
Definition NewFilteredPrometheusPushInformer := NewFilteredInformer TPrometheusPush.

Definition NewMonitorInformer (c : K) (ns : string) (resyncPeriod : Z) (indexers : list string) : informer K :=
  NewFilteredMonitorInformer c ns resyncPeriod indexers None.
Definition NewPrometheusPushInformer (c : K) (ns : string) (resyncPeriod : Z) (indexers : list string) : informer K :=
  NewFilteredPrometheusPushInformer c ns resyncPeriod indexers None.

(** [monitorInformer] and its like, of the factory. *)
Record typedInformer := mkTypedInformer { ti_tweak : option TweakListOptionsFunc; ti_namespace : string }.

Definition monitorInformer_defaultInformer (t : typedInformer) : NewInformerFunc := λ c resyncPeriod,
  NewFilteredMonitorInformer c (ti_namespace t) resyncPeriod ["namespace"] (ti_tweak t).
Definition prometheusPushInformer_defaultInformer (t : typedInformer) : NewInformerFunc := λ c resyncPeriod,
  NewFilteredPrometheusPushInformer c (ti_namespace t) resyncPeriod ["namespace"] (ti_tweak t).

Definition monitorInformer_Informer (t : typedInformer) s : nat * system K :=
  InformerFor TMonitor (monitorInformer_defaultInformer t) s.
Definition prometheusPushInformer_Informer (t : typedInformer) s : nat * system K :=
  InformerFor TPrometheusPush (prometheusPushInformer_defaultInformer t) s.

(** The interfaces of the group and of its version; their factory is the system. *)
Record version := mkVersion { version_namespace : string; version_tweakListOptions : option TweakListOptionsFunc }.
Definition version_New (ns : string) (tweak : option TweakListOptionsFunc) : version := mkVersion ns tweak.
Definition Monitors (v : version) : typedInformer := mkTypedInformer (version_tweakListOptions v) (version_namespace v).
Definition PrometheusPushes (v : version) : typedInformer := mkTypedInformer (version_tweakListOptions v) (version_namespace v).

Record group := mkGroup { group_namespace : string; group_tweakListOptions : option TweakListOptionsFunc }.
Definition group_New (ns : string) (tweak : option TweakListOptionsFunc) : group := mkGroup ns tweak.
Definition V1 (g : group) : version := version_New (group_namespace g) (group_tweakListOptions g).

Definition Kubemonitor f : group := group_New (namespace f) (tweakListOptions f).

(** generic.go. *)
Record genericInformer := mkGenericInformer { gi_informer : nat; gi_resource : GroupResource }.

Definition ForResource (resource : GroupVersionResource) s : result (genericInformer * system K) :=
  if decide (resource = WithResource SchemeGroupVersion "monitors") then
    let '(i, s) := monitorInformer_Informer (Monitors (V1 (Kubemonitor (fac s)))) s in
    Ok (mkGenericInformer i (gvr_GroupResource resource), s)
  else if decide (resource = WithResource SchemeGroupVersion "prometheuspushes") then
    let '(i, s) := prometheusPushInformer_Informer (PrometheusPushes (V1 (Kubemonitor (fac s)))) s in
    Ok (mkGenericInformer i (gvr_GroupResource resource), s)
  else Err (Errorf "no informer found").

Definition genericInformer_Informer (g : genericInformer) : nat := gi_informer g.
Definition genericInformer_Lister {I : Type} (GetIndexer : nat → I) (g : genericInformer) : genericLister I :=
  NewGenericLister (GetIndexer (genericInformer_Informer g)) (gi_resource g).

(** [Lister] of a typed informer, given the indexer of an informer. *)
Definition monitorInformer_Lister {I : Type} (GetIndexer : nat → I) (t : typedInformer) s : monitorLister I * system K :=
  let '(i, s) := monitorInformer_Informer t s in (NewMonitorLister (GetIndexer i), s).
Definition prometheusPushInformer_Lister {I : Type} (GetIndexer : nat → I) (t : typedInformer) s : prometheusPushLister I * system K :=
  let '(i, s) := prometheusPushInformer_Informer t s in (NewPrometheusPushLister (GetIndexer i), s).

(** ** Concurrent use *)

Definition start_system f : system K := mkSystem f [] [] ∅ [].

(** Calls from any goroutines, the ends of the factory's own, and the returns of
    [Shutdown]. A function given to [InformerFor] makes informers of the type. *)
Inductive step : system K → outcome (system K) → Prop :=
| step_InformerFor s ty newFunc :
  (∀ c d, inf_Type (newFunc c d) = ty) → step s (Done (InformerFor ty newFunc s).2)
| step_Start s order stopCh : order ≡ₚ map_to_list (informers (fac s)) → step s (Done (Start order stopCh s))
| step_close s ch : step s (Done (close ch s))
| step_end s j r :
  routines s !! j = Some r → r_ended r = false → r_stop r ∈ closed s → step s (end_routine j s)
| step_Shutdown s : step s (Done (Shutdown_mark s))
| step_Shutdown_returns s k s' :
  shutdowns s !! k = Some false → Shutdown_return k s = Some s' → step s (Done s').

Definition steps : system K → system K → Prop := rtc (λ s s', step s (Done s')).

(** A factory made with options of this package, and what may become of it. *)
Inductive is_option : SharedInformerOption → Prop :=
| is_custom_resync conf : is_option (WithCustomResyncConfig conf)
| is_tweak tweak : is_option (WithTweakListOptions tweak)
| is_namespace ns : is_option (WithNamespace ns).

Definition reachable s : Prop := ∃ c resync options, Forall is_option options ∧
  steps (start_system (NewSharedInformerFactoryWithOptions c resync options)) s.

(** ** The invariant *)

Definition started f (ty : go_type) : Prop := startedInformers f !! ty = Some true.

Definition running s : list routine := filter (λ r, r_ended r = false) (routines s).

Record inv s : Prop := {
  inv_wg : wg (fac s) = Z.of_nat (length (running s));
  inv_type ty i : informers (fac s) !! ty = Some i → ∃ inf, pool s !! i = Some inf ∧ inf_Type inf = ty;
  inv_once : NoDup (r_informer <$> routines s);
  inv_routine r : r ∈ routines s → ∃ ty, informers (fac s) !! ty = Some (r_informer r) ∧ started (fac s) ty;
  inv_started ty : started (fac s) ty → ∃ r, r ∈ routines s ∧ informers (fac s) !! ty = Some (r_informer r);
  inv_mark ty b : startedInformers (fac s) !! ty = Some b → b = true;
  inv_shutdown : shutdowns s ≠ [] → shuttingDown (fac s) = true;
  inv_returned : true ∈ shutdowns s → running s = []
}.

Lemma inv_informers_inj s ty ty' i : inv s →
  informers (fac s) !! ty = Some i → informers (fac s) !! ty' = Some i → ty = ty'.
Proof.
  intros Hs (inf & Hi & <-)%(inv_type _ Hs) (inf' & Hi' & <-)%(inv_type _ Hs). by simplify_eq.
Qed.

Lemma inv_start f : informers f = ∅ → startedInformers f = ∅ → wg f = 0%Z → inv (start_system f).
Proof.
  intros Hi Hst Hw. split; simpl; rewrite ?Hi, ?Hst; try done; try constructor;
    intros *; rewrite ?lookup_empty, ?elem_of_nil; try done. unfold started. by rewrite Hst.
Qed.

Lemma inv_new c resync options : Forall is_option options →
  inv (start_system (NewSharedInformerFactoryWithOptions c resync options)).
Proof.
  intros Hopts. unfold NewSharedInformerFactoryWithOptions.
  assert (Hgen : ∀ f, informers f = ∅ ∧ startedInformers f = ∅ ∧ wg f = 0%Z →
    let f' := foldl (λ f opt, opt f) f options in informers f' = ∅ ∧ startedInformers f' = ∅ ∧ wg f' = 0%Z).
  { induction Hopts as [|opt options Hopt _ IH]; intros f Hf; [done|]. simpl. apply IH. by destruct Hopt. }
  apply inv_start; by apply Hgen.
Qed.

Lemma inv_InformerFor ty newFunc s :
  (∀ c d, inf_Type (newFunc c d) = ty) → inv s → inv (InformerFor ty newFunc s).2.
Proof.
  intros Hnew Hs. unfold InformerFor. destruct (informers (fac s) !! ty) as [i|] eqn:Hty; [done|].
  assert (Hold : ∀ ty' i, informers (fac s) !! ty' = Some i →
    <[ty := length (pool s)]> (informers (fac s)) !! ty' = Some i).
  { intros ty' i Hi. rewrite lookup_insert_ne; [done|]. intros ->. congruence. }
  destruct Hs as [Hwg Htype Honce Hrout Hst Hmark Hshut Hret]. split; try done; simpl.
  - intros ty' i [[<- <-]|[Hne Hi]]%lookup_insert_Some.
    + eexists. split; [by apply list_lookup_middle|]. apply Hnew.
    + destruct (Htype _ _ Hi) as (inf & Hinf & ?). exists inf. split; [|done].
      rewrite lookup_app_l; [done|]. by eapply lookup_lt_Some.
  - intros r (ty' & Hi & ?)%Hrout. eauto.
  - intros ty' (r & Hr & Hi)%Hst. eauto.
Qed.

Lemma inv_Start_one ty i stopCh s :
  inv s → shuttingDown (fac s) = false → informers (fac s) !! ty = Some i →
  inv (Start_one stopCh s (ty, i)).
Proof.
  intros Hs Hsd Hi. unfold Start_one. destruct (default false (startedInformers (fac s) !! ty)) eqn:Hdef; [done|].
  assert (Hnot : ¬ started (fac s) ty) by (unfold started; intros He; by rewrite He in Hdef).
  assert (Hinj := λ ty', inv_informers_inj s ty ty' i Hs Hi). 
  destruct Hs as [Hwg Htype Honce Hrout Hst Hmark Hshut Hret].
  assert (Hno : shutdowns s = []) by (destruct (shutdowns s); [done|by rewrite Hshut in Hsd]).
  split; unfold started in *; simpl; try done.
  - unfold running in *. simpl. rewrite filter_app, length_app, Hwg. simpl. lia.
  - rewrite fmap_app. apply NoDup_app. split_and!; [done| |apply NoDup_singleton].
    intros i' Hin ->%list_elem_of_singleton. apply list_elem_of_fmap in Hin as (r & Hri & Hr). simpl in Hri.
    apply Hrout in Hr as (ty' & Hi' & Hst'). rewrite <- Hri in Hi'. apply Hnot. by rewrite (Hinj ty' Hi').
  - intros r [Hr| ->%list_elem_of_singleton]%elem_of_app.
    + apply Hrout in Hr as (ty' & Hi' & Hst'). exists ty'. split; [done|].
      destruct (decide (ty' = ty)) as [->|]; [by rewrite lookup_insert_eq|by rewrite lookup_insert_ne].
    + exists ty. simpl. by rewrite lookup_insert_eq.
  - intros ty' [[<- _]|[Hne Hst']]%lookup_insert_Some.
    + exists (mkRoutine i stopCh false). split; [|done]. apply elem_of_app. right. apply list_elem_of_here.
    + apply Hst in Hst' as (r & Hr & ?). exists r. split; [|done]. apply elem_of_app. by left.
  - intros ty' b [[_ <-]|[_ Hb]]%lookup_insert_Some; [done|by eapply Hmark].
  - rewrite Hno. by intros ?%elem_of_nil.
Qed.

Lemma Start_one_same stopCh s p :
  informers (fac (Start_one stopCh s p)) = informers (fac s) ∧
  shuttingDown (fac (Start_one stopCh s p)) = shuttingDown (fac s).
Proof. destruct p. unfold Start_one. by case_match. Qed.

Lemma inv_Start order stopCh s : inv s → order ≡ₚ map_to_list (informers (fac s)) → inv (Start order stopCh s).
Proof.
  intros Hs Horder. unfold Start. destruct (shuttingDown (fac s)) eqn:Hsd; [done|].
  assert (Hin : ∀ p, p ∈ order → informers (fac s) !! p.1 = Some p.2).
  { intros [ty i]. rewrite Horder. apply elem_of_map_to_list. }
  clear Horder. revert s Hs Hsd Hin. induction order as [|[ty i] order IH]; intros s Hs Hsd Hin; [done|]. cbn [foldl].
  destruct (Start_one_same stopCh s (ty, i)) as [Hi Hsd'].
  apply IH; [apply inv_Start_one; [done..|]|congruence|].
  - apply (Hin (ty, i)), list_elem_of_here.
  - intros p Hp. rewrite Hi. by apply Hin, list_elem_of_further.
Qed.

Lemma length_filter_insert {A} (P : A → Prop) `{∀ x, Decision (P x)} (l : list A) j x y :
  l !! j = Some x → P x → ¬ P y → length (filter P l) = S (length (filter P (<[j := y]> l))).
Proof.
  revert j. induction l as [|z l IH]; intros [|j] Hj Hx Hy; simplify_eq/=.
  - by rewrite filter_cons_True, filter_cons_False.
  - rewrite !filter_cons. case_decide; simpl; by rewrite (IH _ Hj Hx Hy).
Qed.

Lemma inv_end j r s : inv s → routines s !! j = Some r → r_ended r = false →
  ∃ s', end_routine j s = Done s' ∧ inv s' ∧ length (running s) = S (length (running s')).
Proof.
  intros Hs Hj Hr. unfold end_routine. rewrite Hj.
  set (r' := mkRoutine (r_informer r) (r_stop r) true).
  assert (Hlen : length (running s) = S (length (filter (λ r, r_ended r = false) (<[j := r']> (routines s))))).
  { by apply (length_filter_insert _ _ _ r). }
  assert (Hids : r_informer <$> <[j := r']> (routines s) = r_informer <$> routines s).
  { rewrite list_fmap_insert. apply list_insert_id. by rewrite list_lookup_fmap, Hj. }
  destruct Hs as [Hwg Htype Honce Hrout Hst Hmark Hshut Hret].
  rewrite decide_False by lia. eexists. split; [done|]. split; [|done]. split; unfold started in *; simpl; try done.
  - unfold running. simpl. lia.
  - by rewrite Hids.
  - intros r0 Hr0. assert (Hin : r_informer r0 ∈ r_informer <$> routines s).
    { rewrite <- Hids. by apply list_elem_of_fmap_2. }
    apply list_elem_of_fmap in Hin as (r1 & -> & Hr1). by apply Hrout.
  - intros ty Hty. apply Hst in Hty as (r0 & Hr0 & Hi).
    assert (Hin : r_informer r0 ∈ r_informer <$> <[j := r']> (routines s)) by (rewrite Hids; by apply list_elem_of_fmap_2).
    apply list_elem_of_fmap in Hin as (r1 & He & Hr1). exists r1. split; [done|]. by rewrite <- He.
  - intros Hk. apply Hret in Hk. rewrite Hk in Hlen. done.
Qed.

Lemma inv_Shutdown_mark s : inv s → inv (Shutdown_mark s).
Proof.
  intros []. split; try done. simpl. intros [?| Hk%list_elem_of_singleton]%elem_of_app; [auto|done].
Qed.

Lemma inv_Shutdown_return s k s' : inv s → Shutdown_return k s = Some s' → inv s'.
Proof.
  unfold Shutdown_return. intros Hs. case_decide as Hw; [|done]. intros [= <-].
  assert (Hrun : running s = []) by (apply nil_length_inv; rewrite (inv_wg _ Hs) in Hw; lia).
  destruct Hs. split; try done. simpl. intros Hn. apply inv_shutdown0. intros He. by rewrite He in Hn.
Qed.

Lemma step_inv s o : inv s → step s o → ∃ s', o = Done s' ∧ inv s'.
Proof.
  intros Hs Hst. destruct Hst as [s ty newFunc Hnew|s order ch Hord|s ch|s j r Hj Hr Hch|s|s k s' Hk Hret].
  - eexists. split; [done|]. by apply inv_InformerFor.
  - eexists. split; [done|]. by apply inv_Start.
  - eexists. split; [done|]. by destruct Hs.
  - destruct (inv_end j r s Hs Hj Hr) as (s' & -> & ? & _). eauto.
  - eexists. split; [done|]. by apply inv_Shutdown_mark.
  - eexists. split; [done|]. by eapply inv_Shutdown_return.
Qed.

Lemma steps_inv s s' : inv s → steps s s' → inv s'.
Proof.
  intros Hs Hsteps. induction Hsteps as [|s s1 s2 Hst _ IH]; [done|]. apply IH.
  apply step_inv in Hst as (s' & [= ->] & ?); done.
Qed.

Lemma reachable_inv s : reachable s → inv s.
Proof. intros (c & resync & options & Hopts & Hsteps). eapply steps_inv; [by apply inv_new|done]. Qed.

(** ** How steps move the system *)

Lemma Start_one_routines ch s p :
  ∃ new, routines (Start_one ch s p) = routines s ++ new ∧ Forall (λ r, r_stop r = ch ∧ r_ended r = false) new ∧
    pool (Start_one ch s p) = pool s.
Proof.
  destruct p as [ty i]. unfold Start_one. case_match; simpl; [exists []; by rewrite app_nil_r|].
  eexists. split; [done|]. split; [|done]. by apply Forall_singleton.
Qed.

Lemma Start_routines order ch s :
  ∃ new, routines (Start order ch s) = routines s ++ new ∧ Forall (λ r, r_stop r = ch ∧ r_ended r = false) new ∧
    (shuttingDown (fac s) = true → new = []) ∧
    informers (fac (Start order ch s)) = informers (fac s) ∧ pool (Start order ch s) = pool s ∧
    shuttingDown (fac (Start order ch s)) = shuttingDown (fac s).
Proof.
  unfold Start. destruct (shuttingDown (fac s)) eqn:Hsd; [exists []; by rewrite app_nil_r|].
  assert (Hgen : ∃ new, routines (foldl (Start_one ch) s order) = routines s ++ new ∧
    Forall (λ r, r_stop r = ch ∧ r_ended r = false) new ∧
    informers (fac (foldl (Start_one ch) s order)) = informers (fac s) ∧
    pool (foldl (Start_one ch) s order) = pool s ∧
    shuttingDown (fac (foldl (Start_one ch) s order)) = shuttingDown (fac s)); [|naive_solver].
  clear Hsd. revert s. induction order as [|p order IH]; intros s; [exists []; by rewrite app_nil_r|]. cbn [foldl].
  destruct (Start_one_same ch s p) as [Hi Hsd]. destruct (Start_one_routines ch s p) as (new & Hr & Hnew & Hp).
  destruct (IH (Start_one ch s p)) as (new' & Hr' & Hnew' & Hi' & Hp' & Hsd').
  exists (new ++ new'). rewrite Hr', Hr, Hi', Hi, Hp', Hp, Hsd', Hsd, app_assoc. split_and!; try done. by apply Forall_app.
Qed.

Lemma step_grows s s' : inv s → step s (Done s') →
  informers (fac s) ⊆ informers (fac s') ∧ pool s `prefix_of` pool s' ∧
  (shuttingDown (fac s) = true → shuttingDown (fac s') = true ∧ r_informer <$> routines s' = r_informer <$> routines s) ∧
  (∀ k, shutdowns s !! k = Some true → shutdowns s' !! k = Some true).
Proof.
  intros Hs Hst. inversion Hst as [? ty newFunc Hnew|? order ch Hord|? ch|? j r Hj Hr Hch|?|? k s1 Hk Hret]; subst.
  - unfold InformerFor. destruct (informers (fac s) !! ty) eqn:Hty; [done|]. simpl.
    split; [by apply insert_subseteq|]. split; [by eexists|]. done.
  - destruct (Start_routines order ch s) as (new & Hr & _ & Hno & Hi & Hp & Hsd). rewrite Hi, Hp, Hsd, Hr.
    split_and!; try done.
    + intros Htrue. by rewrite (Hno Htrue), app_nil_r.
    + unfold Start. destruct (shuttingDown (fac s)) eqn:Hs'; [done|]. intros k.
      destruct (shutdowns s) eqn:Hsh; [done|]. by rewrite (inv_shutdown _ Hs) in Hs' by by rewrite Hsh.
  - done.
  - match goal with He : end_routine _ _ = _ |- _ => rename He into Hend end.
    unfold end_routine in Hend. rewrite Hj in Hend. case_decide; simplify_eq/=. split_and!; try done. intros Ht. split; [done|].
    rewrite list_fmap_insert. apply list_insert_id. by rewrite list_lookup_fmap, Hj.
  - split_and!; try done. intros k Hk. simpl. rewrite lookup_app_l; [done|]. by eapply lookup_lt_Some.
  - unfold Shutdown_return in Hret. case_decide; simplify_eq/=. split_and!; try done. intros k' Hk'.
    destruct (decide (k = k')) as [->|]; [congruence|by rewrite list_lookup_insert_ne].
Qed.

Lemma steps_grow s s' : inv s → steps s s' →
  informers (fac s) ⊆ informers (fac s') ∧ pool s `prefix_of` pool s' ∧
  (shuttingDown (fac s) = true → shuttingDown (fac s') = true ∧ r_informer <$> routines s' = r_informer <$> routines s) ∧
  (∀ k, shutdowns s !! k = Some true → shutdowns s' !! k = Some true).
Proof.
  intros Hs Hsteps. induction Hsteps as [|s s1 s2 Hst Hsteps IH]; [done|].
  destruct (step_inv _ _ Hs Hst) as (s' & [= <-] & Hs1).
  destruct (step_grows _ _ Hs Hst) as (Hi & Hp & Hsd & Hk), (IH Hs1) as (Hi' & Hp' & Hsd' & Hk').
  split_and!; [by etrans|by etrans| |by auto]. intros Ht. destruct (Hsd Ht) as [Ht' Hr], (Hsd' (proj1 (Hsd Ht))) as [Ht'' Hr'].
  split; [done|]. by rewrite Hr'.
Qed.

(** ** What the factory promises *)

(** C20: However calls, ends of goroutines and closings interleave, the wait group counts
    exactly the goroutines that run, so that no [Done] panics; and every informer is
    run by at most one goroutine, in the whole life of the factory. *)
Theorem factory_safe s : reachable s →
  (∀ o, step s o → is_done o) ∧ wg (fac s) = Z.of_nat (length (running s)) ∧ NoDup (r_informer <$> routines s).
Proof.
  intros Hs%reachable_inv. split; [|by destruct Hs]. intros o Hst.
  destruct (step_inv _ _ Hs Hst) as (s' & -> & _). by eexists.
Qed.

(** Informers are shared: all requests for a type, at any time, get the informer that
    the first one made. *)
Theorem informers_are_shared s ty newFunc i s1 s2 newFunc' :
  reachable s → (∀ c d, inf_Type (newFunc c d) = ty) → InformerFor ty newFunc s = (i, s1) → steps s1 s2 →
  InformerFor ty newFunc' s2 = (i, s2) ∧ ∃ inf, pool s1 !! i = Some inf ∧ pool s2 !! i = Some inf ∧ inf_Type inf = ty.
Proof.
  intros Hs%reachable_inv Hnew Hfor Hsteps.
  assert (Hs1 : inv s1) by (replace s1 with (InformerFor ty newFunc s).2 by (by rewrite Hfor); by apply inv_InformerFor).
  assert (Hi : informers (fac s1) !! ty = Some i).
  { unfold InformerFor in Hfor. destruct (informers (fac s) !! ty) eqn:Hty; simplify_eq/=; [done|].
    by rewrite lookup_insert_eq. }
  destruct (steps_grow _ _ Hs1 Hsteps) as (Hsub & Hpre & _). split.
  - unfold InformerFor. by rewrite (lookup_weaken _ _ _ _ Hi Hsub).
  - destruct (inv_type _ Hs1 _ _ Hi) as (inf & Hinf & Hty). exists inf. split_and!; [done| |done].
    by eapply prefix_lookup_Some.
Qed.

(** Once [Shutdown] is called no goroutine is launched, and once a call of it has
    returned none runs, then or later. *)
Theorem shutdown_is_final s s' : reachable s → shutdowns s ≠ [] → steps s s' →
  r_informer <$> routines s' = r_informer <$> routines s ∧ (true ∈ shutdowns s → running s' = []).
Proof.
  intros Hs%reachable_inv Hshut Hsteps. pose proof (steps_inv _ _ Hs Hsteps) as Hs'.
  destruct (steps_grow _ _ Hs Hsteps) as (_ & _ & Hsd & Hk). split; [by apply Hsd, (inv_shutdown _ Hs)|].
  intros [k Hret]%list_elem_of_lookup. apply (inv_returned _ Hs'). apply list_elem_of_lookup. eauto.
Qed.

(** What goes on without a call: goroutines end and waiting calls return. *)
Inductive internal : system K → system K → Prop :=
| internal_end s j r s' :
  routines s !! j = Some r → r_ended r = false → r_stop r ∈ closed s → end_routine j s = Done s' → internal s s'
| internal_return s k s' : shutdowns s !! k = Some false → Shutdown_return k s = Some s' → internal s s'.

Definition waiting s : list bool := filter (λ b, b = false) (shutdowns s).
Definition stopped s : Prop := Forall (λ r, r_stop r ∈ closed s) (routines s).

Lemma internal_step s s' : internal s s' → step s (Done s').
Proof. intros [? j r ? Hj Hr Hch <-|? k ? Hk Hret]; [by eapply step_end|by eapply step_Shutdown_returns]. Qed.

Lemma internal_decreases s s' : inv s → stopped s → internal s s' →
  inv s' ∧ stopped s' ∧ length (running s') + length (waiting s') < length (running s) + length (waiting s).
Proof.
  intros Hs Hstop Hint. pose proof (internal_step _ _ Hint) as Hst.
  destruct (step_inv _ _ Hs Hst) as (s1 & [= <-] & Hs'). split; [done|].
  destruct Hint as [s j r s' Hj Hr Hch Hend|s k s' Hk Hret].
  - destruct (inv_end j r s Hs Hj Hr) as (s1 & Hend' & _ & Hlen). rewrite Hend in Hend'. simplify_eq.
    unfold end_routine in Hend. rewrite Hj in Hend. case_decide; simplify_eq/=. split; [|unfold waiting in *; simpl; lia].
    apply Forall_insert; [done|]. simpl. done.
  - unfold Shutdown_return in Hret. case_decide; simplify_eq/=. split; [done|]. unfold running, waiting. simpl.
    pose proof (length_filter_insert (λ b, b = false) (shutdowns s) k false true Hk eq_refl ltac:(done)). lia.
Qed.

Lemma internal_progress s : inv s → stopped s → (¬ ∃ s', internal s s') → running s = [] ∧ waiting s = [].
Proof.
  intros Hs Hstop Hstuck.
  assert (Hrun : running s = []).
  { destruct (running s) as [|r l] eqn:Hr; [done|]. destruct Hstuck.
    assert (Hin : r ∈ running s) by (rewrite Hr; apply list_elem_of_here).
    apply list_elem_of_filter in Hin as [Hend Hin]. pose proof (proj1 (Forall_forall _ _) Hstop r Hin) as Hch. simpl in Hch.
    apply list_elem_of_lookup in Hin as [j Hj]. destruct (inv_end j r s Hs Hj Hend) as (s' & ? & _).
    exists s'. by eapply internal_end. }
  split; [done|]. destruct (waiting s) as [|b l] eqn:Hw; [done|]. destruct Hstuck.
  assert (Hin : b ∈ waiting s) by (rewrite Hw; apply list_elem_of_here).
  apply list_elem_of_filter in Hin as [-> [k Hk]%list_elem_of_lookup].
  eexists. eapply internal_return; [done|]. unfold Shutdown_return. rewrite decide_True; [done|].
  by rewrite (inv_wg _ Hs), Hrun.
Qed.

(** [Shutdown] returns once the stop channels are closed: from there the ends of
    goroutines and the returns of waiting calls go on for a bounded number of steps, in
    whatever order, and can only stop when no goroutine runs and every call of [Shutdown] has
    returned. *)
Theorem shutdown_terminates s n s' : reachable s → stopped s → nsteps internal n s s' →
  n ≤ length (running s) + length (waiting s) ∧
  ((¬ ∃ s'', internal s' s'') → running s' = [] ∧ waiting s' = []).
Proof.
  intros Hs%reachable_inv Hstop Hn. induction Hn as [s|n s s1 s2 Hint _ IH]; [split; [lia|by apply internal_progress]|].
  destruct (internal_decreases _ _ Hs Hstop Hint) as (Hs1 & Hstop1 & Hlt). destruct (IH Hs1 Hstop1) as [Hle Hend].
  split; [lia|done].
Qed.

Lemma Start_one_started ch s ty i ty' :
  started (fac s) ty' ∨ ty' = ty → inv s → started (fac (Start_one ch s (ty, i))) ty'.
Proof.
  intros Hty Hs. unfold Start_one, started in *. destruct (startedInformers (fac s) !! ty) as [b|] eqn:Hb.
  - pose proof (inv_mark _ Hs _ _ Hb) as ->. simpl. destruct Hty as [?| ->]; congruence.
  - simpl. destruct (decide (ty' = ty)) as [->|]; [by rewrite lookup_insert_eq|]. rewrite lookup_insert_ne by done. naive_solver.
Qed.

Lemma Start_started order ch s ty i :
  inv s → shuttingDown (fac s) = false → order ≡ₚ map_to_list (informers (fac s)) →
  informers (fac s) !! ty = Some i → started (fac (Start order ch s)) ty.
Proof.
  intros Hs Hsd Horder Hi. unfold Start. rewrite Hsd.
  assert (Hin : ∀ p, p ∈ order → informers (fac s) !! p.1 = Some p.2).
  { intros [ty' i']. rewrite Horder. apply elem_of_map_to_list. }
  assert (Hty : started (fac s) ty ∨ (ty, i) ∈ order) by (right; rewrite Horder; by apply elem_of_map_to_list).
  clear Horder Hi. revert s Hs Hsd Hin Hty. induction order as [|[ty' i'] order IH]; intros s Hs Hsd Hin Hty.
  { destruct Hty as [?|?%elem_of_nil]; done. }
  cbn [foldl]. destruct (Start_one_same ch s (ty', i')) as [Hi Hsd']. apply IH.
  - apply inv_Start_one; [done..|]. apply (Hin (ty', i')), list_elem_of_here.
  - congruence.
  - intros p Hp. rewrite Hi. by apply Hin, list_elem_of_further.
  - destruct Hty as [?|[[= -> ->]|?]%elem_of_cons]; [left; apply Start_one_started; eauto..|by right].
Qed.

(** [Start] on a factory that is not shutting down launches, with the channel it is
    given, the informers that did not run yet, leaves the others alone, and
    [WaitForCacheSync] then waits for every informer there is. *)
Theorem start_runs_the_rest s order ch :
  reachable s → shuttingDown (fac s) = false → order ≡ₚ map_to_list (informers (fac s)) →
  WaitForCacheSync_informers (fac (Start order ch s)) = informers (fac s) ∧
  ∃ new, routines (Start order ch s) = routines s ++ new ∧
    ∀ ty i, informers (fac s) !! ty = Some i → ¬ started (fac s) ty → mkRoutine i ch false ∈ new.
Proof.
  intros Hs%reachable_inv Hsd Horder. pose proof (inv_Start order ch s Hs Horder) as Hs'.
  destruct (Start_routines order ch s) as (new & Hr & Hnew & _ & Hi & _). split.
  - unfold WaitForCacheSync_informers. rewrite Hi. apply map_filter_id. intros ty i Hty. simpl.
    by rewrite (Start_started _ ch _ _ _ Hs Hsd Horder Hty).
  - exists new. split; [done|]. intros ty i Hty Hno.
    destruct (inv_started _ Hs' ty (Start_started _ ch _ _ _ Hs Hsd Horder Hty)) as (r & Hin & Hri).
    rewrite Hi, Hty in Hri. injection Hri as ->. rewrite Hr in Hin. apply elem_of_app in Hin as [Hin|Hin].
    + apply (inv_routine _ Hs) in Hin as (ty' & Hi' & Hst). destruct Hno. by rewrite (inv_informers_inj s ty ty' _ Hs Hty Hi').
    + pose proof (proj1 (Forall_forall _ _) Hnew r Hin) as [Hch Hend]. simpl in *. by destruct r; simplify_eq/=.
Qed.

(** The informer of a type that the factory's group makes: of the factory's namespace
    and options, and with the resync period of its type. *)
Definition group_informer f (ty : go_type) : informer K :=
  mkInformer (client f) ty (namespace f) (tweakListOptions f)
    (default (defaultResync f) (customResync f !! ty)) ["namespace"].

Definition resource_type (r : GroupVersionResource) : option go_type :=
  if decide (r = WithResource SchemeGroupVersion "monitors") then Some TMonitor
  else if decide (r = WithResource SchemeGroupVersion "prometheuspushes") then Some TPrometheusPush else None.

(** [ForResource] gives the shared informer of the resource's type, made with the
    factory's options when there is none yet, and an error for other resources. *)
Theorem ForResource_spec r s : reachable s →
  match resource_type r with
  | None => ∃ err, ForResource r s = Err err
  | Some ty => ∃ i inf s', ForResource r s = Ok (mkGenericInformer i (gvr_GroupResource r), s') ∧
      pool s' !! i = Some inf ∧ inf_Type inf = ty ∧ steps s s' ∧
      (informers (fac s) !! ty = None → inf = group_informer (fac s) ty)
  end.
Proof.
  intros Hs%reachable_inv.
  assert (Hgen : ∀ ty newFunc, (∀ c d, newFunc c d = mkInformer c ty (namespace (fac s)) (tweakListOptions (fac s)) d ["namespace"]) →
    ∃ i inf s', InformerFor ty newFunc s = (i, s') ∧ pool s' !! i = Some inf ∧ inf_Type inf = ty ∧ steps s s' ∧
      (informers (fac s) !! ty = None → inf = group_informer (fac s) ty)).
  { intros ty newFunc Hnew. destruct (InformerFor ty newFunc s) as [i s'] eqn:Hfor.
    assert (Hst : steps s s').
    { replace s' with (InformerFor ty newFunc s).2 by by rewrite Hfor. apply rtc_once, step_InformerFor. intros c d. by rewrite Hnew. }
    unfold InformerFor in Hfor. destruct (informers (fac s) !! ty) as [i'|] eqn:Hty; simplify_eq/=.
    - destruct (inv_type _ Hs _ _ Hty) as (inf & Hinf & Hit). by exists i, inf, s'.
    - eexists _, _, _. split; [done|]. split; [by apply list_lookup_middle|].
      split; [by rewrite Hnew|]. split; [done|]. intros _. by rewrite Hnew. }
  unfold resource_type, ForResource, monitorInformer_Informer, prometheusPushInformer_Informer.
  case_decide; [|case_decide; [|by eexists]].
  - destruct (Hgen TMonitor (monitorInformer_defaultInformer (Monitors (V1 (Kubemonitor (fac s)))))) as (i & inf & s' & -> & ?); [done|by exists i, inf, s'].
  - destruct (Hgen TPrometheusPush (prometheusPushInformer_defaultInformer (PrometheusPushes (V1 (Kubemonitor (fac s)))))) as (i & inf & s' & -> & ?);
      [done|by exists i, inf, s'].
Qed.

End informers.

(** ** Witnesses *)

Module informer_demo.

Definition options : list (SharedInformerOption (K:=unit)) :=
  [WithCustomResyncConfig [(TMonitor, 60%Z)]; WithNamespace "prod"].
Definition made : system unit := start_system (NewSharedInformerFactoryWithOptions tt 30 options).
Definition monitors (c : unit) (d : Z) : informer unit := NewMonitorInformer c "prod" d ["namespace"].

(** An informer is asked for, started and shut down, its channel closed; then its
    goroutine ends and [Shutdown] returns. *)
Definition requested : system unit := (InformerFor TMonitor monitors made).2.
Definition launched : system unit := Start [(TMonitor, 0)] 7 requested.
Definition leaving : system unit := Shutdown_mark launched.
Definition closing : system unit := close 7 leaving.
Definition done_ (o : outcome (system unit)) : system unit := match o with Done s => s | Panic _ => made end.
Definition ended : system unit := done_ (end_routine 0 closing).
Definition left : system unit := default made (Shutdown_return 0 ended).

Lemma made_reachable : reachable made.
Proof. exists tt, 30%Z, options. split; [repeat constructor|apply rtc_refl]. Qed.

Lemma reachable_step (s s' : system unit) : reachable s → step s (Done s') → reachable s'.
Proof. intros (c & d & opts & Ho & Hs) Hst. exists c, d, opts. split; [done|]. by eapply rtc_r. Qed.

Lemma requested_reachable : reachable requested.
Proof. eapply reachable_step; [apply made_reachable|]. by apply step_InformerFor. Qed.

Lemma launched_reachable : reachable launched.
Proof. eapply reachable_step; [apply requested_reachable|]. apply step_Start. reflexivity. Qed.

Lemma leaving_reachable : reachable leaving.
Proof. eapply reachable_step; [apply launched_reachable|]. apply step_Shutdown. Qed.

Lemma closing_reachable : reachable closing.
Proof. eapply reachable_step; [apply leaving_reachable|]. apply step_close. Qed.

Lemma closing_closed : 7 ∈ closed closing.
Proof. by apply (bool_decide_unpack (7 ∈ closed closing)). Qed.

Lemma ended_internal : internal closing ended.
Proof.
  eapply (internal_end _ 0 (mkRoutine 0 7 false)); [reflexivity|reflexivity|apply closing_closed|reflexivity].
Qed.

Lemma left_internal : internal ended left.
Proof. by apply (internal_return _ 0). Qed.

Lemma left_reachable : reachable left.
Proof.
  eapply reachable_step; [|apply internal_step, left_internal].
  eapply reachable_step; [apply closing_reachable|apply internal_step, ended_internal].
Qed.

Lemma factory_safe_witness : wg (fac closing) = 1%Z ∧
  (∀ o, step closing o → is_done o) ∧ wg (fac closing) = Z.of_nat (length (running closing)) ∧
  NoDup (r_informer <$> routines closing).
Proof. split; [reflexivity|]. apply (factory_safe closing), closing_reachable. Defined.

Lemma informers_are_shared_witness :
  InformerFor TMonitor (λ _ _, monitors tt 5) left = (0, left) ∧
  ∃ inf, pool requested !! 0 = Some inf ∧ pool left !! 0 = Some inf ∧ inf_Type inf = TMonitor.
Proof.
  refine (informers_are_shared made TMonitor monitors 0 requested left (λ _ _, monitors tt 5) made_reachable (λ _ _, eq_refl) eq_refl _).
  eapply rtc_l; [apply (step_Start requested [(TMonitor, 0)] 7); reflexivity|].
  eapply rtc_l; [apply step_Shutdown|]. eapply rtc_l; [apply (step_close _ 7)|].
  eapply rtc_l; [apply internal_step, ended_internal|]. apply rtc_once, internal_step, left_internal.
Defined.

Lemma shutdown_is_final_witness :
  r_informer <$> routines (Start [(TMonitor, 0)] 8 left) = r_informer <$> routines left ∧
  (true ∈ shutdowns left → running (Start [(TMonitor, 0)] 8 left) = []).
Proof.
  apply (shutdown_is_final left); [apply left_reachable|done|]. apply rtc_once, step_Start. reflexivity.
Defined.

Lemma shutdown_terminates_witness : 2 ≤ length (running closing) + length (waiting closing) ∧
  ((¬ ∃ s'', internal left s'') → running left = [] ∧ waiting left = []).
Proof.
  apply (shutdown_terminates closing); [apply closing_reachable| |].
  - apply Forall_singleton, closing_closed.
  - eapply nsteps_l; [apply ended_internal|]. eapply nsteps_l; [apply left_internal|]. constructor.
Defined.

Lemma start_runs_the_rest_witness :
  WaitForCacheSync_informers (fac launched) = informers (fac requested) ∧
  ∃ new, routines launched = routines requested ++ new ∧
    ∀ ty i, informers (fac requested) !! ty = Some i → ¬ started (fac requested) ty → mkRoutine i 7 false ∈ new.
Proof. apply (start_runs_the_rest requested); [apply requested_reachable|reflexivity|reflexivity]. Defined.

Lemma ForResource_spec_witness : ∃ i inf s',
  ForResource (WithResource SchemeGroupVersion "monitors") made = Ok (mkGenericInformer i (Resource "monitors"), s') ∧
  pool s' !! i = Some inf ∧ inf_Type inf = TMonitor ∧ steps made s' ∧
  (informers (fac made) !! TMonitor = None → inf = group_informer (fac made) TMonitor).
Proof. exact (ForResource_spec (WithResource SchemeGroupVersion "monitors") made made_reachable). Defined.

End informer_demo.
