(* ===== verification/RestClient.v ===== *)
(** * REST requests

    The request builder of k8s.io/client-go/rest, translated from the vendored
    source: what the generated clients call to make a request, the checks before it
    is sent, and the URL it is sent to. Its retries and its throttling are part of
    the transport, which is a parameter, as are the encoding of bodies and of
    parameters. Durations are [time.Duration], in nanoseconds. *)
From S2P Require Import Prelude GoText GoNum GoPath GoHttp KubeApi.

(** ** Durations (package time) *)

Section durations.
#[local] Open Scope Z_scope.

Definition Nanosecond : Z := 1.
Definition Microsecond : Z := 1000 * Nanosecond.
Definition Millisecond : Z := 1000 * Microsecond.
Definition Second : Z := 1000 * Millisecond.

(** [fmtFrac]: the last [prec] digits of [v] without the zeros at the end, after a
    point if any is left; and what is before them. *)
Fixpoint fmtFrac (prec : nat) (v : Z) (print : bool) : string * Z :=
  match prec with
  | O => (if print then "." else "", v)
  | S prec' =>
    let digit := v mod 10 in
    let '(frac, w) := fmtFrac prec' (v / 10) (print || negb (digit =? 0)) in
    (frac +:+ (if print || negb (digit =? 0) then Itoa digit else ""), w)
  end.

(** [d.String()] *)
Definition Duration_String (d : Z) : string :=
  let u := Z.abs d in
  let sign := if d <? 0 then "-" else "" in
  if u <? Second then
    if u =? 0 then "0s"
    else
      let '(prec, unit) :=
        if u <? Microsecond then (0%nat, "ns") else if u <? Millisecond then (3%nat, "µs") else (6%nat, "ms") in
      let '(frac, w) := fmtFrac prec u false in
      sign +:+ Itoa w +:+ frac +:+ unit
  else
    let '(frac, w) := fmtFrac 9 u false in
    let seconds := Itoa (w mod 60) +:+ frac +:+ "s" in
    let minutes := w / 60 in
    if minutes =? 0 then sign +:+ seconds
    else
      let hours := minutes / 60 in
      if hours =? 0 then sign +:+ Itoa (minutes mod 60) +:+ "m" +:+ seconds
      else sign +:+ Itoa hours +:+ "h" +:+ Itoa (minutes mod 60) +:+ "m" +:+ seconds.
End durations.

Example duration_examples :
  Duration_String 0 = "0s" ∧ Duration_String 1500000 = "1.5ms" ∧ Duration_String (90 * Second) = "1m30s" ∧
  Duration_String (3600 * Second) = "1h0m0s" ∧ Duration_String (-1) = "-1ns".
Proof. vm_compute. auto. Qed.

(** ** The client and its requests *)

Record RESTClient := mkRESTClient {
  base_Path : string;
  versionedAPIPath : string;
  ContentType : string;
  AcceptContentTypes : string;
  Client_Timeout : Z
}.

Record RestRequest := mkRestRequest {
  r_c : RESTClient;
  r_timeout : Z;
  r_verb : string;
  r_pathPrefix : string;
  r_subpath : string;
  r_params : gmap string (list string);
  r_headers : Header;
  r_namespace : string;
  r_namespaceSet : bool;
  r_resource : string;
  r_resourceName : string;
  r_subresource : string;
  r_err : option error;
  r_bodyBytes : option (list ascii)
}.

(** The updates of single fields. *)
Section updates.
Implicit Types r : RestRequest.
Definition set_err r (e : error) : RestRequest :=
  mkRestRequest (r_c r) (r_timeout r) (r_verb r) (r_pathPrefix r) (r_subpath r) (r_params r) (r_headers r)
    (r_namespace r) (r_namespaceSet r) (r_resource r) (r_resourceName r) (r_subresource r) (Some e) (r_bodyBytes r).
Definition set_timeout r (d : Z) : RestRequest :=
  mkRestRequest (r_c r) d (r_verb r) (r_pathPrefix r) (r_subpath r) (r_params r) (r_headers r)
    (r_namespace r) (r_namespaceSet r) (r_resource r) (r_resourceName r) (r_subresource r) (r_err r) (r_bodyBytes r).
Definition set_params r (ps : gmap string (list string)) : RestRequest :=
  mkRestRequest (r_c r) (r_timeout r) (r_verb r) (r_pathPrefix r) (r_subpath r) ps (r_headers r)
    (r_namespace r) (r_namespaceSet r) (r_resource r) (r_resourceName r) (r_subresource r) (r_err r) (r_bodyBytes r).
Definition set_headers r (h : Header) : RestRequest :=
  mkRestRequest (r_c r) (r_timeout r) (r_verb r) (r_pathPrefix r) (r_subpath r) (r_params r) h
    (r_namespace r) (r_namespaceSet r) (r_resource r) (r_resourceName r) (r_subresource r) (r_err r) (r_bodyBytes r).
Definition set_namespace r (ns : string) : RestRequest :=
  mkRestRequest (r_c r) (r_timeout r) (r_verb r) (r_pathPrefix r) (r_subpath r) (r_params r) (r_headers r)
    ns true (r_resource r) (r_resourceName r) (r_subresource r) (r_err r) (r_bodyBytes r).
Definition set_resource r (resource : string) : RestRequest :=
  mkRestRequest (r_c r) (r_timeout r) (r_verb r) (r_pathPrefix r) (r_subpath r) (r_params r) (r_headers r)
    (r_namespace r) (r_namespaceSet r) resource (r_resourceName r) (r_subresource r) (r_err r) (r_bodyBytes r).
Definition set_resourceName r (name : string) : RestRequest :=
  mkRestRequest (r_c r) (r_timeout r) (r_verb r) (r_pathPrefix r) (r_subpath r) (r_params r) (r_headers r)
    (r_namespace r) (r_namespaceSet r) (r_resource r) name (r_subresource r) (r_err r) (r_bodyBytes r).
Definition set_subresource r (sub : string) : RestRequest :=
  mkRestRequest (r_c r) (r_timeout r) (r_verb r) (r_pathPrefix r) (r_subpath r) (r_params r) (r_headers r)
    (r_namespace r) (r_namespaceSet r) (r_resource r) (r_resourceName r) sub (r_err r) (r_bodyBytes r).
Definition set_body r (data : list ascii) (h : Header) : RestRequest :=
  mkRestRequest (r_c r) (r_timeout r) (r_verb r) (r_pathPrefix r) (r_subpath r) (r_params r) h
    (r_namespace r) (r_namespaceSet r) (r_resource r) (r_resourceName r) (r_subresource r) (r_err r) (Some data).
End updates.

(** ** The builder *)

Definition NewRESTClient (baseURL_Path versionedAPIPath contentType acceptContentTypes : string) (timeout : Z) : RESTClient :=
  mkRESTClient (if HasSuffix baseURL_Path "/" then baseURL_Path else baseURL_Path +:+ "/") versionedAPIPath
    (if decide (contentType = "") then "application/json" else contentType) acceptContentTypes timeout.

Definition DefaultVersionedAPIPath (apiPath : string) (gv : GroupVersion) : string :=
  let versionedAPIPath := path_Join ["/"; apiPath] in
  if decide (Group gv = "") then path_Join [versionedAPIPath; Version gv]
  else path_Join [versionedAPIPath; Group gv; Version gv].

Definition RestNewRequest (c : RESTClient) (verb : string) : RestRequest :=
  let pathPrefix := path_Join ["/"; base_Path c; versionedAPIPath c] in
  let headers : Header :=
    if decide (AcceptContentTypes c ≠ "") then Header_Set ∅ "Accept" (AcceptContentTypes c)
    else if decide (ContentType c ≠ "") then Header_Set ∅ "Accept" (ContentType c +:+ ", */*") else ∅ in
  mkRestRequest c (Client_Timeout c) verb pathPrefix "" ∅ headers "" false "" "" "" None None.

Definition NameMayNotBe : list string := ["."; ".."].
Definition NameMayNotContain : list string := ["/"; "%"].

Definition IsValidPathSegmentName (name : string) : list string :=
  match filter (λ illegalName, name = illegalName) NameMayNotBe with
  | illegalName :: _ => ["may not be '" +:+ illegalName +:+ "'"]
  | [] => (λ illegalContent, "may not contain '" +:+ illegalContent +:+ "'") <$>
          filter (λ illegalContent, Contains name illegalContent = true) NameMayNotContain
  end.

(** Each setter does nothing once there is an error. *)
Definition unless_err (r : RestRequest) (k : RestRequest) : RestRequest :=
  match r_err r with Some _ => r | None => k end.

Definition Req_Resource (resource : string) (r : RestRequest) : RestRequest := unless_err r (
  if decide (r_resource r ≠ "") then set_err r (Errorf "resource already set")
  else if decide (IsValidPathSegmentName resource ≠ []) then set_err r (Errorf "invalid resource")
  else set_resource r resource).

Definition Req_SubResource (subresources : list string) (r : RestRequest) : RestRequest := unless_err r (
  let subresource := path_Join subresources in
  if decide (r_subresource r ≠ "") then set_err r (Errorf "subresource already set")
  else if decide (Exists (λ s, IsValidPathSegmentName s ≠ []) subresources)
  then set_err r (Errorf "invalid subresource") else set_subresource r subresource).

Definition Req_Name (resourceName : string) (r : RestRequest) : RestRequest := unless_err r (
  if decide (resourceName = "") then set_err r (Errorf "resource name may not be empty")
  else if decide (r_resourceName r ≠ "") then set_err r (Errorf "resource name already set")
  else if decide (IsValidPathSegmentName resourceName ≠ []) then set_err r (Errorf "invalid resource name")
  else set_resourceName r resourceName).

Definition Req_Namespace (namespace : string) (r : RestRequest) : RestRequest := unless_err r (
  if r_namespaceSet r then set_err r (Errorf "namespace already set")
  else if decide (IsValidPathSegmentName namespace ≠ []) then set_err r (Errorf "invalid namespace")
  else set_namespace r namespace).

(** The parameters as the codec encodes them are added to those there are. *)
Definition Req_VersionedParams (encoded : result (gmap string (list string))) (r : RestRequest) : RestRequest :=
  unless_err r (
    match encoded with
    | Err err => set_err r err
    | Ok params => set_params r (union_with (λ old new, Some (old ++ new)) (r_params r) params)
    end).

Definition Req_Timeout (d : Z) (r : RestRequest) : RestRequest := unless_err r (set_timeout r d).

(** [Body] of bytes, and of an object as the encoder encodes it. *)
Definition Req_Body_bytes (data : list ascii) (r : RestRequest) : RestRequest :=
  unless_err r (set_body r data (r_headers r)).

Definition Req_Body (encoded : result (list ascii)) (r : RestRequest) : RestRequest := unless_err r (
  match encoded with
  | Err err => set_err r err
  | Ok data => set_body r data (Header_Set (r_headers r) "Content-Type" (ContentType (r_c r)))
  end).

(** ** What is sent *)

Record http_request := mkHttpRequest {
  h_Method : string;
  h_Path : string;
  h_Query : gmap string (list string);
  h_Header : Header;
  h_Body : option (list ascii);
  h_Deadline : Z
}.

(** The path and the query of [URL]. *)
Definition Req_Path `{UnicodeTables} (r : RestRequest) : string :=
  let p := r_pathPrefix r in
  let p := if r_namespaceSet r && bool_decide (r_namespace r ≠ "")
           then path_Join [p; "namespaces"; r_namespace r] else p in
  let p := if decide (r_resource r ≠ "") then path_Join [p; strings_ToLower (r_resource r)] else p in
  if decide (r_resourceName r ≠ "" ∨ r_subpath r ≠ "" ∨ r_subresource r ≠ "")
  then path_Join [p; r_resourceName r; r_subresource r; r_subpath r] else p.

Definition Req_Query (r : RestRequest) : gmap string (list string) :=
  let query := r_params r in
  if decide (r_timeout r ≠ 0%Z) then <["timeout" := [Duration_String (r_timeout r)]]> query else query.

Definition newHTTPRequest `{UnicodeTables} (r : RestRequest) : http_request :=
  mkHttpRequest (r_verb r) (Req_Path r) (Req_Query r) (r_headers r) (r_bodyBytes r)
    (if decide (0 < r_timeout r)%Z then r_timeout r else 0%Z).

Definition requestPreflightCheck (r : RestRequest) : option error :=
  if negb (r_namespaceSet r) then None
  else if decide (r_namespace r ≠ "") then None
  else if decide (r_verb r = "POST") then Some (Errorf "an empty namespace may not be set during creation")
  else if decide ((r_verb r = "GET" ∨ r_verb r = "PUT" ∨ r_verb r = "DELETE") ∧ r_resourceName r ≠ "")
  then Some (Errorf "an empty namespace may not be set when a resource name is provided")
  else None.

(** [Do] until the request leaves, and [Watch], which skips the preflight check and
    the deadline. *)
Definition Req_Do `{UnicodeTables} (r : RestRequest) : error + http_request :=
  match r_err r with
  | Some err => inl err
  | None =>
    match requestPreflightCheck r with Some err => inl err | None => inr (newHTTPRequest r) end
  end.

Definition Req_Watch `{UnicodeTables} (r : RestRequest) : error + http_request :=
  match r_err r with
  | Some err => inl err
  | None => inr (mkHttpRequest (r_verb r) (Req_Path r) (Req_Query r) (r_headers r) (r_bodyBytes r) 0%Z)
  end.

(** ** Lemmas *)

Lemma Contains_byte c s : c ∈ bytes_of s → Contains s (String c "") = true.
Proof.
  induction s as [|d s IH]; simpl; [by intros ?%elem_of_nil|].
  intros [->|Hin]%elem_of_cons; [by destruct (ascii_dec d d), s|].
  rewrite (IH Hin). destruct (ascii_dec c d); [by destruct s|done].
Qed.

Lemma IsValidPathSegmentName_segment name :
  IsValidPathSegmentName name = [] → name = "" ∨ segment name.
Proof.
  unfold IsValidPathSegmentName, NameMayNotBe, NameMayNotContain. rewrite !filter_cons.
  intros Hv. destruct (decide (name = "")) as [|Hn]; [by left|right].
  repeat case_decide; simplify_eq/=. split_and!; [done..|].
  intros Hin. match goal with H : Contains name "/" ≠ true |- _ => apply H end.
  by apply (Contains_byte "/").
Qed.

(** The requests that the check lets pass. *)
Definition passes (namespace verb name : string) : Prop :=
  namespace ≠ "" ∨ (verb ≠ "POST" ∧ (verb = "PATCH" ∨ name = "")).

Lemma preflight_None r :
  r_namespaceSet r = true → r_verb r ∈ ["GET"; "POST"; "PUT"; "PATCH"; "DELETE"] →
  requestPreflightCheck r = None → passes (r_namespace r) (r_verb r) (r_resourceName r).
Proof.
  unfold requestPreflightCheck, passes. intros -> Hv. simpl. repeat case_decide; try done; [by left|].
  intros _. right. split; [done|]. destruct (decide (r_resourceName r = "")) as [|Hn]; [by right|left].
  set_unfold. naive_solver.
Qed.

Lemma preflight_Some r err :
  requestPreflightCheck r = Some err → ¬ passes (r_namespace r) (r_verb r) (r_resourceName r).
Proof.
  unfold requestPreflightCheck, passes. destruct (r_namespaceSet r); [|done]. simpl.
  repeat case_decide; try done; intros _ Hp; destruct Hp as [|[Hp1 Hp2]]; try done.
  destruct Hp2 as [Hp2|Hp2]; [|naive_solver]. rewrite Hp2 in *. naive_solver.
Qed.

(** ** Chains of setters

    A chain of setters makes the request [e], or fails when [valid] does not hold. *)
Definition becomes (r : RestRequest) (valid : Prop) (e : RestRequest) : Prop :=
  r_err e = None ∧ (valid ∧ r = e ∨ ¬ valid ∧ is_Some (r_err r)).

Definition ok_value {A} (d : A) (res : result A) : A := match res with Ok a => a | Err _ => d end.

Section setters.
Implicit Types (r e : RestRequest) (V : Prop).

Lemma unless_err_becomes V e r k (valid : Prop) e' :
  becomes r V e → r_err e' = None → (r_err e = None → valid ∧ k e = e' ∨ ¬ valid ∧ is_Some (r_err (k e))) →
  becomes (unless_err r (k r)) (V ∧ valid) e'.
Proof.
  intros [He [[HV ->]|[HV [err Hr]]]] He' Hk; split; try done; unfold unless_err.
  - rewrite He. destruct (Hk He) as [[? ->]|[? ?]]; [by left|]. right. tauto.
  - rewrite Hr. right. split; [tauto|by eexists].
Qed.

Lemma Namespace_becomes V e r ns : becomes r V e → r_namespaceSet e = false →
  becomes (Req_Namespace ns r) (V ∧ IsValidPathSegmentName ns = []) (set_namespace e ns).
Proof.
  intros Hr Hns. eapply (unless_err_becomes V e r (λ r, if r_namespaceSet r then _ else _)); [done|apply Hr|]. intros _.
  rewrite Hns. case_decide as Hv; [right; split; [done|by eexists]|left]. done.
Qed.

Lemma Resource_becomes V e r resource : becomes r V e → r_resource e = "" →
  becomes (Req_Resource resource r) (V ∧ IsValidPathSegmentName resource = []) (set_resource e resource).
Proof.
  intros Hr Hns. eapply (unless_err_becomes V e r (λ r, if decide (r_resource r ≠ "") then _ else _)); [done|apply Hr|].
  intros _. rewrite decide_False by naive_solver.
  case_decide as Hv; [right; split; [done|by eexists]|left]. done.
Qed.

Lemma Name_becomes V e r name : becomes r V e → r_resourceName e = "" →
  becomes (Req_Name name r) (V ∧ (name ≠ "" ∧ IsValidPathSegmentName name = [])) (set_resourceName e name).
Proof.
  intros Hr Hns. eapply (unless_err_becomes V e r (λ r, if decide (name = "") then _ else _)); [done|apply Hr|]. intros _.
  case_decide; [right; split; [tauto|by eexists]|]. rewrite decide_False by naive_solver.
  case_decide as Hv; [right; split; [tauto|by eexists]|left]. done.
Qed.

Lemma SubResource_becomes V e r subs : becomes r V e → r_subresource e = "" →
  becomes (Req_SubResource subs r) (V ∧ Forall (λ s, IsValidPathSegmentName s = []) subs) (set_subresource e (path_Join subs)).
Proof.
  intros Hr Hns. eapply (unless_err_becomes V e r (λ r, if decide (r_subresource r ≠ "") then _ else _)); [done|apply Hr|].
  intros _. rewrite decide_False by naive_solver. case_decide as Hv.
  - right. split; [|by eexists]. rewrite Forall_forall. intros Hf. apply Exists_exists in Hv as (s & Hs & Hv). by apply Hv, Hf.
  - left. split; [|done]. apply Forall_forall. intros s Hs. apply dec_stable. intros Hv'. apply Hv, Exists_exists. eauto.
Qed.

Lemma VersionedParams_becomes V e r encoded : becomes r V e →
  becomes (Req_VersionedParams encoded r) (V ∧ is_ok encoded)
    (set_params e (union_with (λ old new, Some (old ++ new)) (r_params e) (ok_value ∅ encoded))).
Proof.
  intros Hr. eapply (unless_err_becomes V e r (λ r, match encoded with Err err => _ | Ok params => _ end)); [done|apply Hr|].
  intros _. destruct encoded; [left; split; [by eexists|done]|right]. split; [by intros []|by eexists].
Qed.

Lemma Timeout_becomes V e r d : becomes r V e → becomes (Req_Timeout d r) V (set_timeout e d).
Proof.
  intros [He [[HV ->]|[HV [err Hr]]]]; split; try done; unfold Req_Timeout, unless_err; [rewrite He; by left|].
  rewrite Hr. right. split; [done|by eexists].
Qed.

Lemma Body_bytes_becomes V e r data : becomes r V e → becomes (Req_Body_bytes data r) V (set_body e data (r_headers e)).
Proof.
  intros [He [[HV ->]|[HV [err Hr]]]]; split; try done; unfold Req_Body_bytes, unless_err; [rewrite He; by left|].
  rewrite Hr. right. split; [done|by eexists].
Qed.

Lemma Body_becomes V e r encoded : becomes r V e →
  becomes (Req_Body encoded r) (V ∧ is_ok encoded)
    (set_body e (ok_value [] encoded) (Header_Set (r_headers e) "Content-Type" (ContentType (r_c e)))).
Proof.
  intros Hr. eapply (unless_err_becomes V e r (λ r, match encoded with Err err => _ | Ok data => _ end)); [done|apply Hr|].
  intros _. destruct encoded; [left; split; [by eexists|done]|right]. split; [by intros []|by eexists].
Qed.

Lemma Do_becomes `{UnicodeTables} V e r :
  becomes r V e → r_namespaceSet e = true → r_verb e ∈ ["GET"; "POST"; "PUT"; "PATCH"; "DELETE"] →
  match Req_Do r with
  | inl _ => ¬ (V ∧ passes (r_namespace e) (r_verb e) (r_resourceName e))
  | inr h => (V ∧ passes (r_namespace e) (r_verb e) (r_resourceName e)) ∧ h = newHTTPRequest e
  end.
Proof.
  intros [He [[HV ->]|[HV [err Hr]]]] Hns Hv; unfold Req_Do; [rewrite He|rewrite Hr; tauto].
  destruct (requestPreflightCheck e) as [err|] eqn:Hp.
  - apply preflight_Some in Hp. tauto.
  - apply preflight_None in Hp; [|done..]. tauto.
Qed.

Lemma Watch_becomes `{UnicodeTables} V e r : becomes r V e →
  match Req_Watch r with
  | inl _ => ¬ V
  | inr h => V ∧ h = mkHttpRequest (r_verb e) (Req_Path e) (Req_Query e) (r_headers e) (r_bodyBytes e) 0
  end.
Proof. intros [He [[HV ->]|[HV [err Hr]]]]; unfold Req_Watch; [by rewrite He|by rewrite Hr]. Qed.

Lemma becomes_start r : r_err r = None → becomes r True r.
Proof. split; [done|by left]. Qed.
End setters.
