(* ===== verification/TypedClient.v ===== *)
(** * The generated clients

    pkg/generated/clientset/versioned/typed: the requests that the clients of
    monitors and of pushes make. monitor.go and prometheuspush.go are one text over
    the resource; each method is written once, as the chain of calls on the request
    builder that it is, and both files' methods are its instances. What a server
    answers is an argument. *)
From S2P Require Import Prelude GoText GoNum GoPath GoHttp KubeApi RestClient.

(** The encoding of options and objects (k8s.io/apimachinery). A list's parameters
    say whether it is a watch, in "watch". *)
Class RestCodec (C : Type) := {
  GetOptions : Type;
  CreateOptions : Type;
  UpdateOptions : Type;
  PatchOptions : Type;
  DeleteOptions : Type;
  encode_GetOptions : GetOptions → result (gmap string (list string));
  encode_ListOptions : ListOptions → result (gmap string (list string));
  encode_CreateOptions : CreateOptions → result (gmap string (list string));
  encode_UpdateOptions : UpdateOptions → result (gmap string (list string));
  encode_PatchOptions : PatchOptions → result (gmap string (list string));
  encode_DeleteOptions : DeleteOptions → result (list ascii);
  encode_object : object C → result (list ascii)
}.

Class RestCodecLaws (C : Type) `{RestCodec C} : Prop :=
  encode_ListOptions_watch opts m :
    encode_ListOptions opts = Ok m → m !! "watch" = if list_Watch opts then Some ["true"] else None.

(** [r.Resource("monitors")] and the like. *)
Declare Scope rest_scope.
Notation "r ▷ f" := (f r) (at level 50, left associativity, only parsing) : rest_scope.

Section typed_client.
Context {C : Type} `{RestCodec C} `{UnicodeTables} (resource : string).
#[local] Open Scope rest_scope.
Implicit Types (c : RESTClient) (ns name : string).

(** The option's seconds times [time.Second], on 64 bits, or 0. *)
Definition list_timeout (opts : ListOptions) : Z :=
  match TimeoutSeconds opts with Some s => wrap64 (s * Second) | None => 0 end.

Definition typed_Get c ns name (options : GetOptions) : error + http_request :=
  RestNewRequest c "GET" ▷ Req_Namespace ns ▷ Req_Resource resource ▷ Req_Name name
    ▷ Req_VersionedParams (encode_GetOptions options) ▷ Req_Do.

Definition typed_List c ns (opts : ListOptions) : error + http_request :=
  RestNewRequest c "GET" ▷ Req_Namespace ns ▷ Req_Resource resource
    ▷ Req_VersionedParams (encode_ListOptions opts) ▷ Req_Timeout (list_timeout opts) ▷ Req_Do.

Definition with_Watch (opts : ListOptions) : ListOptions :=
  mkListOptions (LabelSelector opts) (FieldSelector opts) true (list_ResourceVersion opts) (TimeoutSeconds opts).

Definition typed_Watch c ns (opts : ListOptions) : error + http_request :=
  RestNewRequest c "GET" ▷ Req_Namespace ns ▷ Req_Resource resource
    ▷ Req_VersionedParams (encode_ListOptions (with_Watch opts)) ▷ Req_Timeout (list_timeout opts) ▷ Req_Watch.

Definition typed_Create c ns (o : object C) (opts : CreateOptions) : error + http_request :=
  RestNewRequest c "POST" ▷ Req_Namespace ns ▷ Req_Resource resource
    ▷ Req_VersionedParams (encode_CreateOptions opts) ▷ Req_Body (encode_object o) ▷ Req_Do.

Definition typed_Update c ns (o : object C) (opts : UpdateOptions) : error + http_request :=
  RestNewRequest c "PUT" ▷ Req_Namespace ns ▷ Req_Resource resource ▷ Req_Name (obj_Name o)
    ▷ Req_VersionedParams (encode_UpdateOptions opts) ▷ Req_Body (encode_object o) ▷ Req_Do.

Definition typed_UpdateStatus c ns (o : object C) (opts : UpdateOptions) : error + http_request :=
  RestNewRequest c "PUT" ▷ Req_Namespace ns ▷ Req_Resource resource ▷ Req_Name (obj_Name o)
    ▷ Req_SubResource ["status"]
    ▷ Req_VersionedParams (encode_UpdateOptions opts) ▷ Req_Body (encode_object o) ▷ Req_Do.

Definition typed_Delete c ns name (opts : DeleteOptions) : error + http_request :=
  RestNewRequest c "DELETE" ▷ Req_Namespace ns ▷ Req_Resource resource ▷ Req_Name name
    ▷ Req_Body (encode_DeleteOptions opts) ▷ Req_Do.

Definition typed_DeleteCollection c ns (opts : DeleteOptions) (listOpts : ListOptions) : error + http_request :=
  RestNewRequest c "DELETE" ▷ Req_Namespace ns ▷ Req_Resource resource
    ▷ Req_VersionedParams (encode_ListOptions listOpts) ▷ Req_Timeout (list_timeout listOpts)
    ▷ Req_Body (encode_DeleteOptions opts) ▷ Req_Do.

(** [c.client.Patch(pt)] sets the header of the patch's type. *)
Definition typed_Patch c ns name (pt : string) (data : list ascii) (opts : PatchOptions)
    (subresources : list string) : error + http_request :=
  let r := RestNewRequest c "PATCH" in
  set_headers r (Header_Set (r_headers r) "Content-Type" pt)
    ▷ Req_Namespace ns ▷ Req_Resource resource ▷ Req_Name name ▷ Req_SubResource subresources
    ▷ Req_VersionedParams (encode_PatchOptions opts) ▷ Req_Body_bytes data ▷ Req_Do.
End typed_client.

(** ** The two clients

    [send] is the transport: what comes of a request, an object, a list, a watch or
    the lack of an error. *)
Section clients.
Context {C : Type} `{RestCodec C} `{UnicodeTables}.

Definition Into {A} (send : http_request → error + A) (r : error + http_request) : error + A :=
  match r with inl err => inl err | inr h => send h end.

(** [monitors] and [prometheusPushes]. *)
Record typed_client := mkTypedClient { tc_client : RESTClient; tc_ns : string }.

Definition monitors_Get {A} (send : http_request → error + A) (c : typed_client) name options :=
  Into send (typed_Get "monitors" (tc_client c) (tc_ns c) name options).
Definition monitors_List {A} (send : http_request → error + A) (c : typed_client) opts :=
  Into send (typed_List "monitors" (tc_client c) (tc_ns c) opts).
Definition monitors_Watch {A} (send : http_request → error + A) (c : typed_client) opts :=
  Into send (typed_Watch "monitors" (tc_client c) (tc_ns c) opts).
Definition monitors_Create {A} (send : http_request → error + A) (c : typed_client) (monitor : object C) opts :=
  Into send (typed_Create "monitors" (tc_client c) (tc_ns c) monitor opts).
Definition monitors_Update {A} (send : http_request → error + A) (c : typed_client) (monitor : object C) opts :=
  Into send (typed_Update "monitors" (tc_client c) (tc_ns c) monitor opts).
Definition monitors_UpdateStatus {A} (send : http_request → error + A) (c : typed_client) (monitor : object C) opts :=
  Into send (typed_UpdateStatus "monitors" (tc_client c) (tc_ns c) monitor opts).
Definition monitors_Delete {A} (send : http_request → error + A) (c : typed_client) name opts :=
  Into send (typed_Delete "monitors" (tc_client c) (tc_ns c) name opts).
Definition monitors_DeleteCollection {A} (send : http_request → error + A) (c : typed_client) opts listOpts :=
  Into send (typed_DeleteCollection "monitors" (tc_client c) (tc_ns c) opts listOpts).
Definition monitors_Patch {A} (send : http_request → error + A) (c : typed_client) name pt data opts subs :=
  Into send (typed_Patch "monitors" (tc_client c) (tc_ns c) name pt data opts subs).

Definition prometheusPushes_Get {A} (send : http_request → error + A) (c : typed_client) name options :=
  Into send (typed_Get "prometheuspushes" (tc_client c) (tc_ns c) name options).
Definition prometheusPushes_List {A} (send : http_request → error + A) (c : typed_client) opts :=
  Into send (typed_List "prometheuspushes" (tc_client c) (tc_ns c) opts).
Definition prometheusPushes_Watch {A} (send : http_request → error + A) (c : typed_client) opts :=
  Into send (typed_Watch "prometheuspushes" (tc_client c) (tc_ns c) opts).
Definition prometheusPushes_Create {A} (send : http_request → error + A) (c : typed_client) (o : object C) opts :=
  Into send (typed_Create "prometheuspushes" (tc_client c) (tc_ns c) o opts).
Definition prometheusPushes_Update {A} (send : http_request → error + A) (c : typed_client) (o : object C) opts :=
  Into send (typed_Update "prometheuspushes" (tc_client c) (tc_ns c) o opts).
Definition prometheusPushes_UpdateStatus {A} (send : http_request → error + A) (c : typed_client) (o : object C) opts :=
  Into send (typed_UpdateStatus "prometheuspushes" (tc_client c) (tc_ns c) o opts).
Definition prometheusPushes_Delete {A} (send : http_request → error + A) (c : typed_client) name opts :=
  Into send (typed_Delete "prometheuspushes" (tc_client c) (tc_ns c) name opts).
Definition prometheusPushes_DeleteCollection {A} (send : http_request → error + A) (c : typed_client) opts listOpts :=
  Into send (typed_DeleteCollection "prometheuspushes" (tc_client c) (tc_ns c) opts listOpts).
Definition prometheusPushes_Patch {A} (send : http_request → error + A) (c : typed_client) name pt data opts subs :=
  Into send (typed_Patch "prometheuspushes" (tc_client c) (tc_ns c) name pt data opts subs).

(** kubemonitor.io.kubemonitor.io_client.go *)
Record KubemonitorV1Client := mkKubemonitorV1Client { restClient : RESTClient }.

Definition newMonitors (c : KubemonitorV1Client) (namespace : string) : typed_client :=
  mkTypedClient (restClient c) namespace.
Definition newPrometheusPushes (c : KubemonitorV1Client) (namespace : string) : typed_client :=
  mkTypedClient (restClient c) namespace.
Definition KubemonitorV1Client_Monitors := newMonitors.
Definition KubemonitorV1Client_PrometheusPushes := newPrometheusPushes.
End clients.

(** ** What the requests say

    A server reads the operation of a request from its method, the names of its path
    after those of the API's version, and whether it is a watch. *)
Record RequestInfo := mkRequestInfo {
  ri_Verb : string;
  ri_Namespace : string;
  ri_Resource : string;
  ri_Name : string;
  ri_Subresource : list string
}.

Definition verb_of (h : http_request) (named : bool) : string :=
  if decide (h_Method h = "GET") then
    if named then "get" else if decide (h_Query h !! "watch" = Some ["true"]) then "watch" else "list"
  else if decide (h_Method h = "POST") then "create"
  else if decide (h_Method h = "PUT") then "update"
  else if decide (h_Method h = "DELETE") then if named then "delete" else "deletecollection"
  else "patch".

Definition read_resource (h : http_request) (namespace : string) (names : list string) : option RequestInfo :=
  match names with
  | [] => None
  | [resource] => Some (mkRequestInfo (verb_of h false) namespace resource "" [])
  | resource :: name :: subs => Some (mkRequestInfo (verb_of h true) namespace resource name subs)
  end.

(** [base] is how many names come before the resource or its namespace. *)
Definition read_request (base : nat) (h : http_request) : option RequestInfo :=
  match drop base (path_names (h_Path h)) with
  | first :: namespace :: names =>
    if decide (first = "namespaces") then read_resource h namespace names
    else read_resource h "" (first :: namespace :: names)
  | names => read_resource h "" names
  end.

Section requests.
Context {C : Type} `{RestCodec C} `{UnicodeTables}.

Inductive operation :=
| OGet (ns name : string) (opts : GetOptions)
| OList (ns : string) (opts : ListOptions)
| OWatch (ns : string) (opts : ListOptions)
| OCreate (ns : string) (o : object C) (opts : CreateOptions)
| OUpdate (ns : string) (o : object C) (opts : UpdateOptions)
| OUpdateStatus (ns : string) (o : object C) (opts : UpdateOptions)
| ODelete (ns name : string) (opts : DeleteOptions)
| ODeleteCollection (ns : string) (opts : DeleteOptions) (listOpts : ListOptions)
| OPatch (ns name pt : string) (data : list ascii) (opts : PatchOptions) (subs : list string).

Definition request_of (resource : string) (c : RESTClient) (op : operation) : error + http_request :=
  match op with
  | OGet ns name opts => typed_Get resource c ns name opts
  | OList ns opts => typed_List resource c ns opts
  | OWatch ns opts => typed_Watch resource c ns opts
  | OCreate ns o opts => typed_Create resource c ns o opts
  | OUpdate ns o opts => typed_Update resource c ns o opts
  | OUpdateStatus ns o opts => typed_UpdateStatus resource c ns o opts
  | ODelete ns name opts => typed_Delete resource c ns name opts
  | ODeleteCollection ns opts listOpts => typed_DeleteCollection resource c ns opts listOpts
  | OPatch ns name pt data opts subs => typed_Patch resource c ns name pt data opts subs
  end.

(** The operation that was asked for; a list that asks to watch is a watch. *)
Definition info_of (resource : string) (op : operation) : RequestInfo :=
  match op with
  | OGet ns name _ => mkRequestInfo "get" ns resource name []
  | OList ns opts => mkRequestInfo (if list_Watch opts then "watch" else "list") ns resource "" []
  | OWatch ns _ => mkRequestInfo "watch" ns resource "" []
  | OCreate ns _ _ => mkRequestInfo "create" ns resource "" []
  | OUpdate ns o _ => mkRequestInfo "update" ns resource (obj_Name o) []
  | OUpdateStatus ns o _ => mkRequestInfo "update" ns resource (obj_Name o) ["status"]
  | ODelete ns name _ => mkRequestInfo "delete" ns resource name []
  | ODeleteCollection ns _ _ => mkRequestInfo "deletecollection" ns resource "" []
  | OPatch ns name _ _ _ subs => mkRequestInfo "patch" ns resource name (filter (λ s, s ≠ "") subs)
  end.

(** What a client refuses to send. *)
Definition valid_name (name : string) : Prop := name ≠ "" ∧ IsValidPathSegmentName name = [].

Definition sendable (op : operation) : Prop :=
  IsValidPathSegmentName (ri_Namespace (info_of "" op)) = [] ∧
  match op with
  | OGet ns name opts => ns ≠ "" ∧ valid_name name ∧ is_ok (encode_GetOptions opts)
  | OList ns opts => is_ok (encode_ListOptions opts)
  | OWatch ns opts => is_ok (encode_ListOptions (with_Watch opts))
  | OCreate ns o opts => ns ≠ "" ∧ is_ok (encode_CreateOptions opts) ∧ is_ok (encode_object o)
  | OUpdate ns o opts | OUpdateStatus ns o opts =>
    ns ≠ "" ∧ valid_name (obj_Name o) ∧ is_ok (encode_UpdateOptions opts) ∧ is_ok (encode_object o)
  | ODelete ns name opts => ns ≠ "" ∧ valid_name name ∧ is_ok (encode_DeleteOptions opts)
  | ODeleteCollection ns opts listOpts => is_ok (encode_ListOptions listOpts) ∧ is_ok (encode_DeleteOptions opts)
  | OPatch ns name pt data opts subs =>
    valid_name name ∧ Forall (λ s, IsValidPathSegmentName s = []) subs ∧ is_ok (encode_PatchOptions opts)
  end.

(** A resource as this group has them. *)
Definition plain_resource (resource : string) : Prop :=
  IsValidPathSegmentName resource = [] ∧ resource ≠ "" ∧ strings_ToLower resource = resource ∧ resource ≠ "namespaces".

(** *** Building a request *)

Definition method_of (op : operation) : string :=
  match op with
  | OGet _ _ _ | OList _ _ | OWatch _ _ => "GET"
  | OCreate _ _ _ => "POST"
  | OUpdate _ _ _ | OUpdateStatus _ _ _ => "PUT"
  | ODelete _ _ _ | ODeleteCollection _ _ _ => "DELETE"
  | OPatch _ _ _ _ _ _ => "PATCH"
  end.

Definition subresource_of (op : operation) : string :=
  match op with
  | OUpdateStatus _ _ _ => path_Join ["status"]
  | OPatch _ _ _ _ _ subs => path_Join subs
  | _ => ""
  end.

Definition watch_of (op : operation) : option (list string) :=
  match op with
  | OWatch _ _ => Some ["true"]
  | OList _ opts => if list_Watch opts then Some ["true"] else None
  | _ => None
  end.

(** The request of an operation on a resource, before it is sent. *)
Definition built (resource : string) (c : RESTClient) (op : operation) (r : RestRequest) : Prop :=
  let info := info_of resource op in
  r_verb r = method_of op ∧ r_pathPrefix r = path_Join ["/"; base_Path c; versionedAPIPath c] ∧
  r_subpath r = "" ∧ r_namespace r = ri_Namespace info ∧ r_namespaceSet r = true ∧ r_resource r = resource ∧
  r_resourceName r = ri_Name info ∧ r_subresource r = subresource_of op ∧
  (sendable op → (∃ ns opts, op = OList ns opts ∨ op = OWatch ns opts) → r_params r !! "watch" = watch_of op).

(** The chain of setters of an operation, and what is left to send. *)
Ltac chain :=
  lazymatch goal with
  | |- becomes (Req_Body _ _) _ _ => eapply Body_becomes; chain
  | |- becomes (Req_Body_bytes _ _) _ _ => eapply Body_bytes_becomes; chain
  | |- becomes (Req_Timeout _ _) _ _ => eapply Timeout_becomes; chain
  | |- becomes (Req_VersionedParams _ _) _ _ => eapply VersionedParams_becomes; chain
  | |- becomes (Req_SubResource _ _) _ _ => eapply SubResource_becomes; [chain|reflexivity]
  | |- becomes (Req_Name _ _) _ _ => eapply Name_becomes; [chain|reflexivity]
  | |- becomes (Req_Resource _ _) _ _ => eapply Resource_becomes; [chain|reflexivity]
  | |- becomes (Req_Namespace _ _) _ _ => eapply Namespace_becomes; [chain|reflexivity]
  | |- becomes _ _ _ => apply becomes_start; reflexivity
  end.

Lemma sent_by_Do resource c op V e r : becomes r V e → built resource c op e → (method_of op ∈ ["GET"; "POST"; "PUT"; "PATCH"; "DELETE"]) →
  (V ∧ passes (ri_Namespace (info_of resource op)) (method_of op) (ri_Name (info_of resource op)) ↔ sendable op) →
  match Req_Do r with
  | inl _ => ¬ sendable op
  | inr h => sendable op ∧ ∃ r, built resource c op r ∧ h_Method h = r_verb r ∧ h_Path h = Req_Path r ∧ h_Query h = Req_Query r
  end.
Proof.
  intros Hr Hb Hm HV. pose proof Hb as (Hv & _ & _ & Hns & Hset & _ & Hname & _).
  pose proof (Do_becomes V e r Hr Hset) as Hdo. rewrite Hv, Hns, Hname in Hdo. specialize (Hdo Hm).
  destruct (Req_Do r); [by rewrite <- HV|]. destruct Hdo as [Hs ->]. split; [by apply HV|]. by exists e.
Qed.

Lemma status_valid : Forall (λ s, IsValidPathSegmentName s = []) ["status"].
Proof. by apply Forall_singleton. Qed.

Lemma union_with_empty (m : gmap string (list string)) :
  union_with (λ old new, Some (old ++ new)) ∅ m = m.
Proof. apply map_eq. intros k. rewrite lookup_union_with, lookup_empty. by destruct (m !! k). Qed.

(** The parameters of a list or a watch. *)
Lemma list_watch_param `{!RestCodecLaws C} opts m :
  is_ok (encode_ListOptions opts) → m = ∅ →
  union_with (λ old new, Some (old ++ new)) m (ok_value ∅ (encode_ListOptions opts)) !! "watch" =
  if list_Watch opts then Some ["true"] else None.
Proof.
  intros [ps Hps] ->. rewrite union_with_empty, Hps. simpl. by apply encode_ListOptions_watch.
Qed.

Ltac sent := eapply sent_by_Do; [chain| | |];
  [split_and!; try reflexivity | by apply (bool_decide_unpack _) |
   pose proof status_valid; unfold sendable, valid_name, passes; simpl; intuition congruence].

Lemma request_built `{!RestCodecLaws C} resource c op : plain_resource resource →
  match request_of resource c op with
  | inl _ => ¬ sendable op
  | inr h => sendable op ∧ ∃ r, built resource c op r ∧ h_Method h = r_verb r ∧ h_Path h = Req_Path r ∧ h_Query h = Req_Query r
  end.
Proof.
  intros (Hr & Hne & _). destruct op; cbn [request_of].
  - unfold typed_Get. sent; naive_solver.
  - unfold typed_List. sent. intros [_ Hs] _. by apply list_watch_param.
  - unfold typed_Watch.
    match goal with |- match Req_Watch ?r with _ => _ end => eassert (becomes r _ _) as Hb by chain end.
    apply Watch_becomes in Hb. destruct (Req_Watch _) as [err|h].
    + unfold sendable. simpl. tauto.
    + destruct Hb as [HV ->]. assert (Hs : sendable (OWatch ns opts)) by (unfold sendable; simpl; tauto).
      split; [done|]. eexists. split; [|split_and!; reflexivity]. split_and!; try reflexivity.
      intros _ _. destruct Hs as [_ Hs]. by apply (list_watch_param (with_Watch opts)).
  - unfold typed_Create. sent; naive_solver.
  - unfold typed_Update. sent; naive_solver.
  - unfold typed_UpdateStatus. sent; naive_solver.
  - unfold typed_Delete. sent; naive_solver.
  - unfold typed_DeleteCollection. sent; naive_solver.
  - unfold typed_Patch. sent; naive_solver.
Qed.
(** *** Reading it back *)

(** The path of a client's base and of its API's version. *)
Definition plain_client (c : RESTClient) : Prop := plain_path (base_Path c) ∧ plain_path (versionedAPIPath c).

Definition client_names (c : RESTClient) : list string := path_names (base_Path c) ++ path_names (versionedAPIPath c).

Definition operation_names (resource : string) (op : operation) : list string :=
  let info := info_of resource op in
  (if decide (ri_Namespace info = "") then [] else ["namespaces"; ri_Namespace info]) ++
  resource :: (if decide (ri_Name info = "") then [] else ri_Name info :: ri_Subresource info).

Lemma path_names_segments p : plain_path p → Forall segment (path_names p).
Proof.
  intros Hp. apply Forall_forall. intros e [Hne Hin]%list_elem_of_filter.
  pose proof (proj1 (Forall_forall _ _) Hp e Hin) as [|?]; done.
Qed.

Lemma valid_segment name : IsValidPathSegmentName name = [] → name ≠ "" → segment name.
Proof. intros Hv Hn. by destruct (IsValidPathSegmentName_segment _ Hv). Qed.

Lemma status_segment : segment "status".
Proof. by apply (bool_decide_unpack (segment "status")). Qed.

Lemma namespaces_segment : segment "namespaces".
Proof. by apply (bool_decide_unpack (segment "namespaces")). Qed.

Lemma sendable_names resource op : sendable op →
  let info := info_of resource op in
  (ri_Namespace info = "" ∨ segment (ri_Namespace info)) ∧ (ri_Name info = "" ∨ segment (ri_Name info)) ∧
  plain_path (subresource_of op) ∧ path_names (subresource_of op) = ri_Subresource info ∧
  Forall segment (ri_Subresource info) ∧ (ri_Name info = "" → ri_Subresource info = []).
Proof.
  intros [Hns Hop]. assert (Hn : ∀ name, valid_name name → name = "" ∨ segment name).
  { intros name [_ Hv]. by apply IsValidPathSegmentName_segment. }
  assert (Hempty : plain_path "" ∧ path_names "" = []) by (apply (segment_names ""); by left).
  split; [by destruct op; apply IsValidPathSegmentName_segment|].
  destruct op; simpl in *; try (split_and!; [first [by left | apply Hn; first [tauto | by split]]|apply Hempty|done|constructor|done]).
  - split_and!; [first [by left | apply Hn; first [tauto | by split]]| | |by apply Forall_singleton, status_segment|].
    + apply path_Join_names. apply Forall_singleton. right. apply status_segment.
    + apply path_Join_names. apply Forall_singleton. right. apply status_segment.
    + intros Hname. destruct Hop as (_ & [? _] & _). done.
  - destruct Hop as ([Hne Hv] & Hsubs & _).
    assert (Hes : Forall (λ e, e = "" ∨ segment e) subs).
    { eapply Forall_impl; [exact Hsubs|]. intros s. apply IsValidPathSegmentName_segment. }
    destruct (path_Join_names _ Hes) as [Hp Hf]. split_and!; [first [by left | apply Hn; first [tauto | by split]]|done|done| |done].
    rewrite <- Hf. by apply path_names_segments.
Qed.

Lemma built_path resource c op r : plain_resource resource → plain_client c → sendable op → built resource c op r →
  Req_Path r = absolute (client_names c ++ operation_names resource op).
Proof.
  intros (Hres & Hresne & Hlow & Hresns) [Hbase Hversion] Hsend Hb.
  destruct Hb as (_ & Hpre & Hsubp & Hns & Hset & Hr & Hname & Hsub & _).
  destruct (sendable_names resource op Hsend) as (Sns & Sname & Ssub & Esub & Fsub & Nsub).
  unfold Req_Path, operation_names. rewrite Hpre, Hsubp, Hset, Hr, Hlow, Hns, Hname, Hsub.
  set (info := info_of resource op) in *. simpl andb.
  change "/" with (absolute []). rewrite path_Join_plain by (repeat constructor; done).
  rewrite !fmap_cons, !mjoin_cons. simpl mjoin. rewrite app_nil_r. simpl app. fold (client_names c).
  assert (Hclient : Forall segment (client_names c)).
  { apply Forall_app. split; by apply path_names_segments. }
  assert (Sns' : Forall segment (if decide (ri_Namespace info = "") then [] else ["namespaces"; ri_Namespace info])).
  { case_decide; [constructor|]. apply Forall_cons. split; [apply namespaces_segment|]. apply Forall_singleton. by destruct Sns. }
  replace (if bool_decide (ri_Namespace info ≠ "") then _ else _) with
    (absolute (client_names c ++ if decide (ri_Namespace info = "") then [] else ["namespaces"; ri_Namespace info])).
  2: { case_bool_decide; case_decide; try done; [|by rewrite app_nil_r].
       rewrite path_Join_absolute; [|done|].
       - by rewrite filter_segments.
       - eapply Forall_impl; [exact Sns'|by right]. }
  rewrite (decide_True (P:=resource ≠ "")) by done.
  assert (Hsr : segment resource) by (by apply valid_segment).
  rewrite path_Join_absolute; [|by apply Forall_app|apply Forall_singleton; by right].
  rewrite filter_cons_True, filter_nil by done. rewrite <- !app_assoc.
  set (X := client_names c ++ _ ++ [resource]).
  assert (HX : Forall segment X) by (apply Forall_app; split; [done|]; apply Forall_app; split; [done|by apply Forall_singleton]).
  assert (Htail : mjoin (path_names <$> [ri_Name info; subresource_of op; ""]) =
    if decide (ri_Name info = "") then [] else ri_Name info :: ri_Subresource info).
  { rewrite !fmap_cons, !mjoin_cons, Esub, (proj2 (segment_names _ Sname)). simpl. rewrite app_nil_r.
    destruct (decide (ri_Name info = "")) as [Hn|Hn].
    - rewrite Nsub, Hn by done. done.
    - by rewrite filter_cons_True. }
  transitivity (absolute (X ++ if decide (ri_Name info = "") then [] else ri_Name info :: ri_Subresource info)).
  - destruct (decide (ri_Name info ≠ "" ∨ "" ≠ "" ∨ subresource_of op ≠ "")) as [Hany|Hany].
    + rewrite path_Join_plain, Htail; [done|done|]. apply Forall_cons. split; [by apply segment_names|].
      apply Forall_cons. split; [done|]. apply Forall_singleton, segment_names. by left.
    + rewrite decide_True by (apply dec_stable; tauto). by rewrite app_nil_r.
  - unfold X. by rewrite <- !app_assoc.
Qed.
Lemma request_segments resource c op : plain_resource resource → plain_client c → sendable op →
  Forall segment (client_names c ++ operation_names resource op).
Proof.
  intros Hres Hc Hsend. destruct (sendable_names resource op Hsend) as (Sns & Sname & _ & _ & Fsub & _).
  destruct Hc. apply Forall_app. split; [apply Forall_app; split; by apply path_names_segments|].
  unfold operation_names. apply Forall_app. split.
  - case_decide; [constructor|]. apply Forall_cons. split; [apply namespaces_segment|]. apply Forall_singleton. by destruct Sns.
  - apply Forall_cons. split; [by destruct Hres as (? & ? & _); apply valid_segment|].
    case_decide; [constructor|]. apply Forall_cons. split; [by destruct Sname|done].
Qed.

(** C23: What a client sends is what was asked for: a server that knows where the API's path
    begins reads the verb, the namespace, the resource, the name and the subresources of the operation
    back from the method, the path and the query of its request. *)
Theorem requests_read_back `{!RestCodecLaws C} resource c op h :
  plain_resource resource → plain_client c → request_of resource c op = inr h →
  read_request (length (client_names c)) h = Some (info_of resource op).
Proof.
  intros Hres Hc Hreq. pose proof (request_built resource c op Hres) as Hb. rewrite Hreq in Hb.
  destruct Hb as (Hsend & r & Hb & Hm & Hp & Hq). pose proof (built_path resource c op r Hres Hc Hsend Hb) as Hpath.
  destruct Hb as (Hv & _ & _ & _ & _ & _ & _ & _ & Hw). rewrite Hv in Hm.
  destruct (sendable_names resource op Hsend) as (Sns & Sname & _ & _ & Fsub & Nsub).
  pose proof (request_segments resource c op Hres Hc Hsend) as Hseg.
  unfold read_request. rewrite Hp, Hpath, (proj1 (path_names_absolute _ Hseg)), drop_app_length.
  assert (Hread : ∀ names, names = resource :: (if decide (ri_Name (info_of resource op) = "") then [] else
      ri_Name (info_of resource op) :: ri_Subresource (info_of resource op)) →
    read_resource h (ri_Namespace (info_of resource op)) names = Some (info_of resource op)).
  { intros names ->. assert (Hquery : (∃ ns opts, op = OList ns opts ∨ op = OWatch ns opts) →
      h_Query h !! "watch" = watch_of op).
    { intros Hop. rewrite Hq. unfold Req_Query. case_decide; [rewrite lookup_insert_ne by done|]; by apply Hw. }
    clear -Hm Hquery Hsend. destruct Hsend as [_ Hop].
    destruct op; simpl in *; unfold verb_of; rewrite Hm;
      try (rewrite decide_False by (unfold valid_name in *; tauto)); unfold verb_of; rewrite ?Hm; try reflexivity.
    - rewrite Hquery by eauto. simpl. by destruct (list_Watch opts).
    - rewrite Hquery by eauto. reflexivity. }
  unfold operation_names. destruct (decide (ri_Namespace (info_of resource op) = "")) as [Hns|Hns]; simpl app.
  - rewrite Hns in Hread. destruct (decide (ri_Name (info_of resource op) = "")) as [Hn|Hn]; [by rewrite Hread|].
    rewrite decide_False by apply Hres. by apply Hread.
  - by apply Hread.
Qed.

(** C33: A client refuses exactly the operations whose names cannot be segments of a path, that
    need a namespace or a name and have none, or whose options or object have no encoding; it
    sends the others. *)
Theorem requests_refused `{!RestCodecLaws C} resource c op : plain_resource resource →
  (∃ h, request_of resource c op = inr h) ↔ sendable op.
Proof.
  intros Hres. pose proof (request_built resource c op Hres) as Hb. destruct (request_of resource c op) as [err|h].
  - split; [by intros []|done].
  - destruct Hb as [Hs _]. split; [done|]. by exists h.
Qed.

(** The time that a list is given is the one asked for, unless it does not fit the
    nanoseconds of a duration. *)
Theorem list_timeout_seconds opts s :
  TimeoutSeconds opts = Some s → (0 ≤ s ≤ 9223372036)%Z → list_timeout opts = (s * Second)%Z.
Proof.
  intros Hs Hle. unfold list_timeout. rewrite Hs. apply wrap64_id. unfold is_int64.
  change Second with 1000000000%Z. lia.
Qed.

Example list_timeout_wraps : (list_timeout (mkListOptions "" "" false "" (Some 9223372037)) < 0)%Z.
Proof. reflexivity. Qed.
End requests.

(** ** Witnesses *)

Module client_demo.

#[export] Instance demo_tables : UnicodeTables := ascii_tables.

(** Options without content, and objects whose encoding is their name. *)
#[export] Instance names_codec : RestCodec unit := {|
  GetOptions := unit; CreateOptions := unit; UpdateOptions := unit; PatchOptions := unit; DeleteOptions := unit;
  encode_GetOptions _ := Ok ∅;
  encode_ListOptions opts := Ok (if list_Watch opts then {["watch" := ["true"]]} else ∅);
  encode_CreateOptions _ := Ok ∅;
  encode_UpdateOptions _ := Ok ∅;
  encode_PatchOptions _ := Ok ∅;
  encode_DeleteOptions _ := Ok [];
  encode_object o := Ok (bytes_of (obj_Name o))
|}.

#[export] Instance names_codec_laws : RestCodecLaws unit.
Proof. intros opts m. simpl. intros [= <-]. by destruct (list_Watch opts). Qed.

Lemma monitors_plain : plain_resource "monitors".
Proof. by split_and!. Qed.

(** A server behind a prefix. *)
Definition proxied : RESTClient :=
  NewRESTClient "/proxy/k8s" (DefaultVersionedAPIPath "/apis" SchemeGroupVersion) "" "" 0.

Lemma proxied_plain : plain_client proxied.
Proof. split; by apply (bool_decide_unpack (plain_path _)). Qed.

Definition patch_status : operation (C:=unit) := OPatch "prod" "redis" "merge" [] tt ["status"].
Definition patch_request : http_request :=
  match request_of "monitors" proxied patch_status with inr h => h | inl _ => mkHttpRequest "" "" ∅ ∅ None 0 end.

Lemma requests_read_back_witness :
  h_Path patch_request = "/proxy/k8s/apis/kubemonitor.io.kubemonitor.io/v1/namespaces/prod/monitors/redis/status" ∧
  read_request (length (client_names proxied)) patch_request =
    Some (mkRequestInfo "patch" "prod" "monitors" "redis" ["status"]).
Proof.
  split; [vm_compute; reflexivity|].
  apply (requests_read_back "monitors" proxied patch_status); [apply monitors_plain|apply proxied_plain|vm_compute; reflexivity].
Defined.

Lemma requests_refused_witness :
  (∃ h, request_of "monitors" proxied patch_status = inr h) ↔ sendable patch_status.
Proof. apply (requests_refused "monitors" proxied patch_status), monitors_plain. Defined.

(** A name with a slash, and one that would climb the path, are not sent. *)
Example slash_refused : ∃ err, request_of "monitors" proxied (OGet "prod" "a/b" tt) = inl err.
Proof. eexists. vm_compute. reflexivity. Qed.

Example dots_refused : ∃ err, request_of "monitors" proxied (ODelete ".." "redis" tt) = inl err.
Proof. eexists. vm_compute. reflexivity. Qed.

End client_demo.
