(* ===== verification/Clientset.v ===== *)
(** * The clientset

    pkg/generated/clientset/versioned/clientset.go and the client of the API group: how a
    configuration becomes the two clients of a clientset, the group's and the
    discovery's, which share the HTTP client and, when the clientset makes one, the rate
    limiter. A configuration is a value that each constructor copies before it changes it.
    RESTClientForConfigAndClient of the vendored rest package is translated; reading the
    server's address, making HTTP clients and the discovery client are parameters. *)
From Stdlib Require Import SpecFloat.
From S2P Require Import Prelude GoText GoNum GoPath KubeApi RestClient TypedClient.

(** A token bucket; each call that makes one makes a new one, [limiter_id]. *)
Record RateLimiter := mkRateLimiter { limiter_id : nat; limiter_qps : spec_float; limiter_burst : Z }.

(** [rest.Config], the fields that are looked at. *)
Record Config := mkConfig {
  cfg_Host : string;
  cfg_APIPath : string;
  cfg_GroupVersion : option GroupVersion;
  cfg_NegotiatedSerializer : bool;
  cfg_AcceptContentTypes : string;
  cfg_ContentType : string;
  cfg_UserAgent : string;
  cfg_QPS : spec_float;
  cfg_Burst : Z;
  cfg_RateLimiter : option RateLimiter;
  cfg_Timeout : Z
}.

Definition with_UserAgent (c : Config) (agent : string) : Config :=
  mkConfig (cfg_Host c) (cfg_APIPath c) (cfg_GroupVersion c) (cfg_NegotiatedSerializer c) (cfg_AcceptContentTypes c)
    (cfg_ContentType c) agent (cfg_QPS c) (cfg_Burst c) (cfg_RateLimiter c) (cfg_Timeout c).

Definition with_RateLimiter (c : Config) (l : option RateLimiter) : Config :=
  mkConfig (cfg_Host c) (cfg_APIPath c) (cfg_GroupVersion c) (cfg_NegotiatedSerializer c) (cfg_AcceptContentTypes c)
    (cfg_ContentType c) (cfg_UserAgent c) (cfg_QPS c) (cfg_Burst c) l (cfg_Timeout c).

(** What is outside: the path of the URL that a host stands for, the HTTP client of a
    configuration (its identity and timeout), and the discovery client. *)
Class ClientEnv := {
  DefaultServerUrlFor : Config → result string;
  http_client : Type;
  http_timeout : http_client → Z;
  HTTPClientFor : Config → result http_client;
  DefaultKubernetesUserAgent : string;
  discovery_client : Type;
  NewDiscoveryClientForConfigAndClient : Config → http_client → result discovery_client
}.

Section clientset.
Context `{ClientEnv}.
Implicit Types (c : Config) (next : nat).

Definition DefaultQPS : spec_float := float_of_Z 5.
Definition DefaultBurst : Z := 10.

Definition f_positive (q : spec_float) : bool := SFltb f_zero q.

(** The limiters are numbered by [next]. *)
Definition NewTokenBucketRateLimiter (qps : spec_float) (burst : Z) next : RateLimiter * nat :=
  (mkRateLimiter next qps burst, S next).

(** A REST client with the limiter that throttles it and the HTTP client that it uses. *)
Record rest_client := mkRestClient {
  rc_client : RESTClient;
  rc_limiter : option RateLimiter;
  rc_http : http_client
}.

Definition RESTClientForConfigAndClient c (h : http_client) next : result (rest_client * nat) :=
  match cfg_GroupVersion c with
  | None => Err (Errorf "GroupVersion is required when initializing a RESTClient")
  | Some gv =>
    if negb (cfg_NegotiatedSerializer c) then
      Err (Errorf "NegotiatedSerializer is required when initializing a RESTClient")
    else
      match DefaultServerUrlFor c with
      | Err err => Err err
      | Ok baseURL_Path =>
        let versionedAPIPath := DefaultVersionedAPIPath (cfg_APIPath c) gv in
        let '(rateLimiter, next) :=
          match cfg_RateLimiter c with
          | Some l => (Some l, next)
          | None =>
            let qps := if SFeqb (cfg_QPS c) f_zero then DefaultQPS else cfg_QPS c in
            let burst := if decide (cfg_Burst c = 0%Z) then DefaultBurst else cfg_Burst c in
            if f_positive qps then let '(l, next) := NewTokenBucketRateLimiter qps burst next in (Some l, next)
            else (None, next)
          end in
        Ok (mkRestClient (NewRESTClient baseURL_Path versionedAPIPath (cfg_ContentType c) (cfg_AcceptContentTypes c) (http_timeout h))
              rateLimiter h, next)
      end
  end.

(** ** The group's client *)

Definition setConfigDefaults c : Config :=
  mkConfig (cfg_Host c) "/apis" (Some SchemeGroupVersion) true (cfg_AcceptContentTypes c) (cfg_ContentType c)
    (if decide (cfg_UserAgent c = "") then DefaultKubernetesUserAgent else cfg_UserAgent c)
    (cfg_QPS c) (cfg_Burst c) (cfg_RateLimiter c) (cfg_Timeout c).

(** kubemonitor.io.kubemonitor.io_client.go *)
Definition group_NewForConfigAndClient c (h : http_client) next : result (rest_client * nat) :=
  RESTClientForConfigAndClient (setConfigDefaults c) h next.

Definition group_NewForConfig c next : result (rest_client * nat) :=
  let config := setConfigDefaults c in
  match HTTPClientFor config with
  | Err err => Err err
  | Ok httpClient => group_NewForConfigAndClient config httpClient next
  end.

Definition group_NewForConfigOrDie c next : outcome (rest_client * nat) :=
  match group_NewForConfig c next with Err err => Panic "NewForConfigOrDie" | Ok client => Done client end.

(** ** The clientset *)

Record clientset := mkClientset { DiscoveryClient : discovery_client; kubemonitorV1 : rest_client }.

Definition NewForConfigAndClient c (httpClient : http_client) next : result (clientset * nat) :=
  let limited :=
    match cfg_RateLimiter c with
    | Some _ => Ok (c, next)
    | None =>
      if f_positive (cfg_QPS c) then
        if decide (cfg_Burst c ≤ 0)%Z then
          Err (Errorf "burst is required to be greater than 0 when RateLimiter is not set and QPS is set to greater than 0")
        else let '(l, next) := NewTokenBucketRateLimiter (cfg_QPS c) (cfg_Burst c) next in Ok (with_RateLimiter c (Some l), next)
      else Ok (c, next)
    end in
  match limited with
  | Err err => Err err
  | Ok (configShallowCopy, next) =>
    match group_NewForConfigAndClient configShallowCopy httpClient next with
    | Err err => Err err
    | Ok (group, next) =>
      match NewDiscoveryClientForConfigAndClient configShallowCopy httpClient with
      | Err err => Err err
      | Ok disc => Ok (mkClientset disc group, next)
      end
    end
  end.

Definition NewForConfig c next : result (clientset * nat) :=
  let configShallowCopy :=
    with_UserAgent c (if decide (cfg_UserAgent c = "") then DefaultKubernetesUserAgent else cfg_UserAgent c) in
  match HTTPClientFor configShallowCopy with
  | Err err => Err err
  | Ok httpClient => NewForConfigAndClient configShallowCopy httpClient next
  end.

Definition NewForConfigOrDie c next : outcome (clientset * nat) :=
  match NewForConfig c next with Err err => Panic "NewForConfigOrDie" | Ok cs => Done cs end.

(** [KubemonitorV1()] and the clients that it gives. *)
Definition KubemonitorV1 (cs : clientset) : KubemonitorV1Client := mkKubemonitorV1Client (rc_client (kubemonitorV1 cs)).

(** ** What they make *)

Lemma RESTClientForConfigAndClient_Ok c h next rc next' :
  RESTClientForConfigAndClient c h next = Ok (rc, next') →
  ∃ gv base, cfg_GroupVersion c = Some gv ∧ DefaultServerUrlFor c = Ok base ∧ rc_http rc = h ∧
    rc_client rc = NewRESTClient base (DefaultVersionedAPIPath (cfg_APIPath c) gv) (cfg_ContentType c)
                     (cfg_AcceptContentTypes c) (http_timeout h) ∧
    (∀ l, cfg_RateLimiter c = Some l → rc_limiter rc = Some l).
Proof.
  unfold RESTClientForConfigAndClient, NewTokenBucketRateLimiter. intros Hrc.
  destruct (cfg_GroupVersion c) as [gv|], (cfg_NegotiatedSerializer c), (DefaultServerUrlFor c) as [base|err] eqn:Hbase;
    simplify_eq/=.
  exists gv, base. destruct (cfg_RateLimiter c) as [l|]; [|destruct (f_positive _)]; simplify_eq/=; by split_and!.
Qed.

(** One limiter: a clientset whose configuration has a limiter, or a rate of requests, throttles
    the group's client with the limiter that is in the configuration of the discovery client, on
    the same HTTP client; a rate without a burst is an error. *)
Theorem clientset_shares_limiter c h next cs next' :
  NewForConfigAndClient c h next = Ok (cs, next') → cfg_RateLimiter c ≠ None ∨ f_positive (cfg_QPS c) = true →
  ∃ l, NewDiscoveryClientForConfigAndClient (with_RateLimiter c (Some l)) h = Ok (DiscoveryClient cs) ∧
    rc_limiter (kubemonitorV1 cs) = Some l ∧ rc_http (kubemonitorV1 cs) = h ∧
    (cfg_RateLimiter c = Some l ∨ cfg_RateLimiter c = None ∧ l = mkRateLimiter next (cfg_QPS c) (cfg_Burst c) ∧ (0 < cfg_Burst c)%Z).
Proof.
  unfold NewForConfigAndClient, NewTokenBucketRateLimiter. intros Hnew Hlim.
  destruct (cfg_RateLimiter c) as [l|] eqn:Hl.
  - exists l. replace (with_RateLimiter c (Some l)) with c by (destruct c; simpl in *; by subst).
    destruct (group_NewForConfigAndClient c h next) as [[group n]|] eqn:Hg; [|done].
    destruct (NewDiscoveryClientForConfigAndClient _ _) eqn:Hd; simplify_eq/=.
    apply RESTClientForConfigAndClient_Ok in Hg as (gv & base & _ & _ & Hh & _ & Hlimit). split_and!; [done|apply Hlimit; by rewrite <- Hl|done|by left].
  - destruct Hlim as [|Hq]; [done|]. rewrite Hq in Hnew. destruct (decide (cfg_Burst c ≤ 0)%Z); [done|].
    eexists. destruct (group_NewForConfigAndClient _ h _) as [[group n1]|] eqn:Hg; [|done].
    destruct (NewDiscoveryClientForConfigAndClient _ _) eqn:Hd; simplify_eq/=.
    apply RESTClientForConfigAndClient_Ok in Hg as (gv & base & _ & _ & Hh & _ & Hlimit).
    split_and!; [done|by apply Hlimit|done|right; split_and!; [done..|lia]].
Qed.

Lemma plain_add_slash base : plain_path base →
  plain_path (if HasSuffix base "/" then base else base +:+ "/") ∧
  path_names (if HasSuffix base "/" then base else base +:+ "/") = path_names base.
Proof.
  intros Hb. destruct (HasSuffix base "/"); [done|]. unfold plain_path, path_names.
  rewrite (Split_app_any "/" base ""). split.
  - apply Forall_app. split; [done|]. apply Forall_singleton. by left.
  - rewrite filter_app. by rewrite app_nil_r.
Qed.

(** From a configuration to the server: what the clients of a clientset send goes to the path of
    the configured host (when it has no "." or ".."), then "apis", the group and its version, then what the operation names. *)
Theorem clientset_sends_to_the_group `{RestCodec C, UnicodeTables, !RestCodecLaws C} c next cs next' resource op h :
  NewForConfig c next = Ok (cs, next') → plain_resource resource →
  request_of resource (restClient (KubemonitorV1 cs)) op = inr h →
  ∃ c' base, DefaultServerUrlFor c' = Ok base ∧ cfg_Host c' = cfg_Host c ∧ (plain_path base →
    path_names (h_Path h) =
      path_names base ++ ["apis"; Group SchemeGroupVersion; Version SchemeGroupVersion] ++ operation_names resource op ∧
    read_request (length (path_names base) + 3) h = Some (info_of resource op)).
Proof.
  unfold NewForConfig, NewForConfigAndClient, NewTokenBucketRateLimiter. intros Hnew Hres Hreq.
  destruct (HTTPClientFor _) as [hc|]; [|done].
  assert (Hgroup : ∃ c1 n n', cfg_Host c1 = cfg_Host c ∧ group_NewForConfigAndClient c1 hc n = Ok (kubemonitorV1 cs, n')).
  { revert Hnew. set (c1 := with_UserAgent c _). assert (Hc1 : cfg_Host c1 = cfg_Host c) by done. clearbody c1. intros Hnew.
    destruct (match cfg_RateLimiter c1 with Some _ => _ | None => _ end) as [[c2 n]|] eqn:Hl; [|done].
    assert (Hc2 : cfg_Host c2 = cfg_Host c) by (inv_matches; done).
    destruct (group_NewForConfigAndClient c2 hc n) as [[group n']|] eqn:Hg; [|done].
    destruct (NewDiscoveryClientForConfigAndClient _ _); simplify_eq/=. eauto. }
  destruct Hgroup as (c1 & n & n' & Hhost & Hg).
  apply RESTClientForConfigAndClient_Ok in Hg as (gv & base & [= <-] & Hbase & _ & Hrc & _).
  exists (setConfigDefaults c1), base. split; [done|]. split; [done|]. intros Hplain.
  unfold KubemonitorV1 in Hreq. simpl in Hreq. rewrite Hrc in Hreq. clear Hnew Hrc.
  set (rc := NewRESTClient _ _ _ _ _) in Hreq.
  destruct (plain_add_slash base Hplain) as [Hpb Hnb].
  assert (Hv : plain_path (versionedAPIPath rc)) by by apply (bool_decide_unpack (plain_path (DefaultVersionedAPIPath "/apis" SchemeGroupVersion))).
  assert (Hrc : plain_client rc) by done.
  assert (Hnames : client_names rc = path_names base ++ ["apis"; Group SchemeGroupVersion; Version SchemeGroupVersion]).
  { unfold client_names. simpl base_Path. by rewrite Hnb. }
  split.
  - pose proof (request_built resource rc op Hres) as Hb. rewrite Hreq in Hb.
    destruct Hb as (Hsend & r & Hb & _ & Hp & _). rewrite Hp, (built_path resource rc op r Hres Hrc Hsend Hb), Hnames, <- app_assoc.
    apply path_names_absolute. rewrite app_assoc, <- Hnames. by apply request_segments.
  - pose proof (requests_read_back resource rc op h Hres Hrc Hreq) as Hread. rewrite Hnames, length_app in Hread. exact Hread.
Qed.

End clientset.

(** ** Witnesses *)

Module clientset_demo.
Import client_demo.

(** Hosts are their paths, HTTP and discovery clients the configuration's agent and limiter. *)
#[export] Instance demo_env : ClientEnv := {|
  DefaultServerUrlFor c := Ok (cfg_Host c);
  http_client := string;
  http_timeout _ := 0%Z;
  HTTPClientFor c := Ok (cfg_UserAgent c);
  DefaultKubernetesUserAgent := "agent";
  discovery_client := option RateLimiter;
  NewDiscoveryClientForConfigAndClient c h := Ok (cfg_RateLimiter c)
|}.

Definition config : Config :=
  mkConfig "/proxy" "" None false "" "" "" (float_of_Z 50) 100 None 0.
Definition value (r : result (clientset * nat)) : clientset :=
  match r with Ok (cs, _) => cs | Err _ => mkClientset None (mkRestClient (mkRESTClient "" "" "" "" 0) None "") end.
Definition cs : clientset := value (NewForConfig config 0).
Definition the_request : http_request :=
  match request_of "monitors" (restClient (KubemonitorV1 cs)) patch_status with
  | inr h => h | inl _ => mkHttpRequest "" "" ∅ ∅ None 0 end.

Definition demo_http : http_client (ClientEnv:=demo_env) := "h"%string.

Lemma clientset_shares_limiter_witness : ∃ l,
  NewDiscoveryClientForConfigAndClient (with_RateLimiter config (Some l)) demo_http =
    Ok (DiscoveryClient (value (NewForConfigAndClient config demo_http 0))) ∧
  rc_limiter (kubemonitorV1 (value (NewForConfigAndClient config demo_http 0))) = Some l ∧
  rc_http (kubemonitorV1 (value (NewForConfigAndClient config demo_http 0))) = demo_http ∧
  (cfg_RateLimiter config = Some l ∨
   cfg_RateLimiter config = None ∧ l = mkRateLimiter 0 (cfg_QPS config) (cfg_Burst config) ∧ (0 < cfg_Burst config)%Z).
Proof. apply (clientset_shares_limiter config demo_http 0 _ 1); [vm_compute; reflexivity|right; vm_compute; reflexivity]. Defined.

Lemma clientset_sends_to_the_group_witness : ∃ c' base,
  DefaultServerUrlFor c' = Ok base ∧ cfg_Host c' = "/proxy" ∧ (plain_path base →
    path_names (h_Path the_request) = path_names base ++
      ["apis"; Group SchemeGroupVersion; Version SchemeGroupVersion] ++ operation_names "monitors" patch_status ∧
    read_request (length (path_names base) + 3) the_request = Some (info_of "monitors" patch_status)).
Proof.
  apply (clientset_sends_to_the_group config 0 cs 1); [vm_compute; reflexivity|apply monitors_plain|vm_compute; reflexivity].
Defined.

End clientset_demo.
