(* ===== verification/Filter.v ===== *)
(** * String filters (pkg/filter/filter.go)

    [Compile] turns a list of names into a matcher: an equality test or a set
    when no name holds a glob character, a compiled glob otherwise. The glob
    library (gobwas/glob) is a parameter: [glob_Compile] returns a matcher or
    an error. *)
From S2P Require Import Prelude GoText.

(** The implementations of interface Filter. *)
Inductive Filter : Type :=
| filter_map (m : gmap string unit)
| filtersingle (s : string)
| filter_glob (matcher : string → bool)
| IncludeExcludeFilter (include exclude : option Filter) (includeDefault excludeDefault : bool).

(** [HasMeta]. *)
Definition HasMeta (s : string) : bool := ContainsAny s "*?[".

Definition compileFilterNoGlob (filters : list string) : Filter :=
  match filters with
  | [f] => filtersingle f
  | _ => filter_map (foldl (λ m f, <[f := tt]> m) ∅ filters)
  end.

Fixpoint Match (f : Filter) (s : string) : bool :=
  match f with
  | filter_map m => bool_decide (is_Some (m !! s))
  | filtersingle x => bool_decide (x = s)
  | filter_glob matcher => matcher s
  | IncludeExcludeFilter include exclude includeDefault excludeDefault =>
    let check_exclude :=
      match exclude with
      | Some ex => if Match ex s then false else true
      | None => if excludeDefault then false else true
      end in
    match include with
    | Some inc => if negb (Match inc s) then false else check_exclude
    | None => if negb includeDefault then false else check_exclude
    end
  end.

Section compile.
Context (glob_Compile : string → result (string → bool)).

(** The nil Filter is [None]. *)
Definition Compile (filters : list string) : result (option Filter) :=
  if decide (length filters = 0) then Ok None
  else
    let noGlob := negb (existsb HasMeta filters) in
    if noGlob then Ok (Some (compileFilterNoGlob filters))
    else match filters with
    | [f] => g ← glob_Compile f; Ok (Some (filter_glob g))
    | _ => g ← glob_Compile ("{" +:+ Join "," filters +:+ "}"); Ok (Some (filter_glob g))
    end.

Definition NewIncludeExcludeFilterDefaults (include exclude : list string)
    (includeDefault excludeDefault : bool) : result Filter :=
  inc ← Compile include;
  ex ← Compile exclude;
  Ok (IncludeExcludeFilter inc ex includeDefault excludeDefault).

Definition NewIncludeExcludeFilter (include exclude : list string) : result Filter :=
  NewIncludeExcludeFilterDefaults include exclude true false.

Lemma lookup_name_set filters (m : gmap string unit) s :
  is_Some (foldl (λ m f, <[f := tt]> m) m filters !! s) ↔ s ∈ filters ∨ is_Some (m !! s).
Proof.
  revert m. induction filters as [|f filters IH]; intros m; simpl.
  { split; [by right|]. intros [[]%elem_of_nil|]; done. }
  rewrite IH, elem_of_cons. destruct (decide (s = f)) as [->|Hne].
  - rewrite lookup_insert_eq. naive_solver.
  - rewrite lookup_insert_ne by done. tauto.
Qed.

Lemma Match_NoGlob filters s :
  filters ≠ [] → Match (compileFilterNoGlob filters) s = bool_decide (s ∈ filters).
Proof.
  intros Hn.
  assert (Hset : Match (filter_map (foldl (λ m f, <[f := tt]> m) ∅ filters)) s =
                 bool_decide (s ∈ filters)).
  { cbn [Match]. apply bool_decide_ext. rewrite lookup_name_set, lookup_empty.
    rewrite <- not_eq_None_Some. tauto. }
  destruct filters as [|f [|g l]]; [done| |exact Hset].
  cbn [compileFilterNoGlob Match]. apply bool_decide_ext. by rewrite list_elem_of_singleton.
Qed.

Lemma Compile_literal filters :
  filters ≠ [] → existsb HasMeta filters = false →
  Compile filters = Ok (Some (compileFilterNoGlob filters)).
Proof.
  intros Hn Hm. unfold Compile. rewrite decide_False, Hm; [done|].
  by destruct filters.
Qed.

(** Without glob characters a non-empty list compiles, never consulting
    the glob library, to a filter that matches exactly the listed names;
    the empty list compiles to the nil filter. *)
Theorem Compile_literal_spec filters :
  existsb HasMeta filters = false →
  (filters = [] → Compile filters = Ok None) ∧
  (filters ≠ [] → ∃ f, Compile filters = Ok (Some f) ∧
                      ∀ s, Match f s = true ↔ s ∈ filters).
Proof.
  intros Hm. split; [by intros ->|]. intros Hn.
  exists (compileFilterNoGlob filters). split; [by apply Compile_literal|].
  intros s. rewrite Match_NoGlob by done. apply bool_decide_eq_true.
Qed.

(** An include/exclude filter over literal names lets a name through
    exactly when it is included (or nothing is) and not excluded. *)
Theorem IncludeExclude_spec include exclude :
  existsb HasMeta include = false → existsb HasMeta exclude = false →
  ∃ f, NewIncludeExcludeFilter include exclude = Ok f ∧
       ∀ s, Match f s = true ↔ (include = [] ∨ s ∈ include) ∧ s ∉ exclude.
Proof.
  intros Hi He. unfold NewIncludeExcludeFilter, NewIncludeExcludeFilterDefaults.
  destruct (decide (include = [])) as [->|Hni], (decide (exclude = [])) as [->|Hne];
    rewrite ?(Compile_literal include), ?(Compile_literal exclude) by done;
    (eexists; split; [reflexivity|]); intros s; cbn [Match];
    rewrite ?(Match_NoGlob include), ?(Match_NoGlob exclude) by done;
    repeat case_bool_decide; simpl; set_solver.
Qed.
End compile.

Lemma Compile_literal_spec_witness :
  ∃ f, Compile (λ _, Err (Errorf "glob")) ["cpu"; "mem"] = Ok (Some f) ∧
       ∀ s, Match f s = true ↔ s ∈ ["cpu"; "mem"].
Proof. apply (Compile_literal_spec (λ _, Err (Errorf "glob")) ["cpu"; "mem"] eq_refl). done. Defined.

Lemma IncludeExclude_spec_witness :
  ∃ f, NewIncludeExcludeFilter (λ _, Err (Errorf "glob")) ["cpu"; "mem"] ["mem"] = Ok f ∧
       ∀ s, Match f s = true ↔ (["cpu"; "mem"] = [] ∨ s ∈ ["cpu"; "mem"]) ∧ s ∉ ["mem"].
Proof. by apply (IncludeExclude_spec (λ _, Err (Errorf "glob")) ["cpu"; "mem"] ["mem"]). Defined.
