(* ===== verification/Jsonx.v ===== *)
(** * Flattening of decoded JSON (pkg/jsonx/jsonflattener.go)

    [json] is what encoding/json stores in an [interface{}]. An object is the
    list of its members in the order the loop over the map visits them; a
    theorem about every such list is one about every order. The field map of
    the JSONFlattener is passed along; a nil map and an empty one are not told
    apart, as the code makes the map before it writes. *)
From Stdlib Require Import SpecFloat.
From S2P Require Import Prelude GoText GoNum Conv.

Inductive json : Type :=
| JObject (members : list (string * json))
| JArray (items : list json)
| JNumber (f : float64)
| JString (s : string)
| JBool (b : bool)
| JNull
| JOther (type_name text : string).

Definition key_of (fieldname k : string) : string :=
  if decide (fieldname = "") then k else fieldname +:+ "_" +:+ k.

(** [FullFlattenJSON]: the new field map, and the error that ended it. *)
Fixpoint FullFlattenJSON (fieldname : string) (v : json) (convertString convertBool : bool)
    (Fields : gmap string iface) {struct v} : gmap string iface * option error :=
  match v with
  | JObject members =>
    (fix loop (members : list (string * json)) (Fields : gmap string iface) :=
      match members with
      | [] => (Fields, None)
      | (k, v) :: members' =>
        match FullFlattenJSON (key_of fieldname k) v convertString convertBool Fields with
        | (Fields', Some err) => (Fields', Some err)
        | (Fields', None) => loop members' Fields'
        end
      end) members Fields
  | JArray _ => (Fields, None)
  | JNumber t => (<[fieldname := VFloat64 t]> Fields, None)
  | JString t => if negb convertString then (Fields, None)
                 else (<[fieldname := VString t]> Fields, None)
  | JBool t => if negb convertBool then (Fields, None)
               else (<[fieldname := VBool t]> Fields, None)
  | JNull => (Fields, None)
  | JOther ty text =>
    (Fields, Some (Errorf ("JSON Flattener: got unexpected type " +:+ ty +:+ " with value " +:+
                           text +:+ " (" +:+ fieldname +:+ ")")))
  end.

Definition FlattenJSON (fieldname : string) (v : json) (Fields : gmap string iface) :
    gmap string iface * option error :=
  FullFlattenJSON fieldname v false false Fields.

(** ** The leaves of a value, as a reference *)

Fixpoint leaves (fieldname : string) (v : json) (convertString convertBool : bool) :
    list (string * iface) :=
  match v with
  | JObject members =>
    (fix loop (members : list (string * json)) :=
      match members with
      | [] => []
      | (k, v) :: members' =>
        leaves (key_of fieldname k) v convertString convertBool ++ loop members'
      end) members
  | JNumber t => [(fieldname, VFloat64 t)]
  | JString t => if convertString then [(fieldname, VString t)] else []
  | JBool t => if convertBool then [(fieldname, VBool t)] else []
  | JArray _ | JNull | JOther _ _ => []
  end.

(** What encoding/json can produce: no value of another type outside arrays. *)
Fixpoint decoded (v : json) : Prop :=
  match v with
  | JObject members =>
    (fix loop (members : list (string * json)) :=
      match members with [] => True | (_, v) :: members' => decoded v ∧ loop members' end) members
  | JOther _ _ => False
  | _ => True
  end.

Section json_induction.
Context (P : json → Prop)
  (Hobj : ∀ members, Forall (λ kv, P kv.2) members → P (JObject members))
  (Harr : ∀ items, P (JArray items)) (Hnum : ∀ f, P (JNumber f)) (Hstr : ∀ s, P (JString s))
  (Hbool : ∀ b, P (JBool b)) (Hnull : P JNull) (Hother : ∀ t s, P (JOther t s)).

Fixpoint json_nested_ind (v : json) : P v :=
  match v with
  | JObject members => Hobj members
      ((fix loop (members : list (string * json)) : Forall (λ kv, P kv.2) members :=
         match members with
         | [] => List.Forall_nil _
         | kv :: members' => List.Forall_cons _ kv members' (json_nested_ind kv.2) (loop members')
         end) members)
  | JArray items => Harr items
  | JNumber f => Hnum f
  | JString s => Hstr s
  | JBool b => Hbool b
  | JNull => Hnull
  | JOther t s => Hother t s
  end.
End json_induction.

Lemma FullFlattenJSON_leaves v name cs cb Fields :
  decoded v → FullFlattenJSON name v cs cb Fields = (insert_all (leaves name v cs cb) Fields, None).
Proof.
  revert name Fields.
  induction v as [members IH|items|f|s|b| |t s] using json_nested_ind; intros name Fields Hd;
    simpl in *; try done; [|by destruct cs|by destruct cb].
  revert Fields. induction IH as [|[k v] members Hv Hms IHms]; intros Fields; [done|].
  destruct Hd as [Hdv Hd]. simpl in Hv. rewrite Hv by done. rewrite insert_all_app.
  by apply IHms.
Qed.

(** The kinds of the fields written, on success and on failure alike. *)
Definition allowed (cs cb : bool) (x : iface) : Prop :=
  match x with
  | VFloat64 _ => True
  | VString _ => cs = true
  | VBool _ => cb = true
  | _ => False
  end.

Lemma FullFlattenJSON_allowed v name cs cb Fields :
  map_Forall (λ _ x, allowed cs cb x) Fields →
  map_Forall (λ _ x, allowed cs cb x) (FullFlattenJSON name v cs cb Fields).1.
Proof.
  revert name Fields.
  induction v as [members IH|items|f|s|b| |t s] using json_nested_ind; intros name Fields HF;
    simpl in *; try done.
  - revert Fields HF. induction IH as [|[k v] members Hv Hms IHms]; intros Fields HF; [done|].
    specialize (Hv (key_of name k) Fields HF). simpl in Hv.
    destruct (FullFlattenJSON (key_of name k) v cs cb Fields) as [F' [e|]]; simpl in *; [done|].
    by apply IHms.
  - by apply map_Forall_insert_2.
  - destruct cs; simpl; [by apply map_Forall_insert_2|done].
  - destruct cb; simpl; [by apply map_Forall_insert_2|done].
Qed.

Lemma insert_all_lookup {A} (l : list (string * A)) acc k x :
  NoDup l.*1 → insert_all l acc !! k = Some x ↔ (k, x) ∈ l ∨ k ∉ l.*1 ∧ acc !! k = Some x.
Proof.
  intros Hnd. rewrite (insert_all_union l (list_to_map l)).
  2: { symmetry. by apply map_to_list_to_map. }
  rewrite lookup_union_Some_raw, <- elem_of_list_to_map by done.
  rewrite <- not_elem_of_list_to_map. done.
Qed.

(** C39: on any decoded value flattening returns without error, and when the
    flattened names are distinct the fields it adds are exactly the value's
    scalar leaves, in whatever order the objects are visited. *)
Theorem FullFlattenJSON_spec name v cs cb :
  decoded v → NoDup (leaves name v cs cb).*1 →
  (FullFlattenJSON name v cs cb ∅).2 = None ∧
  ∀ k x, (FullFlattenJSON name v cs cb ∅).1 !! k = Some x ↔ (k, x) ∈ leaves name v cs cb.
Proof.
  intros Hd Hnd. rewrite FullFlattenJSON_leaves by done. split; [done|].
  intros k x. simpl. rewrite insert_all_lookup, lookup_empty by done. naive_solver.
Qed.

Definition example_json : json :=
  JObject [("jvm", JObject [("heap", JNumber f_one); ("up", JBool true)]); ("v", JString "8")].

Lemma FullFlattenJSON_spec_witness :
  (FullFlattenJSON "" example_json false true ∅).2 = None ∧
  ∀ k x, (FullFlattenJSON "" example_json false true ∅).1 !! k = Some x ↔
         (k, x) ∈ [("jvm_heap", VFloat64 f_one); ("jvm_up", VBool true)].
Proof.
  apply (FullFlattenJSON_spec "" example_json false true); [by repeat split|].
  apply (bool_decide_unpack _). vm_compute. exact I.
Defined.

(** FlattenJSON leaves only float64 fields behind, FullFlattenJSON strings
    and booleans only when asked to, also when they stop with an error. *)
Theorem FlattenJSON_kinds name v cs cb :
  map_Forall (λ _ x, allowed cs cb x) (FullFlattenJSON name v cs cb ∅).1 ∧
  map_Forall (λ _ x, ∃ f, x = VFloat64 f) (FlattenJSON name v ∅).1.
Proof.
  split; [apply FullFlattenJSON_allowed, map_Forall_empty|].
  apply (map_Forall_impl (λ _ x, allowed false false x)).
  - apply FullFlattenJSON_allowed, map_Forall_empty.
  - intros _ x. destruct x; simpl; try done. by eexists.
Qed.
