(* ===== verification/GoFmt.v ===== *)
(** * Printing a double

    [fmt.Sprint] of a float64: the shortest decimal that reads back as the
    value, in scientific notation when its exponent is below -4 or above 5. *)
From Stdlib Require Import SpecFloat.
From S2P Require Import Prelude GoText GoNum.
#[local] Open Scope Z_scope.

(** The fraction n/d of a positive double m * 2^e. *)
Definition fraction (m e : Z) : Z * Z := (m * 2 ^ Z.max e 0, 2 ^ Z.max (- e) 0).

(** Comparing n/d with 10^k. *)
Definition below_pow10 (n d k : Z) : bool := n * 10 ^ Z.max (- k) 0 <? d * 10 ^ Z.max k 0.

(** The least k from [k] on with n/d < 10^k; a double is between 10^-324 and
    10^309, so 640 steps from -324 find it. *)
Fixpoint find_pow10 (fuel : nat) (n d k : Z) : Z :=
  match fuel with
  | 0%nat => k
  | S fuel' => if below_pow10 n d k then k else find_pow10 fuel' n d (k + 1)
  end.

(** The digits of n/d to [p] places, truncated, and whether what is cut off is
    less than, equal to or more than half a unit. *)
Definition truncate (n d k p : Z) : Z * comparison :=
  let num := n * 10 ^ Z.max (p - k) 0 in
  let den := d * 10 ^ Z.max (k - p) 0 in
  (num / den, Z.compare (2 * (num mod den)) den).

Definition reads_back (f : float64) (digits e : Z) : bool := f_eqb (round_decimal false digits e) f.

(** The shortest digits, from [p] places on: of the two neighbours of the value
    the one that reads back as it, the nearer if both do. 17 places always do. *)
Fixpoint shortest (fuel : nat) (f : float64) (n d k p : Z) : Z * Z :=
  let '(t, half) := truncate n d k p in
  match fuel with
  | 0%nat => (t, k - p)
  | S fuel' =>
    match reads_back f t (k - p), reads_back f (t + 1) (k - p) with
    | true, true =>
      (match half with Lt => t | Eq => if Z.even t then t else t + 1 | Gt => t + 1 end, k - p)
    | true, false => (t, k - p)
    | false, true => (t + 1, k - p)
    | false, false => shortest fuel' f n d k (p + 1)
    end
  end.

Fixpoint strip_zeros (l : list ascii) : list ascii :=
  match l with
  | c :: l' => match strip_zeros l' with
               | [] => if ascii_dec c "0" then [] else [c]
               | r => c :: r
               end
  | [] => []
  end.

Definition zeros (n : Z) : list ascii := replicate (Z.to_nat n) "0"%char.

Definition exponent_text (e : Z) : string :=
  (if e <? 0 then "-" else "+") +:+ (if Z.abs e <? 10 then "0" else "") +:+ Itoa (Z.abs e).

(** The digits with the point after the first [dp] of them. *)
Definition print_digits (digits : list ascii) (dp : Z) : string :=
  if (dp - 1 <? - 4) || (6 <=? dp - 1) then
    match digits with
    | [c] => of_bytes [c] +:+ "e" +:+ exponent_text (dp - 1)
    | c :: r => of_bytes (c :: "."%char :: r) +:+ "e" +:+ exponent_text (dp - 1)
    | [] => ""
    end
  else if dp <=? 0 then "0." +:+ of_bytes (zeros (- dp) ++ digits)
  else
    let whole := take (Z.to_nat dp) digits in
    let frac := drop (Z.to_nat dp) digits in
    of_bytes (whole ++ zeros (dp - Z.of_nat (length digits)))
      +:+ match frac with [] => "" | _ => "." +:+ of_bytes frac end.

Definition FormatFloat (f : float64) : string :=
  match f with
  | S754_nan => "NaN"
  | S754_infinity neg => if neg then "-Inf" else "+Inf"
  | S754_zero neg => if neg then "-0" else "0"
  | S754_finite neg m e =>
    let '(n, d) := fraction (Zpos m) e in
    let '(t, e10) := shortest 17 (S754_finite false m e) n d (find_pow10 640 n d (- 324)) 1 in
    let digits := bytes_of (Itoa t) in
    (if neg then "-" else "")
      +:+ print_digits (strip_zeros digits) (Z.of_nat (length digits) + e10)
  end.

Example FormatFloat_0_1 : FormatFloat (ParseFloat "0.1").1 = "0.1".
Proof. vm_compute. reflexivity. Qed.

Example FormatFloat_1e6 : FormatFloat (float_of_Z 1234567) = "1.234567e+06".
Proof. vm_compute. reflexivity. Qed.

Example FormatFloat_whole : FormatFloat (float_of_Z (-120)) = "-120".
Proof. vm_compute. reflexivity. Qed.

Example FormatFloat_third : FormatFloat (f_div f_one (float_of_Z 3)) = "0.3333333333333333".
Proof. vm_compute. reflexivity. Qed.

Example FormatFloat_min : FormatFloat (ParseFloat "5e-324").1 = "5e-324".
Proof. vm_compute. reflexivity. Qed.

Example FormatFloat_max : FormatFloat (ParseFloat "1.7976931348623157e308").1 = "1.7976931348623157e+308".
Proof. vm_compute. reflexivity. Qed.

Example FormatFloat_pow2 : FormatFloat (ParseFloat "9007199254740993").1 = "9.007199254740992e+15".
Proof. vm_compute. reflexivity. Qed.

Example FormatFloat_small : FormatFloat (ParseFloat "0.00001").1 = "1e-05".
Proof. vm_compute. reflexivity. Qed.
