(* ===== verification/GoJson.v ===== *)
(** * JSON

    The part of package [encoding/json] that the answers of ClickHouse and
    Elasticsearch go through: [Decoder.Decode] of a body and [Unmarshal] of a
    value into strings, numbers, slices, maps, pointers, structs and
    [interface{}]. A body is parsed into [raw], which keeps numbers and strings
    as they are written, and a decoder reads a Go value off it.

    Every error ends the decoding for the code, which then drops what was
    decoded; so [None] is any error. An [interface{}] that was decoded is kept as
    the value it was decoded from, [None] being nil; [any_json] is the value
    itself, with the maps in the order in which loops visit them. *)
From S2P Require Import Prelude GoText GoNum GoFmt GoUrl GoHttp Conv Jsonx.
#[local] Open Scope Z_scope.

(** ** The text *)

Definition dquote : ascii := Ascii.ascii_of_nat 34.

Inductive raw : Type :=
| RObject (members : list (bytes * raw))
| RArray (items : list raw)
| RNumber (text : bytes)
| RString (body : bytes)
| RBool (b : bool)
| RNull.

Definition is_space (c : ascii) : bool := has_byte c [" "; "009"; "010"; "013"]%char.
Definition skip_space : bytes → bytes := drop_while is_space.

Fixpoint span (p : ascii → bool) (l : bytes) : bytes * bytes :=
  match l with
  | c :: l' => if p c then let '(a, b) := span p l' in (c :: a, b) else ([], l)
  | [] => ([], [])
  end.

Definition digits1 (l : bytes) : option (bytes * bytes) :=
  match span is_digit l with ([], _) => None | r => Some r end.

(** The parts of a number, each with what follows it. *)
Definition scan_sign (signs : bytes) (l : bytes) : bytes * bytes :=
  match l with
  | c :: l' => if has_byte c signs then ([c], l') else ([], l)
  | [] => ([], [])
  end.

Definition scan_int (l : bytes) : option (bytes * bytes) :=
  match l with
  | "0"%char :: l' => Some (["0"%char], l')
  | _ => digits1 l
  end.

Definition scan_frac (l : bytes) : option (bytes * bytes) :=
  match l with
  | "."%char :: l' => '(d, r) ← digits1 l'; Some ("."%char :: d, r)
  | _ => Some ([], l)
  end.

Definition scan_exp (l : bytes) : option (bytes * bytes) :=
  match l with
  | c :: l' =>
    if has_byte c ["e"; "E"]%char then
      let '(s, r) := scan_sign ["+"; "-"]%char l' in
      '(d, r) ← digits1 r; Some (c :: s ++ d, r)
    else Some ([], l)
  | [] => Some ([], [])
  end.

Definition scan_number (l : bytes) : option (bytes * bytes) :=
  let '(s, l) := scan_sign ["-"%char] l in
  '(i, l) ← scan_int l;
  '(f, l) ← scan_frac l;
  '(e, l) ← scan_exp l;
  Some (s ++ i ++ f ++ e, l).

Definition is_hex (c : ascii) : bool := is_digit c || is_hex_letter c.

Definition simple_escapes : bytes := dquote :: bytes_of "\/bfnrt".

(** A string after its opening quote: what is between the quotes, and what
    follows. *)
Fixpoint scan_string (l : bytes) : option (bytes * bytes) :=
  match l with
  | [] => None
  | c :: l1 =>
    if ascii_dec c dquote then Some ([], l1)
    else if ascii_dec c "\" then
      match l1 with
      | [] => None
      | e :: l2 =>
        if has_byte e simple_escapes then '(b, r) ← scan_string l2; Some (c :: e :: b, r)
        else if ascii_dec e "u" then
          match l2 with
          | h1 :: h2 :: h3 :: h4 :: l3 =>
            if forallb is_hex [h1; h2; h3; h4]
            then '(b, r) ← scan_string l3; Some (c :: e :: h1 :: h2 :: h3 :: h4 :: b, r)
            else None
          | _ => None
          end
        else None
      end
    else if byte_val c <? 32 then None
    else '(b, r) ← scan_string l1; Some (c :: b, r)
  end.

Fixpoint strip (p l : bytes) : option bytes :=
  match p, l with
  | [], _ => Some l
  | a :: p', b :: l' => if ascii_dec a b then strip p' l' else None
  | _, [] => None
  end.

Definition maxNestingDepth : Z := 10000.

Definition parse_scalar (l : bytes) : option (raw * bytes) :=
  match l with
  | [] => None
  | c :: l' =>
    if ascii_dec c dquote then '(b, r) ← scan_string l'; Some (RString b, r)
    else match strip (bytes_of "true") l, strip (bytes_of "false") l, strip (bytes_of "null") l with
         | Some r, _, _ => Some (RBool true, r)
         | _, Some r, _ => Some (RBool false, r)
         | _, _, Some r => Some (RNull, r)
         | _, _, _ => '(t, r) ← scan_number l; Some (RNumber t, r)
         end
  end.

(** A value, the members of an object and the items of an array, the last two
    up to the closing bracket, with what follows. [depth] containers are open. *)
Fixpoint parse_value (fuel : nat) (depth : Z) (l : bytes) : option (raw * bytes) :=
  match fuel with
  | 0%nat => None
  | S fuel' =>
    match skip_space l with
    | "{"%char :: l1 =>
      if maxNestingDepth <=? depth then None
      else match skip_space l1 with
           | "}"%char :: r => Some (RObject [], r)
           | l2 => '(ms, r) ← parse_members fuel' (depth + 1) l2; Some (RObject ms, r)
           end
    | "["%char :: l1 =>
      if maxNestingDepth <=? depth then None
      else match skip_space l1 with
           | "]"%char :: r => Some (RArray [], r)
           | l2 => '(vs, r) ← parse_items fuel' (depth + 1) l2; Some (RArray vs, r)
           end
    | l1 => parse_scalar l1
    end
  end
with parse_members (fuel : nat) (depth : Z) (l : bytes) : option (list (bytes * raw) * bytes) :=
  match fuel with
  | 0%nat => None
  | S fuel' =>
    l1 ← strip [dquote] (skip_space l);
    '(k, l2) ← scan_string l1;
    l3 ← strip [":"%char] (skip_space l2);
    '(v, l4) ← parse_value fuel' depth l3;
    match skip_space l4 with
    | ","%char :: l5 => '(ms, r) ← parse_members fuel' depth l5; Some ((k, v) :: ms, r)
    | "}"%char :: r => Some ([(k, v)], r)
    | _ => None
    end
  end
with parse_items (fuel : nat) (depth : Z) (l : bytes) : option (list raw * bytes) :=
  match fuel with
  | 0%nat => None
  | S fuel' =>
    '(v, l1) ← parse_value fuel' depth l;
    match skip_space l1 with
    | ","%char :: l2 => '(vs, r) ← parse_items fuel' depth l2; Some (v :: vs, r)
    | "]"%char :: r => Some ([v], r)
    | _ => None
    end
  end.

(** Every two steps of the parser consume a byte. *)
Definition parse_fuel (l : bytes) : nat := S (2 * length l).

Definition parse (l : bytes) : option (raw * bytes) := parse_value (parse_fuel l) 0 l.

(** ** Writing *)

Definition quoted (b : bytes) : bytes := dquote :: b ++ [dquote].

Fixpoint print (v : raw) : bytes :=
  match v with
  | RObject ms => "{"%char :: join_bytes "," ((fix loop (ms : list (bytes * raw)) :=
      match ms with
      | [] => []
      | (k, v) :: ms' => (quoted k ++ ":"%char :: print v) :: loop ms'
      end) ms) ++ ["}"%char]
  | RArray vs => "["%char :: join_bytes "," ((fix loop (vs : list raw) :=
      match vs with [] => [] | v :: vs' => print v :: loop vs' end) vs) ++ ["]"%char]
  | RNumber t => t
  | RString b => quoted b
  | RBool b => bytes_of (if b then "true" else "false")
  | RNull => bytes_of "null"
  end.

(** ** Strings *)

Definition hex4 (l : bytes) : option (Z * bytes) :=
  match l with
  | a :: b :: c :: d :: l' =>
    a ← unhex a; b ← unhex b; c ← unhex c; d ← unhex d;
    Some (4096 * a + 256 * b + 16 * c + d, l')
  | _ => None
  end.

(** [getu4]: the code of an escape \u and what follows it. *)
Definition getu4 (l : bytes) : option (Z * bytes) := l' ← strip ["\"; "u"]%char l; hex4 l'.

Definition is_surrogate (r : Z) : bool := (55296 <=? r) && (r <=? 57343).

(** [utf16.DecodeRune]. *)
Definition surrogates (r1 r2 : Z) : option Z :=
  if (55296 <=? r1) && (r1 <=? 56319) && (56320 <=? r2) && (r2 <=? 57343)
  then Some ((r1 - 55296) * 1024 + (r2 - 56320) + 65536) else None.

Definition simple_escape (e : ascii) : ascii :=
  if ascii_dec e "b" then "008"%char else if ascii_dec e "f" then "012"%char
  else if ascii_dec e "n" then "010"%char else if ascii_dec e "r" then "013"%char
  else if ascii_dec e "t" then "009"%char else e.

(** What is between the quotes, read; invalid UTF-8 becomes U+FFFD. *)
Fixpoint unquote_fuel (fuel : nat) (l : bytes) : bytes :=
  match fuel, l with
  | S fuel', "\"%char :: e :: l2 =>
    match getu4 l with
    | Some (r, l3) =>
      if is_surrogate r then
        match (r2_l4 ← getu4 l3; r' ← surrogates r r2_l4.1; Some (r', r2_l4.2)) with
        | Some (r', l4) => encode_rune r' ++ unquote_fuel fuel' l4
        | None => encode_rune RuneError ++ unquote_fuel fuel' l3
        end
      else encode_rune r ++ unquote_fuel fuel' l3
    | None => simple_escape e :: unquote_fuel fuel' l2
    end
  | S fuel', c :: l1 =>
    if byte_val c <? 128 then c :: unquote_fuel fuel' l1
    else let '(r, w) := DecodeRune l in encode_rune r ++ unquote_fuel fuel' (drop w l)
  | _, _ => []
  end.

Definition unquote (l : bytes) : string := of_bytes (unquote_fuel (length l) l).

(** ** Reading Go values off *)

(** What decoding a value into a variable that holds another leaves in it. *)
Abbreviation decoder T := (raw → T → option T).

Definition dec_string : decoder string := λ v old,
  match v with RString b => Some (unquote b) | RNull => Some old | _ => None end.

Definition dec_bool : decoder bool := λ v old,
  match v with RBool b => Some b | RNull => Some old | _ => None end.

Definition no_error {A} (r : A * option num_error) : option A :=
  match r with (a, None) => Some a | _ => None end.

Definition dec_int : decoder Z := λ v old,
  match v with RNumber t => no_error (ParseInt (of_bytes t) 10) | RNull => Some old | _ => None end.

Definition dec_float : decoder float64 := λ v old,
  match v with RNumber t => no_error (ParseFloat (of_bytes t)) | RNull => Some old | _ => None end.

Fixpoint any_ok (v : raw) : bool :=
  match v with
  | RObject ms => (fix loop (ms : list (bytes * raw)) :=
      match ms with [] => true | (_, v) :: ms' => any_ok v && loop ms' end) ms
  | RArray vs => (fix loop (vs : list raw) :=
      match vs with [] => true | v :: vs' => any_ok v && loop vs' end) vs
  | RNumber t => bool_decide (is_Some (no_error (ParseFloat (of_bytes t))))
  | _ => true
  end.

(** An [interface{}]. *)
Definition any := option raw.

Definition dec_any : decoder any := λ v old,
  match v with RNull => Some None | _ => if any_ok v then Some (Some v) else None end.

Section containers.
Context {T : Type} (zero : T) (dec : decoder T).

Definition dec_slice : decoder (list T) := λ v old,
  match v with RArray vs => mapM (λ v, dec v zero) vs | RNull => Some [] | _ => None end.

(** The members are added to the map there is; a nil map is the empty one. *)
Definition dec_map : decoder (gmap string T) := λ v old,
  match v with
  | RObject ms =>
    foldl (λ acc kv, m ← acc; t ← dec kv.2 zero; Some (<[unquote kv.1 := t]> m)) (Some old) ms
  | RNull => Some ∅
  | _ => None
  end.

Definition dec_ptr : decoder (option T) := λ v old,
  match v with RNull => Some None | _ => t ← dec v (default zero old); Some (Some t) end.
End containers.

(** Letters are matched in either case; so are the Kelvin sign with k and the
    long s with s. *)
Fixpoint fold_key (l : bytes) : bytes :=
  match l with
  | "226"%char :: "132"%char :: "170"%char :: l' => "k"%char :: fold_key l'
  | "197"%char :: "191"%char :: l' => "s"%char :: fold_key l'
  | c :: l' => val_byte (ascii_lower (byte_val c)) :: fold_key l'
  | [] => []
  end.

(** The field of a struct, of those named, that a key is for. *)
Definition field_name (names : list string) (key : string) : option string :=
  if decide (key ∈ names) then Some key
  else snd <$> list_find (λ n, fold_key (bytes_of n) = fold_key (bytes_of key)) names.

(** The members a struct is decoded from; null leaves a struct as it is. *)
Definition struct_members (v : raw) : option (list (bytes * raw)) :=
  match v with RObject ms => Some ms | RNull => Some [] | _ => None end.

(** One field of a struct that is decoded into a new variable, with the fields
    [names]: each member for it is decoded over the one before. *)
Definition dec_field {T} (names : list string) (ms : list (bytes * raw)) (name : string)
    (dec : decoder T) (zero : T) : option T :=
  foldl (λ acc kv, t ← acc;
           if decide (field_name names (unquote kv.1) = Some name) then dec kv.2 t else Some t)
    (Some zero) ms.

(** [json.NewDecoder(r.Body).Decode]: the first value of the body; what
    follows is not looked at, but a scalar ends only where something follows or
    the body does. *)
Definition Decode {T} (dec : decoder T) (zero : T) (r : Response) : option T :=
  '(v, rest) ← parse (resp_Body r);
  match v, rest, body_error r with
  | RObject _, _, _ | RArray _, _, _ | _, _ :: _, _ | _, _, None => dec v zero
  | _, _, _ => None
  end.

(** A [json.RawMessage], nil or a value; [json.Unmarshal] of one. *)
Definition dec_RawMessage : decoder (option raw) := λ v old, Some (Some v).

Definition Unmarshal {T} (dec : decoder T) (zero : T) (data : option raw) : option T :=
  v ← data; dec v zero.

(** ** Values of type interface{} *)

Definition number_of (t : bytes) : float64 := (ParseFloat (of_bytes t)).1.

(** The members of the map an object becomes: the last of a name counts. *)
Definition object_map {A} (ms : list (string * A)) : gmap string A := insert_all ms ∅.

(** [fmt.Sprint]; maps are printed with their keys in order. *)
Definition sprint_members (ms : list (string * string)) : string :=
  "map[" +:+ Join " " ((λ kv, kv.1 +:+ ":" +:+ kv.2) <$>
    merge_sort (λ a b : string * string, String.le a.1 b.1) (map_to_list (object_map ms))) +:+ "]".

Fixpoint any_sprint (v : raw) : string :=
  match v with
  | RObject ms => sprint_members ((fix loop (ms : list (bytes * raw)) :=
      match ms with [] => [] | (k, v) :: ms' => (unquote k, any_sprint v) :: loop ms' end) ms)
  | RArray vs => "[" +:+ Join " " ((fix loop (vs : list raw) :=
      match vs with [] => [] | v :: vs' => any_sprint v :: loop vs' end) vs) +:+ "]"
  | RNumber t => FormatFloat (number_of t)
  | RString b => unquote b
  | RBool b => if b then "true" else "false"
  | RNull => "<nil>"
  end.

Definition raw_iface (v : raw) : iface :=
  match v with
  | RObject _ | RArray _ => VOther (any_sprint v)
  | RNumber t => VFloat64 (number_of t)
  | RString b => VString (unquote b)
  | RBool b => VBool b
  | RNull => VNil
  end.

Definition any_iface (v : any) : iface := default VNil (raw_iface <$> v).

Section any_json.
Context `{RangeOrder}.

(** The loops over the maps are numbered from [n]; the number after the last. *)
Fixpoint raw_json (n : nat) (v : raw) : nat * json :=
  match v with
  | RObject ms =>
    let '(n, ms) := (fix loop (n : nat) (ms : list (bytes * raw)) :=
      match ms with
      | [] => (n, [])
      | (k, v) :: ms' =>
        let '(n, v) := raw_json n v in
        let '(n, ms') := loop n ms' in (n, (unquote k, v) :: ms')
      end) n ms in
    (S n, JObject (range_list n (object_map ms)))
  | RArray vs =>
    let '(n, vs) := (fix loop (n : nat) (vs : list raw) :=
      match vs with
      | [] => (n, [])
      | v :: vs' =>
        let '(n, v) := raw_json n v in let '(n, vs') := loop n vs' in (n, v :: vs')
      end) n vs in
    (n, JArray vs)
  | RNumber t => (n, JNumber (number_of t))
  | RString b => (n, JString (unquote b))
  | RBool b => (n, JBool b)
  | RNull => (n, JNull)
  end.

Definition any_json (n : nat) (v : any) : nat * json :=
  match v with Some v => raw_json n v | None => (n, JNull) end.
End any_json.
