(* ===== verification/GoJsonProps.v ===== *)
(** * Properties of the JSON model

    Writing a value and parsing the text gives the value back ([parse_print]),
    so that the theorems on the handlers can speak of answers as values; the
    parser's fuel is enough ([parse_fuel_enough]); what a JSON text is read as
    can always be flattened ([raw_json_decoded]). *)
From Stdlib Require DecimalN DecimalPos DecimalFacts.
From S2P Require Import Prelude GoText GoNum GoFmt GoUrl GoHttp Conv Jsonx GoJson.
#[local] Open Scope Z_scope.

Section raw_induction.
Context (P : raw → Prop)
  (Hobj : ∀ ms, Forall (λ kv, P kv.2) ms → P (RObject ms))
  (Harr : ∀ vs, Forall P vs → P (RArray vs))
  (Hnum : ∀ t, P (RNumber t)) (Hstr : ∀ b, P (RString b))
  (Hbool : ∀ b, P (RBool b)) (Hnull : P RNull).

Fixpoint raw_nested_ind (v : raw) : P v :=
  match v with
  | RObject ms => Hobj ms
      ((fix loop (ms : list (bytes * raw)) : Forall (λ kv, P kv.2) ms :=
         match ms with
         | [] => List.Forall_nil _
         | kv :: ms' => List.Forall_cons _ kv ms' (raw_nested_ind kv.2) (loop ms')
         end) ms)
  | RArray vs => Harr vs
      ((fix loop (vs : list raw) : Forall P vs :=
         match vs with
         | [] => List.Forall_nil _
         | v :: vs' => List.Forall_cons _ v vs' (raw_nested_ind v) (loop vs')
         end) vs)
  | RNumber t => Hnum t
  | RString b => Hstr b
  | RBool b => Hbool b
  | RNull => Hnull
  end.
End raw_induction.

(** ** Writing *)

Definition print_member (kv : bytes * raw) : bytes := quoted kv.1 ++ ":"%char :: print kv.2.

Lemma print_object ms :
  print (RObject ms) = "{"%char :: join_bytes "," (print_member <$> ms) ++ ["}"%char].
Proof.
  cbn [print]. f_equal. f_equal.
  match goal with |- join_bytes _ ?l = _ => assert (l = print_member <$> ms) as ->; [|done] end.
  induction ms as [|[k v] ms IH]; [done|]. csimpl. by rewrite <- IH.
Qed.

Lemma print_array vs : print (RArray vs) = "["%char :: join_bytes "," (print <$> vs) ++ ["]"%char].
Proof. cbn [print]. f_equal. Qed.

(** What may follow a value: the end, a comma, a closing bracket or a space. *)
Definition ends_value (rest : bytes) : Prop :=
  ∀ c r, rest = c :: r → has_byte c [","; "}"; "]"; " "; "010"]%char.

Definition body_ok (b : bytes) : Prop := ∀ rest, scan_string (b ++ dquote :: rest) = Some (b, rest).

Definition number_ok (t : bytes) : Prop :=
  ∀ rest, ends_value rest → scan_number (t ++ rest) = Some (t, rest).

(** Well-formed values, with at most as many containers around as may be. *)
Inductive wf : Z → raw → Prop :=
| wf_object d ms : d < maxNestingDepth →
    Forall (λ kv, body_ok kv.1) ms → Forall (λ kv, wf (d + 1) kv.2) ms → wf d (RObject ms)
| wf_array d vs : d < maxNestingDepth → Forall (wf (d + 1)) vs → wf d (RArray vs)
| wf_number d t : number_ok t → wf d (RNumber t)
| wf_string d b : body_ok b → wf d (RString b)
| wf_bool d b : wf d (RBool b)
| wf_null d : wf d RNull.

(** *** The first byte *)

Definition number_start (c : ascii) : bool := is_digit c || has_byte c ["-"%char].

Lemma span_head p l a b : span p l = (a, b) → a ≠ [] → ∃ c l', l = c :: l' ∧ p c = true.
Proof.
  destruct l as [|c l]; simpl; [by intros [= <- <-]|]. destruct (p c) eqn:Hp; [eauto|].
  by intros [= <- <-].
Qed.

Lemma scan_number_head t rest : scan_number t = Some (t, rest) → ∃ c t', t = c :: t' ∧ number_start c = true.
Proof.
  unfold scan_number, scan_sign. destruct t as [|c t]; [done|].
  intros Hs. exists c, t. split; [done|]. unfold number_start.
  destruct (has_byte c ["-"%char]); [by rewrite orb_true_r|].
  destruct (is_digit c) eqn:Hd; [done|]. exfalso.
  unfold scan_int, digits1 in Hs. simpl in Hs. rewrite Hd in Hs.
  assert (c ≠ "0"%char) by by intros ->.
  destruct c as [[] [] [] [] [] [] [] []]; simpl in *; done.
Qed.

Lemma number_start_spec c : number_start c = true →
  c ≠ dquote ∧ is_space c = false ∧ c ∉ ["{"; "["; "t"; "f"; "n"; "]"; "}"]%char.
Proof.
  destruct c as [[] [] [] [] [] [] [] []]; intros H; try (vm_compute in H; discriminate H);
    (split; [done|]; split; [done|]); by apply (bool_decide_unpack _).
Qed.

Lemma skip_space_head c l : is_space c = false → skip_space (c :: l) = c :: l.
Proof. intros Hc. unfold skip_space. simpl. by rewrite Hc. Qed.

Lemma print_head v d : wf d v →
  ∃ c l, print v = c :: l ∧ is_space c = false ∧ c ∉ ["]"; "}"]%char.
Proof.
  intros Hw. inversion Hw as [? ms|? vs|? t Ht|? b|? b|?]; subst; simpl;
    try by (eexists _, _; split; [reflexivity|]; split; [done|]; by apply (bool_decide_unpack _)).
  - destruct (scan_number_head t []) as (c & t' & -> & Hc).
    { specialize (Ht []). rewrite app_nil_r in Ht. apply Ht. intros ?? [=]. }
    destruct (number_start_spec c Hc) as (_ & ? & Hin). exists c, t'.
    split; [done|]. split; [done|]. set_solver.
  - exists (if b then "t" else "f")%char, (bytes_of (if b then "rue" else "alse")).
    destruct b; (split; [done|]; split; [done|]; by apply (bool_decide_unpack _)).
Qed.

(** *** Scalars *)

Lemma strip_app p l : strip p (p ++ l) = Some l.
Proof. induction p as [|c p IH]; [by destruct l|]. simpl. by destruct (ascii_dec c c). Qed.

Lemma strip_head c d s l : c ≠ d → strip (bytes_of (String d s)) (c :: l) = None.
Proof. intros Hne. simpl. by destruct (ascii_dec d c) as [->|]. Qed.

Lemma parse_scalar_number t rest : number_ok t → ends_value rest →
  parse_scalar (t ++ rest) = Some (RNumber t, rest).
Proof.
  intros Ht Hr. destruct (scan_number_head t []) as (c & t' & -> & Hc).
  { specialize (Ht []). rewrite app_nil_r in Ht. apply Ht. intros ?? [=]. }
  destruct (number_start_spec c Hc) as (Hq & _ & Hin).
  unfold parse_scalar. cbn [app]. destruct (ascii_dec c dquote) as [->|_]; [done|].
  rewrite !(strip_head c) by set_solver. change (c :: t' ++ rest) with ((c :: t') ++ rest).
  by rewrite Ht.
Qed.

Lemma parse_value_scalar fuel d c l :
  is_space c = false → c ∉ ["{"; "["]%char → parse_value (S fuel) d (c :: l) = parse_scalar (c :: l).
Proof.
  intros Hs Hc. cbn [parse_value]. rewrite skip_space_head by done.
  assert (c ≠ "{"%char) by set_solver. assert (c ≠ "["%char) by set_solver.
  destruct c as [[] [] [] [] [] [] [] []]; done.
Qed.

(** *** Round trip *)

Lemma ends_value_sep c rest : has_byte c [","; "}"; "]"; " "; "010"]%char → ends_value (c :: rest).
Proof. by intros Hc ?? [= <- _]. Qed.

Definition join_tail (sep : ascii) (l : list bytes) : bytes :=
  match l with [] => [] | _ => sep :: join_bytes sep l end.

Lemma join_bytes_cons sep x l : join_bytes sep (x :: l) = x ++ join_tail sep l.
Proof. destruct l; simpl; by rewrite ?app_nil_r. Qed.

(** What the induction shows of a value. *)
Definition parses (v : raw) : Prop := ∀ d fuel rest,
  wf d v → ends_value rest → (2 * length (print v) ≤ fuel)%nat →
  parse_value fuel d (print v ++ rest) = Some (v, rest).

Lemma length_print v d : wf d v → (0 < length (print v))%nat.
Proof. intros Hw. destruct (print_head v d Hw) as (c & l & -> & _). simpl. lia. Qed.

Lemma print_member_bytes k v : print_member (k, v) = dquote :: k ++ dquote :: ":"%char :: print v.
Proof. unfold print_member, quoted. simpl. by rewrite <- app_assoc. Qed.

Lemma parse_members_print d ms fuel rest :
  ms ≠ [] → Forall (λ kv, parses kv.2) ms → Forall (λ kv, body_ok kv.1) ms →
  Forall (λ kv, wf d kv.2) ms → (2 * length (join_bytes "," (print_member <$> ms)) ≤ fuel)%nat →
  parse_members fuel d (join_bytes "," (print_member <$> ms) ++ "}"%char :: rest) = Some (ms, rest).
Proof.
  intros Hne HP. revert fuel Hne. induction HP as [|[k v] ms Hv Hms IH]; intros fuel Hne Hb Hw Hf; [done|].
  apply Forall_cons in Hb as [Hk Hb]. apply Forall_cons in Hw as [Hwv Hw]. cbn [fst snd] in *.
  rewrite fmap_cons, join_bytes_cons in Hf |- *.
  rewrite print_member_bytes in Hf |- *. rewrite !length_app in Hf. cbn [length] in Hf.
  rewrite length_app in Hf. cbn [length] in Hf.
  destruct fuel as [|fuel]; [lia|]. cbn [parse_members app].
  rewrite skip_space_head by done. cbn [strip]. destruct (ascii_dec dquote dquote); [|done].
  cbn [mbind option_bind].
  rewrite <- !app_assoc. cbn [app]. rewrite Hk. cbn [mbind option_bind].
  rewrite skip_space_head by done. cbn [strip]. destruct (ascii_dec ":" ":"); [|done].
  cbn [mbind option_bind].
  rewrite Hv; [|done| |lia].
  2: { destruct ms; simpl; by apply ends_value_sep. }
  destruct ms as [|m ms]; [done|]. cbn [join_tail mbind option_bind app].
  change (join_tail "," (print_member <$> m :: ms)) with
    (","%char :: join_bytes "," (print_member <$> m :: ms)) in Hf |- *.
  cbn [app length] in Hf |- *.
  rewrite skip_space_head by done. rewrite IH; [done|done|done|done|]. lia.
Qed.

Lemma parse_items_print d vs fuel rest :
  vs ≠ [] → Forall parses vs → Forall (wf d) vs →
  (2 * length (join_bytes "," (print <$> vs)) < fuel)%nat →
  parse_items fuel d (join_bytes "," (print <$> vs) ++ "]"%char :: rest) = Some (vs, rest).
Proof.
  intros Hne HP. revert fuel Hne. induction HP as [|v vs Hv Hvs IH]; intros fuel Hne Hw Hf; [done|].
  apply Forall_cons in Hw as [Hwv Hw]. pose proof (length_print v d Hwv) as Hl.
  rewrite fmap_cons, join_bytes_cons in Hf |- *. rewrite length_app in Hf.
  destruct fuel as [|fuel]; [lia|]. cbn [parse_items]. rewrite <- app_assoc.
  rewrite Hv; [|done| |lia].
  2: { destruct vs; simpl; by apply ends_value_sep. }
  destruct vs as [|v' vs]; [done|]. cbn [join_tail mbind option_bind app].
  change (join_tail "," (print <$> v' :: vs)) with (","%char :: join_bytes "," (print <$> v' :: vs)) in Hf |- *.
  cbn [app length] in Hf |- *.
  rewrite skip_space_head by done. rewrite IH; [done|done|done|]. lia.
Qed.

Lemma parse_open_object fuel d c l :
  is_space c = false → c ≠ "}"%char → d < maxNestingDepth →
  parse_value (S fuel) d ("{"%char :: c :: l) =
  '(ms, r) ← parse_members fuel (d + 1) (c :: l); Some (RObject ms, r).
Proof.
  intros Hs Hc Hd. cbn [parse_value]. rewrite !skip_space_head by done.
  rewrite (proj2 (Z.leb_gt _ _)) by lia. destruct c as [[] [] [] [] [] [] [] []]; done.
Qed.

Lemma parse_open_array fuel d c l :
  is_space c = false → c ≠ "]"%char → d < maxNestingDepth →
  parse_value (S fuel) d ("["%char :: c :: l) =
  '(vs, r) ← parse_items fuel (d + 1) (c :: l); Some (RArray vs, r).
Proof.
  intros Hs Hc Hd. cbn [parse_value]. rewrite !skip_space_head by done.
  rewrite (proj2 (Z.leb_gt _ _)) by lia. destruct c as [[] [] [] [] [] [] [] []]; done.
Qed.

Lemma parse_empty fuel d rest : d < maxNestingDepth →
  parse_value (S fuel) d ("{"%char :: "}"%char :: rest) = Some (RObject [], rest) ∧
  parse_value (S fuel) d ("["%char :: "]"%char :: rest) = Some (RArray [], rest).
Proof.
  intros Hd. cbn [parse_value]. rewrite !skip_space_head by done.
  by rewrite (proj2 (Z.leb_gt _ _)) by lia.
Qed.

Lemma parses_object ms : Forall (λ kv, parses kv.2) ms → parses (RObject ms).
Proof.
  intros IH d fuel rest Hw He Hf. inversion Hw as [? ? Hd Hb Hms| | | | |]; subst.
  rewrite print_object in Hf |- *. simpl in Hf. rewrite length_app in Hf. simpl in Hf.
  destruct fuel as [|fuel]; [lia|]. cbn [app]. rewrite <- app_assoc. cbn [app].
  destruct ms as [|[k v] ms]; [by apply parse_empty|].
  pose proof (parse_members_print (d + 1) ((k, v) :: ms) fuel rest ltac:(done) IH Hb Hms ltac:(lia)) as Hp.
  rewrite fmap_cons, join_bytes_cons, print_member_bytes in Hp |- *. cbn [app] in Hp |- *.
  by rewrite parse_open_object, Hp by done.
Qed.

Lemma parses_array vs : Forall parses vs → parses (RArray vs).
Proof.
  intros IH d fuel rest Hw He Hf. inversion Hw as [|? ? Hd Hvs| | | |]; subst.
  rewrite print_array in Hf |- *. simpl in Hf. rewrite length_app in Hf. simpl in Hf.
  destruct fuel as [|fuel]; [lia|]. cbn [app]. rewrite <- app_assoc. cbn [app].
  destruct vs as [|v vs]; [by apply parse_empty|].
  pose proof (parse_items_print (d + 1) (v :: vs) fuel rest ltac:(done) IH Hvs ltac:(lia)) as Hp.
  apply Forall_cons in Hvs as [Hwv _]. destruct (print_head v _ Hwv) as (c & l & Hc & Hs & Hin).
  rewrite fmap_cons, join_bytes_cons, Hc in Hp |- *. cbn [app] in Hp |- *.
  rewrite parse_open_array, Hp by (done || set_solver). done.
Qed.

Lemma parses_all v : parses v.
Proof.
  induction v as [ms IH|vs IH|t|b|b|] using raw_nested_ind;
    [by apply parses_object|by apply parses_array|..]; intros d fuel rest Hw He Hf.
  - inversion Hw; subst. pose proof (length_print _ _ Hw). destruct fuel as [|fuel]; [lia|].
    destruct (print_head _ _ Hw) as (c & l & Hc & Hs & _). simpl in Hc, Hf |- *. subst t.
    destruct (scan_number_head (c :: l) []) as (c' & l' & [= <- <-] & Hn).
    { rewrite <- (app_nil_r (c :: l)) at 1. match goal with H : number_ok _ |- _ => apply H end. by intros ?? [=]. }
    change (parse_value (S fuel) d (c :: (l ++ rest)) = Some (RNumber (c :: l), rest)).
    rewrite parse_value_scalar by (try done; apply number_start_spec in Hn; set_solver).
    by apply (parse_scalar_number (c :: l)).
  - inversion Hw; subst. destruct fuel as [|fuel]; [simpl in Hf; lia|].
    unfold print, quoted. cbn [app]. rewrite parse_value_scalar by (done || by apply (bool_decide_unpack _)).
    unfold parse_scalar. simpl. rewrite <- app_assoc. simpl.
    match goal with H : body_ok _ |- _ => by rewrite H end.
  - destruct b, fuel as [|fuel]; (simpl in Hf; lia) || done.
  - destruct fuel as [|fuel]; [simpl in Hf; lia|]. done.
Qed.

(** What is written is parsed back, whatever well-ended text follows. *)
Lemma parse_print v rest : wf 0 v → ends_value rest → parse (print v ++ rest) = Some (v, rest).
Proof.
  intros Hw He. unfold parse, parse_fuel. apply parses_all; [done|done|]. rewrite length_app. lia.
Qed.

(** ** The fuel is enough *)

Lemma skip_space_length l : (length (skip_space l) ≤ length l)%nat.
Proof. unfold skip_space. induction l as [|c l IH]; simpl; [done|]. destruct (is_space c); simpl; lia. Qed.

Lemma span_length p l a b : span p l = (a, b) → (length a + length b = length l)%nat.
Proof.
  revert a b. induction l as [|c l IH]; intros a b; simpl; [by intros [= <- <-]|].
  destruct (p c); [|by intros [= <- <-]]. destruct (span p l) as [a' b']. intros [= <- <-].
  simpl. by rewrite (IH a' b').
Qed.

Lemma strip_length p l r : strip p l = Some r → (length p + length r = length l)%nat.
Proof.
  revert l. induction p as [|c p IH]; intros l; simpl; [by intros [= ->]|].
  destruct l as [|d l]; [done|]. destruct (ascii_dec c d); [|done]. intros Hs. simpl. by rewrite (IH _ Hs).
Qed.

Lemma digits1_length l a b : digits1 l = Some (a, b) → (length b < length l)%nat.
Proof.
  unfold digits1. destruct (span is_digit l) as [[|c d] r] eqn:Hs; [done|]. intros [= <- <-].
  apply span_length in Hs. simpl in Hs. lia.
Qed.

Lemma scan_string_length l b r : scan_string l = Some (b, r) → (length r < length l)%nat.
Proof.
  revert b. remember (length l) as n eqn:Hn. revert l Hn. induction (lt_wf n) as [n _ IH].
  intros l -> b Hs. destruct l as [|c l]; [done|]. simpl in *.
  assert (Hin : ∀ l' b', (length l' ≤ length l)%nat → scan_string l' = Some (b', r) → (length r < S (length l))%nat).
  { intros l' b' Hl Hs'. specialize (IH (length l') ltac:(lia) l' eq_refl b' Hs'). lia. }
  repeat case_match; simplify_eq; try done; simpl in *; try lia;
    match goal with Hs : mbind _ ?x = Some _ |- _ =>
      destruct x as [[b' r']|] eqn:Hx; [|done]; simpl in Hs; simplify_eq;
      eapply Hin; [|exact Hx]; simpl; lia end.
Qed.

Lemma scan_sign_length signs l a b : scan_sign signs l = (a, b) → (length b ≤ length l)%nat.
Proof.
  destruct l as [|c l]; simpl; [by intros [= <- <-]|]. destruct (has_byte c signs); intros [= <- <-]; simpl; lia.
Qed.

Lemma scan_int_length l a b : scan_int l = Some (a, b) → (length b < length l)%nat.
Proof.
  unfold scan_int. destruct (digits1 l) as [[d r]|] eqn:Hd.
  - apply digits1_length in Hd. intros Hs. repeat case_match; simplify_eq/=; lia.
  - intros Hs. repeat case_match; simplify_eq/=; lia.
Qed.

Lemma scan_frac_length l a b : scan_frac l = Some (a, b) → (length b ≤ length l)%nat.
Proof.
  unfold scan_frac. intros Hs. repeat case_match; simplify_eq/=; try lia.
  match goal with Hs : mbind _ (digits1 ?x) = _ |- _ => destruct (digits1 x) as [[d r]|] eqn:Hd; [|done] end.
  simplify_eq/=. apply digits1_length in Hd. lia.
Qed.

Lemma scan_exp_length l a b : scan_exp l = Some (a, b) → (length b ≤ length l)%nat.
Proof.
  unfold scan_exp. destruct l as [|c l]; [by intros [= <- <-]|].
  destruct (has_byte c ["e"; "E"]%char); [|by intros [= <- <-]].
  destruct (scan_sign _ l) as [s r] eqn:Hs. apply scan_sign_length in Hs.
  destruct (digits1 r) as [[d r']|] eqn:Hd; [|done]. intros [= <- <-].
  apply digits1_length in Hd. simpl. lia.
Qed.

Lemma scan_number_length l t r : scan_number l = Some (t, r) → (length r < length l)%nat.
Proof.
  unfold scan_number. destruct (scan_sign _ l) as [s l1] eqn:Hs. apply scan_sign_length in Hs.
  destruct (scan_int l1) as [[i l2]|] eqn:Hi; [|done]. apply scan_int_length in Hi. cbn [mbind option_bind].
  destruct (scan_frac l2) as [[f l3]|] eqn:Hf; [|done]. apply scan_frac_length in Hf. cbn [mbind option_bind].
  destruct (scan_exp l3) as [[e l4]|] eqn:He; [|done]. apply scan_exp_length in He.
  intros [= <- <-]. lia.
Qed.

Lemma parse_scalar_length l v r : parse_scalar l = Some (v, r) → (length r < length l)%nat.
Proof.
  unfold parse_scalar. destruct l as [|c l]; [done|]. destruct (ascii_dec c dquote).
  { destruct (scan_string l) as [[b r']|] eqn:Hs; [|done]. intros [= <- <-].
    apply scan_string_length in Hs. simpl. lia. }
  destruct (strip (bytes_of "true") (c :: l)) as [r1|] eqn:H1.
  { intros [= <- <-]. apply strip_length in H1. simpl in *. lia. }
  destruct (strip (bytes_of "false") (c :: l)) as [r1|] eqn:H2.
  { intros [= <- <-]. apply strip_length in H2. simpl in *. lia. }
  destruct (strip (bytes_of "null") (c :: l)) as [r1|] eqn:H3.
  { intros [= <- <-]. apply strip_length in H3. simpl in *. lia. }
  destruct (scan_number (c :: l)) as [[t r']|] eqn:Hs; [|done]. intros [= <- <-].
  by apply scan_number_length in Hs.
Qed.

Definition consumes {A} (p : nat → Z → bytes → option (A * bytes)) (f : nat) : Prop :=
  ∀ d l v r, p f d l = Some (v, r) → (length r < length l)%nat.

(** What follows the opening bracket of a container. *)
Ltac parse_cases Hp :=
  repeat case_match; simplify_eq; try discriminate; cbn [length] in *;
  try (apply parse_scalar_length in Hp; cbn [length] in Hp; lia); try lia.

Lemma parse_consumes f : consumes parse_value f ∧ consumes parse_members f ∧ consumes parse_items f.
Proof.
  induction f as [|f (IHv & IHm & IHi)]; [by split_and!; intros ????|]. split_and!; intros d l v r Hp.
  - cbn [parse_value] in Hp. pose proof (skip_space_length l) as Hl.
    destruct (skip_space l) as [|c l1]; [done|]. pose proof (skip_space_length l1) as Hl1.
    parse_cases Hp;
      match type of Hp with mbind _ ?x = Some _ => destruct x as [[w r']|] eqn:Hx; [|done] end;
      cbn [mbind option_bind] in Hp; simplify_eq; first [apply IHm in Hx | apply IHi in Hx];
      cbn [length] in *; lia.
  - cbn [parse_members] in Hp.
    destruct (strip [dquote] (skip_space l)) as [l1|] eqn:H1; [|done]. cbn [mbind option_bind] in Hp.
    destruct (scan_string l1) as [[k l2]|] eqn:H2; [|done]. cbn [mbind option_bind] in Hp.
    destruct (strip [":"%char] (skip_space l2)) as [l3|] eqn:H3; [|done]. cbn [mbind option_bind] in Hp.
    destruct (parse_value f d l3) as [[w l4]|] eqn:H4; [|done]. cbn [mbind option_bind] in Hp.
    pose proof (skip_space_length l). apply strip_length in H1. apply scan_string_length in H2.
    pose proof (skip_space_length l2). apply strip_length in H3. apply IHv in H4.
    pose proof (skip_space_length l4). destruct (skip_space l4) as [|c l5]; [done|].
    parse_cases Hp.
    destruct (parse_members f d l5) as [[ms r']|] eqn:Hx; [|done]. cbn [mbind option_bind] in Hp.
    simplify_eq. apply IHm in Hx. lia.
  - cbn [parse_items] in Hp.
    destruct (parse_value f d l) as [[w l1]|] eqn:H1; [|done]. cbn [mbind option_bind] in Hp.
    apply IHv in H1. pose proof (skip_space_length l1). destruct (skip_space l1) as [|c l5]; [done|].
    parse_cases Hp.
    destruct (parse_items f d l5) as [[ms r']|] eqn:Hx; [|done]. cbn [mbind option_bind] in Hp.
    simplify_eq. apply IHi in Hx. lia.
Qed.

(** Two runs with enough fuel agree. *)
Definition agrees {A} (p : nat → Z → bytes → option (A * bytes)) (slack f f' : nat) : Prop :=
  ∀ d l, (2 * length l + slack ≤ f)%nat → (2 * length l + slack ≤ f')%nat → p f d l = p f' d l.

Lemma parse_agrees f f' :
  agrees parse_value 1 f f' ∧ agrees parse_members 1 f f' ∧ agrees parse_items 2 f f'.
Proof.
  revert f'. induction f as [|f IH]; intros f'; [by split_and!; intros ??; lia|].
  destruct f' as [|f']; [by split_and!; intros ??; lia|]. destruct (IH f') as (IHv & IHm & IHi).
  split_and!; intros d l Hf Hf'.
  - cbn [parse_value]. pose proof (skip_space_length l) as Hl.
    destruct (skip_space l) as [|c l1]; [done|]. pose proof (skip_space_length l1) as Hl1.
    cbn [length] in Hl. destruct (skip_space l1) as [|c2 l2]; cbn [length] in Hl1;
      repeat case_match; try done; first [rewrite (IHm (d + 1))|rewrite (IHi (d + 1))];
      done || (cbn [length] in *; lia).
  - cbn [parse_members].
    destruct (strip [dquote] (skip_space l)) as [l1|] eqn:H1; [|done]. cbn [mbind option_bind].
    destruct (scan_string l1) as [[k l2]|] eqn:H2; [|done]. cbn [mbind option_bind].
    destruct (strip [":"%char] (skip_space l2)) as [l3|] eqn:H3; [|done]. cbn [mbind option_bind].
    pose proof (skip_space_length l). apply strip_length in H1. apply scan_string_length in H2.
    pose proof (skip_space_length l2). apply strip_length in H3. rewrite (IHv d) by lia.
    destruct (parse_value f' d l3) as [[w l4]|] eqn:H4; [|done]. cbn [mbind option_bind].
    apply parse_consumes in H4. pose proof (skip_space_length l4).
    destruct (skip_space l4) as [|c l5]; [done|]. cbn [length] in *. rewrite (IHm d) by lia. done.
  - cbn [parse_items]. rewrite (IHv d) by lia.
    destruct (parse_value f' d l) as [[w l1]|] eqn:H1; [|done]. cbn [mbind option_bind].
    apply parse_consumes in H1. pose proof (skip_space_length l1).
    destruct (skip_space l1) as [|c l5]; [done|]. cbn [length] in *. rewrite (IHi d) by lia. done.
Qed.

(** More fuel than [parse] gives changes nothing: the parser ends by itself. *)
Lemma parse_fuel_enough f l : (parse_fuel l ≤ f)%nat → parse_value f 0 l = parse l.
Proof. unfold parse, parse_fuel. intros Hf. apply parse_agrees; lia. Qed.

(** ** Plain strings and decimal numbers *)

(** A byte that is written as it is. *)
Definition plain_byte (c : ascii) : bool :=
  (32 <=? byte_val c) && (byte_val c <? 128) && negb (has_byte c [dquote; "\"%char]).

Definition plain (s : string) : Prop := forallb plain_byte (bytes_of s) = true.

Lemma plain_byte_spec c : plain_byte c = true →
  (32 <=? byte_val c) = true ∧ (byte_val c <? 128) = true ∧ c ≠ dquote ∧ c ≠ "\"%char.
Proof.
  unfold plain_byte. rewrite !andb_true_iff, negb_true_iff. intros [[H1 H2] H3].
  unfold has_byte in H3. apply bool_decide_eq_false in H3. split_and!; [done|done|set_solver..].
Qed.

Lemma body_ok_plain s : plain s → body_ok (bytes_of s).
Proof.
  unfold plain, body_ok. induction (bytes_of s) as [|c l IH]; intros Hp rest; [done|].
  simpl in Hp. apply andb_true_iff in Hp as [Hc Hp].
  apply plain_byte_spec in Hc as (H1 & _ & H3 & H4). cbn [app scan_string].
  destruct (ascii_dec c dquote); [done|]. destruct (ascii_dec c "\"); [done|].
  destruct (Z.ltb_spec (byte_val c) 32); [lia|]. by rewrite IH.
Qed.

Lemma unquote_plain s : plain s → unquote (bytes_of s) = s.
Proof.
  unfold plain, unquote. intros Hp. rewrite <- (of_bytes_of s) at 3. f_equal.
  induction (bytes_of s) as [|c l IH]; [done|]. simpl in Hp. apply andb_true_iff in Hp as [Hc Hp].
  apply plain_byte_spec in Hc as (_ & H2 & _ & H4). cbn [length unquote_fuel]. rewrite H2, IH by done.
  destruct c as [[] [] [] [] [] [] [] []]; done.
Qed.

Lemma to_uint_no_zero p d : Pos.to_uint p ≠ Decimal.D0 d.
Proof.
  intros He. pose proof (DecimalPos.Unsigned.of_to p) as Ho. rewrite He in Ho.
  pose proof (DecimalN.Unsigned.to_of (Decimal.D0 d)) as Hu. unfold N.of_uint in Hu.
  rewrite Ho in Hu. simpl in Hu. rewrite He, DecimalFacts.unorm_D0 in Hu.
  assert (d = Decimal.Nil ∨ d ≠ Decimal.Nil) as [->|Hd] by (destruct d; (by left) || by right).
  - by apply (DecimalPos.Unsigned.to_uint_nonzero p).
  - pose proof (DecimalFacts.nb_digits_unorm d Hd) as Hn. rewrite <- Hu in Hn. simpl in Hn. lia.
Qed.

Lemma scan_int_digits l : all_digits l → l ≠ [] → (∀ l', l = "0"%char :: l' → l' = []) →
  ∀ rest, (∀ c r, rest = c :: r → is_digit c = false) → scan_int (l ++ rest) = Some (l, rest).
Proof.
  intros Hl Hn Hz rest Hr. assert (Hd : digits1 (l ++ rest) = Some (l, rest)).
  { unfold digits1. assert (span is_digit (l ++ rest) = (l, rest)) as ->; [|by destruct l].
    clear Hn Hz. induction Hl as [|c l Hc Hl IH]; simpl.
    - destruct rest as [|c rest]; [done|]. simpl. by rewrite (Hr c rest eq_refl).
    - by rewrite Hc, IH. }
  unfold scan_int. destruct l as [|c l]; [done|]. cbn [app] in *.
  destruct (ascii_dec c "0") as [->|Hc]; [by rewrite (Hz l eq_refl)|].
  destruct c as [[] [] [] [] [] [] [] []]; done.
Qed.

(** A decimal number that is not negative. *)
Lemma number_ok_Itoa z : 0 ≤ z → number_ok (bytes_of (Itoa z)).
Proof.
  intros Hz rest Hr. destruct (Itoa_nonneg z Hz) as (l & Hl & Hd & Hn & _). rewrite Hl.
  assert (Hlead : ∀ l', l = "0"%char :: l' → l' = []).
  { intros l' ->. destruct z as [|p|p]; [by injection Hl as <-| |lia].
    unfold Itoa in Hl. simpl in Hl. destruct (Pos.to_uint p) as [|d|d|d|d|d|d|d|d|d|d] eqn:Hp;
      try discriminate Hl. by apply to_uint_no_zero in Hp. }
  assert (Hend : ∀ c r, rest = c :: r → is_digit c = false ∧ c ≠ "."%char ∧ has_byte c ["e"; "E"]%char = false).
  { intros c r ->. specialize (Hr c r eq_refl). unfold has_byte in *.
    apply bool_decide_unpack in Hr. rewrite !elem_of_cons, elem_of_nil in Hr.
    repeat (destruct Hr as [->|Hr]; [done|]). done. }
  unfold scan_number. assert (Hs : scan_sign ["-"%char] (l ++ rest) = ([], l ++ rest)).
  { destruct l as [|c l]; [done|]. apply Forall_cons in Hd as [Hc _]. simpl.
    assert (has_byte c ["-"%char] = false) as ->; [|done].
    destruct c as [[] [] [] [] [] [] [] []]; done. }
  rewrite Hs, scan_int_digits by (done || naive_solver). cbn [mbind option_bind].
  destruct rest as [|c rest]; [simpl; by rewrite app_nil_r|].
  destruct (Hend c rest eq_refl) as (_ & Hdot & He).
  assert (scan_frac (c :: rest) = Some ([], c :: rest)) as ->.
  { destruct c as [[] [] [] [] [] [] [] []]; done. }
  cbn [mbind option_bind]. unfold scan_exp. rewrite He. cbn [mbind option_bind]. by rewrite !app_nil_r.
Qed.

(** ** Values of type interface{} *)

Section decoded.
Context `{RangeOrder}.

Lemma decoded_members ms : Forall (λ kv, decoded kv.2) ms → decoded (JObject ms).
Proof. induction 1 as [|[k v] ms Hv Hms IH]; [done|]. by split. Qed.

Lemma object_map_Forall {A} (P : A → Prop) ms :
  Forall (λ kv, P kv.2) ms → map_Forall (λ _ a, P a) (object_map ms).
Proof.
  unfold object_map, insert_all. assert (He : map_Forall (λ _ a, P a) (∅ : gmap string A)) by done.
  revert He. generalize (∅ : gmap string A). induction ms as [|[k a] ms IH]; intros acc Ha Hms; [done|].
  apply Forall_cons in Hms as [Hv Hms]. simpl. apply IH; [|done]. by apply map_Forall_insert_2.
Qed.

(** What is decoded can be flattened. *)
Lemma raw_json_decoded v n : decoded (raw_json n v).2.
Proof.
  revert n. induction v as [ms IH|vs IH|t|b|b|] using raw_nested_ind; intros n; simpl; try done.
  - match goal with |- context [(?f n ms)] =>
      assert (Hl : ∀ n, Forall (λ kv, decoded kv.2) (f n ms).2) end.
    { clear n. induction IH as [|[k v] ms Hv Hms IHms]; intros n; [constructor|]. simpl in *.
      specialize (Hv n). destruct (raw_json n v) as [n1 w]. specialize (IHms n1).
      match goal with |- context [(?f n1 ms)] => destruct (f n1 ms) as [n2 ms'] end. by constructor. }
    specialize (Hl n). match goal with |- context [(?f n ms)] => destruct (f n ms) as [n2 ms'] end.
    apply decoded_members. apply object_map_Forall in Hl. apply Forall_forall. intros [k w] Hin.
    apply elem_of_range_list in Hin. by eapply Hl.
  - match goal with |- context [(?f n vs)] => by destruct (f n vs) as [n2 ws] end.
Qed.

Lemma any_json_decoded v n : decoded (any_json n v).2.
Proof. destruct v; [apply raw_json_decoded|done]. Qed.
End decoded.

(** ** Decoding what was written *)

(** Members whose keys are all other fields' leave a field as it is. *)
Lemma dec_field_skip {T} names ms ms' name (dec : decoder T) zero :
  Forall (λ kv, field_name names (unquote kv.1) ≠ Some name) ms →
  dec_field names (ms ++ ms') name dec zero = dec_field names ms' name dec zero.
Proof.
  intros Hms. unfold dec_field. rewrite foldl_app. f_equal. induction Hms as [|kv ms Hkv Hms IH]; [done|].
  simpl. by rewrite decide_False.
Qed.

Lemma dec_field_one {T} names k v ms name (dec : decoder T) zero t :
  field_name names (unquote k) = Some name → dec v zero = Some t →
  Forall (λ kv, field_name names (unquote kv.1) ≠ Some name) ms →
  dec_field names ((k, v) :: ms) name dec zero = Some t.
Proof.
  intros Hk Hv Hms. unfold dec_field. simpl. rewrite decide_True, Hv by done.
  induction Hms as [|kv ms Hkv Hms IH]; [done|]. simpl. by rewrite decide_False.
Qed.

(** A body that begins with a written object is decoded from that object. *)
Lemma Decode_print {T} (dec : decoder T) zero status ms rest err :
  wf 0 (RObject ms) → ends_value rest →
  Decode dec zero (mkResponse status (print (RObject ms) ++ rest) err) = dec (RObject ms) zero.
Proof. intros Hw He. unfold Decode. cbn [resp_Body]. by rewrite parse_print. Qed.

Lemma wf_object_cons d k v ms :
  d < maxNestingDepth → body_ok k → wf (d + 1) v → wf d (RObject ms) → wf d (RObject ((k, v) :: ms)).
Proof.
  intros Hd Hk Hv Hms. inversion Hms as [? ? _ Hb Hw| | | | |]; subst.
  apply wf_object; [done|by apply Forall_cons_2|by apply Forall_cons_2].
Qed.

Lemma wf_object_nil d : d < maxNestingDepth → wf d (RObject []).
Proof. intros Hd. by apply wf_object. Qed.

Lemma plain_Itoa z : plain (Itoa z).
Proof.
  unfold plain. apply Is_true_true, forallb_True, Forall_forall. intros c Hc. unfold plain_byte.
  destruct (ascii_dec c "-") as [->|Hm]; [done|].
  destruct (is_digit c) eqn:Hd; [|by apply Itoa_clean in Hc].
  destruct c as [[] [] [] [] [] [] [] []]; (discriminate Hd || done).
Qed.

Lemma mapM_fmap_ok {A B} (f : raw → option B) (g : A → raw) (h : A → B) l :
  (∀ a, a ∈ l → f (g a) = Some (h a)) → mapM f (g <$> l) = Some (h <$> l).
Proof.
  intros Hf. apply mapM_Some. induction l as [|a l IH]; [constructor|]. csimpl. constructor.
  - apply Hf. by left.
  - apply IH. intros b Hb. apply Hf. by right.
Qed.

(** ** Objects with plain, known keys *)

(** The members written for a list of keys and values. *)
Definition members {A} (g : A → raw) (l : list (string * A)) : list (bytes * raw) :=
  (λ kv, (bytes_of kv.1, g kv.2)) <$> l.

Lemma wf_members {A} d (g : A → raw) l :
  d < maxNestingDepth → Forall (λ kv, plain kv.1 ∧ wf (d + 1) (g kv.2)) l → wf d (RObject (members g l)).
Proof.
  intros Hd. induction 1 as [|[k a] l [Hk Ha] Hl IH]; [by apply wf_object_nil|].
  apply wf_object_cons; [done|by apply body_ok_plain|done|done].
Qed.

Lemma dec_field_member {T} names (l : list (string * raw)) name v (dec : decoder T) zero t :
  NoDup l.*1 → Forall (λ kv, plain kv.1 ∧ kv.1 ∈ names) l → (name, v) ∈ l → dec v zero = Some t →
  dec_field names (members id l) name dec zero = Some t.
Proof.
  intros Hn Hl (l1 & l2 & ->)%list_elem_of_split Hv.
  apply Forall_app in Hl as [Hl1 [[Hp Hin] Hl2]%Forall_cons]. simpl in Hp, Hin.
  rewrite fmap_app, NoDup_app in Hn. destruct Hn as (_ & Hd & [Hnot Hnd]%NoDup_cons).
  assert (Hother : ∀ l', Forall (λ kv, plain kv.1 ∧ kv.1 ∈ names) l' → name ∉ l'.*1 →
    Forall (λ kv, field_name names (unquote kv.1) ≠ Some name) (members id l')).
  { intros l' Hl' Hni. apply Forall_fmap. rewrite Forall_forall in *. intros [k w] Hkw. simpl.
    destruct (Hl' _ Hkw) as [Hk Hkn]. simpl in *. rewrite unquote_plain by done.
    unfold field_name. rewrite decide_True by done. intros [= ->]. apply Hni.
    apply list_elem_of_fmap. by exists (name, w). }
  unfold members. rewrite fmap_app, fmap_cons. fold (members id l1) (members id l2).
  rewrite dec_field_skip by (apply Hother; [done|]; intros Hin1; apply (Hd _ Hin1); left).
  apply dec_field_one; [|done|by apply Hother]. simpl. rewrite unquote_plain by done.
  unfold field_name. by rewrite decide_True.
Qed.

Lemma dec_map_members {A} (zero : A) (dec : decoder A) (g : A → raw) l old :
  Forall (λ kv, plain kv.1 ∧ dec (g kv.2) zero = Some kv.2) l →
  dec_map zero dec (RObject (members g l)) old = Some (insert_all l old).
Proof.
  unfold dec_map, members, insert_all. intros Hl. revert old.
  induction Hl as [|[k a] l [Hk Ha] Hl IH]; intros old; [done|]. csimpl. simpl in Hk, Ha.
  rewrite Ha, unquote_plain by done. apply IH.
Qed.
