(* ===== verification/Stringx.v ===== *)
(** * Snake case (pkg/stringx/strx.go)

    [SnakeCase] works on the runes of its input; [snake_loop] is its loop,
    with the previous rune and the runes still to come at hand. *)
From S2P Require Import Prelude GoText.
#[local] Open Scope Z_scope.

Definition dot : Z := 46.
Definition underscore : Z := 95.

Section snake.
Context `{UnicodeTables}.

Definition rune_upper_at (r p : Z) (rest : list Z) : bool :=
  IsUpper r && (match rest with n :: _ => IsLower n | [] => false end || IsLower p).

(** [prev] is [None] at index 0; [rest = []] at index length-1. *)
Fixpoint snake_loop (prev : option Z) (runes : list Z) (out : list Z) : list Z :=
  match runes with
  | [] => out
  | r :: rest =>
    if r =? dot then snake_loop (Some r) rest out
    else match prev with
    | None => snake_loop (Some r) rest (out ++ [ToLower r])
    | Some p =>
      if ((r =? underscore) && (p =? underscore))
         || (bool_decide (rest = []) && (r =? underscore))
      then snake_loop (Some r) rest out
      else
        let out := if rune_upper_at r p rest
                   then (if p =? underscore then out else out ++ [underscore])
                   else out in
        snake_loop (Some r) rest (out ++ [ToLower r])
    end
  end.

Definition SnakeCase (s : string) : string := string_of_runes (snake_loop None (runes s) []).

(** What is left of the runes when separators are dropped. *)
Definition letters (l : list Z) : list Z := filter (λ r, r ≠ underscore ∧ r ≠ dot) l.

Lemma letters_app l1 l2 : letters (l1 ++ l2) = letters l1 ++ letters l2.
Proof. apply filter_app. Qed.

Context {HL : UnicodeLaws}.

Lemma ToLower_sep r x :
  0 ≤ r → x = underscore ∨ x = dot → ToLower r = x ↔ r = x.
Proof.
  intros Hr Hx. assert (0 ≤ x < 97 ∧ x < 128 ∧ ascii_lower x = x ∧ 90 < x ∨ x = 46) as Hx'
    by (destruct Hx as [->| ->]; [left|right]; done).
  assert (Hxl : ToLower x = x) by (rewrite ToLower_ascii; destruct Hx as [->| ->]; done).
  split; [|by intros ->]. intros He.
  destruct (Z_lt_ge_dec r 128) as [Hlt|Hge].
  - rewrite ToLower_ascii in He by lia. unfold ascii_lower in He.
    destruct (Z.leb_spec 65 r), (Z.leb_spec r 90); simpl in He; try done.
    unfold underscore, dot in *. lia.
  - destruct (ToLower_wide r ltac:(lia)); unfold underscore, dot in *; lia.
Qed.

Lemma letters_ToLower r :
  0 ≤ r → letters [ToLower r] = ToLower <$> letters [r].
Proof.
  intros Hr. unfold letters.
  pose proof (ToLower_sep r underscore Hr (or_introl eq_refl)).
  pose proof (ToLower_sep r dot Hr (or_intror eq_refl)).
  rewrite !filter_cons, !filter_nil. repeat case_decide; try done; tauto.
Qed.

Lemma letters_underscore : letters [underscore] = [].
Proof. unfold letters. rewrite filter_cons, decide_False by naive_solver. done. Qed.

Lemma snake_loop_letters prev l out :
  Forall (λ r, 0 ≤ r) l →
  letters (snake_loop prev l out) = letters out ++ (ToLower <$> letters l).
Proof.
  intros Hl. revert prev out. induction Hl as [|r l Hr Hl IH]; intros prev out.
  { simpl. by rewrite app_nil_r. }
  assert (Hstep : letters (out ++ [ToLower r]) ++ (ToLower <$> letters l) =
                  letters out ++ (ToLower <$> letters (r :: l))).
  { rewrite (letters_app [r] l : letters (r :: l) = _), letters_app, letters_ToLower by done.
    by rewrite fmap_app, <- app_assoc. }
  assert (Hskip : r = dot ∨ r = underscore → letters (r :: l) = letters l).
  { intros Hs. unfold letters. rewrite filter_cons, decide_False; [done|]. naive_solver. }
  cbn [snake_loop]. destruct (Z.eqb_spec r dot) as [->|Hd].
  { rewrite IH, Hskip; auto. }
  destruct prev as [p|]; [|by rewrite IH].
  destruct ((r =? underscore) && (p =? underscore)
            || bool_decide (l = []) && (r =? underscore)) eqn:Hc.
  { assert (r = underscore) as ->.
    { destruct (Z.eqb_spec r underscore); [done|]. simpl in Hc.
      by rewrite andb_false_r in Hc. }
    rewrite IH, Hskip; auto. }
  rewrite IH, <- Hstep. f_equal. rewrite !letters_app. f_equal.
  destruct (rune_upper_at r p l); [|done].
  destruct (p =? underscore); [done|]. by rewrite letters_app, letters_underscore, app_nil_r.
Qed.

Lemma snake_loop_no_dot prev l out :
  Forall (λ r, 0 ≤ r) l → dot ∉ out → dot ∉ snake_loop prev l out.
Proof.
  intros Hl. revert prev out. induction Hl as [|r l Hr Hl IH]; intros prev out Ho; [done|].
  cbn [snake_loop]. destruct (Z.eqb_spec r dot) as [->|Hd]; [by apply IH|].
  assert (Hx : ∀ o, dot ∉ o → dot ∉ o ++ [ToLower r]).
  { intros o Hdo. rewrite elem_of_app, list_elem_of_singleton.
    intros [?|He]; [done|]. by apply Hd, (ToLower_sep r dot Hr (or_intror eq_refl)). }
  destruct prev as [p|]; [|by apply IH, Hx].
  destruct (_ || _); [by apply IH|]. apply IH, Hx.
  destruct (rune_upper_at r p l); [|done]. destruct (p =? underscore); [done|].
  rewrite elem_of_app, list_elem_of_singleton. intros [?|He]; [done|]. done.
Qed.

Lemma snake_loop_length prev l out :
  (length (snake_loop prev l out) ≤ length out + 2 * length l)%nat.
Proof.
  revert prev out. induction l as [|r l IH]; intros prev out; cbn [snake_loop length]; [lia|].
  destruct (r =? dot); [etransitivity; [apply IH|lia]|].
  destruct prev as [p|];
    [|etransitivity; [apply IH|rewrite length_app; simpl; lia]].
  destruct (_ || _); [etransitivity; [apply IH|lia]|].
  etransitivity; [apply IH|]. rewrite length_app.
  destruct (rune_upper_at r p l); [destruct (p =? underscore)|]; rewrite ?length_app; simpl; lia.
Qed.
End snake.

(** Snake-casing changes only separators and case: with underscores and
    dots left out, the output's runes are the lower-cased runes of the input;
    no dot survives, and the output is at most twice as long. *)
Theorem SnakeCase_spec `{UnicodeLaws} s :
  let out := snake_loop None (runes s) [] in
  SnakeCase s = string_of_runes out ∧
  letters out = ToLower <$> letters (runes s) ∧
  dot ∉ out ∧
  (length out ≤ 2 * length (runes s))%nat.
Proof.
  pose proof (runes_nonneg s) as Hr. split_and!; [done|..].
  - by rewrite snake_loop_letters.
  - apply snake_loop_no_dot; [done|apply not_elem_of_nil].
  - apply (snake_loop_length None).
Qed.

Lemma SnakeCase_spec_witness :
  @SnakeCase ascii_tables "MySQL.MaxConns_" = "my_sql_max_conns" ∧
  @letters (@snake_loop ascii_tables None (runes "MySQL.MaxConns_") []) =
    ascii_lower <$> @letters (runes "MySQL.MaxConns_").
Proof.
  split; [vm_compute; reflexivity|].
  apply (@SnakeCase_spec ascii_tables ascii_tables_laws "MySQL.MaxConns_").
Defined.
