(* ===== verification/Emit.v ===== *)
(** * What a gather adds to a sample list

    Every handler pushes samples on the list it is given. [emits f out] says
    that [f] adds exactly [out], oldest first, behind whatever the list holds. *)
From S2P Require Import Prelude SafeLists Samples.

(** [f] adds [out] behind the samples already there, whatever they are. *)
Definition emits (f : SampleList → SampleList) (out : list (option Sample)) : Prop :=
  ∀ q, f (of_queue q) = of_queue (q ++ out).

Definition appends (f : SampleList → SampleList) : Prop := ∃ out, emits f out.

Lemma emits_id : emits (λ l, l) [].
Proof. intros q. by rewrite app_nil_r. Qed.

Lemma emits_comp f g a b : emits f a → emits g b → emits (λ l, g (f l)) (a ++ b).
Proof. intros Hf Hg q. by rewrite Hf, Hg, app_assoc. Qed.

Lemma emits_foldl {A} (f : SampleList → A → SampleList) (out : A → list (option Sample)) xs :
  (∀ a, emits (λ l, f l a) (out a)) → emits (λ l, foldl f l xs) (concat (out <$> xs)).
Proof.
  intros Hf. induction xs as [|x xs IH]; [apply emits_id|].
  intros q. csimpl. rewrite Hf, IH. by rewrite app_assoc.
Qed.

Lemma appends_id : appends (λ l, l).
Proof. exists []. apply emits_id. Qed.

Lemma appends_comp f g : appends f → appends g → appends (λ l, g (f l)).
Proof. intros [a Ha] [b Hb]. exists (a ++ b). by apply emits_comp. Qed.

Lemma appends_foldl {A} (f : SampleList → A → SampleList) xs :
  (∀ a, appends (λ l, f l a)) → appends (λ l, foldl f l xs).
Proof.
  intros Hf. induction xs as [|x xs IH]; [apply appends_id|].
  exact (appends_comp _ _ (Hf x) IH).
Qed.

(** A loop that adds one sample per element. *)
Lemma emits_foldl_map {A} (f : SampleList → A → SampleList) (g : A → option Sample) xs :
  (∀ a, emits (λ l, f l a) [g a]) → emits (λ l, foldl f l xs) (g <$> xs).
Proof.
  intros Hf. induction xs as [|x xs IH]; [apply emits_id|].
  intros q. csimpl. by rewrite Hf, IH, <- app_assoc.
Qed.
