(* ===== verification/Scrape.v ===== *)
(** * The monad of a gather

    The handlers of ClickHouse and Elasticsearch are written in a monad: a
    [scrape St A] reads and changes a state [St], numbers the loops over maps as
    it meets them, pushes samples on the shared list, and ends with a value, an
    error that its caller sees, or a run-time panic. *)
From S2P Require Import Prelude GoText SafeLists Conv Samples Emit.

(** From the number of the next loop and the state: the new ones, the samples
    pushed, oldest first, and the result. *)
Definition scrape (St A : Type) : Type :=
  nat → St → outcome (nat * St * list (option Sample) * result A).

Section monad.
Context {St : Type}.

#[export] Instance scrape_ret : MRet (scrape St) := λ A a n st, Done (n, st, [], Ok a).

#[export] Instance scrape_bind : MBind (scrape St) := λ A B f m n st,
  match m n st with
  | Panic s => Panic s
  | Done (n, st, out, Err e) => Done (n, st, out, Err e)
  | Done (n, st, out, Ok a) =>
    match f a n st with
    | Panic s => Panic s
    | Done (n, st, out', r) => Done (n, st, out ++ out', r)
    end
  end.

(** [return err]. *)
Definition fail {A} (e : error) : scrape St A := λ n st, Done (n, st, [], Err e).

Definition crash {A} (s : string) : scrape St A := λ n st, Panic s.

Definition of_result {A} (r : result A) : scrape St A :=
  match r with Ok a => mret a | Err e => fail e end.

Definition get : scrape St St := λ n st, Done (n, st, [], Ok st).
Definition put (st : St) : scrape St unit := λ n _, Done (n, st, [], Ok ()).

(** [if err := f(); err != nil { log }]. *)
Definition attempt (m : scrape St unit) : scrape St unit := λ n st,
  match m n st with
  | Panic s => Panic s
  | Done (n, st, out, _) => Done (n, st, out, Ok ())
  end.

Fixpoint for_each {A} (l : list A) (f : A → scrape St unit) : scrape St unit :=
  match l with
  | [] => mret ()
  | a :: l' => _ ← f a; for_each l' f
  end.

(** [if b { m }]. *)
Definition when (b : bool) (m : scrape St unit) : scrape St unit := if b then m else mret ().

Context `{RangeOrder}.

(** [for k, v := range m]: the order of this loop. *)
Definition range_map {A} (m : gmap string A) : scrape St (list (string * A)) :=
  λ n st, Done (S n, st, [], Ok (range_list n m)).

(** [slist.PushSample] and [slist.PushSamples]; a loop per map of labels. *)
Definition push_sample (prefix metric : string) (value : iface) (labels : list (gmap string string)) :
    scrape St unit :=
  λ n st, Done (n + length labels, st, [Some (NewSample n prefix metric value labels)], Ok ()).

Definition push_samples (prefix : string) (fields : gmap string iface)
    (labels : list (gmap string string)) : scrape St unit :=
  λ n st, Done (S n + size fields * length labels, st,
                fields_samples (S n) prefix (range_list n fields) labels, Ok ()).

(** ** What a computation does, whatever the numbers of its loops *)

Definition runs {A} (m : scrape St A) (st : St) (out : list (option Sample)) (st' : St)
    (r : result A) : Prop :=
  ∀ n, ∃ n', m n st = Done (n', st', out, r).

Lemma runs_ret {A} (a : A) st : runs (mret a) st [] st (Ok a).
Proof. intros n. by exists n. Qed.

Lemma runs_fail {A} e st : runs (fail (A:=A) e) st [] st (Err e).
Proof. intros n. by exists n. Qed.

Lemma runs_get st : runs get st [] st (Ok st).
Proof. intros n. by exists n. Qed.

Lemma runs_put st st' : runs (put st') st [] st' (Ok ()).
Proof. intros n. by exists n. Qed.

Lemma runs_of_result {A} (r : result A) st : runs (of_result r) st [] st r.
Proof. destruct r; [apply runs_ret|apply runs_fail]. Qed.

Lemma runs_bind {A B} (m : scrape St A) (f : A → scrape St B) st o1 st1 a o2 st2 r :
  runs m st o1 st1 (Ok a) → runs (f a) st1 o2 st2 r → runs (m ≫= f) st (o1 ++ o2) st2 r.
Proof.
  intros Hm Hf n. destruct (Hm n) as [n1 H1]. destruct (Hf n1) as [n2 H2]. exists n2.
  unfold mbind, scrape_bind. by rewrite H1, H2.
Qed.

(** The first step pushes nothing. *)
Lemma runs_bind_nil {A B} (m : scrape St A) (f : A → scrape St B) st st1 a o2 st2 r :
  runs m st [] st1 (Ok a) → runs (f a) st1 o2 st2 r → runs (m ≫= f) st o2 st2 r.
Proof. apply runs_bind. Qed.

Lemma runs_bind_err {A B} (m : scrape St A) (f : A → scrape St B) st o st' e :
  runs m st o st' (Err e) → runs (m ≫= f) st o st' (Err e).
Proof. intros Hm n. destruct (Hm n) as [n1 H1]. exists n1. unfold mbind, scrape_bind. by rewrite H1. Qed.

Lemma runs_attempt (m : scrape St unit) st o st' r :
  runs m st o st' r → runs (attempt m) st o st' (Ok ()).
Proof. intros Hm n. destruct (Hm n) as [n1 H1]. exists n1. unfold attempt. by rewrite H1. Qed.

Lemma NewSample_eq n prefix metric value labels :
  NewSample n prefix metric value labels = NewSample 0 prefix metric value labels.
Proof. unfold NewSample. by rewrite !merge_labels_union. Qed.

Lemma runs_push_sample prefix metric value labels st :
  runs (push_sample prefix metric value labels) st
    [Some (NewSample 0 prefix metric value labels)] st (Ok ()).
Proof. intros n. eexists. unfold push_sample. by rewrite NewSample_eq. Qed.

(** A loop whose turns keep the state. *)
Lemma runs_for_each {A} (l : list A) (f : A → scrape St unit) (out : A → list (option Sample)) st :
  (∀ a, a ∈ l → runs (f a) st (out a) st (Ok ())) →
  runs (for_each l f) st (concat (out <$> l)) st (Ok ()).
Proof.
  induction l as [|a l IH]; intros Hf; [apply runs_ret|]. cbn [for_each]. csimpl.
  eapply runs_bind; [apply Hf; by left|]. apply IH. intros b Hb. apply Hf. by right.
Qed.

Lemma bind_ret {A B} (a : A) (f : A → scrape St B) n st : (mret a ≫= f) n st = f a n st.
Proof. unfold mret, mbind, scrape_ret, scrape_bind. by destruct (f a n st) as [[[[? ?] ?] ?]|]. Qed.

Lemma bind_silent {A B} (m : scrape St A) (f : A → scrape St B) n st n' st' a :
  m n st = Done (n', st', [], Ok a) → (m ≫= f) n st = f a n' st'.
Proof.
  intros Hm. unfold mbind, scrape_bind. rewrite Hm. by destruct (f a n' st') as [[[[? ?] ?] ?]|].
Qed.

(** ** What a computation pushes, up to the order of its loops *)

Definition pushes_some (m : scrape St unit) (st : St) (l : list (option Sample)) : Prop :=
  ∀ n, ∃ n' out, m n st = Done (n', st, out, Ok ()) ∧ out ≡ₚ l.

Definition plain_sample (prefix : string) (labels : list (gmap string string)) (kv : string * iface) :
    option Sample := Some (NewSample 0 prefix kv.1 kv.2 labels).

Lemma fields_samples_plain n prefix fields labels :
  fields_samples n prefix fields labels = plain_sample prefix labels <$> fields.
Proof.
  unfold fields_samples, plain_sample. revert n. induction fields as [|[k v] fields IH]; intros n; [done|].
  csimpl. f_equal; [by rewrite NewSample_eq|]. rewrite <- (IH n). apply imap_ext. intros i [k' v'] _.
  simpl. by rewrite NewSample_eq, (NewSample_eq (n + _)).
Qed.

Lemma pushes_push_samples prefix fields labels st :
  pushes_some (push_samples prefix fields labels) st (plain_sample prefix labels <$> map_to_list fields).
Proof.
  intros n. eexists _, _. split; [reflexivity|]. rewrite fields_samples_plain. by rewrite range_list_perm.
Qed.

Lemma pushes_then (m : scrape St unit) (f : unit → scrape St unit) st l1 l2 :
  pushes_some m st l1 → pushes_some (f ()) st l2 → pushes_some (m ≫= f) st (l1 ++ l2).
Proof.
  intros Hm Hf n. destruct (Hm n) as (n1 & o1 & H1 & P1). destruct (Hf n1) as (n2 & o2 & H2 & P2).
  exists n2, (o1 ++ o2). unfold mbind, scrape_bind. rewrite H1, H2. split; [done|]. by f_equiv.
Qed.

Lemma pushes_for_each {A} (l : list A) (f : A → scrape St unit) st (out : A → list (option Sample)) :
  (∀ a, a ∈ l → pushes_some (f a) st (out a)) → pushes_some (for_each l f) st (concat (out <$> l)).
Proof.
  induction l as [|a l IH]; intros Hf; [intros n; by exists n, []|]. cbn [for_each]. csimpl.
  apply pushes_then; [apply Hf; by left|]. apply IH. intros b Hb. apply Hf. by right.
Qed.

(** A loop over a map. *)
Lemma pushes_range {A} (m : gmap string A) (f : string * A → scrape St unit) st out :
  (∀ kv, m !! kv.1 = Some kv.2 → pushes_some (f kv) st (out kv)) →
  pushes_some (l ← range_map m; for_each l f) st (concat (out <$> map_to_list m)).
Proof.
  intros Hf n. destruct (pushes_for_each (range_list n m) f st out) with (n := S n) as (n' & o & Ho & Hp).
  { intros [k a] Hin. apply Hf. by apply elem_of_range_list in Hin. }
  exists n', o. rewrite (bind_silent _ _ n st (S n) st (range_list n m)) by done. split; [done|].
  by rewrite Hp, range_list_perm.
Qed.

(** ** Crashes *)

Definition crashes {A} (m : scrape St A) (st : St) : Prop := ∀ n, is_panic (m n st).

Lemma crashes_bind {A B} (m : scrape St A) (f : A → scrape St B) st :
  crashes m st → crashes (m ≫= f) st.
Proof. intros Hm n. destruct (Hm n) as [s Hs]. exists s. unfold mbind, scrape_bind. by rewrite Hs. Qed.

Lemma crashes_after {A B} (m : scrape St A) (f : A → scrape St B) st o st' a :
  runs m st o st' (Ok a) → crashes (f a) st' → crashes (m ≫= f) st.
Proof.
  intros Hm Hf n. destruct (Hm n) as [n1 H1]. destruct (Hf n1) as [s Hs]. exists s.
  unfold mbind, scrape_bind. by rewrite H1, Hs.
Qed.

(** A computation that never panics, from a state of a given kind. *)
Definition safe {A} (I : St → Prop) (m : scrape St A) : Prop :=
  ∀ n st, I st → ∃ n' st' out r, m n st = Done (n', st', out, r) ∧ I st'.

Lemma safe_ret {A} I (a : A) : safe I (mret a).
Proof. intros n st HI. by eexists _, _, _, _. Qed.

Lemma safe_fail {A} I e : safe I (fail (A:=A) e).
Proof. intros n st HI. by eexists _, _, _, _. Qed.

Lemma safe_of_result {A} I (r : result A) : safe I (of_result r).
Proof. destruct r; [apply safe_ret|apply safe_fail]. Qed.

Lemma safe_range {A} I (m : gmap string A) : safe I (range_map m).
Proof. intros n st HI. by eexists _, _, _, _. Qed.

Lemma safe_push_sample I prefix metric value labels : safe I (push_sample prefix metric value labels).
Proof. intros n st HI. by eexists _, _, _, _. Qed.

Lemma safe_push_samples I prefix fields labels : safe I (push_samples prefix fields labels).
Proof. intros n st HI. by eexists _, _, _, _. Qed.

(** The second step may use what the first can answer. *)
Lemma safe_bind_answer {A B} I (m : scrape St A) (f : A → scrape St B) :
  safe I m → (∀ a n st n' st' out, m n st = Done (n', st', out, Ok a) → safe I (f a)) →
  safe I (m ≫= f).
Proof.
  intros Hm Hf n st HI. destruct (Hm n st HI) as (n1 & st1 & o1 & [a|e] & H1 & HI1);
    unfold mbind, scrape_bind; rewrite H1; [|by eexists _, _, _, _].
  destruct (Hf a _ _ _ _ _ H1 n1 st1 HI1) as (n2 & st2 & o2 & r & H2 & HI2). rewrite H2.
  by eexists _, _, _, _.
Qed.

Lemma safe_bind {A B} I (m : scrape St A) (f : A → scrape St B) :
  safe I m → (∀ a, safe I (f a)) → safe I (m ≫= f).
Proof. intros Hm Hf. apply safe_bind_answer; auto. Qed.

Lemma safe_attempt I (m : scrape St unit) : safe I m → safe I (attempt m).
Proof.
  intros Hm n st HI. destruct (Hm n st HI) as (n1 & st1 & o1 & r & H1 & HI1).
  unfold attempt. rewrite H1. by eexists _, _, _, _.
Qed.

Lemma safe_for_each {A} I (l : list A) (f : A → scrape St unit) :
  (∀ a, a ∈ l → safe I (f a)) → safe I (for_each l f).
Proof.
  induction l as [|a l IH]; intros Hf; [apply safe_ret|]. cbn [for_each].
  apply safe_bind; [apply Hf; by left|]. intros _. apply IH. intros b Hb. apply Hf. by right.
Qed.

Lemma safe_when I b m : safe I m → safe I (when b m).
Proof. destruct b; [done|]. intros _. apply safe_ret. Qed.
(** ** Computations that do not depend on the numbers of their loops *)

Definition unnumbered {A} (o : outcome (nat * St * list (option Sample) * result A)) :
    outcome (St * list (option Sample) * result A) :=
  match o with Panic s => Panic s | Done (_, st, out, r) => Done (st, out, r) end.

(** The samples pushed. *)
Definition pushes {A} (o : outcome (nat * St * list (option Sample) * result A)) :
    outcome (list (option Sample)) :=
  match o with Panic s => Panic s | Done (_, _, out, _) => Done out end.

Definition uniform {A} (m : scrape St A) : Prop :=
  ∀ n1 n2 st, unnumbered (m n1 st) = unnumbered (m n2 st).

Lemma uniform_pushes {A} (m : scrape St A) n1 n2 st :
  uniform m → pushes (m n1 st) = pushes (m n2 st).
Proof.
  intros Hm. specialize (Hm n1 n2 st).
  destruct (m n1 st) as [[[[? ?] ?] ?]|], (m n2 st) as [[[[? ?] ?] ?]|]; simpl in *; by simplify_eq.
Qed.

Lemma uniform_ret {A} (a : A) : uniform (mret a).
Proof. done. Qed.
Lemma uniform_fail {A} e : uniform (fail (A:=A) e).
Proof. done. Qed.
Lemma uniform_crash {A} s : uniform (crash (A:=A) s).
Proof. done. Qed.
Lemma uniform_get : uniform get.
Proof. done. Qed.
Lemma uniform_put st : uniform (put st).
Proof. done. Qed.
Lemma uniform_of_result {A} (r : result A) : uniform (of_result r).
Proof. by destruct r. Qed.

Lemma uniform_push_sample prefix metric value labels : uniform (push_sample prefix metric value labels).
Proof. intros n1 n2 st. simpl. by rewrite (NewSample_eq n1), (NewSample_eq n2). Qed.

Lemma uniform_bind {A B} (m : scrape St A) (f : A → scrape St B) :
  uniform m → (∀ a, uniform (f a)) → uniform (m ≫= f).
Proof.
  intros Hm Hf n1 n2 st. specialize (Hm n1 n2 st). unfold mbind, scrape_bind.
  destruct (m n1 st) as [[[[k1 s1] o1] r1]|], (m n2 st) as [[[[k2 s2] o2] r2]|]; simpl in Hm; simplify_eq;
    [|done]. destruct r2 as [a|e]; [|done]. specialize (Hf a k1 k2 s2).
  by destruct (f a k1 s2) as [[[[? ?] ?] ?]|], (f a k2 s2) as [[[[? ?] ?] ?]|]; simpl in *; simplify_eq.
Qed.

Lemma uniform_attempt m : uniform m → uniform (attempt m).
Proof.
  intros Hm n1 n2 st. specialize (Hm n1 n2 st). unfold attempt.
  by destruct (m n1 st) as [[[[? ?] ?] ?]|], (m n2 st) as [[[[? ?] ?] ?]|]; simpl in *; simplify_eq.
Qed.

Lemma uniform_for_each {A} (l : list A) (f : A → scrape St unit) :
  (∀ a, uniform (f a)) → uniform (for_each l f).
Proof. intros Hf. induction l as [|a l IH]; [done|]. by apply uniform_bind. Qed.

Lemma uniform_when b m : uniform m → uniform (when b m).
Proof. by destruct b. Qed.

(** ** Computations that push nothing *)

Definition silent {A} (m : scrape St A) : Prop :=
  ∀ n st n' st' out r, m n st = Done (n', st', out, r) → out = [].

Lemma silent_ret {A} (a : A) : silent (mret a).
Proof. by intros n st n' st' out r [= _ _ <- _]. Qed.
Lemma silent_fail {A} e : silent (fail (A:=A) e).
Proof. by intros n st n' st' out r [= _ _ <- _]. Qed.
Lemma silent_get : silent get.
Proof. by intros n st n' st' out r [= _ _ <- _]. Qed.
Lemma silent_put st0 : silent (put st0).
Proof. by intros n st n' st' out r [= _ _ <- _]. Qed.
Lemma silent_of_result {A} (r : result A) : silent (of_result r).
Proof. destruct r; [apply silent_ret|apply silent_fail]. Qed.

Lemma silent_bind {A B} (m : scrape St A) (f : A → scrape St B) :
  silent m → (∀ a, silent (f a)) → silent (m ≫= f).
Proof.
  intros Hm Hf n st n' st' out r. unfold mbind, scrape_bind.
  destruct (m n st) as [[[[k s] o] [a|e]]|] eqn:H1; [| |done]; apply Hm in H1 as ->.
  - destruct (f a k s) as [[[[k' s'] o'] r']|] eqn:H2; [|done]. apply Hf in H2 as ->.
    by intros [= _ _ <- _].
  - by intros [= _ _ <- _].
Qed.

(** ** Computations that end without error *)

Definition errorless {A} (m : scrape St A) : Prop :=
  ∀ n st n' st' out r, m n st = Done (n', st', out, r) → is_ok r.

Lemma errorless_ret {A} (a : A) : errorless (mret a).
Proof. intros n st n' st' out r [= _ _ _ <-]. by exists a. Qed.
Lemma errorless_range {A} (m : gmap string A) : errorless (range_map m).
Proof. intros n st n' st' out r [= _ _ _ <-]. by eexists. Qed.
Lemma errorless_attempt m : errorless (attempt m).
Proof.
  intros n st n' st' out r. unfold attempt. destruct (m n st) as [[[[? ?] ?] ?]|]; [|done].
  intros [= _ _ _ <-]. by eexists.
Qed.

Lemma errorless_bind {A B} (m : scrape St A) (f : A → scrape St B) :
  errorless m → (∀ a, errorless (f a)) → errorless (m ≫= f).
Proof.
  intros Hm Hf n st n' st' out r. unfold mbind, scrape_bind.
  destruct (m n st) as [[[[k s] o] r1]|] eqn:H1; [|done]. destruct (Hm _ _ _ _ _ _ H1) as [a ->].
  destruct (f a k s) as [[[[k' s'] o'] r']|] eqn:H2; [|done]. intros [= _ _ _ <-]. by eapply Hf.
Qed.

Lemma errorless_for_each {A} (l : list A) (f : A → scrape St unit) :
  (∀ a, errorless (f a)) → errorless (for_each l f).
Proof. intros Hf. induction l as [|a l IH]; [apply errorless_ret|]. by apply errorless_bind. Qed.

Lemma errorless_push_sample prefix metric value labels : errorless (push_sample prefix metric value labels).
Proof. intros n st n' st' out r [= _ _ _ <-]. by eexists. Qed.
Lemma errorless_push_samples prefix fields labels : errorless (push_samples prefix fields labels).
Proof. intros n st n' st' out r [= _ _ _ <-]. by eexists. Qed.

(** A loop without errors gets to the turn that panics. *)
Lemma crashes_for_each {A} (l : list A) (f : A → scrape St unit) st :
  (∀ a, errorless (f a)) → Exists (λ a, ∀ st, crashes (f a) st) l → crashes (for_each l f) st.
Proof.
  intros Hf Hl. revert st. induction Hl as [a l Ha|a l Hl IH]; intros st; cbn [for_each].
  - apply crashes_bind, Ha.
  - intros n. unfold mbind, scrape_bind.
    destruct (f a n st) as [[[[n' st'] out] r]|msg] eqn:Hfa; [|by eexists].
    destruct (Hf _ _ _ _ _ _ _ Hfa) as [u ->]. destruct (IH st' n') as [msg ->]. by eexists.
Qed.

(** ** Invariants of the state *)

Definition keeps {A} (I : St → Prop) (m : scrape St A) : Prop :=
  ∀ n st n' st' out r, I st → m n st = Done (n', st', out, r) → I st'.

Lemma keeps_ret {A} I (a : A) : keeps I (mret a).
Proof. by intros n st n' st' out r HI [= <- <- <- <-]. Qed.
Lemma keeps_fail {A} I e : keeps I (fail (A:=A) e).
Proof. by intros n st n' st' out r HI [= <- <- <- <-]. Qed.
Lemma keeps_crash {A} I s : keeps I (crash (A:=A) s).
Proof. done. Qed.
Lemma keeps_get I : keeps I get.
Proof. by intros n st n' st' out r HI [= <- <- <- <-]. Qed.
Lemma keeps_of_result {A} I (r : result A) : keeps I (of_result r).
Proof. destruct r; [apply keeps_ret|apply keeps_fail]. Qed.
Lemma keeps_push_sample I prefix metric value labels : keeps I (push_sample prefix metric value labels).
Proof. by intros n st n' st' out r HI [= <- <- <- <-]. Qed.
Lemma keeps_range {A} I (m : gmap string A) : keeps I (range_map m).
Proof. by intros n st n' st' out r HI [= <- <- <- <-]. Qed.

Lemma keeps_bind {A B} I (m : scrape St A) (f : A → scrape St B) :
  keeps I m → (∀ a, keeps I (f a)) → keeps I (m ≫= f).
Proof.
  intros Hm Hf n st n' st' out r HI. unfold mbind, scrape_bind.
  destruct (m n st) as [[[[k s] o] [a|e]]|] eqn:H1; [| |done].
  - destruct (f a k s) as [[[[k' s'] o'] r']|] eqn:H2; [|done]. intros [= <- <- <- <-].
    eapply Hf; [|exact H2]. by eapply Hm.
  - intros [= <- <- <- <-]. by eapply Hm.
Qed.

Lemma keeps_attempt I m : keeps I m → keeps I (attempt m).
Proof.
  intros Hm n st n' st' out r HI. unfold attempt.
  destruct (m n st) as [[[[k s] o] r']|] eqn:H1; [|done]. intros [= <- <- <- <-]. by eapply Hm.
Qed.

Lemma keeps_for_each {A} I (l : list A) (f : A → scrape St unit) :
  (∀ a, keeps I (f a)) → keeps I (for_each l f).
Proof. intros Hf. induction l as [|a l IH]; [apply keeps_ret|]. by apply keeps_bind. Qed.

Lemma keeps_when I b m : keeps I m → keeps I (when b m).
Proof. destruct b; [done|]. intros _. apply keeps_ret. Qed.

(** ** Loops over attempts *)

Definition concat_pushes (l : list (outcome (list (option Sample)))) : outcome (list (option Sample)) :=
  foldr (λ o acc, out ← o; outs ← acc; Done (out ++ outs)) (Done []) l.

Lemma concat_pushes_app l1 l2 :
  concat_pushes (l1 ++ l2) = out1 ← concat_pushes l1; out2 ← concat_pushes l2; Done (out1 ++ out2).
Proof.
  induction l1 as [|o l1 IH]; simpl.
  - by destruct (concat_pushes l2).
  - destruct o; simpl; [|done]. rewrite IH. destruct (concat_pushes l1); simpl; [|done].
    destruct (concat_pushes l2); simpl; [|done]. by rewrite app_assoc.
Qed.

Lemma concat_pushes_panic l : is_panic (concat_pushes l) ↔ Exists is_panic l.
Proof.
  induction l as [|o l IH]; [split; [by intros [? ?]|by intros ?%Exists_nil]|].
  rewrite Exists_cons, <- IH. simpl. destruct o as [out|s]; simpl.
  - destruct (concat_pushes l) as [outs|s]; simpl; [|by split; [intros; right|intros; eexists]; eexists].
    split; [by intros [? ?]|by intros [[? ?]|[? ?]]].
  - split; [intros; left|intros]; by eexists.
Qed.

Lemma pushes_panic {A} (o : outcome (nat * St * list (option Sample) * result A)) :
  is_panic (pushes o) ↔ is_panic o.
Proof.
  destruct o as [[[[? ?] ?] ?]|s]; simpl; [split; by intros [? ?]|].
  split; intros _; by eexists.
Qed.

Lemma pushes_bind {A B} (m : scrape St A) (f : A → scrape St B) n st :
  pushes ((m ≫= f) n st) =
  match m n st with
  | Panic s => Panic s
  | Done (_, _, out, Err _) => Done out
  | Done (n', st', out, Ok a) => out' ← pushes (f a n' st'); Done (out ++ out')
  end.
Proof.
  unfold mbind at 1, scrape_bind. destruct (m n st) as [[[[k s] o] [a|e]]|]; [|done..].
  by destruct (f a k s) as [[[[? ?] ?] ?]|].
Qed.

(** What a computation pushes when it runs from [st]. *)
Definition pushes_from (st : St) (m : scrape St unit) : outcome (list (option Sample)) :=
  pushes (m 0 st).

(** Attempts that keep [I], and that go from any state of [I] as they do from
    [st0], push what each of them pushes from [st0]. *)
Lemma attempts_spec {A} (I : St → Prop) st0 (l : list A) (f : A → scrape St unit) n st :
  (∀ a, a ∈ l → keeps I (f a) ∧ uniform (f a) ∧ ∀ n st, I st → f a n st = f a n st0) → I st →
  match for_each l (λ a, attempt (f a)) n st with
  | Done (n', st', out, r) =>
    r = Ok () ∧ I st' ∧ concat_pushes (pushes_from st0 <$> (f <$> l)) = Done out
  | Panic s => concat_pushes (pushes_from st0 <$> (f <$> l)) = Panic s
  end.
Proof.
  revert n st. induction l as [|a l IH]; intros n st Hl HI; [done|].
  destruct (Hl a (list_elem_of_here _ _)) as (Hk & Hu & Hf).
  assert (Hp : pushes_from st0 (f a) = pushes (f a n st)).
  { unfold pushes_from. by rewrite (uniform_pushes (f a) 0 n st0 Hu), <- (Hf n st HI). }
  cbn [for_each]. csimpl. rewrite Hp. clear Hp.
  unfold mbind at 1, scrape_bind, attempt at 1.
  destruct (f a n st) as [[[[k s] o] r]|] eqn:H1; [|done]. simpl.
  specialize (IH k s ltac:(intros b Hb; apply Hl; by right) ltac:(by eapply Hk)).
  destruct (for_each l _ k s) as [[[[k' s'] o'] r']|].
  - destruct IH as (-> & Hs & ->). done.
  - by rewrite IH.
Qed.
End monad.

#[export] Hint Resolve safe_ret safe_fail safe_of_result safe_range safe_push_sample safe_push_samples
  safe_attempt safe_when : kubemon.
#[export] Hint Resolve silent_ret silent_fail silent_get silent_put silent_of_result : kubemon.
#[export] Hint Resolve uniform_ret uniform_fail uniform_crash uniform_get uniform_put
  uniform_of_result uniform_push_sample uniform_bind uniform_attempt uniform_for_each uniform_when
  keeps_ret keeps_fail keeps_crash keeps_get keeps_of_result keeps_push_sample keeps_range keeps_bind
  keeps_attempt keeps_for_each keeps_when : kubemon.
#[export] Hint Resolve runs_ret runs_fail runs_get runs_put runs_of_result runs_push_sample
  runs_attempt : kubemon.

(** ** On the list *)

(** What the samples pushed do to the list. *)
Definition pushed (out : list (option Sample)) (slist : SampleList) : SampleList :=
  foldl PushFront slist out.

Lemma pushed_emits out : emits (pushed out) out.
Proof.
  unfold pushed. intros q. revert q. induction out as [|s out IH]; intros q; simpl.
  - by rewrite app_nil_r.
  - by rewrite PushFront_of_queue, IH, <- app_assoc.
Qed.
