(* ===== verification/Process.v ===== *)
(** * Post-processing of gathered samples

    pkg/process/process.go: [Process] drains a sample list and returns a new
    one whose samples have a time and the common labels. The visiting order of
    the label maps is open ([RangeOrder]); the result does not depend on it. *)
From S2P Require Import Prelude GoText GoNum SafeLists Conv Labels Samples.
#[local] Open Scope Z_scope.

(** [for k, v := range l { if _, has := m[k]; !has { m[k] = v } }]. *)
Definition add_missing {A} (l : list (string * A)) (m : gmap string A) : gmap string A :=
  foldl (λ m kv, match m !! kv.1 with
                 | Some _ => m
                 | None => <[kv.1 := kv.2]> m
                 end) m l.

Lemma add_missing_union {A} (l : list (string * A)) (a m : gmap string A) :
  l ≡ₚ map_to_list a → add_missing l m = m ∪ a.
Proof.
  intros Hl. assert (Hnd : NoDup l.*1) by (rewrite Hl; apply NoDup_fst_map_to_list).
  assert (Ha : a = list_to_map l).
  { by rewrite <- (list_to_map_to_list a), (list_to_map_proper l (map_to_list a)). }
  rewrite Ha. clear Hl Ha a. revert m.
  induction l as [|[k v] l IH]; intros m; simpl in *; [by rewrite (right_id_L ∅ (∪))|].
  inversion_clear Hnd as [|? ? Hk Hnd'].
  change (add_missing l (match m !! k with Some _ => m | None => <[k:=v]> m end) =
          m ∪ <[k:=v]> (list_to_map l)).
  rewrite IH by done. destruct (m !! k) as [v'|] eqn:Hmk.
  - apply map_eq. intros i. rewrite !lookup_union.
    destruct (decide (i = k)) as [->|Hne]; [|by rewrite lookup_insert_ne].
    rewrite Hmk, lookup_insert_eq, not_elem_of_list_to_map_1; done.
  - by rewrite <- insert_union_l, insert_union_r.
Qed.

Lemma add_missing_range `{RangeOrder} {A} n (a m : gmap string A) :
  add_missing (range_list n a) m = m ∪ a.
Proof. apply add_missing_union, range_list_perm. Qed.

#[export] Hint Rewrite @add_missing_range : kubemon.

Section process.
Context `{RangeOrder}.

(** The body of the loop for one sample; [additionalLabels] may be the nil
    map, and the two label loops are numbered from [n]. *)
Definition process_sample (n : nat) (now : time) (additionalLabels : option (gmap string string))
    (s : Sample) : Sample :=
  let ts := if IsZero (Timestamp s) then now else Timestamp s in
  let m := add_missing (range_list n GlobalLabels) (sample_Labels s) in
  let m := match additionalLabels with
           | Some a => add_missing (range_list (S n) a) m
           | None => m
           end in
  let m := match m !! "instance" with
           | Some val => <["address" := val]> m
           | None => m
           end in
  mkSample (Metric s) ts (Value s) m.

Fixpoint process_loop (n : nat) (now : time) (additionalLabels : option (gmap string string))
    (ss : list (option Sample)) (nlst : SampleList) : SampleList :=
  match ss with
  | [] => nlst
  | None :: ss' => process_loop n now additionalLabels ss' nlst
  | Some s :: ss' =>
    process_loop (2 + n) now additionalLabels ss'
      (PushFront nlst (Some (process_sample n now additionalLabels s)))
  end.

(** [Process] returns the new list and the list it drained. *)
Definition Process (n : nat) (now : time) (slist : SampleList)
    (additionalLabels : option (gmap string string)) : outcome (SampleList * SampleList) :=
  if Len slist =? 0 then Done (NewSampleList, slist)
  else
    '(ss, slist') ← PopBackAll slist;
    Done (process_loop n now additionalLabels ss NewSampleList, slist').

(** ** What it does to a sample *)

(** The labels of a processed sample as one union: what the sample had, then
    the global labels, then the additional ones. *)
Definition processed_labels (additionalLabels : option (gmap string string))
    (m : gmap string string) : gmap string string :=
  let u := m ∪ GlobalLabels ∪ default ∅ additionalLabels in
  match u !! "instance" with Some val => <["address" := val]> u | None => u end.

Definition processed (now : time) (additionalLabels : option (gmap string string))
    (s : Sample) : Sample :=
  mkSample (Metric s) (if IsZero (Timestamp s) then now else Timestamp s) (Value s)
    (processed_labels additionalLabels (sample_Labels s)).

Lemma process_sample_eq n now add s : process_sample n now add s = processed now add s.
Proof.
  unfold process_sample, processed, processed_labels. f_equal.
  destruct add as [a|]; autorewrite with kubemon; [done|].
  simpl. by rewrite (right_id_L ∅ (∪)).
Qed.

Lemma process_loop_eq n now add ss q :
  process_loop n now add ss (of_queue q) =
  of_queue (q ++ (Some ∘ processed now add <$> omap id ss)).
Proof.
  revert n q. induction ss as [|[s|] ss IH]; intros n q; cbn [process_loop].
  - by rewrite app_nil_r.
  - rewrite process_sample_eq, PushFront_of_queue, IH. by rewrite <- app_assoc.
  - apply IH.
Qed.

Lemma Process_queue n now q add :
  Process n now (of_queue q) add =
  Done (of_queue (Some ∘ processed now add <$> omap id q), of_queue []).
Proof.
  unfold Process. rewrite Len_of_queue. destruct q as [|s q]; [done|].
  destruct (Z.eqb_spec (Z.of_nat (length (s :: q))) 0); [simpl in *; lia|].
  rewrite PopBackAll_of_queue. unfold mbind, outcome_bind.
  change (NewSampleList) with (of_queue (@nil (option Sample))).
  by rewrite process_loop_eq.
Qed.

Lemma processed_labels_lookup add m k :
  k ≠ "address" →
  processed_labels add m !! k = (m ∪ GlobalLabels ∪ default ∅ add) !! k.
Proof.
  intros Hk. unfold processed_labels. destruct (_ !! "instance"); [|done].
  by rewrite lookup_insert_ne.
Qed.
End process.

#[export] Hint Rewrite @Process_queue : kubemon.

(** ** Properties *)

(** C9: processing a list of samples returns exactly its samples, oldest first,
    nil entries dropped, each with the label maps merged and a time; it empties
    the list it was given, never panics, and does not depend on the visiting
    order of any map. *)
Theorem Process_spec `{RangeOrder} n now (slist : SampleList) add :
  all_typed slist →
  Process n now slist add =
  Done (of_queue (Some ∘ processed now add <$> omap id (queue_of slist)), NewSampleList).
Proof.
  intros Hty. rewrite <- (of_queue_queue_of slist Hty) at 1. apply Process_queue.
Qed.

Lemma Process_spec_witness :
  let s := mkSample "m" time_zero (VInt 1) {["instance" := "i"]} in
  let slist := PushFront (PushFront NewSampleList (Some s)) None in
  let out := mkSample "m" zeroTime (VInt 1)
               {["instance" := "i"; "source" := "kubemonitor"; "address" := "i"; "a" := "b"]} in
  @Process canonical_order 0 zeroTime slist (Some {["a" := "b"; "source" := "x"]}) =
    Done (of_queue [Some out], NewSampleList).
Proof.
  intros s slist out.
  rewrite (@Process_spec canonical_order 0 zeroTime slist _
             ltac:(repeat constructor; discriminate)).
  vm_compute. reflexivity.
Defined.

(** Who wins on a label: the sample's own value, then the global label
    [source], then the additional labels; only [address] is overwritten, by
    [instance] when the result has one. No additional label can replace
    [source], and every processed sample has one. *)
Theorem processed_labels_spec add (s : Sample) now :
  let m := sample_Labels s in
  let r := sample_Labels (processed now add s) in
  (∀ k v, k ≠ "address" → m !! k = Some v → r !! k = Some v) ∧
  (r !! "source" = Some (default "kubemonitor" (m !! "source"))) ∧
  (∀ k, k ≠ "address" → k ≠ "source" → m !! k = None → r !! k = default ∅ add !! k) ∧
  (∀ v, r !! "instance" = Some v → r !! "address" = Some v) ∧
  (r !! "instance" = None → r !! "address" =
     match m !! "address" with Some v => Some v | None => default ∅ add !! "address" end).
Proof.
  cbn zeta. unfold processed. cbn [sample_Labels]. set (m := sample_Labels s).
  split_and!.
  - intros k v Hk Hm. rewrite processed_labels_lookup by done.
    by rewrite !lookup_union, Hm, !union_Some_l.
  - rewrite processed_labels_lookup, !lookup_union by done.
    unfold GlobalLabels. rewrite lookup_singleton_eq.
    by destruct (m !! "source"), (default ∅ add !! "source").
  - intros k Hk Hk' Hm. rewrite processed_labels_lookup, !lookup_union by done.
    unfold GlobalLabels. rewrite Hm, lookup_singleton_ne by done.
    by destruct (default ∅ add !! k).
  - intros v. rewrite processed_labels_lookup by done. unfold processed_labels.
    intros Hv. rewrite Hv. by rewrite lookup_insert_eq.
  - rewrite processed_labels_lookup by done. unfold processed_labels.
    intros Hv. rewrite Hv, !lookup_union. unfold GlobalLabels. rewrite lookup_singleton_ne by done.
    by destruct (m !! "address"), (default ∅ add !! "address").
Qed.
