(* ===== verification/Input.v ===== *)
(** * Input handlers and their registry

    pkg/input: the configuration map (map.go), the interface every handler
    implements (interface.go) and the registry of handlers with one sample list
    per model (manager.go).

    - [HandlerFactory] / [HandlerLaws]: the interface and what the registry and
      the controller rely on (a handler keeps its name, and a gather only adds
      samples to the list it is given);
    - [SharedHandlerFactory]: the registry; handlers and lists are behind
      pointers in the code, so the record keeps the objects in two lists and the
      maps hold indices into them;
    - [factory_inv]: the two maps have the same keys and point to live,
      unshared objects; every operation keeps it. *)
From S2P Require Import Prelude GoText GoNum SafeLists Conv Samples.

(** ** ConfigMap *)

Abbreviation ConfigMap := (gmap string string).

Definition Get (c : ConfigMap) (key : string) : string := default "" (c !! key).

Definition ParseSlice (c : ConfigMap) (key : string) : list string := Split "," (Get c key).

Definition ConfigMap_ParseBool (c : ConfigMap) (key : string) : bool :=
  let val := Get c key in
  if decide (val = "") then false
  else match ParseBool val with
       | None => false
       | Some b => b
       end.

Definition ConfigMap_ParseInt `{FloatToInt} (c : ConfigMap) (key : string) : Z :=
  let '(i, _) := ToInt (VString (Get c key)) in i.

(** ** The handler interface *)

(** A handler object [H] is changed by its own methods. [W] is what one gather
    reads from outside: the clock and the answers of the monitored service. *)
Class HandlerFactory (H W : Type) := {
  Name : H → string;
  Init : H → ConfigMap → H * option error;
  handler_Gather : H → W → SampleList → outcome (H * SampleList * option error)
}.

Class HandlerLaws (H W : Type) `{HandlerFactory H W} : Prop := {
  Name_Init h c : Name (Init h c).1 = Name h;
  Name_Gather h w l h' l' e : handler_Gather h w l = Done (h', l', e) → Name h' = Name h;
  Gather_appends h w q h' l' e :
    handler_Gather h w (of_queue q) = Done (h', l', e) → ∃ q', l' = of_queue (q ++ q')
}.

(** ** SharedHandlerFactory *)

Record SharedHandlerFactory (H : Type) := mkFactory {
  sample_lists : list SampleList;
  handlers : list H;
  RootList : gmap string nat;
  supportModel : gmap string nat
}.
Arguments mkFactory {H}.
Arguments sample_lists {H}.
Arguments handlers {H}.
Arguments RootList {H}.
Arguments supportModel {H}.

(** The registry as the map from a model's name to its handler and the queue
    of its samples, oldest first. *)
Abbreviation registry H := (gmap string (H * list (option Sample))).

Section factory.
Context `{HandlerFactory H W}.
Implicit Types (m : SharedHandlerFactory H).

Definition NewHandlerFactory : SharedHandlerFactory H := mkFactory [] [] ∅ ∅.

(** Each call gets a handler object of its own, and makes a new list. *)
Definition RegisterHandler m (handler : H) : SharedHandlerFactory H :=
  mkFactory (sample_lists m ++ [NewSampleList]) (handlers m ++ [handler])
    (<[Name handler := length (sample_lists m)]> (RootList m))
    (<[Name handler := length (handlers m)]> (supportModel m)).

Definition set_handler m (p : nat) (h : H) : SharedHandlerFactory H :=
  mkFactory (sample_lists m) (<[p := h]> (handlers m)) (RootList m) (supportModel m).

Definition set_list m (p : nat) (l : SampleList) : SharedHandlerFactory H :=
  mkFactory (<[p := l]> (sample_lists m)) (handlers m) (RootList m) (supportModel m).

Definition nil_deref {A} : outcome A := Panic "nil pointer dereference".

Definition Gather m (w : W) (model : string) : outcome (option error * SharedHandlerFactory H) :=
  match supportModel m !! model with
  | None => Done (Some (Errorf (model +:+ " not supported")), m)
  | Some handler =>
    match RootList m !! model with
    | None => Done (Some (Errorf (model +:+ " data list not found")), m)
    | Some list =>
      match handlers m !! handler, sample_lists m !! list with
      | Some h, Some l =>
        '(h', l', err) ← handler_Gather h w l;
        Done (err, set_list (set_handler m handler h') list l')
      | _, _ => nil_deref
      end
    end
  end.

Definition GetHandler m (model : string) : result nat :=
  match supportModel m !! model with
  | None => Err (Errorf (model +:+ " not register"))
  | Some handler => Ok handler
  end.

Definition InitConfig m (model : string) (cfg : ConfigMap) :
    outcome (option error * SharedHandlerFactory H) :=
  match supportModel m !! model with
  | None => Done (Some (Errorf (model +:+ " not register")), m)
  | Some handler =>
    match handlers m !! handler with
    | Some h => let '(h', err) := Init h cfg in Done (err, set_handler m handler h')
    | None => nil_deref
    end
  end.

Definition InitConfigWithGather m (w : W) (model : string) (cfg : ConfigMap) :
    outcome (option error * SharedHandlerFactory H) :=
  '(err, m') ← InitConfig m model cfg;
  match err with
  | Some e => Done (Some e, m')
  | None => Gather m' w model
  end.

Definition factory_PopBackAll m (model : string) :
    outcome (result (list (option Sample)) * SharedHandlerFactory H) :=
  match RootList m !! model with
  | None => Done (Err (Errorf (model +:+ " data list not found")), m)
  | Some p =>
    match sample_lists m !! p with
    | Some l => '(items, l') ← PopBackAll l; Done (Ok items, set_list m p l')
    | None => nil_deref
    end
  end.

Definition List m (model : string) : result nat :=
  match RootList m !! model with
  | None => Err (Errorf (model +:+ " data list not found"))
  | Some p => Ok p
  end.

(** ** The registry as one map *)

Definition handler_of m (model : string) : option H :=
  p ← supportModel m !! model; handlers m !! p.

Definition list_of m (model : string) : option SampleList :=
  p ← RootList m !! model; sample_lists m !! p.

Record factory_inv m : Prop := {
  inv_dom model : is_Some (supportModel m !! model) ↔ is_Some (RootList m !! model);
  inv_handler model p :
    supportModel m !! model = Some p → ∃ h, handlers m !! p = Some h ∧ Name h = model;
  inv_list model p :
    RootList m !! model = Some p → ∃ q, sample_lists m !! p = Some (of_queue q);
  inv_unshared model1 model2 p :
    RootList m !! model1 = Some p → RootList m !! model2 = Some p → model1 = model2
}.

(** The registry [a] is what [m] holds. *)
Definition represents m (a : registry H) : Prop :=
  factory_inv m ∧ ∀ model,
    a !! model = (h ← handler_of m model; l ← list_of m model; Some (h, queue_of l)).

Lemma represents_None m a model :
  represents m a → a !! model = None → supportModel m !! model = None ∧ RootList m !! model = None.
Proof.
  intros [Hi Ha]. rewrite Ha. unfold handler_of, list_of.
  destruct (supportModel m !! model) as [p|] eqn:Hs.
  - destruct (proj1 (inv_dom m Hi model) ltac:(by exists p)) as [r Hr]. rewrite Hr. simpl.
    destruct (inv_handler m Hi _ _ Hs) as (h & Hh & _). rewrite Hh. simpl.
    destruct (inv_list m Hi _ _ Hr) as (q & Hq). by rewrite Hq.
  - intros _. split; [done|]. apply eq_None_not_Some. by rewrite <- (inv_dom m Hi), Hs.
Qed.

Lemma represents_Some m a model h q :
  represents m a → a !! model = Some (h, q) →
  ∃ p r, supportModel m !! model = Some p ∧ handlers m !! p = Some h ∧ Name h = model ∧
         RootList m !! model = Some r ∧ sample_lists m !! r = Some (of_queue q).
Proof.
  intros [Hi Ha]. rewrite Ha. unfold handler_of, list_of.
  destruct (supportModel m !! model) as [p|] eqn:Hs; [|done].
  destruct (inv_handler m Hi _ _ Hs) as (h' & Hh & Hn).
  destruct (RootList m !! model) as [r|] eqn:Hr; simpl; rewrite Hh; simpl; [|done].
  destruct (inv_list m Hi _ _ Hr) as (q' & Hq). rewrite Hq. simpl.
  rewrite queue_of_of_queue. intros [= <- <-]. eauto 10.
Qed.

Lemma represents_new : represents NewHandlerFactory ∅.
Proof. split; [split|]; intros *; simpl; rewrite ?lookup_empty; by try split. Qed.

Lemma represents_register m a h :
  represents m a → represents (RegisterHandler m h) (<[Name h := (h, [])]> a).
Proof.
  intros [Hi Ha].
  assert (Hh : ∀ k p, supportModel m !! k = Some p → p < length (handlers m)).
  { intros k p Hk. destruct (inv_handler m Hi _ _ Hk) as (? & ? & _). eauto using lookup_lt_Some. }
  assert (Hl : ∀ k p, RootList m !! k = Some p → p < length (sample_lists m)).
  { intros k p Hk. destruct (inv_list m Hi _ _ Hk) as (? & ?). eauto using lookup_lt_Some. }
  split; [split|]; simpl.
  - intros k. rewrite !lookup_insert_is_Some'. by rewrite (inv_dom m Hi).
  - intros k p. rewrite lookup_insert_Some. intros [[<- <-]|[Hne Hk]].
    + exists h. by rewrite list_lookup_middle.
    + rewrite lookup_app_l by eauto. by apply (inv_handler m Hi).
  - intros k p. rewrite lookup_insert_Some. intros [[<- <-]|[Hne Hk]].
    + exists []. by rewrite list_lookup_middle.
    + rewrite lookup_app_l by eauto. by apply (inv_list m Hi k).
  - intros k1 k2 p. rewrite !lookup_insert_Some.
    intros [[<- <-]|[Hne Hk]] [[Hk' Hp]|[Hne' Hk']]; simplify_eq; try done.
    + apply Hl in Hk'. lia.
    + apply Hl in Hk. lia.
    + eauto using inv_unshared.
  - intros k. unfold handler_of, list_of. simpl. destruct (decide (k = Name h)) as [->|Hne].
    + rewrite !lookup_insert_eq. simpl. by rewrite !list_lookup_middle.
    + rewrite !lookup_insert_ne, Ha by done. unfold handler_of, list_of.
      destruct (supportModel m !! k) as [p|] eqn:Hk; [|done].
      destruct (RootList m !! k) as [r|] eqn:Hk'; simpl.
      * by rewrite !lookup_app_l by eauto.
      * rewrite lookup_app_l by eauto. by destruct (handlers m !! p).
Qed.

(** Changing the objects of one model changes only its entry. *)
Lemma represents_update m a model p r h q h' q' :
  represents m a → a !! model = Some (h, q) →
  supportModel m !! model = Some p → RootList m !! model = Some r → Name h' = model →
  represents (set_list (set_handler m p h') r (of_queue q')) (<[model := (h', q')]> a).
Proof.
  intros Hrep Hm Hp Hr Hn.
  destruct (represents_Some _ _ _ _ _ Hrep Hm) as (p0 & r0 & ? & Hph & Hnh & ? & Hrl). simplify_eq.
  destruct Hrep as [Hi Ha].
  assert (Hps : ∀ k, supportModel m !! k = Some p → k = Name h').
  { intros k Hk. destruct (inv_handler m Hi _ _ Hk) as (? & ? & <-). congruence. }
  split; [split|]; simpl.
  - apply (inv_dom m Hi).
  - intros k p' Hk. destruct (decide (p' = p)) as [->|Hne].
    + exists h'. rewrite list_lookup_insert_eq by eauto using lookup_lt_Some.
      split; [done|]. symmetry. by apply Hps.
    + rewrite list_lookup_insert_ne by done. by apply (inv_handler m Hi).
  - intros k r' Hk. destruct (decide (r' = r)) as [->|Hne].
    + exists q'. by rewrite list_lookup_insert_eq by eauto using lookup_lt_Some.
    + rewrite list_lookup_insert_ne by done. by apply (inv_list m Hi k).
  - apply (inv_unshared m Hi).
  - intros k. unfold handler_of, list_of. simpl. destruct (decide (k = Name h')) as [->|Hne].
    + rewrite lookup_insert_eq, Hp, Hr. simpl.
      rewrite !list_lookup_insert_eq by eauto using lookup_lt_Some. simpl.
      by rewrite queue_of_of_queue.
    + rewrite lookup_insert_ne, Ha by done. unfold handler_of, list_of.
      destruct (supportModel m !! k) as [p'|] eqn:Hk; [|done]. simpl.
      rewrite list_lookup_insert_ne by (intros <-; by apply Hne, Hps).
      destruct (handlers m !! p'); [|done]. simpl.
      destruct (RootList m !! k) as [r'|] eqn:Hk'; [|done]. simpl.
      rewrite list_lookup_insert_ne; [done|]. intros <-. by apply Hne, (inv_unshared m Hi _ _ r).
Qed.

Lemma set_handler_id m p h : handlers m !! p = Some h → set_handler m p h = m.
Proof. intros Hp. destruct m. unfold set_handler. simpl in *. by rewrite list_insert_id. Qed.

Lemma represents_set_list m a model r h q q' :
  represents m a → a !! model = Some (h, q) → RootList m !! model = Some r →
  represents (set_list m r (of_queue q')) (<[model := (h, q')]> a).
Proof.
  intros Hrep Hm Hr. destruct (represents_Some _ _ _ _ _ Hrep Hm) as (p & r0 & Hp & Hh & Hn & _).
  rewrite <- (set_handler_id m p h Hh) at 1. by eapply represents_update.
Qed.

Lemma set_list_id m p l : sample_lists m !! p = Some l → set_list m p l = m.
Proof. intros Hp. destruct m. unfold set_list. simpl in *. by rewrite list_insert_id. Qed.
End factory.

(** ** Operations and refinement *)

Section refinement.
Context `{HandlerLaws H W}.
Implicit Types (m : SharedHandlerFactory H) (a : registry H).

Inductive factory_op :=
| OpRegisterHandler (h : H)
| OpInitConfig (model : string) (cfg : ConfigMap)
| OpInitConfigWithGather (w : W) (model : string) (cfg : ConfigMap)
| OpGather (w : W) (model : string)
| OpFactoryPopBackAll (model : string).

(** What a call returns. *)
Inductive factory_res :=
| RetUnit
| RetError (err : option error)
| RetSamples (r : result (list (option Sample))).

Definition factory_step m (op : factory_op) : outcome (factory_res * SharedHandlerFactory H) :=
  match op with
  | OpRegisterHandler h => Done (RetUnit, RegisterHandler m h)
  | OpInitConfig model cfg => '(e, m') ← InitConfig m model cfg; Done (RetError e, m')
  | OpInitConfigWithGather w model cfg =>
    '(e, m') ← InitConfigWithGather m w model cfg; Done (RetError e, m')
  | OpGather w model => '(e, m') ← Gather m w model; Done (RetError e, m')
  | OpFactoryPopBackAll model => '(r, m') ← factory_PopBackAll m model; Done (RetSamples r, m')
  end.

(** The same calls on the abstract registry. *)
Definition registry_init a (model : string) (cfg : ConfigMap) : option error * registry H :=
  match a !! model with
  | None => (Some (Errorf (model +:+ " not register")), a)
  | Some (h, q) => let '(h', e) := Init h cfg in (e, <[model := (h', q)]> a)
  end.

Definition registry_gather a (w : W) (model : string) : outcome (option error * registry H) :=
  match a !! model with
  | None => Done (Some (Errorf (model +:+ " not supported")), a)
  | Some (h, q) =>
    '(h', l', e) ← handler_Gather h w (of_queue q);
    Done (e, <[model := (h', queue_of l')]> a)
  end.

Definition registry_step a (op : factory_op) : outcome (factory_res * registry H) :=
  match op with
  | OpRegisterHandler h => Done (RetUnit, <[Name h := (h, [])]> a)
  | OpInitConfig model cfg =>
    let '(e, a') := registry_init a model cfg in Done (RetError e, a')
  | OpInitConfigWithGather w model cfg =>
    match registry_init a model cfg with
    | (Some e, a') => Done (RetError (Some e), a')
    | (None, a') => '(e, a'') ← registry_gather a' w model; Done (RetError e, a'')
    end
  | OpGather w model => '(e, a') ← registry_gather a w model; Done (RetError e, a')
  | OpFactoryPopBackAll model =>
    match a !! model with
    | None => Done (RetSamples (Err (Errorf (model +:+ " data list not found"))), a)
    | Some (h, q) => Done (RetSamples (Ok q), <[model := (h, [])]> a)
    end
  end.

(** Two outcomes of a step agree: the same panic, or the same answer in
    states that represent each other. *)
Definition agree {R} (o : outcome (R * SharedHandlerFactory H)) (oa : outcome (R * registry H)) : Prop :=
  match o, oa with
  | Done (r, m), Done (ra, a) => r = ra ∧ represents m a
  | Panic s, Panic sa => s = sa
  | _, _ => False
  end.

Lemma agree_bind {R R'} o oa (f : R → R') :
  agree o oa → agree ('(r, m) ← o; Done (f r, m)) ('(r, a) ← oa; Done (f r, a)).
Proof.
  destruct o as [[r m]|], oa as [[ra a]|]; simpl; try done. by intros [-> ?].
Qed.

Lemma InitConfig_agree m a model cfg :
  represents m a → agree (InitConfig m model cfg) (Done (registry_init a model cfg)).
Proof.
  intros Hrep. unfold InitConfig, registry_init.
  destruct (a !! model) as [[h q]|] eqn:Hm.
  - destruct (represents_Some _ _ _ _ _ Hrep Hm) as (p & r & Hp & Hh & Hn & Hr & Hl).
    rewrite Hp, Hh. pose proof (Name_Init h cfg) as Hname.
    destruct (Init h cfg) as [h' e]. simpl in *. split; [done|].
    rewrite <- (set_list_id (set_handler m p h') r (of_queue q) Hl).
    eapply represents_update; eauto. congruence.
  - destruct (represents_None _ _ _ Hrep Hm) as [-> _]. done.
Qed.

Lemma Gather_agree m a w model :
  represents m a → agree (Gather m w model) (registry_gather a w model).
Proof.
  intros Hrep. unfold Gather, registry_gather.
  destruct (a !! model) as [[h q]|] eqn:Hm.
  - destruct (represents_Some _ _ _ _ _ Hrep Hm) as (p & r & Hp & Hh & Hn & Hr & Hl).
    rewrite Hp, Hr, Hh, Hl.
    destruct (handler_Gather h w (of_queue q)) as [[[h' l'] e]|s] eqn:Hg; simpl; [|done].
    destruct (Gather_appends _ _ _ _ _ _ Hg) as [q' ->].
    rewrite queue_of_of_queue. split; [done|].
    eapply represents_update; eauto. rewrite (Name_Gather _ _ _ _ _ _ Hg). done.
  - destruct (represents_None _ _ _ Hrep Hm) as [-> _]. done.
Qed.

Lemma factory_PopBackAll_agree m a model :
  represents m a →
  agree (factory_PopBackAll m model)
    (match a !! model with
     | None => Done (Err (Errorf (model +:+ " data list not found")), a)
     | Some (h, q) => Done (Ok q, <[model := (h, [])]> a)
     end).
Proof.
  intros Hrep. unfold factory_PopBackAll.
  destruct (a !! model) as [[h q]|] eqn:Hm.
  - destruct (represents_Some _ _ _ _ _ Hrep Hm) as (p & r & Hp & Hh & Hn & Hr & Hl).
    rewrite Hr, Hl, PopBackAll_of_queue. simpl. split; [done|].
    by eapply represents_set_list.
  - destruct (represents_None _ _ _ Hrep Hm) as [_ ->]. done.
Qed.

Lemma factory_step_agree m a op :
  represents m a → agree (factory_step m op) (registry_step a op).
Proof.
  intros Hrep. destruct op as [h|model cfg|w model cfg|w model|model]; simpl.
  - split; [done|]. by apply represents_register.
  - pose proof (agree_bind _ _ RetError (InitConfig_agree m a model cfg Hrep)) as Ha.
    by destruct (registry_init a model cfg).
  - pose proof (InitConfig_agree m a model cfg Hrep) as Ha. unfold InitConfigWithGather.
    destruct (InitConfig m model cfg) as [[e m']|], (registry_init a model cfg) as [e' a'];
      simpl in Ha; [destruct Ha as [<- Ha]|done].
    destruct e as [e|]; simpl; [done|]. by apply agree_bind, Gather_agree.
  - by apply agree_bind, Gather_agree.
  - pose proof (agree_bind _ _ RetSamples (factory_PopBackAll_agree m a model Hrep)) as Ha.
    by destruct (a !! model) as [[h q]|].
Qed.

(** A sequence of calls with its results. *)
Fixpoint run_calls {St} (step : St → factory_op → outcome (factory_res * St)) (st : St)
    (ops : list factory_op) : outcome (list factory_res * St) :=
  match ops with
  | [] => Done ([], st)
  | op :: ops' =>
    '(r, st') ← step st op;
    '(rs, st'') ← run_calls step st' ops';
    Done (r :: rs, st'')
  end.

Lemma run_calls_agree m a ops :
  represents m a → agree (run_calls factory_step m ops) (run_calls registry_step a ops).
Proof.
  revert m a. induction ops as [|op ops IH]; intros m a Hrep; cbn [run_calls]; [done|].
  pose proof (factory_step_agree m a op Hrep) as Ha.
  destruct (factory_step m op) as [[r m']|], (registry_step a op) as [[r' a']|];
    simpl in *; try done.
  destruct Ha as [<- Ha]. by apply (agree_bind _ _ (cons r)), IH.
Qed.

Lemma registry_gather_other a w model e a' k :
  registry_gather a w model = Done (e, a') → k ≠ model → a' !! k = a !! k.
Proof.
  unfold registry_gather. destruct (a !! model) as [[h q]|]; [|by intros [= _ <-]].
  destruct (handler_Gather h w (of_queue q)) as [[[h' l'] e']|s]; simpl; [|done].
  intros [= _ <-] Hne. by rewrite lookup_insert_ne.
Qed.

Lemma List_represents m a model h q :
  represents m a → a !! model = Some (h, q) →
  ∃ p, List m model = Ok p ∧ RootList m !! model = Some p ∧ sample_lists m !! p = Some (of_queue q).
Proof.
  intros Hrep Hm. destruct (represents_Some _ _ _ _ _ Hrep Hm) as (? & r & _ & _ & _ & Hr & Hl).
  exists r. unfold List. by rewrite Hr.
Qed.
End refinement.

(** ** Properties *)

(** A minimal handler for the witnesses: it needs a dsn and reports it. *)
Record ping_handler := mkPing { ping_dsn : string }.

#[local] Instance ping_factory : HandlerFactory ping_handler time := {|
  Name h := "ping";
  Init h c := let dsn := Get c "dsn" in
    (mkPing dsn, if decide (dsn = "") then Some (Errorf "no dsn") else None);
  handler_Gather h w l :=
    Done (h, PushFront l (Some (mkSample "up" w (VString (ping_dsn h)) ∅)), None)
|}.

#[local] Instance ping_laws : HandlerLaws ping_handler time.
Proof.
  split; [done|by intros; simplify_eq/=|].
  intros h w q h' l' e [= <- <- <-]. exists [Some (mkSample "up" w (VString (ping_dsn h)) ∅)].
  apply (PushFront_of_queue q).
Qed.



(** A gather of a model runs the handler registered under that name on
    that model's list and changes nothing else: the handler keeps its name,
    the samples it produced follow those already waiting, its error is the
    result; an unknown model is an error and changes nothing. *)
Theorem Gather_spec `{HandlerLaws H W} (m m' : SharedHandlerFactory H) a w model e :
  represents m a → Gather m w model = Done (e, m') →
  match a !! model with
  | None => e = Some (Errorf (model +:+ " not supported")) ∧ m' = m
  | Some (h, q) => ∃ h' q',
      handler_Gather h w (of_queue q) = Done (h', of_queue (q ++ q'), e) ∧
      Name h' = model ∧ represents m' (<[model := (h', q ++ q')]> a)
  end.
Proof.
  intros Hrep Hg. pose proof (Gather_agree m a w model Hrep) as Ha.
  rewrite Hg in Ha. unfold registry_gather in Ha.
  destruct (a !! model) as [[h q]|] eqn:Hm.
  - destruct (handler_Gather h w (of_queue q)) as [[[h' l'] e']|] eqn:Hh; simpl in Ha; [|done].
    destruct Ha as [<- Ha]. destruct (Gather_appends _ _ _ _ _ _ Hh) as [q' ->].
    rewrite queue_of_of_queue in Ha. exists h', q'. split_and!; [done| |done].
    destruct (represents_Some _ _ _ _ _ Hrep Hm) as (? & ? & _ & _ & <- & _).
    eauto using Name_Gather.
  - destruct Ha as [-> Ha]. split; [done|]. unfold Gather in Hg.
    destruct (represents_None _ _ _ Hrep Hm) as [Hs _]. rewrite Hs in Hg. by simplify_eq.
Qed.

Lemma Gather_spec_witness :
  let m := RegisterHandler NewHandlerFactory (mkPing "d") in
  ∃ m', Gather m time_zero "ping" = Done (None, m') ∧
        represents m' {["ping" := (mkPing "d", [Some (mkSample "up" time_zero (VString "d") ∅)])]}.
Proof.
  intros m. assert (Hrep : represents m (<["ping" := (mkPing "d", [])]> ∅))
    by exact (represents_register _ _ (mkPing "d") represents_new).
  eexists. split; [reflexivity|].
  destruct (Gather_spec m _ _ time_zero "ping" None Hrep eq_refl) as (h' & q' & Hg & _ & Hr).
  injection Hg as <- Hq. apply (f_equal (queue_of ∘ mkSafeList)) in Hq.
  change (queue_of (of_queue [Some (mkSample "up" time_zero (VString "d") ∅)]) =
          queue_of (of_queue q')) in Hq.
  rewrite !queue_of_of_queue in Hq. subst q'. exact Hr.
Defined.

(** The monitors of one model share its one handler: when a second one
    configures the model, every later gather, the first monitor's included,
    runs the handler re-initialised by the second. *)
Theorem InitConfig_shared `{HandlerLaws H W} (m : SharedHandlerFactory H) a w model h q cfg1 cfg2 :
  represents m a → a !! model = Some (h, q) →
  let h2 := (Init (Init h cfg1).1 cfg2).1 in
  match run_calls factory_step m [OpInitConfig model cfg1; OpInitConfig model cfg2; OpGather w model],
        handler_Gather h2 w (of_queue q) with
  | Done ([_; RetError e2; RetError e], m'), Done (h', l', e') =>
      e2 = (Init (Init h cfg1).1 cfg2).2 ∧ e = e' ∧ represents m' (<[model := (h', queue_of l')]> a)
  | Panic s, Panic s' => s = s'
  | _, _ => False
  end.
Proof.
  intros Hrep Hm. cbn zeta.
  pose proof (run_calls_agree m a
    [OpInitConfig model cfg1; OpInitConfig model cfg2; OpGather w model] Hrep) as Ha.
  destruct (run_calls factory_step m _) as [[rs m']|s]; cbn [run_calls registry_step] in Ha;
    unfold registry_init, registry_gather in Ha; rewrite Hm in Ha;
    destruct (Init h cfg1) as [h1 e1]; simpl in *; rewrite lookup_insert_eq in Ha;
    destruct (Init h1 cfg2) as [h2 e2]; simpl in *; rewrite lookup_insert_eq in Ha;
    destruct (handler_Gather h2 w (of_queue q)) as [[[h' l'] e']|s']; simpl in *; try done.
  destruct Ha as [-> Ha]. by rewrite !insert_insert_eq in Ha.
Qed.

Lemma InitConfig_shared_witness :
  let m := RegisterHandler NewHandlerFactory (mkPing "") in
  ∃ rs m', run_calls factory_step m [OpInitConfig "ping" {["dsn" := "first"]};
             OpInitConfig "ping" {["dsn" := "second"]}; OpGather time_zero "ping"] = Done (rs, m') ∧
    represents m' {["ping" := (mkPing "second", [Some (mkSample "up" time_zero (VString "second") ∅)])]}.
Proof.
  intros m. assert (Hrep : represents m (<["ping" := (mkPing "", [])]> ∅))
    by exact (represents_register _ _ (mkPing "") represents_new).
  pose proof (InitConfig_shared m _ time_zero "ping" (mkPing "") [] {["dsn" := "first"]}
                {["dsn" := "second"]} Hrep eq_refl) as Hs.
  eexists _, _. split; [vm_compute; reflexivity|]. vm_compute in Hs |- *. apply Hs.
Defined.

(** A list option is never read as the empty list: splitting yields at
    least one item, none holding a comma, which join to the configured text;
    an option that is not configured is the list with one empty item. *)
Theorem ParseSlice_spec (c : ConfigMap) key :
  ParseSlice c key ≠ [] ∧
  Join "," (ParseSlice c key) = Get c key ∧
  Forall (λ p, ","%char ∉ bytes_of p) (ParseSlice c key) ∧
  (c !! key = None → ParseSlice c key = [""]).
Proof.
  unfold ParseSlice. split_and!.
  - apply Split_not_nil.
  - apply Join_Split.
  - apply Split_pieces.
  - unfold Get. by intros ->.
Qed.
