(* ===== verification/Worker.v ===== *)
(** * Periodic tasks

    pkg/worker/worker.go. A task is a name with a stop channel; [Run] starts a
    goroutine that calls a function every period until the channel is closed
    ([wait.Until] looks at the channel before every call). The state keeps the
    channels made so far, whether each is closed, and the loops started.

    - [Worker] / [WorkerLaws]: the interface of the package and what a client
      relies on: a worker is a map from task names to the loops running under
      each name ([worker_view]), and nothing else runs ([worker_live]);
    - [workers]: the implementation, which obeys the laws as long as its tasks
      hold distinct open channels ([workers_ok]). *)
From S2P Require Import Prelude GoText.

(** ** The interface *)

Class Worker (Wk F : Type) := {
  NewWorker : Wk;
  AddWorkerTask : Wk → string → Wk;
  Run : Wk → string → Z → F → option error * Wk;
  Exist : Wk → string → bool;
  Stop : Wk → string → outcome Wk;
  Range : nat → Wk → list string;
  StopAll : nat → Wk → outcome Wk
}.

Class WorkerLaws (Wk F : Type) `{Worker Wk F} := {
  worker_ok : Wk → Prop;
  (** The loops of each task, in the order they were started. *)
  worker_view : Wk → gmap string (list (Z * F));
  (** The loops that may still call their function. *)
  worker_live : Wk → list (Z * F);
  view_new : worker_ok NewWorker ∧ worker_view NewWorker = ∅;
  view_add w name : worker_ok w →
    worker_ok (AddWorkerTask w name) ∧
    worker_view (AddWorkerTask w name) =
      match worker_view w !! name with
      | Some _ => worker_view w
      | None => <[name := []]> (worker_view w)
      end;
  view_run w name period f : worker_ok w →
    worker_ok (Run w name period f).2 ∧
    match worker_view w !! name with
    | Some l => (Run w name period f).1 = None ∧
        worker_view (Run w name period f).2 = <[name := l ++ [(period, f)]]> (worker_view w)
    | None => (Run w name period f).1 = Some (Errorf (name +:+ " not registered")) ∧
        worker_view (Run w name period f).2 = worker_view w
    end;
  view_exist w name : worker_ok w → Exist w name = bool_decide (is_Some (worker_view w !! name));
  view_stop w name : worker_ok w →
    ∃ w', Stop w name = Done w' ∧ worker_ok w' ∧ worker_view w' = delete name (worker_view w);
  (** [Range] names every task once. *)
  view_range n w : worker_ok w → Range n w ≡ₚ (map_to_list (worker_view w)).*1;
  view_stop_all n w : worker_ok w →
    ∃ w', StopAll n w = Done w' ∧ worker_ok w' ∧ worker_view w' = ∅;
  live_view w pf : worker_ok w →
    pf ∈ worker_live w ↔ ∃ name l, worker_view w !! name = Some l ∧ pf ∈ l
}.

(** ** The implementation *)

Record loop (F : Type) := mkLoop { loop_f : F; loop_period : Z; loop_ch : nat }.
Arguments mkLoop {F}.
Arguments loop_f {F}.
Arguments loop_period {F}.
Arguments loop_ch {F}.

(** [chans] tells of each channel whether it is closed; a task is its channel. *)
Record workers (F : Type) := mkWorkers {
  Tasks : gmap string nat;
  chans : list bool;
  loops : list (loop F)
}.
Arguments mkWorkers {F}.
Arguments Tasks {F}.
Arguments chans {F}.
Arguments loops {F}.

Section workers.
Context `{RangeOrder} {F : Type}.
Implicit Types (w : workers F).

Definition workers_New : workers F := mkWorkers ∅ [] [].

Definition workers_Exist w (name : string) : bool :=
  match Tasks w !! name with Some _ => true | None => false end.

Definition workers_AddWorkerTask w (name : string) : workers F :=
  match Tasks w !! name with
  | Some _ => w
  | None => mkWorkers (<[name := length (chans w)]> (Tasks w)) (chans w ++ [false]) (loops w)
  end.

Definition workers_Run w (name : string) (period : Z) (f : F) : option error * workers F :=
  match Tasks w !! name with
  | None => (Some (Errorf (name +:+ " not registered")), w)
  | Some ch => (None, mkWorkers (Tasks w) (chans w) (loops w ++ [mkLoop f period ch]))
  end.

(** [close(ch)]. *)
Definition close_chan (chs : list bool) (ch : nat) : outcome (list bool) :=
  match chs !! ch with
  | Some false => Done (<[ch := true]> chs)
  | Some true => Panic "close of closed channel"
  | None => Panic "close of nil channel"
  end.

Definition close_task w (name : string) (ch : nat) : outcome (workers F) :=
  chs ← close_chan (chans w) ch;
  Done (mkWorkers (delete name (Tasks w)) chs (loops w)).

Definition workers_Stop w (name : string) : outcome (workers F) :=
  match Tasks w !! name with
  | None => Done w
  | Some ch => close_task w name ch
  end.

(** What [Range] logs: the names of the tasks. *)
Definition workers_Range (n : nat) w : list string := (range_list n (Tasks w)).*1.

Fixpoint close_all w (l : list (string * nat)) : outcome (workers F) :=
  match l with
  | [] => Done w
  | (key, ch) :: l' => w' ← close_task w key ch; close_all w' l'
  end.

Definition workers_StopAll (n : nat) w : outcome (workers F) :=
  close_all w (range_list n (Tasks w)).

(** Whether the loop calls its function when its period has passed. *)
Definition is_live w (l : loop F) : bool :=
  match chans w !! loop_ch l with Some closed => negb closed | None => false end.

Definition workers_live w : list (Z * F) :=
  (λ l, (loop_period l, loop_f l)) <$> filter (λ l, is_live w l = true) (loops w).

(** The loops on one channel. *)
Definition loops_on (ls : list (loop F)) (ch : nat) : list (Z * F) :=
  (λ l, (loop_period l, loop_f l)) <$> filter (λ l, loop_ch l = ch) ls.

Definition workers_view w : gmap string (list (Z * F)) := loops_on (loops w) <$> Tasks w.

(** Tasks have open channels of their own, and every open channel that a loop
    waits on is some task's. *)
Record workers_ok w : Prop := {
  task_open name ch : Tasks w !! name = Some ch → chans w !! ch = Some false;
  task_distinct name1 name2 ch :
    Tasks w !! name1 = Some ch → Tasks w !! name2 = Some ch → name1 = name2;
  loop_made l : l ∈ loops w → loop_ch l < length (chans w);
  loop_task l : l ∈ loops w → chans w !! loop_ch l = Some false →
    ∃ name, Tasks w !! name = Some (loop_ch l)
}.

Lemma workers_ok_new : workers_ok workers_New.
Proof. by split; intros *; rewrite ?lookup_empty, ?elem_of_nil. Qed.

Lemma workers_ok_add w name : workers_ok w → workers_ok (workers_AddWorkerTask w name).
Proof.
  intros Hok. unfold workers_AddWorkerTask. destruct (Tasks w !! name) as [ch|] eqn:Hn; [done|].
  assert (Hlt : ∀ k c, Tasks w !! k = Some c → c < length (chans w)).
  { intros k c Hk. eapply lookup_lt_Some, (task_open w Hok), Hk. }
  split; simpl.
  - intros k c. rewrite lookup_insert_Some. intros [[<- <-]|[Hne Hk]].
    + by rewrite list_lookup_middle.
    + rewrite lookup_app_l by eauto. by apply (task_open w Hok k).
  - intros k1 k2 c. rewrite !lookup_insert_Some.
    intros [[<- <-]|[Hne Hk]] [[Hk' Hp]|[Hne' Hk']]; simplify_eq; try done.
    + apply Hlt in Hk'. lia.
    + apply Hlt in Hk. lia.
    + by eapply (task_distinct w Hok).
  - intros l Hl. rewrite length_app. apply (loop_made w Hok) in Hl. lia.
  - intros l Hl. rewrite lookup_app_l by by apply (loop_made w Hok).
    intros Ho. destruct (loop_task w Hok l Hl Ho) as [k Hk]. exists k.
    rewrite lookup_insert_ne by congruence. done.
Qed.

Lemma workers_ok_run w name period f : workers_ok w → workers_ok (workers_Run w name period f).2.
Proof.
  intros Hok. unfold workers_Run. destruct (Tasks w !! name) as [ch|] eqn:Hn; [|done].
  destruct Hok as [Ho Hd Hm Ht]. split; simpl; [done|done| |].
  - intros l [Hl| ->%list_elem_of_singleton]%elem_of_app; [by apply Hm|].
    eapply lookup_lt_Some, Ho, Hn.
  - intros l [Hl| ->%list_elem_of_singleton]%elem_of_app; [by apply Ht|]. by exists name.
Qed.

Lemma close_task_ok w name ch :
  workers_ok w → Tasks w !! name = Some ch →
  ∃ w', close_task w name ch = Done w' ∧ workers_ok w' ∧ Tasks w' = delete name (Tasks w) ∧
        loops w' = loops w ∧ chans w' = <[ch := true]> (chans w).
Proof.
  intros Hok Hn. unfold close_task, close_chan.
  rewrite (task_open w Hok _ _ Hn). simpl. eexists. split; [done|]. split; [|done].
  assert (Hlt : ch < length (chans w)) by (eapply lookup_lt_Some, (task_open w Hok), Hn).
  split; simpl.
  - intros k c [Hne Hk]%lookup_delete_Some.
    rewrite list_lookup_insert_ne; [by eapply (task_open w Hok)|].
    intros <-. by apply Hne, (task_distinct w Hok _ _ ch).
  - intros k1 k2 c [_ H1]%lookup_delete_Some [_ H2]%lookup_delete_Some.
    by eapply (task_distinct w Hok).
  - intros l Hl. rewrite length_insert. by apply (loop_made w Hok).
  - intros l Hl. destruct (decide (loop_ch l = ch)) as [->|Hne].
    + by rewrite list_lookup_insert_eq.
    + rewrite list_lookup_insert_ne by done. intros Ho.
      destruct (loop_task w Hok l Hl Ho) as [k Hk]. exists k.
      rewrite lookup_delete_ne; [done|]. congruence.
Qed.

Lemma close_all_ok w l :
  workers_ok w → l ≡ₚ map_to_list (Tasks w) →
  ∃ w', close_all w l = Done w' ∧ workers_ok w' ∧ Tasks w' = ∅ ∧ loops w' = loops w.
Proof.
  revert w. induction l as [|[name ch] l IH]; intros w Hok Hl; simpl.
  - exists w. split_and!; try done. symmetry in Hl. apply Permutation_nil_r in Hl.
    by apply map_to_list_empty_iff.
  - assert (Hn : Tasks w !! name = Some ch).
    { apply elem_of_map_to_list. rewrite <- Hl. left. }
    destruct (close_task_ok w name ch Hok Hn) as (w1 & -> & Hok1 & Ht1 & Hl1 & _). simpl.
    destruct (IH w1 Hok1) as (w2 & ? & ? & ? & ?).
    { rewrite Ht1. rewrite <- (insert_delete_id (Tasks w) name ch Hn) in Hl.
      rewrite map_to_list_insert in Hl by apply lookup_delete_eq. by eapply Permutation_cons_inv. }
    exists w2. by rewrite <- Hl1.
Qed.

Lemma loops_on_nil (ls : list (loop F)) ch :
  (∀ l, l ∈ ls → loop_ch l ≠ ch) → loops_on ls ch = [].
Proof.
  unfold loops_on. induction ls as [|l ls IH]; intros Hl; [done|].
  rewrite filter_cons_False by (apply Hl; left). apply IH. intros l' Hin. apply Hl. by right.
Qed.

Lemma loops_on_snoc (ls : list (loop F)) f period ch ch' :
  loops_on (ls ++ [mkLoop f period ch]) ch' =
    loops_on ls ch' ++ (if decide (ch = ch') then [(period, f)] else []).
Proof.
  unfold loops_on. rewrite filter_app, fmap_app. f_equal. case_decide as Hc.
  - by rewrite filter_cons_True.
  - by rewrite filter_cons_False.
Qed.

Lemma view_lookup w name :
  workers_view w !! name = loops_on (loops w) <$> Tasks w !! name.
Proof. apply lookup_fmap. Qed.

Lemma live_of_view w pf :
  workers_ok w →
  pf ∈ workers_live w ↔ ∃ name l, workers_view w !! name = Some l ∧ pf ∈ l.
Proof.
  intros Hok. unfold workers_live. rewrite list_elem_of_fmap. setoid_rewrite list_elem_of_filter.
  split.
  - intros (l & -> & Hlive & Hl). unfold is_live in Hlive.
    destruct (chans w !! loop_ch l) as [[]|] eqn:Hc; try done.
    destruct (loop_task w Hok l Hl Hc) as [name Hn].
    exists name, (loops_on (loops w) (loop_ch l)). rewrite view_lookup, Hn. split; [done|].
    apply list_elem_of_fmap. exists l. by rewrite list_elem_of_filter.
  - intros (name & ls & Hv & Hpf). rewrite view_lookup in Hv.
    destruct (Tasks w !! name) as [ch|] eqn:Hn; simplify_eq/=.
    apply list_elem_of_fmap in Hpf as (l & -> & [<- Hl]%list_elem_of_filter).
    exists l. split; [done|]. split; [|done]. unfold is_live. by rewrite (task_open w Hok _ _ Hn).
Qed.
End workers.

(** ** The implementation obeys the interface *)

#[export] Instance workers_worker `{RangeOrder} {F} : Worker (workers F) F := {|
  NewWorker := workers_New;
  AddWorkerTask := workers_AddWorkerTask;
  Run := workers_Run;
  Exist := workers_Exist;
  Stop := workers_Stop;
  Range := workers_Range;
  StopAll := workers_StopAll
|}.

#[export] Instance workers_laws `{RangeOrder} {F} : WorkerLaws (workers F) F.
Proof.
  refine {| worker_ok := workers_ok; worker_view := workers_view; worker_live := workers_live |};
    simpl.
  - split; [apply workers_ok_new|done].
  - intros w name Hok. split; [by apply workers_ok_add|].
    rewrite view_lookup. unfold workers_AddWorkerTask, workers_view.
    destruct (Tasks w !! name) as [ch|] eqn:Hn; simpl; [done|].
    rewrite fmap_insert, loops_on_nil; [done|]. intros l Hl%(loop_made w Hok). lia.
  - intros w name period f Hok. split; [by apply workers_ok_run|].
    rewrite view_lookup. unfold workers_Run, workers_view.
    destruct (Tasks w !! name) as [ch|] eqn:Hn; simpl; [|done]. split; [done|].
    apply map_eq. intros k. rewrite lookup_fmap. destruct (decide (k = name)) as [->|Hne].
    + rewrite lookup_insert_eq, Hn. simpl. by rewrite loops_on_snoc, decide_True.
    + rewrite lookup_insert_ne, lookup_fmap by done.
      destruct (Tasks w !! k) as [ch'|] eqn:Hk; simpl; [|done].
      rewrite loops_on_snoc, decide_False, app_nil_r; [done|].
      intros ->. by apply Hne, (task_distinct w Hok _ _ ch').
  - intros w name Hok. rewrite view_lookup. unfold workers_Exist.
    by destruct (Tasks w !! name).
  - intros w name Hok. unfold workers_Stop. destruct (Tasks w !! name) as [ch|] eqn:Hn.
    + destruct (close_task_ok w name ch Hok Hn) as (w' & -> & Hok' & Ht & Hl & _).
      exists w'. split_and!; [done|done|]. unfold workers_view. by rewrite Ht, Hl, fmap_delete.
    + exists w. split_and!; [done|done|]. rewrite delete_id; [done|]. by rewrite view_lookup, Hn.
  - intros n w Hok. unfold workers_Range, workers_view.
    rewrite range_list_perm, map_to_list_fmap, <- list_fmap_compose. done.
  - intros n w Hok. unfold workers_StopAll.
    destruct (close_all_ok w (range_list n (Tasks w)) Hok (range_list_perm _ _)) as (w' & ? & ? & Ht & _).
    exists w'. split_and!; [done|done|]. unfold workers_view. by rewrite Ht.
  - intros w pf Hok. by apply live_of_view.
Defined.

(** ** Sequences of calls *)

Inductive worker_op (F : Type) :=
| OpAdd (name : string)
| OpRun (name : string) (period : Z) (f : F)
| OpExist (name : string)
| OpStop (name : string)
| OpStopAll (n : nat).
Arguments OpAdd {F}.
Arguments OpRun {F}.
Arguments OpExist {F}.
Arguments OpStop {F}.
Arguments OpStopAll {F}.

(** What a call returns. *)
Inductive worker_res := WUnit | WError (e : option error) | WBool (b : bool).

Section calls.
Context `{Worker Wk F}.

Definition worker_call (w : Wk) (op : worker_op F) : outcome (worker_res * Wk) :=
  match op with
  | OpAdd name => Done (WUnit, AddWorkerTask w name)
  | OpRun name period f => let '(e, w') := Run w name period f in Done (WError e, w')
  | OpExist name => Done (WBool (Exist w name), w)
  | OpStop name => w' ← Stop w name; Done (WUnit, w')
  | OpStopAll n => w' ← StopAll n w; Done (WUnit, w')
  end.

Fixpoint worker_calls (w : Wk) (ops : list (worker_op F)) : outcome (list worker_res * Wk) :=
  match ops with
  | [] => Done ([], w)
  | op :: ops' =>
    '(r, w') ← worker_call w op;
    '(rs, w'') ← worker_calls w' ops';
    Done (r :: rs, w'')
  end.
End calls.

(** The same calls on a map from names to loops. *)
Definition tasks_call {F} (v : gmap string (list (Z * F))) (op : worker_op F) :
    worker_res * gmap string (list (Z * F)) :=
  match op with
  | OpAdd name =>
    (WUnit, match v !! name with Some _ => v | None => <[name := []]> v end)
  | OpRun name period f =>
    match v !! name with
    | Some l => (WError None, <[name := l ++ [(period, f)]]> v)
    | None => (WError (Some (Errorf (name +:+ " not registered"))), v)
    end
  | OpExist name => (WBool (bool_decide (is_Some (v !! name))), v)
  | OpStop name => (WUnit, delete name v)
  | OpStopAll _ => (WUnit, ∅)
  end.

Fixpoint tasks_calls {F} (v : gmap string (list (Z * F))) (ops : list (worker_op F)) :
    list worker_res * gmap string (list (Z * F)) :=
  match ops with
  | [] => ([], v)
  | op :: ops' =>
    let '(r, v') := tasks_call v op in
    let '(rs, v'') := tasks_calls v' ops' in (r :: rs, v'')
  end.

Section client.
Context `{WorkerLaws Wk F}.

Lemma worker_call_view w op :
  worker_ok w → ∃ w', worker_call w op = Done ((tasks_call (worker_view w) op).1, w') ∧
                      worker_ok w' ∧ worker_view w' = (tasks_call (worker_view w) op).2.
Proof.
  intros Hok. destruct op as [name|name period f|name|name|n]; simpl.
  - destruct (view_add w name Hok) as [? Hv]. eauto.
  - destruct (view_run w name period f Hok) as [Hok' Hv].
    destruct (Run w name period f) as [e w']. exists w'.
    destruct (worker_view w !! name); simpl in *; destruct Hv as [-> ->]; done.
  - exists w. by rewrite (view_exist w name Hok).
  - destruct (view_stop w name Hok) as (w' & -> & ? & ?). by exists w'.
  - destruct (view_stop_all n w Hok) as (w' & -> & ? & ?). by exists w'.
Qed.

Lemma worker_calls_view w ops :
  worker_ok w → ∃ w', worker_calls w ops = Done ((tasks_calls (worker_view w) ops).1, w') ∧
                      worker_ok w' ∧ worker_view w' = (tasks_calls (worker_view w) ops).2.
Proof.
  revert w. induction ops as [|op ops IH]; intros w Hok; simpl; [by exists w|].
  destruct (worker_call_view w op Hok) as (w1 & -> & Hok1 & Hv1). simpl.
  destruct (IH w1 Hok1) as (w2 & -> & Hok2 & Hv2). simpl. exists w2.
  rewrite Hv1 in *. destruct (tasks_call (worker_view w) op) as [r v']. simpl in *.
  by destruct (tasks_calls v' ops).
Qed.
End client.

(** A closed channel stays closed. *)
Lemma close_all_closed {F} (w w' : workers F) l ch :
  close_all w l = Done w' → chans w !! ch = Some true → chans w' !! ch = Some true.
Proof.
  revert w. induction l as [|[k c] l IH]; intros w; simpl; [by intros [= ->]|].
  unfold close_task, close_chan. destruct (chans w !! c) as [[]|] eqn:Hc; simpl; try done.
  intros Hw Hch. apply (IH _ Hw). simpl. by rewrite list_lookup_insert_ne by congruence.
Qed.

Lemma worker_call_closed `{RangeOrder} {F} (w w' : workers F) op r ch :
  worker_call w op = Done (r, w') → chans w !! ch = Some true → chans w' !! ch = Some true.
Proof.
  destruct op as [name|name period f|name|name|n]; simpl.
  - unfold workers_AddWorkerTask. intros [= _ <-] Hch. destruct (Tasks w !! name); simpl; [done|].
    rewrite lookup_app_l; [done|]. eauto using lookup_lt_Some.
  - unfold workers_Run. by destruct (Tasks w !! name); intros [= _ <-].
  - by intros [= _ <-].
  - unfold workers_Stop. destruct (Tasks w !! name) as [c|]; simpl; [|by intros [= _ <-]].
    unfold close_task, close_chan. destruct (chans w !! c) as [[]|] eqn:Hc; simpl; try done.
    intros [= _ <-] Hch. simpl. by rewrite list_lookup_insert_ne by congruence.
  - destruct (workers_StopAll n w) as [w1|] eqn:Hs; simpl; [|done]. intros [= _ <-].
    by apply (close_all_closed _ _ _ _ Hs).
Qed.

Lemma worker_calls_closed `{RangeOrder} {F} (w w' : workers F) ops rs ch :
  worker_calls w ops = Done (rs, w') → chans w !! ch = Some true → chans w' !! ch = Some true.
Proof.
  revert w rs. induction ops as [|op ops IH]; intros w rs; cbn [worker_calls].
  - by intros [= _ <-].
  - destruct (worker_call w op) as [[r w1]|] eqn:Hc; simpl; [|done].
    destruct (worker_calls w1 ops) as [[rs1 w2]|] eqn:Hcs; simpl; [|done].
    intros [= _ <-] Hch. by eapply IH, worker_call_closed.
Qed.

(** ** Properties *)

(** C5: the worker is a map from task names to running loops. Any sequence of
    calls on a new worker finishes (no channel is ever closed twice), answers
    what the map answers, and leaves exactly the loops of the map able to
    run: none is lost and none outlives its task. *)
Theorem workers_refines `{RangeOrder} {F} (ops : list (worker_op F)) :
  ∃ w, worker_calls workers_New ops = Done ((tasks_calls ∅ ops).1, w) ∧
       workers_view w = (tasks_calls ∅ ops).2 ∧
       ∀ pf, pf ∈ workers_live w ↔
             ∃ name l, (tasks_calls ∅ ops).2 !! name = Some l ∧ pf ∈ l.
Proof.
  destruct (worker_calls_view (Wk := workers F) (F := F) NewWorker ops (proj1 view_new))
    as (w & Hw & Hok & Hv).
  rewrite (proj2 view_new) in Hw, Hv.
  exists w. split; [exact Hw|]. split; [exact Hv|]. intros pf.
  rewrite (live_of_view w pf Hok). simpl in Hv. by rewrite Hv.
Qed.

(** C28: stopping a task is final for its loops: whatever is called afterwards
    (a new task of the same name included), a loop that waited on the stopped
    task's channel never calls its function again. *)
Theorem Stop_final `{RangeOrder} {F} (w w1 w2 : workers F) name ch ops rs l :
  Tasks w !! name = Some ch → workers_Stop w name = Done w1 →
  worker_calls w1 ops = Done (rs, w2) → l ∈ loops w2 → loop_ch l = ch → is_live w2 l = false.
Proof.
  intros Hn Hs Hc Hl <-. assert (Hcl : chans w1 !! loop_ch l = Some true).
  { unfold workers_Stop, close_task, close_chan in Hs. rewrite Hn in Hs.
    destruct (chans w !! loop_ch l) as [[]|] eqn:Ho; simplify_eq/=.
    rewrite list_lookup_insert_eq; [done|]. eauto using lookup_lt_Some. }
  unfold is_live. by rewrite (worker_calls_closed _ _ _ _ _ Hc Hcl).
Qed.

Lemma Stop_final_witness :
  let w := mkWorkers {["a" := 0]} [false] [mkLoop 7 1 0] in
  let w1 := mkWorkers ∅ [true] [mkLoop 7 1 0] in
  let w2 := mkWorkers {["a" := 1]} [true; false] [mkLoop 7 1 0; mkLoop 8 1 1] in
  workers_Stop w "a" = Done w1 ∧
  @worker_calls _ _ (@workers_worker canonical_order nat) w1 [OpAdd "a"; OpRun "a" 1 8] =
    Done ([WUnit; WError None], w2) ∧
  is_live w (mkLoop 7 1 0) = true ∧ is_live w2 (mkLoop 7 1 0) = false ∧
  is_live w2 (mkLoop 8 1 1) = true.
Proof.
  intros w w1 w2. assert (Hs : workers_Stop w "a" = Done w1) by (vm_compute; reflexivity).
  assert (Hc : @worker_calls _ _ (@workers_worker canonical_order nat) w1
    [OpAdd "a"; OpRun "a" 1 8] = Done ([WUnit; WError None], w2)) by (vm_compute; reflexivity).
  split; [exact Hs|]. split; [exact Hc|]. split; [done|]. split; [|done].
  apply (@Stop_final canonical_order nat w w1 w2 "a" 0 _ _ (mkLoop 7 1 0) eq_refl Hs Hc);
    [left|done].
Defined.
