(* ===== verification/Writer.v ===== *)
(** * Remote writers

    internal/writer: the queue of time series and the remote-write clients they
    are sent to (writers.go), and one client (writer.go).

    - [HttpApi]: the code the writers call that is not the program's (the
      Prometheus API client, protobuf and snappy);
    - [post], [Writer_Write]: one request to one remote;
    - [Writers] with [Register], [DeRegister], [WriteSamples], [snapshot],
      [QueueMetrics]: the manager's methods;
    - [writers_step]: the goroutines that share the manager (monitors that
      write samples, the spawned [snapshot] calls, the read loop and the
      goroutine it starts per writer) interleaved at every access to shared
      state; [conf] adds to the manager what each goroutine holds and a log of
      what was accepted, rejected and sent. *)
From S2P Require Import Prelude GoText GoNum GoUrl GoHttp SafeLists Conv Samples.
#[local] Open Scope Z_scope.

(** ** The client *)

(** The [http.Transport] a client is made with; times in nanoseconds. *)
Record Transport := mkTransport {
  DialContext_Timeout : Z;
  ResponseHeaderTimeout : Z;
  MaxIdleConnsPerHost : Z;
  MaxIdleConns : Z
}.

Class HttpApi := {
  Client : Type;
  (** [api.NewClient], from the address and the transport. *)
  NewClient : string → Transport → result Client;
  (** [proto.Marshal] of a write request, and [snappy.Encode]. *)
  Marshal : list TimeSeries → result string;
  Encode : string → string
}.

(** ** One writer *)

Record WriterOption := mkWriterOption {
  Url : string;
  BasicAuthUser : string;
  BasicAuthPass : string;
  Headers : list string;
  Timeout : Z;
  DialTimeout : Z;
  opt_MaxIdleConnsPerHost : Z
}.

Section writer.
Context `{HttpApi}.

(** The client is nil in the zero [Writer{}]. *)
Record Writer := mkWriter { Opts : WriterOption; writer_Client : option Client }.

Definition zero_Writer : Writer := mkWriter (mkWriterOption "" "" "" [] 0 0 0) None.

(** [time.Duration(n) * time.Second], an int64 product. *)
Definition seconds (n : Z) : Z := wrap64 (n * 1000000000).

Definition newWriter (opt : WriterOption) : result Writer :=
  match NewClient (Url opt)
          (mkTransport (seconds (DialTimeout opt)) (seconds (Timeout opt))
             (opt_MaxIdleConnsPerHost opt) 100) with
  | Err err => Err err
  | Ok cli => Ok (mkWriter opt (Some cli))
  end.

(** [for i := 0; i < len(headers); i += 2]: an odd last key reads past the end. *)
Fixpoint add_headers (headers : list string) (r : Request) : outcome Request :=
  match headers with
  | [] => Done r
  | [_] => Panic "index out of range"
  | k :: v :: rest =>
    add_headers rest
      (mkRequest (req_Method r) (req_URL r)
         (if decide (k = "Host") then v else req_Host r)
         (Header_Add (req_Header r) k v) (req_Body r))
  end.

Definition fixed_headers : Header :=
  let h := Header_Add ∅ "Content-Encoding" "snappy" in
  let h := Header_Set h "Content-Type" "application/x-protobuf" in
  let h := Header_Set h "User-Agent" "categraf" in
  Header_Set h "X-Prometheus-Remote-Write-Version" "0.1.0".

(** [post]; [Do] is the client's answer to a request: an error, or the status
    code and the body. *)
Definition post (w : Writer) (req : string) (Do : Client → Request → result (Z * string)) :
    outcome (option error) :=
  match NewRequest "POST" (Url (Opts w)) req with
  | Err err => Done (Some err)
  | Ok httpReq =>
    httpReq ← add_headers (Headers (Opts w))
                (mkRequest (req_Method httpReq) (req_URL httpReq) (req_Host httpReq)
                   fixed_headers (req_Body httpReq));
    let httpReq :=
      if decide (BasicAuthUser (Opts w) ≠ "")
      then SetBasicAuth httpReq (BasicAuthUser (Opts w)) (BasicAuthPass (Opts w))
      else httpReq in
    match writer_Client w with
    | None => Panic "nil pointer dereference"
    | Some cli =>
      match Do cli httpReq with
      | Err err => Done (Some err)
      | Ok (status, body) =>
        if 400 <=? status
        then Done (Some (Errorf ("push data with remote write request got status code: "
                     +:+ Itoa status +:+ ", response body: " +:+ body)))
        else Done None
      end
    end
  end.

(** [Write]: a failed post is logged, and the result is still nil. *)
Definition Writer_Write (w : Writer) (items : list TimeSeries)
    (Do : Client → Request → result (Z * string)) : outcome (option error) :=
  match items with
  | [] => Done None
  | _ =>
    match Marshal items with
    | Err err => Done (Some err)
    | Ok data =>
      _ ← post w (Encode data) Do;
      Done None
    end
  end.

Lemma add_headers_done headers r :
  is_done (add_headers headers r) ↔ Nat.even (length headers) = true.
Proof.
  revert r. induction headers as [| k | k v rest IH] using list_pair_ind; intros r; simpl.
  - split; [done|]. by exists r.
  - split; [|done]. by intros [? ?].
  - apply IH.
Qed.
End writer.

(** ** The manager *)

Record Snapshot := mkSnapshot {
  QueueFailCount : Z;
  QueueFailTotal : Z;
  QueueTotalCount : Z;
  QueueSize : Z;
  WriteTotalCount : Z;
  WriteFailTotal : Z
}.

(** The arguments of a spawned [snapshot] that has not run yet. *)
Record snapshot_call := mkCall {
  call_count : Z;
  call_size : Z;
  call_success : bool;
  call_mode : string
}.

Section writers.
Context `{RangeOrder} `{HttpApi}.

(** The queue holds [*prompb.TimeSeries] in the code: only fresh, non-nil
    pointers are pushed, so a series is a value here. *)
Record Writers := mkWriters {
  writerMap : gmap string Writer;
  queue : SafeListLimited TimeSeries;
  batch : Z;
  chanSize : Z;
  stats : Snapshot;
  spawned : list snapshot_call
}.

Definition NewWriter (chanSize batch : Z) : Writers :=
  mkWriters ∅ (NewSafeListLimited chanSize) batch chanSize (mkSnapshot 0 0 0 0 0 0) [].

Definition set_writerMap (ws : Writers) (wm : gmap string Writer) : Writers :=
  mkWriters wm (queue ws) (batch ws) (chanSize ws) (stats ws) (spawned ws).

Definition set_queue (ws : Writers) (q : SafeListLimited TimeSeries) : Writers :=
  mkWriters (writerMap ws) q (batch ws) (chanSize ws) (stats ws) (spawned ws).

Definition set_spawned (ws : Writers) (cs : list snapshot_call) : Writers :=
  mkWriters (writerMap ws) (queue ws) (batch ws) (chanSize ws) (stats ws) cs.

Definition DeRegister (ws : Writers) (name : string) : option error * Writers :=
  match writerMap ws !! name with
  | Some _ => (None, set_writerMap ws (delete name (writerMap ws)))
  | None => (Some (Errorf (name +:+ " not register wirters")), ws)
  end.

Definition Register (ws : Writers) (name : string) (opt : WriterOption) : option error * Writers :=
  match newWriter opt with
  | Err err => (Some err, ws)
  | Ok writer => (None, set_writerMap ws (<[name := writer]> (writerMap ws)))
  end.

(** The loop of [WriteSamples]; a nil sample is dereferenced by the
    conversion, and the conversions' label loops are numbered from [n]. *)
Fixpoint convert_samples (n : nat) (samples : list (option Sample)) : outcome (list TimeSeries) :=
  match samples with
  | [] => Done []
  | None :: _ => Panic "nil pointer dereference"
  | Some sample :: samples' =>
    items ← convert_samples (S n) samples';
    Done match ConvertTimeSeries n sample "ms" with
         | None => items
         | Some item => match ts_Labels item with [] => items | _ => item :: items end
         end
  end.

Definition queue_call (count : Z) (ws : Writers) (success : bool) : snapshot_call :=
  mkCall (wrapu64 count) (wrapu64 (Limited_Len (queue ws))) success "queue".

Definition WriteSamples (n : nat) (ws : Writers) (samples : list (option Sample)) : outcome Writers :=
  match samples with
  | [] => Done ws
  | _ =>
    items ← convert_samples n samples;
    let '(success, q) := Limited_PushFrontN (queue ws) items in
    let ws := set_queue ws q in
    Done (set_spawned ws
      (spawned ws ++ [queue_call (Z.of_nat (length items)) ws success]))
  end.

Definition snapshot_stats (s : Snapshot) (c : snapshot_call) : Snapshot :=
  if decide (call_mode c = "queue") then
    mkSnapshot
      (if call_success c then QueueFailCount s else wrapu64 (QueueFailCount s + 1))
      (if call_success c then QueueFailTotal s else wrapu64 (QueueFailTotal s + call_count c))
      (wrapu64 (QueueTotalCount s + call_count c)) (call_size c)
      (WriteTotalCount s) (WriteFailTotal s)
  else if decide (call_mode c = "write") then
    mkSnapshot (QueueFailCount s) (QueueFailTotal s) (QueueTotalCount s) (QueueSize s)
      (wrapu64 (WriteTotalCount s + call_count c))
      (if call_success c then WriteFailTotal s else wrapu64 (WriteFailTotal s + 1))
  else s.

Definition snapshot (ws : Writers) (c : snapshot_call) : Writers :=
  mkWriters (writerMap ws) (queue ws) (batch ws) (chanSize ws)
    (snapshot_stats (stats ws) c) (spawned ws).

Definition QueueMetrics (ws : Writers) : Snapshot := stats ws.

(** ** Interleaved goroutines *)

(** Callers pass samples that convert without a nil dereference (they filter
    nil samples out with [Process] first). A caller that found room, or that has pushed (or been
    refused) and is about to take the length and spawn [snapshot]. *)
Inductive pusher :=
| Checked (items : list TimeSeries)
| Pushed (count : Z) (success : bool).

(** A goroutine of [WriteTimeSeries]: about to write, or to count the write. *)
Inductive fanout :=
| FanWrite (key : string)
| FanCount (success : bool).

Record conf := mkWConf {
  c_ws : Writers;
  c_pushers : list pusher;
  (** The batch the read loop has taken, with the goroutines it waits for. *)
  c_reader : option (list TimeSeries * list fanout);
  c_accepted : list TimeSeries;
  c_rejected : list TimeSeries;
  c_sent : list TimeSeries
}.

Definition with_ws (c : conf) (ws : Writers) : conf :=
  mkWConf ws (c_pushers c) (c_reader c) (c_accepted c) (c_rejected c) (c_sent c).

Definition with_reader (c : conf) (r : option (list TimeSeries * list fanout)) : conf :=
  mkWConf (c_ws c) (c_pushers c) r (c_accepted c) (c_rejected c) (c_sent c).

(** The goroutine of [key] reads the map when it runs, without the lock: a
    missing key yields the zero writer. *)
Definition fan_write (ws : Writers) (key : string) (items : list TimeSeries)
    (Do : Client → Request → result (Z * string)) : outcome (option error) :=
  Writer_Write (default zero_Writer (writerMap ws !! key)) items Do.

Inductive writers_step : conf → outcome conf → Prop :=
| step_Register c name opt :
    writers_step c (Done (with_ws c (Register (c_ws c) name opt).2))
| step_DeRegister c name :
    writers_step c (Done (with_ws c (DeRegister (c_ws c) name).2))
| step_room c n samples items :
    samples ≠ [] → convert_samples n samples = Done items →
    Limited_Len (queue (c_ws c)) < maxSize (queue (c_ws c)) →
    writers_step c (Done (mkWConf (c_ws c) (c_pushers c ++ [Checked items]) (c_reader c)
      (c_accepted c) (c_rejected c) (c_sent c)))
| step_refuse c n samples items :
    samples ≠ [] → convert_samples n samples = Done items →
    maxSize (queue (c_ws c)) ≤ Limited_Len (queue (c_ws c)) →
    writers_step c (Done (mkWConf (c_ws c)
      (c_pushers c ++ [Pushed (Z.of_nat (length items)) false]) (c_reader c)
      (c_accepted c) (c_rejected c ++ items) (c_sent c)))
| step_PushFrontN c i items :
    c_pushers c !! i = Some (Checked items) →
    writers_step c (Done (mkWConf
      (set_queue (c_ws c)
         (mkLimited (maxSize (queue (c_ws c))) (PushFrontN (SL (queue (c_ws c))) items)))
      (<[i := Pushed (Z.of_nat (length items)) true]> (c_pushers c)) (c_reader c)
      (c_accepted c ++ items) (c_rejected c) (c_sent c)))
| step_spawn c i count success :
    c_pushers c !! i = Some (Pushed count success) →
    writers_step c (Done (mkWConf
      (set_spawned (c_ws c) (spawned (c_ws c) ++ [queue_call count (c_ws c) success]))
      (delete i (c_pushers c)) (c_reader c) (c_accepted c) (c_rejected c) (c_sent c)))
| step_snapshot c i call :
    spawned (c_ws c) !! i = Some call →
    writers_step c (Done (with_ws c
      (set_spawned (snapshot (c_ws c) call) (delete i (spawned (c_ws c))))))
| step_PopBackN c n items q :
    c_reader c = None → Limited_PopBackN (queue (c_ws c)) (batch (c_ws c)) = Done (items, q) →
    writers_step c (Done (with_reader (with_ws c (set_queue (c_ws c) q))
      match items with
      | [] => None
      | _ => Some (items, FanWrite <$> (range_list n (writerMap (c_ws c))).*1)
      end))
| step_PopBackN_panic c s :
    c_reader c = None → Limited_PopBackN (queue (c_ws c)) (batch (c_ws c)) = Panic s →
    writers_step c (Panic s)
| step_write c items fans i key Do err :
    c_reader c = Some (items, fans) → fans !! i = Some (FanWrite key) →
    fan_write (c_ws c) key items Do = Done err →
    writers_step c (Done (with_reader c
      (Some (items, <[i := FanCount (bool_decide (err = None))]> fans))))
| step_write_panic c items fans i key Do s :
    c_reader c = Some (items, fans) → fans !! i = Some (FanWrite key) →
    fan_write (c_ws c) key items Do = Panic s →
    writers_step c (Panic s)
| step_count c items fans i success :
    c_reader c = Some (items, fans) → fans !! i = Some (FanCount success) →
    writers_step c (Done (with_reader
      (with_ws c (snapshot (c_ws c) (mkCall 1 0 success "write"))) (Some (items, delete i fans))))
| step_Wait c items :
    c_reader c = Some (items, []) →
    writers_step c (Done (mkWConf (c_ws c) (c_pushers c) None
      (c_accepted c) (c_rejected c) (c_sent c ++ items))).

Definition init_conf (chanSize batch : Z) : conf :=
  mkWConf (NewWriter chanSize batch) [] None [] [] [].

(** One step that does not crash. *)
Definition runs_to (c c' : conf) : Prop := writers_step c (Done c').

Definition in_reader (c : conf) : list TimeSeries :=
  match c_reader c with Some (items, _) => items | None => [] end.
End writers.

(** ** Lemmas *)

Section lemmas.
Context `{RangeOrder} `{HttpApi}.

Lemma post_done w req Do :
  is_Some (writer_Client w) → Nat.even (length (Headers (Opts w))) = true →
  is_done (post w req Do).
Proof.
  intros [cli Hc] He. unfold post. destruct (NewRequest _ _ _) as [r|e]; [|by eexists].
  destruct (proj2 (add_headers_done (Headers (Opts w)) (mkRequest (req_Method r) (req_URL r)
             (req_Host r) fixed_headers (req_Body r))) He) as [r' ->].
  simpl. rewrite Hc. destruct (Do cli _) as [[status body]|e]; [|by eexists].
  case_match; by eexists.
Qed.

Lemma Writer_Write_result w items Do err :
  Writer_Write w items Do = Done err → err = None ∨ ∃ e, Marshal items = Err e ∧ err = Some e.
Proof.
  unfold Writer_Write. destruct items as [|item items]; [intros [= <-]; by left|].
  destruct (Marshal (item :: items)) as [data|e] eqn:Hm.
  - destruct (post w (Encode data) Do); simpl; [|done]. intros [= <-]. by left.
  - intros [= <-]. right. by exists e.
Qed.

Lemma Writer_Write_done w items Do :
  is_Some (writer_Client w) → Nat.even (length (Headers (Opts w))) = true →
  is_done (Writer_Write w items Do).
Proof.
  intros Hc He. unfold Writer_Write. destruct items as [|item items]; [by eexists|].
  destruct (Marshal (item :: items)) as [data|e]; [|by eexists].
  destruct (post_done w (Encode data) Do Hc He) as [err ->]. by eexists.
Qed.

Lemma convert_samples_panic n samples :
  is_panic (convert_samples n samples) ↔ None ∈ samples.
Proof.
  revert n. induction samples as [|[s|] samples IH]; intros n; simpl.
  - rewrite elem_of_nil. split; [by intros [? ?]|done].
  - rewrite elem_of_cons. rewrite <- (IH (S n)).
    destruct (convert_samples (S n) samples) as [items|msg]; simpl; split.
    + by intros [? ?].
    + intros [?|[? ?]]; done.
    + intros _. right. by exists msg.
    + intros _. by exists msg.
  - split; [left|]. intros _. by exists "nil pointer dereference".
Qed.

(** *** Nothing is lost or reordered *)

Definition conserve_inv (c : conf) : Prop :=
  ∃ max q, queue (c_ws c) = limited_of max q ∧
    c_accepted c = c_sent c ++ in_reader c ++ q.

Lemma Limited_PopBackN_inv {A} max (q : list A) n items q' :
  Limited_PopBackN (limited_of max q) n = Done (items, q') →
  ∃ q1, q' = limited_of max q1 ∧ q = items ++ q1.
Proof.
  unfold Limited_PopBackN, limited_of. simpl. rewrite PopBackN_of_queue. unfold queue_pop_n.
  case_decide as Hq; [subst q; simpl; intros [= <- <-]; by exists []|].
  destruct (n <? 0); simpl; [done|]. intros [= <- <-].
  eexists. split; [done|]. by rewrite take_drop.
Qed.

Lemma conserve_step c c' : conserve_inv c → runs_to c c' → conserve_inv c'.
Proof.
  intros (max & q & Hq & Hacc) Hs.
  inversion Hs; subst; unfold conserve_inv, in_reader in *; simpl in *.
  - unfold Register. destruct (newWriter opt); by exists max, q.
  - unfold DeRegister. destruct (writerMap (c_ws c) !! name); by exists max, q.
  - by exists max, q.
  - by exists max, q.
  - exists max, (q ++ items). rewrite Hq. simpl. rewrite PushFrontN_of_queue.
    split; [done|]. by rewrite Hacc, !app_assoc.
  - by exists max, q.
  - by exists max, q.
  - rewrite Hq in *.
    match goal with Hp : Limited_PopBackN _ _ = _ |- _ =>
      apply Limited_PopBackN_inv in Hp as (q1 & -> & ->) end.
    match goal with Hr : c_reader c = None |- _ => rewrite Hr in Hacc end.
    exists max, q1. split; [done|]. by destruct items.
  - exists max, q. split; [done|].
    match goal with Hr : c_reader c = Some _ |- _ => by rewrite Hr in Hacc end.
  - exists max, q. split; [done|].
    match goal with Hr : c_reader c = Some _ |- _ => by rewrite Hr in Hacc end.
  - exists max, q. split; [done|].
    match goal with Hr : c_reader c = Some _ |- _ => rewrite Hr in Hacc end.
    by rewrite <- app_assoc.
Qed.

Lemma conserve_steps c c' : rtc runs_to c c' → conserve_inv c → conserve_inv c'.
Proof. induction 1; eauto using conserve_step. Qed.

Lemma conserve_init chanSize batch : conserve_inv (init_conf chanSize batch).
Proof. by exists chanSize, []. Qed.

(** *** The counters *)

Definition pushed_count (failed : bool) (p : pusher) : Z :=
  match p with
  | Pushed count success => if failed && success then 0 else count
  | Checked _ => 0
  end.

Definition spawned_count (failed : bool) (call : snapshot_call) : Z :=
  if failed && call_success call then 0 else call_count call.

Record counters_inv (c : conf) : Prop := {
  ci_mode : Forall (λ call, call_mode call = "queue") (spawned (c_ws c));
  ci_total : QueueTotalCount (stats (c_ws c)) =
    wrapu64 (Z.of_nat (length (c_accepted c)) + Z.of_nat (length (c_rejected c))
             - sumZ (pushed_count false) (c_pushers c)
             - sumZ (spawned_count false) (spawned (c_ws c)));
  ci_fail : QueueFailTotal (stats (c_ws c)) =
    wrapu64 (Z.of_nat (length (c_rejected c))
             - sumZ (pushed_count true) (c_pushers c)
             - sumZ (spawned_count true) (spawned (c_ws c)))
}.

Lemma counters_init chanSize batch : counters_inv (init_conf chanSize batch).
Proof. by split. Qed.

(** A count that moves from a caller to the call it spawns. *)
Lemma counters_spawn x p s v u :
  wrapu64 u = wrapu64 v → wrapu64 (x - (p - v) - (s + u)) = wrapu64 (x - p - s).
Proof.
  intros Hu. replace (x - (p - v) - (s + u)) with ((x - (p - v) - s) - u) by lia.
  rewrite <- wrapu64_sub_r, Hu, wrapu64_sub_r. f_equal. lia.
Qed.

Lemma wrapu64_idem z : wrapu64 (wrapu64 z) = wrapu64 z.
Proof. apply wrapu64_id, wrapu64_range. Qed.

Lemma spawned_count_queue_call failed count ws success :
  wrapu64 (spawned_count failed (queue_call count ws success)) =
  wrapu64 (pushed_count failed (Pushed count success)).
Proof. unfold spawned_count. simpl. destruct (failed && success); [done|apply wrapu64_idem]. Qed.

Lemma snapshot_stats_queue s call :
  call_mode call = "queue" →
  QueueTotalCount (snapshot_stats s call) =
    wrapu64 (QueueTotalCount s + spawned_count false call) ∧
  (is_uint64 (QueueFailTotal s) →
   QueueFailTotal (snapshot_stats s call) =
    wrapu64 (QueueFailTotal s + spawned_count true call)).
Proof.
  intros Hm. unfold snapshot_stats, spawned_count. rewrite Hm. simpl. split; [done|].
  intros Hr. destruct (call_success call); simpl; [|done].
  by rewrite Z.add_0_r, wrapu64_id.
Qed.

Lemma counters_step c c' : counters_inv c → runs_to c c' → counters_inv c'.
Proof.
  intros [Hm Ht Hf] Hs. inversion Hs; subst; simpl in *.
  - split; simpl; unfold Register; by destruct (newWriter opt).
  - split; simpl; unfold DeRegister; by destruct (writerMap (c_ws c) !! name).
  - split; simpl; rewrite ?sumZ_snoc; simpl; rewrite ?Z.add_0_r; done.
  - split; simpl; rewrite ?sumZ_snoc, ?length_app; simpl; [done| |].
    + rewrite Ht. f_equal. lia.
    + rewrite Hf. f_equal. lia.
  - match goal with Hi : c_pushers c !! i = Some _ |- _ => rename Hi into Hc end.
    split; simpl; rewrite ?(sumZ_insert _ _ _ _ _ Hc), ?length_app; simpl; [done| |].
    + rewrite Ht. f_equal. lia.
    + rewrite Hf. f_equal. lia.
  - match goal with Hi : c_pushers c !! i = Some _ |- _ => rename Hi into Hc end.
    split; simpl; rewrite ?(sumZ_delete _ _ _ _ Hc), ?sumZ_snoc.
    + apply Forall_app; split; [done|]. by apply Forall_singleton.
    + rewrite Ht. symmetry. apply counters_spawn, spawned_count_queue_call.
    + rewrite Hf. symmetry. apply counters_spawn, spawned_count_queue_call.
  - match goal with Hi : spawned (c_ws c) !! i = Some _ |- _ => rename Hi into Hc end.
    pose proof (Forall_lookup_1 _ _ _ _ Hm Hc) as Hmode.
    destruct (snapshot_stats_queue (stats (c_ws c)) call Hmode) as [H1 H2].
    split; simpl; rewrite ?(sumZ_delete _ _ _ _ Hc).
    + by apply Forall_delete.
    + rewrite H1, Ht, wrapu64_add_l. f_equal. lia.
    + rewrite H2, Hf, wrapu64_add_l; [f_equal; lia|]. rewrite Hf. apply wrapu64_range.
  - by split.
  - by split.
  - by split.
  - by split.
Qed.

Lemma counters_steps c c' : rtc runs_to c c' → counters_inv c → counters_inv c'.
Proof. induction 1; eauto using counters_step. Qed.

(** *** No crash while no writer goes away under a running write *)

Definition wf_writer (w : Writer) : Prop :=
  is_Some (writer_Client w) ∧ Nat.even (length (Headers (Opts w))) = true.

(** A step whose registered writers have an even number of header items, and
    that removes no writer while a batch is being written. *)
Definition quiet_step (c c' : conf) : Prop :=
  runs_to c c' ∧
  map_Forall (λ _ w, Nat.even (length (Headers (Opts w))) = true) (writerMap (c_ws c')) ∧
  (c_reader c ≠ None → dom (writerMap (c_ws c)) ⊆ dom (writerMap (c_ws c'))).

Record safe_inv (c : conf) : Prop := {
  safe_batch : 0 ≤ batch (c_ws c);
  safe_queue : ∃ max q, queue (c_ws c) = limited_of max q;
  safe_writers : map_Forall (λ _ w, wf_writer w) (writerMap (c_ws c));
  safe_fans items fans key :
    c_reader c = Some (items, fans) → FanWrite key ∈ fans → key ∈ dom (writerMap (c_ws c))
}.

Lemma safe_no_panic c s : safe_inv c → ¬ writers_step c (Panic s).
Proof.
  intros [Hb (max & q & Hq) Hw Hf] Hs. inversion Hs; subst.
  - match goal with Hp : Limited_PopBackN _ _ = Panic _ |- _ => rewrite Hq in Hp;
      rewrite Limited_PopBackN_of in Hp by done end. done.
  - match goal with Hr : c_reader c = _, Hi : fans !! _ = _ |- _ =>
      pose proof (Hf _ _ _ Hr (list_elem_of_lookup_2 _ _ _ Hi)) as Hk end.
    apply elem_of_dom in Hk as [w Hk]. unfold fan_write in *. rewrite Hk in *. simpl in *.
    destruct (Hw _ _ Hk) as [Hc He]. destruct (Writer_Write_done w items Do Hc He) as [e He']. congruence.
Qed.

Lemma Register_clients ws name opt :
  map_Forall (λ _ w, is_Some (writer_Client w)) (writerMap ws) →
  map_Forall (λ _ w, is_Some (writer_Client w)) (writerMap (Register ws name opt).2).
Proof.
  intros Hw. unfold Register, newWriter. destruct (NewClient _ _) as [cli|e]; simpl; [|done].
  apply map_Forall_insert_2; [by eexists|done].
Qed.

Lemma DeRegister_clients ws name :
  map_Forall (λ _ w, is_Some (writer_Client w)) (writerMap ws) →
  map_Forall (λ _ w, is_Some (writer_Client w)) (writerMap (DeRegister ws name).2).
Proof.
  intros Hw. unfold DeRegister. destruct (writerMap ws !! name); simpl; [|done].
  by apply map_Forall_delete.
Qed.

Lemma runs_batch c c' : runs_to c c' → batch (c_ws c') = batch (c_ws c).
Proof.
  intros Hs. inversion Hs; subst; simpl; try done; unfold Register, DeRegister; by case_match.
Qed.

Lemma runs_batches c c' : rtc runs_to c c' → batch (c_ws c') = batch (c_ws c).
Proof. induction 1 as [|c1 c2 c3 Hs _ IH]; [done|]. by rewrite IH, (runs_batch c1 c2). Qed.

Lemma quiet_batch c c' : rtc quiet_step c c' → batch (c_ws c') = batch (c_ws c).
Proof.
  induction 1 as [|c1 c2 c3 [Hs _] _ IH]; [done|]. by rewrite IH, (runs_batch c1 c2).
Qed.

Lemma safe_step c c' : safe_inv c → quiet_step c c' → safe_inv c'.
Proof.
  intros [Hb (max & q & Hq) Hw Hf] (Hs & He & Hd).
  assert (Hcl : map_Forall (λ _ w, is_Some (writer_Client w)) (writerMap (c_ws c)))
    by (eapply map_Forall_impl; [exact Hw|by intros ? ? [? _]]).
  assert (Hcl' : map_Forall (λ _ w, is_Some (writer_Client w)) (writerMap (c_ws c'))).
  { inversion Hs; subst; simpl; try done; [by apply Register_clients|by apply DeRegister_clients]. }
  assert (Hw' : map_Forall (λ _ w, wf_writer w) (writerMap (c_ws c')))
    by (intros k w Hk; split; [by eapply Hcl'|by eapply He]).
  pose proof (runs_batch c c' Hs) as Hb'.
  assert (Hq' : ∃ max q, queue (c_ws c') = limited_of max q).
  { inversion Hs; subst; simpl; eauto; try (unfold Register, DeRegister; case_match; by eauto).
    - rewrite Hq. simpl. rewrite PushFrontN_of_queue. by eexists _, _.
    - match goal with Hp : Limited_PopBackN _ _ = _ |- _ => rewrite Hq in Hp;
        apply Limited_PopBackN_inv in Hp as (q1 & -> & _) end. by eexists _, _. }
  split; [by rewrite Hb'|done|done|].
  intros items fans key Hr Hin. inversion Hs; subst; simpl in *.
  - by eapply Hd, Hf; [congruence|..].
  - by eapply Hd, Hf; [congruence|..].
  - by eapply Hf.
  - by eapply Hf.
  - by eapply Hf.
  - by eapply Hf.
  - by eapply Hf.
  - destruct items0; simplify_eq/=.
    apply list_elem_of_fmap in Hin as (k & [= ->] & Hk).
    apply list_elem_of_fmap in Hk as ([k' w] & -> & Hkw).
    apply elem_of_range_list in Hkw. by apply elem_of_dom_2 in Hkw.
  - simplify_eq/=. apply list_elem_of_lookup in Hin as [j Hj].
    apply list_lookup_insert_Some in Hj as [(_ & ? & _)|[_ Hj]]; [done|].
    eapply Hf; [done|]. by eapply list_elem_of_lookup_2.
  - simplify_eq/=. eapply Hf; [done|]. by eapply list_elem_of_delete_inv.
  - done.
Qed.

Lemma safe_steps c c' : rtc quiet_step c c' → safe_inv c → safe_inv c'.
Proof. induction 1; eauto using safe_step. Qed.

Lemma safe_init chanSize batch : 0 ≤ batch → safe_inv (init_conf chanSize batch).
Proof.
  intros Hb. split; simpl; [done|by exists chanSize, []| |done]. intros k w Hk.
  by rewrite lookup_empty in Hk.
Qed.

(** *** Draining *)

Lemma finish_reader c items fans :
  safe_inv c → c_reader c = Some (items, fans) →
  ∃ c', rtc runs_to c c' ∧ safe_inv c' ∧ c_reader c' = None ∧
        queue (c_ws c') = queue (c_ws c) ∧ batch (c_ws c') = batch (c_ws c) ∧
        c_accepted c' = c_accepted c ∧ c_sent c' = c_sent c ++ items.
Proof.
  revert c. induction fans as [|fan fans IH]; intros c Hsafe Hr.
  - assert (Hs : runs_to c (mkWConf (c_ws c) (c_pushers c) None
      (c_accepted c) (c_rejected c) (c_sent c ++ items))) by by apply step_Wait.
    eexists. split; [by apply rtc_once|]. split_and!; try done.
    destruct Hsafe as [Hb Hq Hw Hf]. by split.
  - assert (Hcount : ∀ c1 success, safe_inv c1 → c_reader c1 = Some (items, FanCount success :: fans) →
      ∃ c2, runs_to c1 c2 ∧ safe_inv c2 ∧ c_reader c2 = Some (items, fans) ∧
        queue (c_ws c2) = queue (c_ws c1) ∧ batch (c_ws c2) = batch (c_ws c1) ∧
        c_accepted c2 = c_accepted c1 ∧ c_sent c2 = c_sent c1).
    { intros c1 success Hs1 Hr1. eexists. split; [by apply (step_count c1 items _ 0 success Hr1)|].
      split_and!; try done. destruct Hs1 as [Hb Hq Hw Hf]. split; try done; simpl.
      intros ? ? key [= <- <-] Hin. eapply Hf; [done|]. by right. }
    destruct fan as [key|success].
    + assert (Hin : FanWrite key ∈ FanWrite key :: fans) by left.
      pose proof (safe_fans c Hsafe items _ key Hr Hin) as Hkey.
      apply elem_of_dom in Hkey as [w Hk].
      destruct (safe_writers c Hsafe _ _ Hk) as [Hc He].
      destruct (Writer_Write_done w items (λ _ _, Err (Errorf "unreachable")) Hc He) as [err Hd].
      assert (Hs1 : runs_to c (with_reader c
        (Some (items, FanCount (bool_decide (err = None)) :: fans)))).
      { by eapply (step_write c items _ 0 key _ err Hr eq_refl); unfold fan_write; rewrite Hk. }
      destruct (Hcount (with_reader c (Some (items, FanCount (bool_decide (err = None)) :: fans)))
                  (bool_decide (err = None))) as (c2 & ? & Hs2 & Hr2 & H2); [|done|].
      { destruct Hsafe as [Hb Hq Hw Hf]. split; try done; simpl.
        intros ? ? key' [= <- <-] [?|Hin']%elem_of_cons; [done|]. eapply Hf; [done|]. by right. }
      destruct (IH c2 Hs2 Hr2) as (c' & ? & ? & ? & H'). destruct H2 as (?&?&?&?), H' as (?&?&?&?).
      exists c'. split_and!; simpl in *; try done; try congruence.
      eapply rtc_l; [done|]. by eapply rtc_l.
    + destruct (Hcount c success Hsafe Hr) as (c2 & ? & Hs2 & Hr2 & ? & ? & ? & ?).
      destruct (IH c2 Hs2 Hr2) as (c' & ? & ? & ? & ? & ? & ? & ?).
      exists c'. split_and!; try done; try congruence. by eapply rtc_l.
Qed.

Lemma pop_step c max q :
  safe_inv c → c_reader c = None → queue (c_ws c) = limited_of max q →
  q ≠ [] → 0 < batch (c_ws c) →
  ∃ c' fans, runs_to c c' ∧ safe_inv c' ∧ batch (c_ws c') = batch (c_ws c) ∧
    c_accepted c' = c_accepted c ∧
    c_reader c' = Some (take (Z.to_nat (batch (c_ws c))) q, fans) ∧
    queue (c_ws c') = limited_of max (drop (Z.to_nat (batch (c_ws c))) q).
Proof.
  intros Hsafe Hr Hq Hne Hb.
  destruct (Limited_PopBackN (queue (c_ws c)) (batch (c_ws c))) as [[items q']|] eqn:Hp;
    [|by rewrite Hq, Limited_PopBackN_of in Hp by lia].
  pose proof (step_PopBackN c 0 items q' Hr Hp) as Hs.
  rewrite Hq, Limited_PopBackN_of in Hp by lia. injection Hp as <- <-.
  destruct q as [|ts q]; [done|]. destruct (Z.to_nat (batch (c_ws c))) as [|n] eqn:Hn; [lia|].
  eexists _, _. split; [exact Hs|]. split; [|done].
  eapply safe_step; [exact Hsafe|]. split; [exact Hs|]. split.
  - intros k w Hk. by apply (safe_writers c Hsafe k w Hk).
  - by rewrite Hr.
Qed.

Lemma drain_queue n c max q :
  safe_inv c → c_reader c = None → queue (c_ws c) = limited_of max q → (length q ≤ n)%nat →
  0 < batch (c_ws c) →
  ∃ c', rtc runs_to c c' ∧ c_reader c' = None ∧ queue (c_ws c') = limited_of max [] ∧
        c_accepted c' = c_accepted c.
Proof.
  revert c q. induction n as [|n IH]; intros c q Hsafe Hr Hq Hlen Hb.
  { apply Nat.le_0_r, nil_length_inv in Hlen as ->. by exists c. }
  destruct (decide (q = [])) as [->|Hne]; [by exists c|].
  destruct (pop_step c max q Hsafe Hr Hq Hne Hb) as (c1 & fans & Hs & Hsafe1 & Hb1 & Ha1 & Hr1 & Hq1).
  destruct (finish_reader c1 _ _ Hsafe1 Hr1) as (c2 & Hs2 & Hsafe2 & Hr2 & Hq2 & Hb2 & Ha2 & _).
  destruct (IH c2 (drop (Z.to_nat (batch (c_ws c))) q)) as (c' & Hs' & ? & ? & Ha').
  { done. } { done. } { by rewrite Hq2. }
  { rewrite length_drop. destruct q; simpl in *; lia. } { by rewrite Hb2, Hb1. }
  exists c'. split_and!; try done; [|congruence].
  eapply rtc_l; [done|]. by etrans.
Qed.

(** *** The request *)

Fixpoint header_pairs (headers : list string) : list (string * string) :=
  match headers with
  | k :: v :: rest => (k, v) :: header_pairs rest
  | _ => []
  end.

(** The values the option's header items give to the canonical key [k], in order. *)
Definition values_of (k : string) (headers : list string) : list string :=
  (filter (λ kv, CanonicalHeaderKey kv.1 = k) (header_pairs headers)).*2.

(** The last item whose key is exactly Host. *)
Definition host_of (host : string) (headers : list string) : string :=
  foldl (λ h kv, if decide (kv.1 = "Host") then kv.2 else h) host (header_pairs headers).

Lemma add_headers_spec headers r :
  Nat.even (length headers) = true →
  ∃ r', add_headers headers r = Done r' ∧
    req_Method r' = req_Method r ∧ req_URL r' = req_URL r ∧ req_Body r' = req_Body r ∧
    req_Host r' = host_of (req_Host r) headers ∧
    ∀ k, default [] (req_Header r' !! k) = default [] (req_Header r !! k) ++ values_of k headers.
Proof.
  revert r. induction headers as [| k | k v rest IH] using list_pair_ind; intros r He.
  - exists r. split_and!; try done. intros k. by rewrite app_nil_r.
  - done.
  - destruct (IH (mkRequest (req_Method r) (req_URL r)
         (if decide (k = "Host") then v else req_Host r)
         (Header_Add (req_Header r) k v) (req_Body r)) He) as (r' & Ha & ? & ? & ? & Hh & Hv).
    exists r'. split_and!; try done. intros k'. rewrite Hv. simpl.
    unfold values_of, Header_Add. cbn [header_pairs]. destruct (decide (CanonicalHeaderKey k = k')) as [<-|Hne].
    + rewrite lookup_insert_eq, filter_cons_True by done. simpl. by rewrite <- app_assoc.
    + by rewrite lookup_insert_ne, filter_cons_False.
Qed.

Definition status_error (resp : result (Z * string)) : option error :=
  match resp with
  | Err e => Some e
  | Ok (status, body) =>
    if 400 <=? status
    then Some (Errorf ("push data with remote write request got status code: "
                 +:+ Itoa status +:+ ", response body: " +:+ body))
    else None
  end.

Lemma Writer_Write_eq w items Do err :
  Writer_Write w items Do = Done err →
  err = match items, Marshal items with
        | _ :: _, Err e => Some e
        | _, _ => None
        end.
Proof.
  unfold Writer_Write. destruct items as [|item items]; [by intros [= <-]|].
  destruct (Marshal (item :: items)) as [data|e]; [|by intros [= <-]].
  destruct (post w (Encode data) Do); simpl; [|done]. by intros [= <-].
Qed.

Lemma delete_last {A} (l : list A) x : delete (length l) (l ++ [x]) = l.
Proof. induction l as [|y l IH]; simpl; [done|]. by rewrite IH. Qed.

Lemma WriteSamples_nonempty n ws samples :
  samples ≠ [] →
  WriteSamples n ws samples =
    items ← convert_samples n samples;
    let '(success, q) := Limited_PushFrontN (queue ws) items in
    Done (set_spawned (set_queue ws q)
      (spawned ws ++ [queue_call (Z.of_nat (length items)) (set_queue ws q) success])).
Proof. by destruct samples. Qed.

Lemma WriteSamples_runs c n samples ws' :
  WriteSamples n (c_ws c) samples = Done ws' →
  ∃ items accepted rejected, convert_samples n samples = Done items ∧
    rtc runs_to c (mkWConf ws' (c_pushers c) (c_reader c)
      (c_accepted c ++ accepted) (c_rejected c ++ rejected) (c_sent c)) ∧
    (accepted = items ∧ rejected = [] ∨ accepted = [] ∧ rejected = items).
Proof.
  destruct c as [ws ps rd acc rej sent]. simpl.
  destruct (decide (samples = [])) as [->|Hne]; simpl.
  { intros [= <-]. exists [], [], []. rewrite !app_nil_r. split_and!; [done|apply rtc_refl|by left]. }
  rewrite WriteSamples_nonempty by done.
  destruct (convert_samples n samples) as [items|] eqn:Hcv; simpl; [|done].
  set (sl := queue ws). unfold Limited_PushFrontN.
  destruct (Z.leb_spec (maxSize sl) (Len (SL sl))) as [Hfull|Hroom]; intros [= <-].
  - exists items, [], items. split_and!; [done| |by right]. rewrite app_nil_r.
    eapply rtc_l; [by apply (step_refuse _ n samples items)|]. simpl.
    eapply rtc_l; [apply (step_spawn _ (length ps)); simpl; by apply list_lookup_middle|].
    simpl. rewrite delete_last. destruct ws; apply rtc_refl.
  - exists items, items, []. split_and!; [done| |by left]. rewrite app_nil_r.
    eapply rtc_l; [by apply (step_room _ n samples items)|]. simpl.
    eapply rtc_l; [apply (step_PushFrontN _ (length ps) items); simpl; by apply list_lookup_middle|].
    simpl. rewrite insert_app_r_alt by done. rewrite Nat.sub_diag. simpl.
    eapply rtc_l; [apply (step_spawn _ (length ps)); simpl; by apply list_lookup_middle|].
    simpl. rewrite delete_last. apply rtc_refl.
Qed.

(** Nothing leaves the queue by a batch that is not positive. *)
Lemma Limited_PopBackN_none {A} max (q : list A) n items q' :
  n ≤ 0 → Limited_PopBackN (limited_of max q) n = Done (items, q') → items = [].
Proof.
  intros Hn. unfold Limited_PopBackN, limited_of. simpl. rewrite PopBackN_of_queue. unfold queue_pop_n.
  case_decide; simpl; [by intros [= <- _]|]. destruct (Z.ltb_spec n 0); simpl; [done|].
  replace n with 0 by lia. by intros [= <- _].
Qed.

Lemma Limited_PopBackN_panics {A} max (q : list A) n :
  n < 0 → q ≠ [] → is_panic (Limited_PopBackN (limited_of max q) n).
Proof.
  intros Hn Hq. unfold Limited_PopBackN, limited_of. simpl. rewrite PopBackN_of_queue. unfold queue_pop_n.
  rewrite decide_False by done. destruct (Z.ltb_spec n 0); [by eexists|lia].
Qed.

Definition stuck_inv (c : conf) : Prop :=
  batch (c_ws c) ≤ 0 ∧ c_reader c = None ∧ c_sent c = [].

Lemma stuck_step c c' : conserve_inv c → stuck_inv c → runs_to c c' → stuck_inv c'.
Proof.
  intros (max & q & Hq & _) (Hb & Hr & Hsent) Hs. inversion Hs; subst; unfold stuck_inv; simpl in *; try done.
  - unfold Register. by destruct (newWriter opt).
  - unfold DeRegister. by destruct (writerMap (c_ws c) !! name).
  - match goal with Hp : Limited_PopBackN _ _ = _ |- _ => rewrite Hq in Hp;
      apply Limited_PopBackN_none in Hp as ->; [done|done] end.
  - by rewrite Hr in *.
  - by rewrite Hr in *.
  - by rewrite Hr in *.
Qed.

Lemma stuck_steps c c' : rtc runs_to c c' → conserve_inv c → stuck_inv c → stuck_inv c'.
Proof. induction 1; eauto using stuck_step, conserve_step. Qed.
End lemmas.

(** ** A small run, for the witnesses *)

#[local] Instance demo_api : HttpApi := {|
  Client := string;
  NewClient address transport := Ok address;
  Marshal items := Ok "data";
  Encode s := s
|}.

#[local] Instance demo_order : RangeOrder := canonical_order.

Definition demo_opt : WriterOption :=
  mkWriterOption "http://h" "u" "p" ["Host"; "vm"; "user-agent"; "x"] 1 1 1.

Definition demo_sample : Sample := mkSample "m" zeroTime (VInt 1) ∅.

Definition demo_series : TimeSeries :=
  mkTimeSeries [mkLabel "__name__" "m"] [mkPbSample 0 f_one].

Definition demo_writer : Writer := mkWriter demo_opt (Some "http://h").

(** The manager after one push and one sample written and taken by the read loop. *)
Definition demo_writers : Writers :=
  mkWriters {["a" := demo_writer]} (limited_of 10 []) 5 10
    (mkSnapshot 0 0 1 1 0 0) [].

Definition demo_busy : conf :=
  mkWConf demo_writers [] (Some ([demo_series], [FanWrite "a"])) [demo_series] [] [].

Definition demo_at (q : list TimeSeries) (total : Z) (calls : list snapshot_call)
    (ps : list pusher) (accepted : list TimeSeries) : conf :=
  mkWConf (mkWriters {["a" := demo_writer]} (limited_of 10 q) 5 10
             (mkSnapshot 0 0 total total 0 0) calls)
    ps None accepted [] [].

Lemma demo_quiet c c' :
  c_reader c = None → writerMap (c_ws c') = {["a" := demo_writer]} →
  writers_step c (Done c') → quiet_step c c'.
Proof.
  intros Hr Hw Hs. split; [done|]. split; [|by rewrite Hr].
  rewrite Hw. by apply map_Forall_singleton.
Qed.

Lemma demo_run : rtc quiet_step (init_conf 10 5) demo_busy.
Proof.
  apply (rtc_l _ _ (demo_at [] 0 [] [] [])).
  { apply demo_quiet; [done..|]. exact (step_Register (init_conf 10 5) "a" demo_opt). }
  apply (rtc_l _ _ (demo_at [] 0 [] [Checked [demo_series]] [])).
  { apply demo_quiet; [done..|].
    apply (step_room (demo_at [] 0 [] [] []) 0 [Some demo_sample] [demo_series]);
      [done|by vm_compute|by vm_compute]. }
  apply (rtc_l _ _ (demo_at [demo_series] 0 [] [Pushed 1 true] [demo_series])).
  { apply demo_quiet; [done..|].
    exact (step_PushFrontN (demo_at [] 0 [] [Checked [demo_series]] []) 0 [demo_series] eq_refl). }
  apply (rtc_l _ _ (demo_at [demo_series] 0 [mkCall 1 1 true "queue"] [] [demo_series])).
  { apply demo_quiet; [done..|].
    exact (step_spawn (demo_at [demo_series] 0 [] [Pushed 1 true] [demo_series]) 0 1 true eq_refl). }
  apply (rtc_l _ _ (demo_at [demo_series] 1 [] [] [demo_series])).
  { apply demo_quiet; [done..|].
    exact (step_snapshot (demo_at [demo_series] 0 [mkCall 1 1 true "queue"] [] [demo_series]) 0
             (mkCall 1 1 true "queue") eq_refl). }
  apply rtc_once, demo_quiet; [done..|].
  exact (step_PopBackN (demo_at [demo_series] 1 [] [] [demo_series]) 0 [demo_series]
           (limited_of 10 []) eq_refl eq_refl).
Qed.

Lemma demo_runs : rtc runs_to (init_conf 10 5) demo_busy.
Proof. eapply rtc_subrel; [|exact demo_run]. by intros ? ? [? _]. Qed.

(** ** Properties *)

(** C1: no time series is lost, duplicated or reordered inside the manager.
    However the monitors' writes, the spawned counters, the registrations, the
    read loop and its writing goroutines interleave, the series accepted so far
    are, in order, those handed to the writers, the batch being written, and
    the queue. *)
Theorem writers_conserve `{RangeOrder} `{HttpApi} chanSize batch c :
  rtc runs_to (init_conf chanSize batch) c →
  ∃ q, SL (queue (c_ws c)) = of_queue q ∧ c_accepted c = c_sent c ++ in_reader c ++ q.
Proof.
  intros Hs. destruct (conserve_steps _ _ Hs (conserve_init _ _)) as (max & q & Hq & Ha).
  exists q. by rewrite Hq.
Qed.

Lemma writers_conserve_witness :
  rtc runs_to (init_conf 10 5) demo_busy ∧
  ∃ q, SL (queue (c_ws demo_busy)) = of_queue q ∧ [demo_series] = [] ++ [demo_series] ++ q.
Proof.
  split; [exact demo_runs|]. exact (writers_conserve 10 5 demo_busy demo_runs).
Defined.

(** C27: the queue counters are exact. Whatever the order in which the
    spawned snapshot calls run, once no call to WriteSamples and no snapshot is
    pending, metrics_enqueue_sum is the number of series offered and
    metrics_enqueue_failed_sum the number refused (modulo 2^64). *)
Theorem writers_counters `{RangeOrder} `{HttpApi} chanSize batch c :
  rtc runs_to (init_conf chanSize batch) c → c_pushers c = [] → spawned (c_ws c) = [] →
  QueueTotalCount (QueueMetrics (c_ws c)) =
    wrapu64 (Z.of_nat (length (c_accepted c)) + Z.of_nat (length (c_rejected c))) ∧
  QueueFailTotal (QueueMetrics (c_ws c)) = wrapu64 (Z.of_nat (length (c_rejected c))).
Proof.
  intros Hs Hp Hg. destruct (counters_steps _ _ Hs (counters_init _ _)) as [_ Ht Hf].
  unfold QueueMetrics. rewrite Ht, Hf, Hp, Hg. simpl. by rewrite !Z.sub_0_r.
Qed.

Lemma writers_counters_witness :
  rtc runs_to (init_conf 10 5) demo_busy ∧ c_pushers demo_busy = [] ∧
  QueueTotalCount (QueueMetrics (c_ws demo_busy)) = wrapu64 1.
Proof.
  split; [exact demo_runs|]. split; [done|].
  exact (proj1 (writers_counters 10 5 demo_busy demo_runs eq_refl eq_refl)).
Defined.



(** Removing a writer between the start of a batch and the write of that
    writer's goroutine, which reads the map again without the lock, crashes the
    process: the goroutine finds the zero writer, whose client is nil. *)
Theorem DeRegister_race `{RangeOrder} `{HttpApi} c items fans key w data :
  c_reader c = Some (items, fans) → FanWrite key ∈ fans → items ≠ [] →
  writerMap (c_ws c) !! key = Some w → Marshal items = Ok data →
  ∃ c' s, runs_to c c' ∧ writers_step c' (Panic s).
Proof.
  intros Hr Hin Hne Hw Hm. exists (with_ws c (DeRegister (c_ws c) key).2), "nil pointer dereference".
  split; [apply step_DeRegister|]. apply list_elem_of_lookup in Hin as [i Hi].
  eapply (step_write_panic _ items fans i key (λ _ _, Ok (200, ""))); [done|done|].
  unfold DeRegister. simpl. rewrite Hw. unfold fan_write. simpl. rewrite lookup_delete_eq. simpl.
  unfold Writer_Write. destruct items; [done|]. rewrite Hm.
  unfold post, NewRequest. simpl (Url _).
  assert (url_host "" = Some "") as -> by by vm_compute. done.
Qed.

Lemma DeRegister_race_witness :
  rtc quiet_step (init_conf 10 5) demo_busy ∧
  ∃ c' s, runs_to demo_busy c' ∧ writers_step c' (Panic s).
Proof.
  split; [exact demo_run|].
  apply (DeRegister_race demo_busy [demo_series] [FanWrite "a"] "a"
           demo_writer "data"); try done. by left.
Defined.



(** The request a writer posts and its verdict. With an odd number of
    header items it crashes; otherwise it is a POST of the payload to the
    option's URL with the fixed headers followed by the option's values of each
    header, the last Host item as its host, and the credentials as the only
    Authorization when a user is set; the result is an error exactly when the
    client fails or the status is 400 or more. *)
Theorem post_spec `{HttpApi} w cli req host :
  writer_Client w = Some cli → url_host (Url (Opts w)) = Some host →
  if Nat.even (length (Headers (Opts w))) then
    ∃ r, (∀ Do, post w req Do = Done (status_error (Do cli r))) ∧
      req_Method r = "POST" ∧ req_URL r = Url (Opts w) ∧ req_Body r = req ∧
      req_Host r = host_of host (Headers (Opts w)) ∧
      (∀ k, k ≠ "Authorization" ∨ BasicAuthUser (Opts w) = "" →
         default [] (req_Header r !! k) =
         default [] (fixed_headers !! k) ++ values_of k (Headers (Opts w))) ∧
      (BasicAuthUser (Opts w) ≠ "" → req_Header r !! "Authorization" =
         Some ["Basic " +:+ of_bytes (base64_encode
                 (bytes_of (BasicAuthUser (Opts w) +:+ ":" +:+ BasicAuthPass (Opts w))))])
  else ∀ Do, is_panic (post w req Do).
Proof.
  intros Hc Hu. destruct (Nat.even (length (Headers (Opts w)))) eqn:He.
  - destruct (add_headers_spec (Headers (Opts w)) (mkRequest "POST" (Url (Opts w)) host
      fixed_headers req) He) as (r & Hr & Hm & Hurl & Hb & Hh & Hv).
    exists (if decide (BasicAuthUser (Opts w) ≠ "")
            then SetBasicAuth r (BasicAuthUser (Opts w)) (BasicAuthPass (Opts w)) else r).
    split.
    { intros Do. unfold post, NewRequest. rewrite Hu. simpl. rewrite Hr. simpl. rewrite Hc.
      unfold status_error. destruct (Do cli _) as [[status body]|]; [|done]. by destruct (400 <=? status). }
    case_decide as Hauth; simpl; (split_and!; [done..| |]).
    + intros k [Hk|?]; [|done]. unfold Header_Set.
      rewrite lookup_insert_ne; [apply Hv|]. intros <-. by apply Hk.
    + intros _. unfold Header_Set.
      change (CanonicalHeaderKey "Authorization") with "Authorization". apply lookup_insert_eq.
    + intros k _. apply Hv.
    + done.
  - intros Do. unfold post, NewRequest. rewrite Hu. simpl.
    destruct (add_headers _ _) as [r|s] eqn:Ha; [|by exists s].
    assert (is_done (add_headers (Headers (Opts w))
      (mkRequest "POST" (Url (Opts w)) host fixed_headers req))) as Hd by (by rewrite Ha; eexists).
    apply add_headers_done in Hd. congruence.
Qed.

Lemma post_spec_witness :
  ∃ r, (∀ Do, post demo_writer "body" Do =
              Done (status_error (Do "http://h" r))) ∧
    req_Host r = "vm" ∧ default [] (req_Header r !! "User-Agent") = ["categraf"; "x"] ∧
    req_Header r !! "Authorization" = Some ["Basic dTpw"].
Proof.
  destruct (post_spec demo_writer "http://h" "body" "h"
              eq_refl eq_refl) as (r & Hp & _ & _ & _ & Hh & Hv & Ha).
  exists r. split; [exact Hp|]. split; [rewrite Hh; vm_compute; reflexivity|].
  split; [rewrite Hv by (left; discriminate); vm_compute; reflexivity|].
  rewrite Ha by discriminate. vm_compute. reflexivity.
Defined.

(** A write's error never tells of the network: Write fails exactly when
    a batch that is not empty cannot be marshalled, whatever the remote answers,
    so write_fail_total does not count failed pushes. *)
Theorem Write_swallows `{HttpApi} w items Do err :
  Writer_Write w items Do = Done err →
  err = match items, Marshal items with
        | _ :: _, Err e => Some e
        | _, _ => None
        end.
Proof. apply Writer_Write_eq. Qed.

(** A whole call of WriteSamples is a run of the interleaved steps: the
    samples that convert are accepted all together or rejected all together,
    and one snapshot call is spawned. *)
Theorem WriteSamples_steps `{RangeOrder} `{HttpApi} c n samples ws' :
  WriteSamples n (c_ws c) samples = Done ws' →
  ∃ items accepted rejected, convert_samples n samples = Done items ∧
    rtc runs_to c (mkWConf ws' (c_pushers c) (c_reader c)
      (c_accepted c ++ accepted) (c_rejected c ++ rejected) (c_sent c)) ∧
    (accepted = items ∧ rejected = [] ∨ accepted = [] ∧ rejected = items).
Proof. apply WriteSamples_runs. Qed.

Lemma WriteSamples_steps_witness :
  ∃ items accepted rejected, convert_samples 0 [Some demo_sample] = Done items ∧
    rtc runs_to (demo_at [] 0 [] [] []) (mkWConf
      (mkWriters {["a" := demo_writer]} (limited_of 10 [demo_series]) 5 10
         (mkSnapshot 0 0 0 0 0 0) [mkCall 1 1 true "queue"]) [] None ([] ++ accepted) ([] ++ rejected) []) ∧
    (accepted = items ∧ rejected = [] ∨ accepted = [] ∧ rejected = items).
Proof.
  apply (WriteSamples_steps (demo_at [] 0 [] [] []) 0 [Some demo_sample]).
  vm_compute. reflexivity.
Defined.

(** With a batch size of zero, which the flag allows, nothing is ever
    sent. *)
Theorem batch_zero_sends_nothing `{RangeOrder} `{HttpApi} chanSize c :
  rtc runs_to (init_conf chanSize 0) c → c_sent c = [].
Proof. intros Hs. by apply (stuck_steps _ _ Hs (conserve_init _ _)). Qed.

(** With a batch size that is negative, which the flag accepts as well, the read loop
    crashes the process as soon as there is anything in the queue. *)
Theorem negative_batch_crashes `{RangeOrder} `{HttpApi} chanSize batch c :
  batch < 0 → rtc runs_to (init_conf chanSize batch) c → Limited_Len (queue (c_ws c)) ≠ 0 →
  ∃ msg, writers_step c (Panic msg).
Proof.
  intros Hb Hs Hlen. pose proof (conserve_steps _ _ Hs (conserve_init _ _)) as (max & q & Hq & _).
  destruct (stuck_steps _ _ Hs (conserve_init _ _)) as (_ & Hr & _); [by split; simpl; [lia|]|].
  destruct (Limited_PopBackN_panics max q (Writer.batch (c_ws c))) as [msg Hp].
  - by rewrite (runs_batches _ _ Hs).
  - intros ->. by rewrite Hq, Limited_Len_of in Hlen.
  - exists msg. apply step_PopBackN_panic; [done|by rewrite Hq].
Qed.
