(* ===== verification/Controller.v ===== *)
(** * The controllers

    internal/controller: the reconcilers of the two custom resources and the
    loop body of a monitor, over the interfaces of the parts they use (the
    worker, the writers manager, the handlers) and the API server's client.

    - [WritersManager] / [WritersManagerLaws]: what the controllers use of the
      writers manager; [writers_manager] and [writers_manager_laws] are the
      implementation of [Writer];
    - [monitor_Reconcile], [monitor_collect], [forward], [UpdateStatus],
      [task_body]: monitor_controller.go and monitor_worker.go;
    - [push_Reconcile]: prometheuspush_controller.go;
    - [ctrl_step]: reconciles and the ticks of the running loops, one at a time
      (ticks of different loops may overlap in the program; what they share, the
      sample lists and the writers, is interleaved in [SafeLists] and
      [Writer]). *)
From S2P Require Import Prelude GoText GoNum SafeLists Conv Labels Samples Process Input Worker Writer.

(** ** The resources *)

Record Model := mkModel { model_Name : string; model_Config : ConfigMap }.

Record MonitorSpec := mkMonitorSpec {
  spec_Model : Model;
  spec_Period : Z;
  spec_Labels : option (gmap string string)
}.

Record MonitorStatus := mkMonitorStatus { LastPush : time }.

Record Monitor := mkMonitor {
  monitor_Namespace : string;
  monitor_Name : string;
  monitor_Spec : MonitorSpec;
  monitor_Status : MonitorStatus
}.

(** [PrometheusPushSpec] has the fields of [WriterOption], which the
    reconciler copies one by one. *)
Record PrometheusPushSpec := mkPushSpec {
  push_Url : string;
  push_BasicAuthUser : string;
  push_BasicAuthPass : string;
  push_Headers : list string;
  push_Timeout : Z;
  push_DialTimeout : Z;
  push_MaxIdleConnsPerHost : Z
}.

(** ** The API server *)

(** The kinds of API error the code tells apart. *)
Inductive api_error := ApiNotFound | ApiConflict | ApiError (e : error).

#[export] Instance api_error_eq_dec : EqDecision api_error.
Proof. solve_decision. Defined.

Definition IsNotFound (e : api_error) : bool :=
  match e with ApiNotFound => true | _ => false end.
Definition IsConflict (e : api_error) : bool :=
  match e with ApiConflict => true | _ => false end.

(** [client.Client], of which the loops use [Get] and [Status().Update]; the
    key is a namespace and a name. *)
Class StatusClient (C : Type) := {
  client_Get : C → string * string → (api_error + Monitor) * C;
  client_StatusUpdate : C → Monitor → option api_error * C
}.

(** client-go's [retry.OnError]: at most [steps] attempts, and only after an
    error that may be retried. *)
Fixpoint OnError {C} (steps : nat) (lastErr : option api_error) (retriable : api_error → bool)
    (fn : C → option api_error * C) (c : C) : option api_error * C :=
  match steps with
  | O => (lastErr, c)
  | S steps' =>
    let '(err, c') := fn c in
    match err with
    | None => (None, c')
    | Some e => if retriable e then OnError steps' (Some e) retriable fn c' else (Some e, c')
    end
  end.

(** [retry.DefaultBackoff.Steps]. *)
Definition DefaultBackoff_Steps : nat := 4.

Section status.
Context `{StatusClient C}.

Definition with_status (monitor : Monitor) (pushTime : time) : Monitor :=
  mkMonitor (monitor_Namespace monitor) (monitor_Name monitor) (monitor_Spec monitor)
    (mkMonitorStatus pushTime).

(** One attempt of [UpdateStatus]: fetch, then update the fetched object. *)
Definition update_attempt (m : Monitor) (pushTime : time) (c : C) : option api_error * C :=
  let '(got, c') := client_Get c (monitor_Namespace m, monitor_Name m) in
  match got with
  | inl err => (Some err, c')
  | inr monitor => client_StatusUpdate c' (with_status monitor pushTime)
  end.

Definition UpdateStatus (m : Monitor) (pushTime : time) (c : C) : option api_error * C :=
  OnError DefaultBackoff_Steps None IsConflict (update_attempt m pushTime) c.
End status.

(** ** The writers manager as the controllers see it *)

Class WritersManager (Wm : Type) := {
  wm_Register : Wm → string → WriterOption → option error * Wm;
  wm_DeRegister : Wm → string → option error * Wm;
  wm_WriteSamples : nat → Wm → list (option Sample) → outcome Wm;
  wm_QueueMetrics : Wm → Snapshot
}.

(** A manager has a set of names; only registration and removal change it, an
    unknown name cannot be removed, and writing crashes on a nil sample only. *)
Class WritersManagerLaws (Wm : Type) `{WritersManager Wm} := {
  wm_names : Wm → gset string;
  wm_Register_names s name opt :
    wm_names (wm_Register s name opt).2 =
      match (wm_Register s name opt).1 with None => {[name]} ∪ wm_names s | Some _ => wm_names s end;
  wm_DeRegister_names s name :
    wm_DeRegister s name = if decide (name ∈ wm_names s)
      then (None, (wm_DeRegister s name).2)
      else (Some (Errorf (name +:+ " not register wirters")), s);
  wm_DeRegister_removes s name : wm_names (wm_DeRegister s name).2 = wm_names s ∖ {[name]};
  wm_WriteSamples_done n s samples :
    None ∉ samples → ∃ s', wm_WriteSamples n s samples = Done s' ∧ wm_names s' = wm_names s
}.

#[export] Instance writers_manager `{RangeOrder} `{HttpApi} : WritersManager Writers := {|
  wm_Register := Register;
  wm_DeRegister := DeRegister;
  wm_WriteSamples := WriteSamples;
  wm_QueueMetrics := QueueMetrics
|}.

#[export] Instance writers_manager_laws `{RangeOrder} `{HttpApi} : WritersManagerLaws Writers.
Proof.
  refine {| wm_names := λ ws, dom (writerMap ws) |}; simpl.
  - intros s name opt. unfold Register. destruct (newWriter opt); simpl; [apply dom_insert_L|done].
  - intros s name. unfold DeRegister. destruct (writerMap s !! name) as [w|] eqn:Hn.
    + rewrite decide_True; [done|]. by apply elem_of_dom_2 in Hn.
    + rewrite decide_False; [done|]. by apply not_elem_of_dom.
  - intros s name. unfold DeRegister. destruct (writerMap s !! name) as [w|] eqn:Hn; simpl.
    + apply dom_delete_L.
    + apply not_elem_of_dom in Hn. set_solver.
  - intros n s samples Hs. destruct (decide (samples = [])) as [->|Hne]; [by exists s|].
    rewrite WriteSamples_nonempty by done.
    destruct (convert_samples n samples) as [items|msg] eqn:Hc; simpl.
    + unfold Limited_PushFrontN. by case_match; eexists.
    + destruct Hs. apply (convert_samples_panic n). rewrite Hc. by eexists.
Defined.

(** ** The Monitor controller *)

(** The function a loop runs is the closure over the monitor it was made for. *)
Record monitorTask := mkTask { task_monitor : Monitor }.

Record monitorReconciler (Wk Wm Hd : Type) := mkReconciler {
  rec_worker : Wk;
  rec_wm : Wm;
  rec_factory : SharedHandlerFactory Hd
}.
Arguments mkReconciler {Wk Wm Hd}.
Arguments rec_worker {Wk Wm Hd}.
Arguments rec_wm {Wk Wm Hd}.
Arguments rec_factory {Wk Wm Hd}.

Section controller.
Context `{RangeOrder} `{Worker Wk monitorTask} `{WritersManager Wm} `{HandlerFactory Hd W}.
Implicit Types (r : monitorReconciler Wk Wm Hd).

Definition set_worker r (w : Wk) := mkReconciler w (rec_wm r) (rec_factory r).
Definition set_wm r (s : Wm) := mkReconciler (rec_worker r) s (rec_factory r).
Definition set_factory r (f : SharedHandlerFactory Hd) := mkReconciler (rec_worker r) (rec_wm r) f.

(** monitor_worker.go: [AddWorkerTask] and [RunAfterPatchStatus]. *)
Definition monitorWorker_AddWorkerTask r (name : string) := set_worker r (AddWorkerTask (rec_worker r) name).

Definition RunAfterPatchStatus r (name : string) (period : Z) (f : monitorTask) :=
  let '(err, w) := Run (rec_worker r) name period f in (err, set_worker r w).

(** [Range] writes the names it visits to the log, and nothing else; no caller
    uses [StopWithRange]. *)
Definition monitorWorker_Range (n : nat) r : list string := Range n (rec_worker r).

Definition StopWithRange (n : nat) r (name : string) :
    outcome (monitorReconciler Wk Wm Hd * list string) :=
  w ← Stop (rec_worker r) name;
  let r := set_worker r w in
  Done (r, monitorWorker_Range n r).

(** [NewMonitorReconciler]; the API client is an argument of what uses it. *)
Definition NewMonitorReconciler (wm : Wm) (worker : Wk) (factory : SharedHandlerFactory Hd) :
    monitorReconciler Wk Wm Hd := mkReconciler worker wm factory.

(** [Reconcile] for a request with the answer of [Get]. *)
Definition monitor_Reconcile r (req_Name : string) (got : api_error + Monitor) :
    outcome (option api_error * monitorReconciler Wk Wm Hd) :=
  match got with
  | inl err =>
    if IsNotFound err then
      w ← Stop (rec_worker r) req_Name;
      Done (None, set_worker r w)
    else Done (Some err, r)
  | inr original =>
    if Exist (rec_worker r) req_Name then Done (None, r)
    else
      let monitor := original in
      let model := spec_Model (monitor_Spec monitor) in
      '(err, f) ← InitConfig (rec_factory r) (model_Name model) (model_Config model);
      let r := set_factory r f in
      match err with
      | Some e => Done (Some (ApiError e), r)
      | None =>
        let r := monitorWorker_AddWorkerTask r (monitor_Name monitor) in
        let '(err, r) := RunAfterPatchStatus r (monitor_Name monitor)
                           (spec_Period (monitor_Spec monitor)) (mkTask monitor) in
        Done (ApiError <$> err, r)
      end
  end.

Definition forward (n : nat) r (slist : SampleList) : outcome (monitorReconciler Wk Wm Hd) :=
  '(arr, _) ← PopBackAll slist;
  s ← wm_WriteSamples n (rec_wm r) arr;
  Done (set_wm r s).

(** The function [Reconcile] gives to the loop; map loops are numbered from [n]. *)
Definition monitor_collect (n : nat) (now : time) (w : W) (monitor : Monitor) r :
    outcome (option error * monitorReconciler Wk Wm Hd) :=
  let model := spec_Model (monitor_Spec monitor) in
  '(err, f) ← Gather (rec_factory r) w (model_Name model);
  let r := set_factory r f in
  match err with
  | Some e => Done (Some e, r)
  | None =>
    match List (rec_factory r) (model_Name model) with
    | Err e => Done (Some e, r)
    | Ok p =>
      match sample_lists (rec_factory r) !! p with
      | None => nil_deref
      | Some list =>
        '(nlst, list') ← Process n now list (spec_Labels (monitor_Spec monitor));
        r ← forward n (set_factory r (set_list (rec_factory r) p list')) nlst;
        Done (None, r)
      end
    end
  end.

(** One call of the loop's function: collect, then record the time; both
    errors are only logged. *)
Definition task_body `{StatusClient C} (n : nat) (now now' : time) (w : W) (f : monitorTask)
    r (c : C) : outcome (monitorReconciler Wk Wm Hd * C) :=
  '(_, r') ← monitor_collect n now w (task_monitor f) r;
  let '(_, c') := UpdateStatus (task_monitor f) now' c in
  Done (r', c').
End controller.

(** ** The PrometheusPush controller *)

Section push.
Context `{WritersManager Wm}.

Definition push_option (spec : PrometheusPushSpec) : WriterOption :=
  mkWriterOption (push_Url spec) (push_BasicAuthUser spec) (push_BasicAuthPass spec)
    (push_Headers spec) (push_Timeout spec) (push_DialTimeout spec) (push_MaxIdleConnsPerHost spec).

Definition push_Reconcile (s : Wm) (req_Name : string) (got : api_error + PrometheusPushSpec) :
    option api_error * Wm :=
  match got with
  | inl err =>
    if IsNotFound err then
      let '(err, s') := wm_DeRegister s req_Name in (ApiError <$> err, s')
    else (Some err, s)
  | inr spec =>
    let '(err, s') := wm_Register s req_Name (push_option spec) in (ApiError <$> err, s')
  end.
End push.

(** ** Reconciles and ticks *)

Section system.
Context `{RangeOrder} `{WorkerLaws Wk monitorTask} `{WritersManagerLaws Wm} `{HandlerLaws Hd W}.
Implicit Types (r : monitorReconciler Wk Wm Hd).

(** The API server answers a request with the object of that name. *)
Inductive ctrl_step : monitorReconciler Wk Wm Hd → monitorReconciler Wk Wm Hd → Prop :=
| step_monitor_Reconcile r name got e r' :
    (∀ m, got = inr m → monitor_Name m = name) →
    monitor_Reconcile r name got = Done (e, r') → ctrl_step r r'
| step_tick r n now w pf e r' :
    pf ∈ worker_live (rec_worker r) →
    monitor_collect n now w (task_monitor pf.2) r = Done (e, r') → ctrl_step r r'
| step_push_Reconcile r name got e s' :
    push_Reconcile (rec_wm r) name got = (e, s') → ctrl_step r (set_wm r s').

(** The loop that [Reconcile] starts for a monitor. *)
Definition monitor_loop (m : Monitor) : Z * monitorTask :=
  (spec_Period (monitor_Spec m), mkTask m).

(** Every task has one loop, made for a monitor of the task's name. *)
Record ctrl_inv r : Prop := {
  ctrl_worker : worker_ok (rec_worker r);
  ctrl_loops name l : worker_view (rec_worker r) !! name = Some l →
    ∃ m, l = [monitor_loop m] ∧ monitor_Name m = name;
  ctrl_factory : ∃ a, represents (rec_factory r) a
}.

Lemma live_iff r pf :
  ctrl_inv r → pf ∈ worker_live (rec_worker r) ↔
  ∃ m, pf = monitor_loop m ∧ worker_view (rec_worker r) !! monitor_Name m = Some [pf].
Proof.
  intros Hi. rewrite (live_view _ _ (ctrl_worker r Hi)). split.
  - intros (name & l & Hv & Hpf). destruct (ctrl_loops r Hi name l Hv) as (m & -> & <-).
    apply list_elem_of_singleton in Hpf as ->. by exists m.
  - intros (m & -> & Hv). exists (monitor_Name m), [monitor_loop m]. split; [done|left].
Qed.

(** *** Reconciling a monitor, branch by branch *)

Lemma Reconcile_deleted r name :
  ctrl_inv r → ∃ r', monitor_Reconcile r name (inl ApiNotFound) = Done (None, r') ∧ ctrl_inv r' ∧
    rec_factory r' = rec_factory r ∧ rec_wm r' = rec_wm r ∧
    worker_view (rec_worker r') = delete name (worker_view (rec_worker r)).
Proof.
  intros [Hw Hl Ha]. simpl. destruct (view_stop (rec_worker r) name Hw) as (w' & -> & Hok & Hv).
  simpl. eexists. split; [done|]. split; [|done]. split; simpl; [done| |done].
  intros k l. rewrite Hv. intros [_ Hk]%lookup_delete_Some. by apply Hl.
Qed.

Lemma Reconcile_running r m :
  ctrl_inv r → is_Some (worker_view (rec_worker r) !! monitor_Name m) →
  monitor_Reconcile r (monitor_Name m) (inr m) = Done (None, r).
Proof.
  intros [Hw _ _] Hv. simpl. by rewrite (view_exist _ _ Hw), bool_decide_true.
Qed.

Lemma Reconcile_new r a m :
  ctrl_inv r → represents (rec_factory r) a →
  worker_view (rec_worker r) !! monitor_Name m = None →
  let '(err, a') := registry_init a (model_Name (spec_Model (monitor_Spec m)))
                      (model_Config (spec_Model (monitor_Spec m))) in
  ∃ r', monitor_Reconcile r (monitor_Name m) (inr m) = Done (ApiError <$> err, r') ∧ ctrl_inv r' ∧
    represents (rec_factory r') a' ∧ rec_wm r' = rec_wm r ∧
    worker_view (rec_worker r') =
      match err with
      | None => <[monitor_Name m := [monitor_loop m]]> (worker_view (rec_worker r))
      | Some _ => worker_view (rec_worker r)
      end.
Proof.
  intros [Hw Hl _] Ha Hv. simpl. rewrite (view_exist _ _ Hw), bool_decide_false
    by by rewrite Hv; intros [? ?].
  set (model := model_Name _). set (cfg := model_Config _).
  pose proof (InitConfig_agree (rec_factory r) a model cfg Ha) as Hag.
  destruct (InitConfig (rec_factory r) model cfg) as [[err f]|]; simpl in Hag;
    destruct (registry_init a model cfg) as [err' a']; [|done].
  destruct Hag as [<- Ha']. simpl. destruct err as [e|]; simpl.
  { eexists. split; [done|]. split; [|done]. split; simpl; eauto. }
  destruct (view_add (rec_worker r) (monitor_Name m) Hw) as [Hw1 Hv1]. rewrite Hv in Hv1.
  unfold RunAfterPatchStatus. simpl.
  destruct (view_run (AddWorkerTask (rec_worker r) (monitor_Name m)) (monitor_Name m)
              (spec_Period (monitor_Spec m)) (mkTask m) Hw1) as [Hw2 Hv2].
  rewrite Hv1, lookup_insert_eq in Hv2. destruct Hv2 as [He Hv2].
  destruct (Run _ _ _ _) as [err w2]. simpl in *. subst err. simpl.
  rewrite insert_insert_eq in Hv2. eexists. split; [done|]. simpl. split_and!; try done.
  split; simpl; [done| |by exists a'].
  intros k l. rewrite Hv2. intros [[<- <-]|[_ Hk]]%lookup_insert_Some; [by exists m|by apply Hl].
Qed.

(** *** A tick *)

Lemma collect_spec n now w m r a h q :
  let model := model_Name (spec_Model (monitor_Spec m)) in
  let labels := spec_Labels (monitor_Spec m) in
  represents (rec_factory r) a → a !! model = Some (h, q) →
  match handler_Gather h w (of_queue q) with
  | Panic s => monitor_collect n now w m r = Panic s
  | Done (h', l', err) =>
    let samples := Some ∘ processed now labels <$> omap id (queue_of l') in
    ∃ r', monitor_collect n now w m r = Done (err, r') ∧ rec_worker r' = rec_worker r ∧
      match err with
      | Some _ => rec_wm r' = rec_wm r ∧
                  represents (rec_factory r') (<[model := (h', queue_of l')]> a)
      | None => wm_WriteSamples n (rec_wm r) samples = Done (rec_wm r') ∧
                represents (rec_factory r') (<[model := (h', [])]> a)
      end
  end.
Proof.
  cbn zeta. intros Ha Hm. unfold monitor_collect.
  set (model := model_Name _) in *. set (labels := spec_Labels _).
  pose proof (Gather_agree (rec_factory r) a w model Ha) as Hg. unfold registry_gather in Hg.
  rewrite Hm in Hg. destruct (handler_Gather h w (of_queue q)) as [[[h' l'] err]|s]; simpl in Hg;
    destruct (Gather (rec_factory r) w model) as [[e f]|s']; try done; simpl; [|by rewrite Hg].
  destruct Hg as [-> Ha']. destruct err as [e|]; [by eexists|].
  destruct (List_represents f _ model h' (queue_of l') Ha') as (p & -> & Hr & Hl);
    [by rewrite lookup_insert_eq|].
  simpl. rewrite Hl. simpl. rewrite Process_queue. simpl. unfold forward.
  rewrite PopBackAll_of_queue. simpl.
  set (samples := _ <$> _).
  destruct (wm_WriteSamples_done n (rec_wm r) samples) as (s' & Hs & _).
  { unfold samples. intros (s & Hs & _)%list_elem_of_fmap. done. }
  rewrite Hs. simpl. eexists. split; [done|]. split; [done|]. split; [done|].
  rewrite <- (insert_insert_eq a model (h', []) (h', queue_of l')).
  eapply represents_set_list; [done|by rewrite lookup_insert_eq|done].
Qed.

Lemma collect_unknown n now w m r a :
  represents (rec_factory r) a → a !! model_Name (spec_Model (monitor_Spec m)) = None →
  monitor_collect n now w m r =
    Done (Some (Errorf (model_Name (spec_Model (monitor_Spec m)) +:+ " not supported")), r).
Proof.
  intros Ha Hm. unfold monitor_collect, Gather.
  destruct (represents_None _ _ _ Ha Hm) as [-> _]. by destruct r.
Qed.

Lemma collect_inv n now w m r e r' :
  ctrl_inv r → monitor_collect n now w m r = Done (e, r') → ctrl_inv r'.
Proof.
  intros [Hw Hl [a Ha]] Hc.
  destruct (a !! model_Name (spec_Model (monitor_Spec m))) as [[h q]|] eqn:Hm.
  - pose proof (collect_spec n now w m r a h q Ha Hm) as Hs. cbn zeta in Hs.
    destruct (handler_Gather h w (of_queue q)) as [[[h' l'] err]|s]; [|congruence].
    destruct Hs as (r1 & Hc1 & Hwk & Hs). rewrite Hc in Hc1. injection Hc1 as <- <-.
    split; [by rewrite Hwk|by rewrite Hwk|]. destruct e; destruct Hs as [_ ?]; by eexists.
  - rewrite (collect_unknown _ _ _ _ _ _ Ha Hm) in Hc. injection Hc as <- <-. split; eauto.
Qed.

Lemma ctrl_inv_step r r' : ctrl_inv r → ctrl_step r r' → ctrl_inv r'.
Proof.
  intros Hi Hs. destruct Hs as [r name got e r' Hn Hr|r n now w pf e r' Hpf Hc|r name got e s' Hp].
  - destruct got as [err|m].
    + destruct (IsNotFound err) eqn:He.
      * destruct err; try done. destruct (Reconcile_deleted r name Hi) as (r1 & Hr1 & ? & _). congruence.
      * simpl in Hr. rewrite He in Hr. congruence.
    + specialize (Hn m eq_refl) as <-.
      destruct (worker_view (rec_worker r) !! monitor_Name m) as [l|] eqn:Hv.
      * rewrite Reconcile_running in Hr by eauto. congruence.
      * destruct (ctrl_factory r Hi) as [a Ha].
        pose proof (Reconcile_new r a m Hi Ha Hv) as Hnew.
        destruct (registry_init a _ _) as [err a'].
        destruct Hnew as (r1 & Hr1 & ? & _). congruence.
  - by eapply collect_inv.
  - destruct Hi as [Hw Hl Ha]. by split.
Qed.

Lemma ctrl_inv_steps r r' : rtc ctrl_step r r' → ctrl_inv r → ctrl_inv r'.
Proof. induction 1; eauto using ctrl_inv_step. Qed.

Lemma ctrl_inv_init s f a : represents f a → ctrl_inv (mkReconciler NewWorker s f).
Proof.
  intros Ha. destruct (view_new (Wk := Wk) (F := monitorTask)) as [Hok Hv].
  split; simpl; [done| |by exists a]. intros name l. by rewrite Hv, lookup_empty.
Qed.

(** *** In terms of the loops that run *)

Definition live r : list (Z * monitorTask) := worker_live (rec_worker r).
Definition loop_name (pf : Z * monitorTask) : string := monitor_Name (task_monitor pf.2).

Lemma live_name r pf :
  ctrl_inv r → pf ∈ live r ↔ worker_view (rec_worker r) !! loop_name pf = Some [pf].
Proof.
  intros Hi. unfold live. rewrite (live_iff r pf Hi). split; [by intros (m & -> & Hv)|].
  intros Hv. destruct (ctrl_loops r Hi _ _ Hv) as (m & [= ->] & _). by exists m.
Qed.

Lemma view_live r name :
  ctrl_inv r → is_Some (worker_view (rec_worker r) !! name) ↔ ∃ pf, pf ∈ live r ∧ loop_name pf = name.
Proof.
  intros Hi. split.
  - intros [l Hv]. destruct (ctrl_loops r Hi _ _ Hv) as (m & -> & <-).
    exists (monitor_loop m). split; [by apply live_name|done].
  - intros (pf & Hpf & <-). apply (live_name r pf Hi) in Hpf. by eexists.
Qed.

Lemma live_delete r r' name pf :
  ctrl_inv r → ctrl_inv r' →
  worker_view (rec_worker r') = delete name (worker_view (rec_worker r)) →
  pf ∈ live r' ↔ pf ∈ live r ∧ loop_name pf ≠ name.
Proof.
  intros Hi Hi' Hv. rewrite (live_name r pf Hi), (live_name r' pf Hi'), Hv, lookup_delete_Some.
  naive_solver.
Qed.

Lemma live_insert r r' m pf :
  ctrl_inv r → ctrl_inv r' → worker_view (rec_worker r) !! monitor_Name m = None →
  worker_view (rec_worker r') = <[monitor_Name m := [monitor_loop m]]> (worker_view (rec_worker r)) →
  pf ∈ live r' ↔ pf = monitor_loop m ∨ pf ∈ live r.
Proof.
  intros Hi Hi' Hn Hv. rewrite (live_name r pf Hi), (live_name r' pf Hi'), Hv, lookup_insert_Some.
  split; [intros [[_ [= <-]]|[_ ?]]; auto|]. intros [->|Hl]; [by left|].
  right. split; [|done]. intros He. congruence.
Qed.

Lemma live_same r r' pf :
  worker_view (rec_worker r') = worker_view (rec_worker r) → ctrl_inv r → ctrl_inv r' →
  pf ∈ live r' ↔ pf ∈ live r.
Proof. intros Hv Hi Hi'. by rewrite (live_name r pf Hi), (live_name r' pf Hi'), Hv. Qed.
End system.

(** *** Retried updates *)

Lemma OnError_spec {C} steps last (fn : C → option api_error * C) c :
  let state k := Nat.iter k (λ c, (fn c).2) c in
  ∃ k, k ≤ steps ∧
    OnError (S steps) last IsConflict fn c = ((fn (state k)).1, state (S k)) ∧
    (∀ j, j < k → (fn (state j)).1 = Some ApiConflict) ∧
    (k < steps → (fn (state k)).1 ≠ Some ApiConflict).
Proof.
  cbn zeta. revert last c. induction steps as [|steps IH]; intros last c.
  - exists 0. simpl. destruct (fn c) as [[[]|] c']; simpl; (split_and!; [lia|done|lia..]).
  - destruct (fn c) as [err c'] eqn:Hf. destruct (decide (err = Some ApiConflict)) as [->|Hne].
    + destruct (IH (Some ApiConflict) c') as (k & Hk & Ho & Hj & Hlast).
      assert (Hiter : ∀ k, Nat.iter (S k) (λ c, (fn c).2) c = Nat.iter k (λ c, (fn c).2) c')
        by (intros k'; rewrite Nat.iter_succ_r, Hf; done).
      exists (S k). rewrite !Hiter. split_and!; [lia| | |].
      * remember (S steps) as n. cbn [OnError]. rewrite Hf. cbn [IsConflict]. exact Ho.
      * intros [|j] Hjk; [simpl; by rewrite Hf|]. rewrite Hiter. apply Hj. lia.
      * intros Hk'. apply Hlast. lia.
    + exists 0. remember (S steps) as n. cbn [OnError Nat.iter]. rewrite Hf.
      split_and!; [lia| |lia|intros _; simpl; by rewrite Hf].
      simpl. rewrite Hf. by destruct err as [[]|].
Qed.

(** ** Properties *)

#[local] Existing Instances demo_order demo_api ping_factory ping_laws.

(** A registry with one handler, and monitors of its model. *)
Definition demo_factory : SharedHandlerFactory ping_handler :=
  RegisterHandler NewHandlerFactory (mkPing "").

Lemma demo_represents : represents demo_factory (<["ping" := (mkPing "", [])]> ∅).
Proof. exact (represents_register _ _ (mkPing "") represents_new). Qed.

Definition demo_monitor (ns dsn : string) : Monitor :=
  mkMonitor ns "mon" (mkMonitorSpec (mkModel "ping" {["dsn" := dsn]}) 15 (Some {["team" := "t"]}))
    (mkMonitorStatus time_zero).

Abbreviation demo_reconciler := (monitorReconciler (workers monitorTask) Writers ping_handler).

Definition demo_start : demo_reconciler := mkReconciler NewWorker (NewWriter 10 5) demo_factory.

(** After reconciling the first monitor. *)
Definition demo_started : demo_reconciler :=
  mkReconciler
    (mkWorkers {["mon" := 0]} [false] [mkLoop (mkTask (demo_monitor "ns" "d")) 15 0])
    (NewWriter 10 5)
    (mkFactory [NewSampleList] [mkPing "d"] {["ping" := 0]} {["ping" := 0]}).

Lemma demo_ctrl_step : ctrl_step demo_start demo_started.
Proof.
  apply (step_monitor_Reconcile demo_start "mon" (inr (demo_monitor "ns" "d")) None).
  - by intros m [= <-].
  - vm_compute. reflexivity.
Qed.

Lemma demo_start_inv : ctrl_inv demo_start.
Proof. apply (ctrl_inv_init (NewWriter 10 5) _ _ demo_represents). Qed.

Lemma demo_started_inv : ctrl_inv demo_started.
Proof. exact (ctrl_inv_step _ _ demo_start_inv demo_ctrl_step). Qed.





(** C7: one tick of a monitor's loop. When its handler gathers without an
    error, every sample of the model's list (those left by earlier ticks or by
    another monitor of the model included), processed with this monitor's
    labels, is handed to the writers in one call and the list is empty; when it
    fails, nothing is handed over and the list keeps what was gathered. Only a
    crash of the handler crashes the tick. *)
Theorem tick_spec `{RangeOrder} `{WorkerLaws Wk monitorTask} `{WritersManagerLaws Wm}
    `{HandlerLaws Hd W} n now w m (r : monitorReconciler Wk Wm Hd) a h q :
  let model := model_Name (spec_Model (monitor_Spec m)) in
  let labels := spec_Labels (monitor_Spec m) in
  represents (rec_factory r) a → a !! model = Some (h, q) →
  match handler_Gather h w (of_queue q) with
  | Panic s => monitor_collect n now w m r = Panic s
  | Done (h', l', err) =>
    let samples := Some ∘ processed now labels <$> omap id (queue_of l') in
    ∃ r', monitor_collect n now w m r = Done (err, r') ∧ rec_worker r' = rec_worker r ∧
      match err with
      | Some _ => rec_wm r' = rec_wm r ∧
                  represents (rec_factory r') (<[model := (h', queue_of l')]> a)
      | None => wm_WriteSamples n (rec_wm r) samples = Done (rec_wm r') ∧
                represents (rec_factory r') (<[model := (h', [])]> a)
      end
  end.
Proof. apply collect_spec. Qed.

Lemma tick_spec_witness :
  ∃ r' s', monitor_collect 0 zeroTime time_zero (demo_monitor "ns" "d") demo_start = Done (None, r') ∧
    wm_WriteSamples 0 (NewWriter 10 5)
      [Some (mkSample "up" zeroTime (VString "") {["source" := "kubemonitor"; "team" := "t"]})] = Done s' ∧
    rec_wm r' = s'.
Proof.
  pose proof (tick_spec 0 zeroTime time_zero (demo_monitor "ns" "d") demo_start _ (mkPing "") []
    demo_represents eq_refl) as Ht.
  destruct Ht as (r' & Hc & _ & Hw & _). exists r', (rec_wm r').
  split; [exact Hc|]. split; [|reflexivity]. etransitivity; [|exact Hw]. vm_compute. reflexivity.
Defined.



