(* ===== verification/Metrics.v ===== *)
(** * The monitor's own metrics

    pkg/metrics/metrics.go: every fifteen seconds the counters of the writers
    manager are sampled, processed and handed back to the manager. The sample
    list is local to the loop. *)
From S2P Require Import Prelude GoText GoNum SafeLists Conv Labels Samples Process Writer Controller.
#[local] Open Scope Z_scope.

Definition metricPrefix : string := "kubemonitor".
Definition metricEnqueueSum : string := "metrics_enqueue_sum".
Definition metricEnqueueFailedSum : string := "metrics_enqueue_failed_sum".
Definition metricEnqueueFailedCnt : string := "metrics_enqueue_failed_count".
Definition metricQueueSize : string := "current_queue_size".
Definition metricsWriteTotal : string := "write_total".
Definition metricsWriteFailTotal : string := "write_fail_total".

Section metrics.
Context `{RangeOrder} `{WritersManager Wm}.

Definition collectMetrics (n : nat) (w : Wm) (sList : SampleList) : SampleList :=
  let ss := wm_QueueMetrics w in
  let l := PushSample n sList metricPrefix metricEnqueueSum (VUint64 (QueueTotalCount ss)) [] in
  let l := PushSample n l metricPrefix metricEnqueueFailedSum (VUint64 (QueueFailTotal ss)) [] in
  let l := PushSample n l metricPrefix metricEnqueueFailedCnt (VUint64 (QueueFailCount ss)) [] in
  let l := PushSample n l metricPrefix metricQueueSize (VUint64 (QueueSize ss)) [] in
  let l := PushSample n l metricPrefix metricsWriteTotal (VUint64 (WriteTotalCount ss)) [] in
  PushSample n l metricPrefix metricsWriteFailTotal (VUint64 (WriteFailTotal ss)) [].

(** What [Run]'s goroutine does when its timer fires. *)
Definition metrics_tick (n : nat) (now : time) (w : Wm) (sList : SampleList) :
    outcome (Wm * SampleList) :=
  '(processList, sList') ← Process n now (collectMetrics n w sList) (Some {["source" := "kubemonitor"]});
  '(arr, _) ← PopBackAll processList;
  w' ← wm_WriteSamples n w arr;
  Done (w', sList').

(** The timer fires [times] times before the stop channel is closed; the
    clock's readings are given. *)
Fixpoint metrics_Run (n : nat) (clock : list time) (w : Wm) (sList : SampleList) :
    outcome (Wm * SampleList) :=
  match clock with
  | [] => Done (w, sList)
  | now :: clock' =>
    '(w', sList') ← metrics_tick n now w sList;
    metrics_Run (S n) clock' w' sList'
  end.

(** The metrics of a snapshot, in the order they are pushed. *)
Definition snapshot_metrics (ss : Snapshot) : list (string * Z) :=
  [("kubemonitor_metrics_enqueue_sum", QueueTotalCount ss);
   ("kubemonitor_metrics_enqueue_failed_sum", QueueFailTotal ss);
   ("kubemonitor_metrics_enqueue_failed_count", QueueFailCount ss);
   ("kubemonitor_current_queue_size", QueueSize ss);
   ("kubemonitor_write_total", WriteTotalCount ss);
   ("kubemonitor_write_fail_total", WriteFailTotal ss)].

Definition metric_sample (now : time) (kv : string * Z) : option Sample :=
  Some (mkSample kv.1 now (VUint64 kv.2) {["source" := "kubemonitor"]}).

Lemma collectMetrics_queue n w :
  collectMetrics n w NewSampleList =
  of_queue ((λ kv, Some (mkSample kv.1 time_zero (VUint64 kv.2) ∅)) <$>
            snapshot_metrics (wm_QueueMetrics w)).
Proof. done. Qed.

Lemma metrics_tick_queue n now w :
  metrics_tick n now w NewSampleList =
  w' ← wm_WriteSamples n w (metric_sample now <$> snapshot_metrics (wm_QueueMetrics w));
  Done (w', NewSampleList).
Proof.
  unfold metrics_tick. rewrite collectMetrics_queue, Process_queue.
  unfold mbind, outcome_bind. rewrite PopBackAll_of_queue. done.
Qed.
End metrics.

(** The monitor's own metrics. A run of the metrics loop never crashes;
    at each tick it hands the manager exactly six samples, named and valued
    after the manager's counters at that tick, stamped with the time of the
    tick and labelled with their source only, and its list is empty again. *)
Theorem metrics_Run_spec `{RangeOrder} `{WritersManagerLaws Wm} n clock (w : Wm) :
  ∃ w', metrics_Run n clock w NewSampleList = Done (w', NewSampleList) ∧ wm_names w' = wm_names w ∧
    match clock with
    | [] => w' = w
    | now :: clock' => ∃ w1,
        wm_WriteSamples n w (metric_sample now <$> snapshot_metrics (wm_QueueMetrics w)) = Done w1 ∧
        metrics_Run (S n) clock' w1 NewSampleList = Done (w', NewSampleList)
    end.
Proof.
  revert n w. induction clock as [|now clock IH]; intros n w; cbn [metrics_Run]; [by exists w|].
  rewrite metrics_tick_queue.
  destruct (wm_WriteSamples_done n w (metric_sample now <$> snapshot_metrics (wm_QueueMetrics w)))
    as (w1 & Hw1 & Hn1).
  { by intros (s & Hs & _)%list_elem_of_fmap. }
  rewrite Hw1. simpl. destruct (IH (S n) w1) as (w' & Hr & Hn & _).
  exists w'. split; [done|]. split; [congruence|]. by exists w1.
Qed.

#[local] Existing Instances demo_order demo_api.

Lemma metrics_Run_spec_witness :
  ∃ w', metrics_Run 0 [zeroTime; zeroTime] (NewWriter 10 5) NewSampleList = Done (w', NewSampleList).
Proof.
  destruct (metrics_Run_spec 0 [zeroTime; zeroTime] (NewWriter 10 5)) as (w' & Hr & _).
  exists w'. exact Hr.
Defined.
