(* ===== verification/GoTime.v ===== *)
(** * Parsing times and decimal runs

    The part of package [time] that the handlers call: [time.Parse] for the two
    layouts of MySQL's timestamps, a layout being a list of the chunks Go's
    parser cuts it into. Which offset a zone abbreviation stands for is a
    matter of the process's local zone ([LocalZone]). Also the decimal runs
    and literal texts of the handlers' regular expressions. *)
From S2P Require Import Prelude GoText GoNum Samples.
#[local] Open Scope Z_scope.

(** ** Runs of digits *)

Fixpoint span_digits (l : list ascii) : list ascii * list ascii :=
  match l with
  | c :: l' =>
    if is_digit c then let '(ds, rest) := span_digits l' in (c :: ds, rest) else ([], l)
  | [] => ([], [])
  end.

(** [\d+]. *)
Definition re_digits (l : list ascii) : option (list ascii * list ascii) :=
  match span_digits l with ([], _) => None | r => Some r end.

(** A literal text. *)
Fixpoint re_lit (p l : list ascii) : option (list ascii) :=
  match p, l with
  | [], _ => Some l
  | a :: p', c :: l' => if decide (a = c) then re_lit p' l' else None
  | _ :: _, [] => None
  end.

(** An expression that is not anchored: its first match from the left. *)
Fixpoint re_find {A} (m : list ascii → option A) (l : list ascii) : option A :=
  match m l with
  | Some a => Some a
  | None => match l with [] => None | _ :: l' => re_find m l' end
  end.

(** ** Layouts *)

Inductive chunk :=
| Lit (prefix : list ascii)
| StdMonth | StdZeroMonth | StdZeroDay | StdHour | StdZeroMinute | StdZeroSecond
| StdLongYear | StdTZ.

(** What has been read; [p_zone] is a zone abbreviation other than UTC. *)
Record parsed := mkParsed {
  p_year : Z; p_month : Z; p_day : Z; p_hour : Z; p_min : Z; p_sec : Z; p_nsec : Z;
  p_zone : option (list ascii)
}.

Definition month_names : list string :=
  ["jan"; "feb"; "mar"; "apr"; "may"; "jun"; "jul"; "aug"; "sep"; "oct"; "nov"; "dec"].

Definition lower_text (l : list ascii) : string :=
  of_bytes ((λ c, val_byte (ascii_lower (byte_val c))) <$> l).

Definition lookup_month (l : list ascii) : option (Z * list ascii) :=
  match l with
  | a :: b :: c :: rest =>
    match list_find (λ m, m = lower_text [a; b; c]) month_names with
    | Some (i, _) => Some (Z.of_nat i + 1, rest)
    | None => None
    end
  | _ => None
  end.

(** [getnum]: one or two digits, two when [fixed]. *)
Definition getnum (l : list ascii) (fixed : bool) : option (Z * list ascii) :=
  match l with
  | a :: l1 =>
    if is_digit a then
      match l1 with
      | b :: l2 =>
        if is_digit b then Some ((byte_val a - 48) * 10 + (byte_val b - 48), l2)
        else if fixed then None else Some (byte_val a - 48, l1)
      | [] => if fixed then None else Some (byte_val a - 48, l1)
      end
    else None
  | [] => None
  end.

Definition cutspace (l : list ascii) : list ascii := drop_while (λ c, bool_decide (c = " "%char)) l.

(** [skip]: a run of spaces matches any number of them, or the end. *)
Fixpoint skip_fuel (fuel : nat) (prefix l : list ascii) : option (list ascii) :=
  match fuel, prefix with
  | _, [] => Some l
  | S fuel', p :: prefix' =>
    if decide (p = " "%char) then
      match l with
      | c :: _ => if decide (c = " "%char) then skip_fuel fuel' (cutspace prefix) (cutspace l) else None
      | [] => skip_fuel fuel' (cutspace prefix) []
      end
    else match l with
         | c :: l' => if decide (p = c) then skip_fuel fuel' prefix' l' else None
         | [] => None
         end
  | O, _ => None
  end.

Definition skip (prefix l : list ascii) : option (list ascii) := skip_fuel (length prefix) prefix l.

(** [parseSignedOffset]: the length of a sign and at most 23 hours, or 0. *)
Definition parseSignedOffset (l : list ascii) : nat :=
  match l with
  | s :: l' =>
    if decide (s = "-"%char ∨ s = "+"%char) then
      let '(ds, _) := span_digits l' in
      if decide (ds = [] ∨ 23 < digits_val 0 ds) then 0%nat else S (length ds)
    else 0%nat
  | [] => 0%nat
  end.

Definition is_upper_ascii (c : ascii) : bool := in_range 65 90 c.

Fixpoint count_upper (fuel : nat) (l : list ascii) : nat :=
  match fuel, l with
  | S fuel', c :: l' => if is_upper_ascii c then S (count_upper fuel' l') else 0%nat
  | _, _ => 0%nat
  end.

Definition byte_at (l : list ascii) (i : nat) : ascii := default "000"%char (l !! i).

(** [parseTimeZone]: the length of the abbreviation. *)
Definition parseTimeZone (l : list ascii) : option nat :=
  if decide (length l < 3)%nat then None
  else if decide (of_bytes (take 4 l) = "ChST" ∨ of_bytes (take 4 l) = "MeST") then Some 4%nat
  else if decide (of_bytes (take 3 l) = "GMT") then Some (3 + parseSignedOffset (drop 3 l))%nat
  else if decide (byte_at l 0 = "+"%char ∨ byte_at l 0 = "-"%char) then
    match parseSignedOffset l with O => None | n => Some n end
  else match count_upper 6 l with
       | 5%nat => if decide (byte_at l 4 = "T"%char) then Some 5%nat else None
       | 4%nat => if decide (byte_at l 3 = "T"%char ∨ of_bytes (take 4 l) = "WITA") then Some 4%nat else None
       | 3%nat => Some 3%nat
       | _ => None
       end.

(** A fraction of a second after the seconds, at most nine digits of which
    count. *)
Definition parse_fraction (l : list ascii) : Z * list ascii :=
  match l with
  | s :: (c :: _) as l' =>
    if (bool_decide (s = "."%char) || bool_decide (s = ","%char)) && is_digit c then
      let '(ds, rest) := span_digits (tail l) in
      let ds := take 9 ds in
      (digits_val 0 ds * 10 ^ (9 - Z.of_nat (length ds)), rest)
    else (0, l)
  | _ => (0, l)
  end.

Definition in_bounds (lo hi : Z) (r : option (Z * list ascii)) : option (Z * list ascii) :=
  match r with
  | Some (v, rest) => if (lo <=? v) && (v <=? hi) then Some (v, rest) else None
  | None => None
  end.

Definition parse_chunk (ch : chunk) (p : parsed) (l : list ascii) : option (parsed * list ascii) :=
  match ch with
  | Lit prefix => '(l') ← skip prefix l; Some (p, l')
  | StdMonth => '(v, l') ← lookup_month l;
    Some (mkParsed (p_year p) v (p_day p) (p_hour p) (p_min p) (p_sec p) (p_nsec p) (p_zone p), l')
  | StdZeroMonth => '(v, l') ← in_bounds 1 12 (getnum l true);
    Some (mkParsed (p_year p) v (p_day p) (p_hour p) (p_min p) (p_sec p) (p_nsec p) (p_zone p), l')
  | StdZeroDay => '(v, l') ← getnum l true;
    Some (mkParsed (p_year p) (p_month p) v (p_hour p) (p_min p) (p_sec p) (p_nsec p) (p_zone p), l')
  | StdHour => '(v, l') ← in_bounds 0 23 (getnum l false);
    Some (mkParsed (p_year p) (p_month p) (p_day p) v (p_min p) (p_sec p) (p_nsec p) (p_zone p), l')
  | StdZeroMinute => '(v, l') ← in_bounds 0 59 (getnum l true);
    Some (mkParsed (p_year p) (p_month p) (p_day p) (p_hour p) v (p_sec p) (p_nsec p) (p_zone p), l')
  | StdZeroSecond => '(v, l') ← in_bounds 0 59 (getnum l true);
    let '(ns, l'') := parse_fraction l' in
    Some (mkParsed (p_year p) (p_month p) (p_day p) (p_hour p) (p_min p) v ns (p_zone p), l'')
  | StdLongYear =>
    if decide (length l < 4)%nat then None
    else if forallb is_digit (take 4 l) then
      Some (mkParsed (digits_val 0 (take 4 l)) (p_month p) (p_day p) (p_hour p) (p_min p) (p_sec p)
              (p_nsec p) (p_zone p), drop 4 l)
    else None
  | StdTZ =>
    if decide (of_bytes (take 3 l) = "UTC") then Some (p, drop 3 l)
    else n ← parseTimeZone l;
      Some (mkParsed (p_year p) (p_month p) (p_day p) (p_hour p) (p_min p) (p_sec p) (p_nsec p)
              (Some (take n l)), drop n l)
  end.

Fixpoint parse_chunks (layout : list chunk) (p : parsed) (l : list ascii) : option parsed :=
  match layout with
  | [] => match l with [] => Some p | _ => None end
  | ch :: layout' => '(p', l') ← parse_chunk ch p l; parse_chunks layout' p' l'
  end.

(** ** Dates *)

Definition is_leap (y : Z) : bool :=
  (y mod 4 =? 0) && (negb (y mod 100 =? 0) || (y mod 400 =? 0)).

Definition month_lengths (y : Z) : list Z :=
  [31; if is_leap y then 29 else 28; 31; 30; 31; 30; 31; 31; 30; 31; 30; 31].

Definition daysIn (m y : Z) : Z := default 31 (month_lengths y !! Z.to_nat (m - 1)).

(** Days before January 1 of year [y], from January 1, year 0. *)
Definition days_before_year (y : Z) : Z :=
  365 * y + (y + 3) / 4 - (y + 99) / 100 + (y + 399) / 400.

Definition days_before_month (m y : Z) : Z :=
  foldr Z.add 0 (take (Z.to_nat (m - 1)) (month_lengths y)).

(** Seconds from the Unix epoch (day 719528 from January 1, year 0). *)
Definition unix_seconds (p : parsed) : Z :=
  (days_before_year (p_year p) + days_before_month (p_month p) (p_year p) + p_day p - 1 - 719528)
    * 86400 + p_hour p * 3600 + p_min p * 60 + p_sec p.

(** [Location.lookupName] on the local zone: the offset in seconds that an
    abbreviation stands for at an instant, if it is one of the zone's. *)
Class LocalZone := { lookupName : string → Z → option Z }.

(** The zone of a process in UTC. *)
Definition utc_zone : LocalZone := {| lookupName name t := if decide (name = "UTC") then Some 0 else None |}.

(** The offset a parsed abbreviation is given: the local zone's, the hours
    after GMT, or none. *)
Definition zone_offset `{LocalZone} (zone : list ascii) (t : Z) : Z :=
  match lookupName (of_bytes zone) t with
  | Some offset => offset
  | None =>
    if decide (3 < length zone)%nat then
      if decide (of_bytes (take 3 zone) = "GMT") then
        (Atoi (of_bytes (drop 3 zone))).1 * 3600
      else 0
    else 0
  end.

(** [time.Parse(layout, value)] followed by [Unix()]; [None] is an error. *)
Definition Parse_Unix `{LocalZone} (layout : list chunk) (value : string) : option Z :=
  p ← parse_chunks layout (mkParsed 0 1 1 0 0 0 0 None) (bytes_of value);
  if (p_day p <? 1) || (daysIn (p_month p) (p_year p) <? p_day p) then None
  else
    let t := unix_seconds p in
    match p_zone p with
    | None => Some t
    | Some zone => Some (t - zone_offset zone t)
    end.

(** [Jan 02 15:04:05 2006 MST] and [2006-01-02 15:04:05]. *)
Definition layout_ssl : list chunk :=
  [StdMonth; Lit [" "%char]; StdZeroDay; Lit [" "%char]; StdHour; Lit [":"%char]; StdZeroMinute;
   Lit [":"%char]; StdZeroSecond; Lit [" "%char]; StdLongYear; Lit [" "%char]; StdTZ].

Definition layout_datetime : list chunk :=
  [StdLongYear; Lit ["-"%char]; StdZeroMonth; Lit ["-"%char]; StdZeroDay; Lit [" "%char]; StdHour;
   Lit [":"%char]; StdZeroMinute; Lit [":"%char]; StdZeroSecond].

Example Parse_datetime :
  @Parse_Unix utc_zone layout_datetime "2023-10-18 06:30:05" = Some 1697610605.
Proof. vm_compute. reflexivity. Qed.

Example Parse_ssl :
  @Parse_Unix utc_zone layout_ssl "Oct 18 06:30:05 2033 GMT" = Some 2013229805.
Proof. vm_compute. reflexivity. Qed.

(** ** Lemmas *)

Lemma span_digits_all l rest :
  all_digits l → (match rest with c :: _ => is_digit c = false | [] => True end) →
  span_digits (l ++ rest) = (l, rest).
Proof.
  intros Hl Hr. induction Hl as [|c l Hc Hl IH]; simpl.
  - destruct rest as [|c rest]; simpl; [done|]. by rewrite Hr.
  - by rewrite Hc, IH.
Qed.

Lemma span_digits_app l ds rest : span_digits l = (ds, rest) → l = ds ++ rest ∧ all_digits ds.
Proof.
  revert ds rest. induction l as [|c l IH]; intros ds rest; simpl; [intros [= <- <-]; by split; constructor|].
  destruct (is_digit c) eqn:Hc; [|intros [= <- <-]; by split; [|constructor]].
  destruct (span_digits l) as [ds' rest'] eqn:Hs. intros [= <- <-].
  destruct (IH _ _ eq_refl) as [-> ?]. by split; [|constructor].
Qed.

(** No decimal integer is a timestamp. *)
Lemma Parse_Unix_digits `{LocalZone} neg l :
  all_digits l →
  Parse_Unix layout_datetime (of_bytes (if neg : bool then "-"%char :: l else l)) = None ∧
  Parse_Unix layout_ssl (of_bytes (if neg : bool then "-"%char :: l else l)) = None.
Proof.
  intros Hl. unfold Parse_Unix. rewrite bytes_of_bytes. split.
  - destruct neg; [cbn [layout_datetime parse_chunks parse_chunk]; by case_decide|].
    cbn [layout_datetime parse_chunks parse_chunk]. case_decide as Hlen; [done|].
    destruct (forallb is_digit (take 4 l)); [|done]. cbn [mbind option_bind].
    assert (Hd : all_digits (drop 4 l)) by by apply Forall_drop.
    cbn [parse_chunks parse_chunk]. unfold skip. cbn [length skip_fuel].
    destruct Hd as [|c l' Hc Hd]; [done|]. rewrite decide_False by done.
    rewrite decide_False; [done|]. intros <-. done.
  - cbn [layout_ssl parse_chunks parse_chunk]. unfold lookup_month.
    assert (Hn : ∀ a b c rest, is_digit c = true →
      match list_find (λ m, m = lower_text [a; b; c]) month_names with
      | Some (i, _) => Some (Z.of_nat i + 1, rest)
      | None => None
      end = @None (Z * list ascii)).
    { intros a b c rest Hc. destruct (list_find _ month_names) as [[i m]|] eqn:Hf; [|done].
      apply list_find_Some in Hf as (Hi & Hm & _). exfalso.
      apply list_elem_of_lookup_2 in Hi. subst m. unfold lower_text in Hi. simpl in Hi.
      rewrite is_digit_range in Hc. unfold ascii_lower at 3 in Hi.
      rewrite (proj2 (Z.leb_gt 65 (byte_val c))) in Hi by lia. simpl in Hi. rewrite val_byte_val in Hi.
      assert (Hall : Forall (λ m, match bytes_of m with [_; _; d] => is_digit d = false | _ => False end)
                       month_names) by (repeat constructor).
      rewrite Forall_forall in Hall. specialize (Hall _ Hi). simpl in Hall.
      rewrite <- is_digit_range in Hc. congruence. }
    destruct neg.
    + destruct Hl as [|a l Ha [|b l' Hb Hl]]; [done|done|]. by rewrite Hn.
    + destruct Hl as [|a l Ha [|b l' Hb [|c l'' Hc Hl]]]; [done|done|done|]. by rewrite Hn.
Qed.
