(* ===== verification/MysqlTables.v ===== *)
(** * Tables of the mysql handler

    internal/handlers/mysql: the metric names of metrics.go, the thread states
    of processlist.go and the statements of queries.go that the handler runs. A
    [map[string]struct{}] is a map to unit. *)
From S2P Require Import Prelude.

(** The map literal with these keys. *)
Definition key_set (keys : list string) : gmap string unit :=
  list_to_map ((λ k, (k, ())) <$> keys).

Lemma key_set_lookup keys k : is_Some (key_set keys !! k) ↔ k ∈ keys.
Proof.
  unfold key_set. split.
  - intros [[] Hk]. apply elem_of_list_to_map_2 in Hk.
    by apply list_elem_of_fmap in Hk as (k' & [= ->] & ?).
  - intros Hk. apply not_eq_None_Some. intros Hn%not_elem_of_list_to_map_2. apply Hn.
    rewrite <- list_fmap_compose. apply list_elem_of_fmap. by exists k.
Qed.

(** ** metrics.go *)

Definition STATUS_VARS : gmap string unit := key_set
  ["uptime"; "prepared_stmt_count"; "slow_queries"; "questions"; "queries"; "com_select";
   "com_insert"; "com_update"; "com_delete"; "com_replace"; "com_commit"; "com_rollback";
   "com_load"; "com_insert_select"; "com_update_multi"; "com_delete_multi"; "com_replace_select";
   "connections"; "max_used_connections"; "aborted_clients"; "aborted_connects"; "open_files";
   "open_tables"; "bytes_sent"; "bytes_received"; "qcache_hits"; "qcache_inserts";
   "qcache_lowmem_prunes"; "table_locks_waited"; "table_locks_waited_rate"; "created_tmp_tables";
   "created_tmp_disk_tables"; "created_tmp_files"; "threads_connected"; "threads_running";
   "key_blocks_used"; "key_blocks_unused"; "key_blocks_not_flushed"; "key_read_requests";
   "key_reads"; "key_write_requests"; "key_writes"].

Definition VARIABLES_VARS : gmap string unit := key_set
  ["key_buffer_size"; "key_cache_block_size"; "max_connections"; "max_prepared_stmt_count";
   "query_cache_size"; "table_open_cache"; "thread_cache_size"; "long_query_time";
   "max_user_connections"; "read_only"].

Definition INNODB_VARS : gmap string unit := key_set
  ["innodb_buffer_pool_size"; "open_files_limit"; "innodb_log_waits"; "innodb_data_reads";
   "innodb_data_writes"; "innodb_os_log_fsyncs"; "innodb_mutex_spin_waits";
   "innodb_mutex_spin_rounds"; "innodb_mutex_os_waits"; "innodb_row_lock_waits";
   "innodb_row_lock_time"; "innodb_row_lock_current_waits"; "innodb_current_row_locks";
   "innodb_buffer_pool_read_requests"; "innodb_buffer_pool_reads"].

Definition BINLOG_VARS : gmap string unit := key_set
  ["binlog_space_usage_bytes"].

Definition OPTIONAL_STATUS_VARS : gmap string unit := key_set
  ["binlog_cache_disk_use"; "binlog_cache_use"; "handler_commit"; "handler_delete";
   "handler_prepare"; "handler_read_first"; "handler_read_key"; "handler_read_next";
   "handler_read_prev"; "handler_read_rnd"; "handler_read_rnd_next"; "handler_rollback";
   "handler_update"; "handler_write"; "opened_tables"; "qcache_total_blocks";
   "qcache_free_blocks"; "qcache_free_memory"; "qcache_not_cached"; "qcache_queries_in_cache";
   "select_full_join"; "select_full_range_join"; "select_range"; "select_range_check";
   "select_scan"; "sort_merge_passes"; "sort_range"; "sort_rows"; "sort_scan";
   "table_locks_immediate"; "table_locks_immediate_rate"; "threads_cached"; "threads_created";
   "table_open_cache_hits"; "table_open_cache_misses"].

Definition OPTIONAL_INNODB_VARS : gmap string unit := key_set
  ["innodb_active_transactions"; "innodb_buffer_pool_bytes_data"; "innodb_buffer_pool_pages_data";
   "innodb_buffer_pool_pages_dirty"; "innodb_buffer_pool_pages_flushed";
   "innodb_buffer_pool_pages_free"; "innodb_buffer_pool_pages_total";
   "innodb_buffer_pool_read_ahead"; "innodb_buffer_pool_read_ahead_evicted";
   "innodb_buffer_pool_read_ahead_rnd"; "innodb_buffer_pool_wait_free";
   "innodb_buffer_pool_write_requests"; "innodb_checkpoint_age"; "innodb_current_transactions";
   "innodb_data_fsyncs"; "innodb_data_pending_fsyncs"; "innodb_data_pending_reads";
   "innodb_data_pending_writes"; "innodb_data_read"; "innodb_data_written";
   "innodb_dblwr_pages_written"; "innodb_dblwr_writes"; "innodb_hash_index_cells_total";
   "innodb_hash_index_cells_used"; "innodb_history_list_length"; "innodb_ibuf_free_list";
   "innodb_ibuf_merged"; "innodb_ibuf_merged_delete_marks"; "innodb_ibuf_merged_deletes";
   "innodb_ibuf_merged_inserts"; "innodb_ibuf_merges"; "innodb_ibuf_segment_size";
   "innodb_ibuf_size"; "innodb_lock_structs"; "innodb_locked_tables";
   "innodb_locked_transactions"; "innodb_log_write_requests"; "innodb_log_writes";
   "innodb_lsn_current"; "innodb_lsn_flushed"; "innodb_lsn_last_checkpoint";
   "innodb_mem_adaptive_hash"; "innodb_mem_additional_pool"; "innodb_mem_dictionary";
   "innodb_mem_file_system"; "innodb_mem_lock_system"; "innodb_mem_page_hash";
   "innodb_mem_recovery_system"; "innodb_mem_thread_hash"; "innodb_mem_total";
   "innodb_os_file_fsyncs"; "innodb_os_file_reads"; "innodb_os_file_writes";
   "innodb_os_log_pending_fsyncs"; "innodb_os_log_pending_writes"; "innodb_os_log_written";
   "innodb_pages_created"; "innodb_pages_read"; "innodb_pages_written";
   "innodb_pending_aio_log_ios"; "innodb_pending_aio_sync_ios";
   "innodb_pending_buffer_pool_flushes"; "innodb_pending_checkpoint_writes";
   "innodb_pending_ibuf_aio_reads"; "innodb_pending_log_flushes"; "innodb_pending_log_writes";
   "innodb_pending_normal_aio_reads"; "innodb_pending_normal_aio_writes"; "innodb_queries_inside";
   "innodb_queries_queued"; "innodb_read_views"; "innodb_rows_deleted"; "innodb_rows_inserted";
   "innodb_rows_read"; "innodb_rows_updated"; "innodb_s_lock_os_waits";
   "innodb_s_lock_spin_rounds"; "innodb_s_lock_spin_waits"; "innodb_semaphore_wait_time";
   "innodb_semaphore_waits"; "innodb_tables_in_use"; "innodb_x_lock_os_waits";
   "innodb_x_lock_spin_rounds"; "innodb_x_lock_spin_waits"].

Definition GALERA_VARS : gmap string unit := key_set
  ["wsrep_cluster_size"; "wsrep_local_recv_queue_avg"; "wsrep_flow_control_paused";
   "wsrep_flow_control_paused_ns"; "wsrep_flow_control_recv"; "wsrep_flow_control_sent";
   "wsrep_cert_deps_distance"; "wsrep_local_send_queue_avg"; "wsrep_replicated_bytes";
   "wsrep_received_bytes"; "wsrep_received"; "wsrep_local_state"; "wsrep_local_cert_failures"].

Definition PERFORMANCE_VARS : gmap string unit := key_set
  ["query_run_time_avg"; "perf_digest_95th_percentile_avg_us"].

Definition SCHEMA_VARS : gmap string unit := key_set
  ["information_schema_size"].

Definition TABLE_VARS : gmap string unit := key_set
  ["information_table_index_size"; "information_table_data_size"].

Definition REPLICA_VARS : gmap string unit := key_set
  ["seconds_behind_source"; "seconds_behind_master"; "slave_io_running"; "slave_sql_running";
   "master_server_id"; "source_server_id"; "sql_delay"; "exec_master_log_pos";
   "read_master_log_pos"].

Definition GROUP_REPLICATION_VARS : gmap string unit := key_set
  ["transactions_count"; "transactions_check"; "conflict_detected"; "transactions_row_validating";
   "transactions_remote_applier_queue"; "transactions_remote_applied";
   "transactions_local_proposed"; "transactions_local_rollback"].

Definition SYNTHETIC_VARS : gmap string unit := key_set
  ["qcache_utilization"; "qcache_instant_utilization"].

(** ** processlist.go *)

(** The keys of the literal, all of which have the count 0. *)
Definition generalThreadStates_keys : list string :=
  ["after create"; "altering table"; "analyzing"; "checking permissions"; "checking table";
   "cleaning up"; "closing tables"; "converting heap to myisam"; "copying to tmp table";
   "creating sort index"; "creating table"; "creating tmp table"; "deleting"; "executing";
   "execution of init_command"; "end"; "freeing items"; "flushing tables";
   "fulltext initialization"; "idle"; "init"; "killed"; "waiting for lock"; "logging slow query";
   "login"; "manage keys"; "opening tables"; "optimizing"; "preparing"; "reading from net";
   "removing duplicates"; "removing tmp table"; "reopen tables"; "repair by sorting";
   "repair done"; "repair with keycache"; "replication master"; "rolling back";
   "searching rows for update"; "sending data"; "sorting for group"; "sorting for order";
   "sorting index"; "sorting result"; "statistics"; "updating"; "waiting for tables";
   "waiting for table flush"; "waiting on cond"; "writing to net"; "other"].

Definition generalThreadStates : gmap string Z :=
  list_to_map ((λ k, (k, 0%Z)) <$> generalThreadStates_keys).

Definition stateStatusMappings : gmap string string := list_to_map
  [("user sleep", "idle"); ("creating index", "altering table");
   ("committing alter table to storage engine", "altering table");
   ("discard or import tablespace", "altering table"); ("rename", "altering table");
   ("setup", "altering table"); ("renaming result table", "altering table");
   ("preparing for alter table", "altering table");
   ("copying to group table", "copying to tmp table");
   ("copy to tmp table", "copying to tmp table"); ("query end", "end"); ("update", "updating");
   ("updating main table", "updating"); ("updating reference tables", "updating");
   ("system lock", "waiting for lock"); ("user lock", "waiting for lock");
   ("table lock", "waiting for lock"); ("deleting from main table", "deleting");
   ("deleting from reference tables", "deleting")].

(** ** queries.go *)

Definition SQL_GLOBAL_STATUS : string := "SHOW /*!50002 GLOBAL */ STATUS".

Definition SQL_GLOBAL_VARIABLES : string := "SHOW GLOBAL VARIABLES".

Definition SQL_ENGINE_INNODB_STATUS : string := "SHOW /*!50000 ENGINE*/ INNODB STATUS".

Definition SQL_INFO_SCHEMA_PROCESSLIST : string := "
        SELECT COALESCE(command,''),COALESCE(state,''),count(*)
        FROM information_schema.processlist
        WHERE ID != connection_id()
        GROUP BY command,state
        ORDER BY null".

Definition SQL_INFO_SCHEMA_PROCESSLIST_BY_USER : string := "SELECT user, sum(1) AS connections FROM INFORMATION_SCHEMA.PROCESSLIST GROUP BY user".

Definition SQL_QUERY_SCHEMA_SIZE : string := "
SELECT   table_schema, IFNULL(SUM(data_length+index_length),0) AS total_bytes
FROM     information_schema.tables
GROUP BY table_schema".

Definition SQL_QUERY_TABLE_SIZE : string := "
SELECT   table_schema, table_name,
         IFNULL(index_length,0) AS index_size_bytes,
         IFNULL(data_length,0) AS data_size_bytes
FROM     information_schema.tables
WHERE    table_schema not in ('mysql', 'performance_schema', 'information_schema')".

Definition SQL_QUERY_SYSTEM_TABLE_SIZE : string := "
SELECT   table_schema, table_name,
         IFNULL(index_length,0) AS index_size_bytes,
         IFNULL(data_length,0) AS data_size_bytes
FROM     information_schema.tables
WHERE    table_schema in ('mysql', 'performance_schema', 'information_schema')".
