(* ===== verification/Sql.v ===== *)
(** * Results of SQL queries

    The part of [database/sql] the handlers use. The drivers return text, so a
    column is NULL or bytes; [Scan] converts each column to the type of its
    destination and fails when the numbers of columns differ, when a column
    does not convert, or when NULL meets a destination that cannot hold it. *)
From S2P Require Import Prelude GoText GoNum Conv Samples SafeLists.
#[local] Open Scope Z_scope.

Inductive dbval := DNull | DBytes (s : string).

Record Rows := mkRows { Columns : list string; Data : list (list dbval) }.

(** The server as one gather sees it: the answer to each statement. *)
Abbreviation DB := (string → result Rows).

Definition scan_string (v : dbval) : option string :=
  match v with DBytes s => Some s | DNull => None end.

(** [sql.RawBytes]; NULL is nil, whose text is empty. *)
Definition scan_raw (v : dbval) : option string :=
  match v with DBytes s => Some s | DNull => Some "" end.

Definition scan_int64 (v : dbval) : option Z :=
  match v with
  | DBytes s => match ParseInt s 10 with (i, None) => Some i | _ => None end
  | DNull => None
  end.

(** An unsigned integer of [bits] bits. *)
Definition scan_uint (bits : Z) (v : dbval) : option Z :=
  match v with
  | DBytes s =>
    match ParseUint s 10 with
    | (u, None) => if u <? 2 ^ bits then Some u else None
    | _ => None
    end
  | DNull => None
  end.

Definition scan1 {A} (f : dbval → option A) (row : list dbval) : option A :=
  match row with [a] => f a | _ => None end.

Definition scan2 {A B} (f : dbval → option A) (g : dbval → option B) (row : list dbval) :
    option (A * B) :=
  match row with [a; b] => x ← f a; y ← g b; Some (x, y) | _ => None end.

Definition scan3 {A B C} (f : dbval → option A) (g : dbval → option B) (h : dbval → option C)
    (row : list dbval) : option (A * B * C) :=
  match row with [a; b; c] => x ← f a; y ← g b; z ← h c; Some (x, y, z) | _ => None end.

Definition scan4 {A B C D} (f : dbval → option A) (g : dbval → option B) (h : dbval → option C)
    (i : dbval → option D) (row : list dbval) : option (A * B * C * D) :=
  match row with
  | [a; b; c; d] => x ← f a; y ← g b; z ← h c; t ← i d; Some (x, y, z, t)
  | _ => None
  end.

(** Every column into a [RawBytes] of its own, as many as there are columns. *)
Definition scan_all (columns : nat) (row : list dbval) : option (list string) :=
  if decide (length row = columns) then mapM scan_raw row else None.

Lemma scan_uint_range bits v u : scan_uint bits v = Some u → u < 2 ^ bits.
Proof.
  destruct v as [|s]; simpl; [done|]. destruct (ParseUint s 10) as [n [e|]]; [done|].
  destruct (Z.ltb_spec n (2 ^ bits)); [|done]. by intros [= <-].
Qed.

Lemma scan_all_length columns row vals : scan_all columns row = Some vals → length vals = columns.
Proof.
  unfold scan_all. case_decide as Hl; [|done]. intros Hm.
  by rewrite <- (length_mapM _ _ _ Hm).
Qed.
