(* ===== verification/Mysql.v ===== *)
(** * The mysql handler

    internal/handlers/mysql, one definition per function, in the order of the
    files mysql.go, global_status.go, global_variables.go, engine_innodb.go,
    engine_innodb_compute.go, binlog.go, processlist.go, processlist_by_user.go,
    schema_size.go, table_size.go and slave_status.go. A gather sees the server
    as a function from statements to results ([DB]); [n] numbers its loops over
    maps. The driver's data source names are a parameter ([MysqlDriver]).

    [mysql_handler] and [mysql_laws] make [Instance] a handler of [Input]. *)
From S2P Require Import Prelude GoText GoNum SafeLists Conv Labels Samples Input GoTime Sql MysqlTables.
#[local] Open Scope Z_scope.

Definition inputName : string := "mysql".

(** [Config] of go-sql-driver/mysql, of which the code uses the timeout. *)
Class MysqlDriver := {
  Config : Type;
  ParseDSN : string → result Config;
  FormatDSN : Config → string;
  cfg_Timeout : Config → Z;
  set_Timeout : Config → Z → Config
}.

Record Instance := mkInstance {
  Address : string; Username : string; Password : string; Parameters : string;
  TimeoutSeconds : Z;
  ExtraStatusMetrics : bool; ExtraInnodbMetrics : bool;
  GatherProcessListProcessByState : bool; GatherProcessListProcessByUser : bool;
  GatherSchemaSize : bool; GatherTableSize : bool; GatherSystemTableSize : bool;
  GatherSlaveStatus : bool;
  DisableGlobalStatus : bool; DisableGlobalVariables : bool; DisableInnodbStatus : bool;
  DisableExtraInnodbStatus : bool; DisablebinLogs : bool;
  validMetrics : gmap string unit;
  dsn : string
}.

(** ** mysql.go *)

Section init.
Context `{RangeOrder}.

Definition add_keys (n : nat) (m acc : gmap string unit) : gmap string unit :=
  insert_all (range_list n m) acc.

(** The map [InitValidMetrics] builds. *)
Definition valid_metrics (n : nat) (extraStatus extraInnodb : bool) : gmap string unit :=
  let v := add_keys n STATUS_VARS ∅ in
  let v := add_keys (n + 1) VARIABLES_VARS v in
  let v := add_keys (n + 2) INNODB_VARS v in
  let v := add_keys (n + 3) BINLOG_VARS v in
  let v := add_keys (n + 4) GALERA_VARS v in
  let v := add_keys (n + 5) PERFORMANCE_VARS v in
  let v := add_keys (n + 6) SCHEMA_VARS v in
  let v := add_keys (n + 7) TABLE_VARS v in
  let v := add_keys (n + 8) REPLICA_VARS v in
  let v := add_keys (n + 9) GROUP_REPLICATION_VARS v in
  let v := add_keys (n + 10) SYNTHETIC_VARS v in
  let v := if extraStatus then add_keys (n + 11) OPTIONAL_STATUS_VARS v else v in
  if extraInnodb then add_keys (n + 12) OPTIONAL_INNODB_VARS v else v.

Definition InitValidMetrics (n : nat) (ins : Instance) : Instance :=
  mkInstance (Address ins) (Username ins) (Password ins) (Parameters ins) (TimeoutSeconds ins)
    (ExtraStatusMetrics ins) (ExtraInnodbMetrics ins)
    (GatherProcessListProcessByState ins) (GatherProcessListProcessByUser ins)
    (GatherSchemaSize ins) (GatherTableSize ins) (GatherSystemTableSize ins) (GatherSlaveStatus ins)
    (DisableGlobalStatus ins) (DisableGlobalVariables ins) (DisableInnodbStatus ins)
    (DisableExtraInnodbStatus ins) (DisablebinLogs ins)
    (valid_metrics n (ExtraStatusMetrics ins) (ExtraInnodbMetrics ins)) (dsn ins).

(** The assignments before the timeout is parsed. *)
Definition init_names (ins : Instance) (config : ConfigMap) : Instance :=
  mkInstance (Get config "address") (Get config "username") (Get config "password")
    (Get config "parameters") (TimeoutSeconds ins) (ExtraStatusMetrics ins) (ExtraInnodbMetrics ins)
    (GatherProcessListProcessByState ins) (GatherProcessListProcessByUser ins)
    (GatherSchemaSize ins) (GatherTableSize ins) (GatherSystemTableSize ins) (GatherSlaveStatus ins)
    (DisableGlobalStatus ins) (DisableGlobalVariables ins) (DisableInnodbStatus ins)
    (DisableExtraInnodbStatus ins) (DisablebinLogs ins) (validMetrics ins) (dsn ins).

Definition is_true (config : ConfigMap) (key : string) : bool := bool_decide (Get config key = "true").

(** The assignments after it. *)
Definition init_flags (ins : Instance) (timeout : Z) (config : ConfigMap) : Instance :=
  mkInstance (Address ins) (Username ins) (Password ins) (Parameters ins) timeout
    (is_true config "extra_status_metrics") (is_true config "extra_innodb_metrics")
    (is_true config "gather_processlist_processes_by_state")
    (is_true config "gather_processlist_processes_by_user")
    (is_true config "gather_schema_size") (is_true config "gather_table_size")
    (is_true config "gather_system_table_size") (is_true config "gather_slave_status")
    (is_true config "disable_global_status") (is_true config "disable_global_variables")
    (is_true config "disable_innodb_status") (is_true config "disable_extra_innodb_status")
    (is_true config "disable_binlogs") (validMetrics ins) (dsn ins).

Definition set_dsn (ins : Instance) (timeout : Z) (d : string) : Instance :=
  mkInstance (Address ins) (Username ins) (Password ins) (Parameters ins) timeout
    (ExtraStatusMetrics ins) (ExtraInnodbMetrics ins)
    (GatherProcessListProcessByState ins) (GatherProcessListProcessByUser ins)
    (GatherSchemaSize ins) (GatherTableSize ins) (GatherSystemTableSize ins) (GatherSlaveStatus ins)
    (DisableGlobalStatus ins) (DisableGlobalVariables ins) (DisableInnodbStatus ins)
    (DisableExtraInnodbStatus ins) (DisablebinLogs ins) (validMetrics ins) d.

Definition ErrInstancesEmpty : error := Errorf "instances empty".

(** [time.Second * time.Duration(s)]. *)
Definition duration_seconds (s : Z) : Z := wrap64 (1000000000 * s).

Definition mysql_Init `{MysqlDriver} (n : nat) (ins : Instance) (config : ConfigMap) :
    Instance * option error :=
  let ins := init_names ins config in
  match ParseInt (Get config "timeout_seconds") 10 with
  | (_, Some err) => (ins, Some (NumError "ParseInt" (Get config "timeout_seconds") err))
  | (timeout, None) =>
    let ins := init_flags ins timeout config in
    if decide (Address ins = "") then (ins, Some ErrInstancesEmpty)
    else
      let net := if HasSuffix (Address ins) ".sock" then "unix" else "tcp" in
      let d := Username ins +:+ ":" +:+ Password ins +:+ "@" +:+ net +:+ "(" +:+ Address ins
               +:+ ")/?" +:+ Parameters ins in
      let ins := set_dsn ins (TimeoutSeconds ins) d in
      match ParseDSN d with
      | Err err => (ins, Some err)
      | Ok conf =>
        let '(seconds, conf) :=
          if decide (cfg_Timeout conf = 0) then
            let seconds := if decide (TimeoutSeconds ins = 0) then 3 else TimeoutSeconds ins in
            (seconds, set_Timeout conf (duration_seconds seconds))
          else (TimeoutSeconds ins, conf) in
        (InitValidMetrics n (set_dsn ins seconds (FormatDSN conf)), None)
      end
  end.
End init.

(** ** global_status.go *)

Definition status_prefixes : list string :=
  ["com"; "handler"; "connection_errors"; "innodb_buffer_pool_pages"; "innodb_rows";
   "performance_schema"].

(** [globalStatusRE]: one of the prefixes, an underscore and a line; the two
    groups. *)
Definition globalStatusRE (key : string) : option (string * string) :=
  if bool_decide ("010"%char ∈ bytes_of key) then None
  else
    (fix first (ps : list string) : option (string * string) :=
       match ps with
       | [] => None
       | p :: ps' => match cut_prefix key (p +:+ "_") with
                     | Some rest => Some (p, rest)
                     | None => first ps'
                     end
       end) status_prefixes.

Definition parseStatus `{UnicodeTables} `{LocalZone} (data : string) : float64 * bool :=
  let dataString := strings_ToLower data in
  if decide (dataString ∈ ["yes"; "on"]) then (f_one, true)
  else if decide (dataString ∈ ["no"; "off"; "disabled"]) then (f_zero, true)
  else if decide (dataString = "connecting") then (f_zero, true)
  else if decide (dataString = "primary") then (f_one, true)
  else if decide (dataString ∈ ["non-primary"; "disconnected"]) then (f_zero, true)
  else match Parse_Unix layout_ssl data with
       | Some t => (float_of_Z t, true)
       | None =>
         match Parse_Unix layout_datetime data with
         | Some t => (float_of_Z t, true)
         | None => let '(value, err) := ParseFloat data in (value, bool_decide (err = None))
         end
       end.

Definition one (k v : string) : gmap string string := {[k := v]}.

(** The metric and the extra labels of a status variable. *)
Definition status_metric (key : string) : string * list (gmap string string) :=
  match globalStatusRE key with
  | None => ("global_status_" +:+ key, [])
  | Some (m1, m2) =>
    if decide (m1 = "com") then ("global_status_commands_total", [one "command" m2])
    else if decide (m1 = "handler") then ("global_status_handlers_total", [one "handler" m2])
    else if decide (m1 = "connection_errors") then
      ("global_status_connection_errors_total", [one "error" m2])
    else if decide (m1 = "innodb_buffer_pool_pages") then
      if decide (m2 ∈ ["data"; "free"; "misc"; "old"; "total"; "dirty"])
      then ("global_status_buffer_pool_pages_" +:+ m2, [])
      else ("global_status_buffer_pool_page_changes_total", [one "operation" m2])
    else if decide (m1 = "innodb_rows") then
      ("global_status_innodb_row_ops_total", [one "operation" m2])
    else ("global_status_performance_schema_lost_total", [one "instrumentation" m2])
  end.

Section gather.
Context `{RangeOrder} `{UnicodeTables} `{LocalZone}.

(** [slist.PushFront(types.NewSample(inputName, metric, value, labels...))]. *)
Definition push (n : nat) (slist : SampleList) (metric : string) (value : iface)
    (labels : list (gmap string string)) : SampleList :=
  PushSample n slist inputName metric value labels.

Definition status_text_items : gmap string string :=
  list_to_map [("wsrep_local_state_uuid", ""); ("wsrep_cluster_state_uuid", "");
               ("wsrep_provider_version", ""); ("wsrep_evs_repl_latency", "")].

Definition text (items : gmap string string) (key : string) : string := default "" (items !! key).

Fixpoint status_loop (n : nat) (ins : Instance) (tags : gmap string string) (rows : list (list dbval))
    (slist : SampleList) (cache : gmap string float64) (textItems : gmap string string) :
    SampleList * gmap string float64 * gmap string string :=
  match rows with
  | [] => (slist, cache, textItems)
  | row :: rows' =>
    match scan2 scan_string scan_raw row with
    | None => status_loop n ins tags rows' slist cache textItems
    | Some (key, val) =>
      let key := strings_ToLower key in
      match textItems !! key with
      | Some _ => status_loop n ins tags rows' slist cache (<[key := val]> textItems)
      | None =>
        match parseStatus val with
        | (_, false) => status_loop n ins tags rows' slist cache textItems
        | (floatVal, true) =>
          let cache := <[key := floatVal]> cache in
          match validMetrics ins !! key with
          | None => status_loop n ins tags rows' slist cache textItems
          | Some _ =>
            let '(metric, extra) := status_metric key in
            status_loop n ins tags rows' (push n slist metric (VFloat64 floatVal) (tags :: extra))
              cache textItems
          end
        end
      end
    end
  end.

Definition evs_names : list string := ["min_seconds"; "avg_seconds"; "max_seconds"; "stdev"; "sample_size"].

(** The five parts of wsrep_evs_repl_latency, when all of them are numbers. *)
Definition evs_values (latency : string) : option (list (string * float64)) :=
  let values := Split "/" latency in
  if decide (length evs_names = length values) then
    if forallb (λ v, bool_decide ((ParseFloat v).2 = None)) values
    then Some (zip evs_names ((λ v, (ParseFloat v).1) <$> values))
    else None
  else None.

(** After the loop: the samples made of the textual variables. *)
Definition status_texts (n : nat) (tags textItems : gmap string string) (slist : SampleList) :
    SampleList :=
  let slist :=
    if decide (text textItems "wsrep_local_state_uuid" ≠ "") then
      push n slist "galera_status_info" (VInt 1)
        [tags; list_to_map
           [("wsrep_local_state_uuid", text textItems "wsrep_local_state_uuid");
            ("wsrep_cluster_state_uuid", text textItems "wsrep_cluster_state_uuid");
            ("wsrep_provider_version", text textItems "wsrep_provider_version")]]
    else slist in
  let latency := text textItems "wsrep_evs_repl_latency" in
  if decide (latency ≠ "") then
    match evs_values latency with
    | Some vs =>
      foldl (λ l v, push n l ("galera_evs_repl_latency_" +:+ v.1) (VFloat64 v.2) [tags]) slist vs
    | None => slist
    end
  else slist.

Definition gatherGlobalStatus (n : nat) (ins : Instance) (slist : SampleList) (db : DB)
    (globalTags : gmap string string) (cache : gmap string float64) :
    SampleList * gmap string float64 :=
  if DisableGlobalStatus ins then (slist, cache)
  else match db SQL_GLOBAL_STATUS with
  | Err _ => (slist, cache)
  | Ok rows =>
    let tags := Copy n globalTags in
    let '(slist, cache, textItems) :=
      status_loop n ins tags (Data rows) slist cache status_text_items in
    (status_texts n tags textItems slist, cache)
  end.

(** ** global_variables.go *)

Definition variables_text_items : gmap string string :=
  list_to_map [("innodb_version", ""); ("version", ""); ("version_comment", "");
               ("wsrep_cluster_name", ""); ("wsrep_provider_options", "");
               ("tx_isolation", ""); ("transaction_isolation", "")].

Fixpoint variables_loop (n : nat) (ins : Instance) (tags : gmap string string)
    (rows : list (list dbval)) (slist : SampleList) (cache : gmap string float64)
    (textItems : gmap string string) : SampleList * gmap string float64 * gmap string string :=
  match rows with
  | [] => (slist, cache, textItems)
  | row :: rows' =>
    match scan2 scan_string scan_raw row with
    | None => variables_loop n ins tags rows' slist cache textItems
    | Some (key, val) =>
      let key := strings_ToLower key in
      match textItems !! key with
      | Some _ => variables_loop n ins tags rows' slist cache (<[key := val]> textItems)
      | None =>
        match parseStatus val with
        | (_, false) => variables_loop n ins tags rows' slist cache textItems
        | (floatVal, true) =>
          let cache := <[key := floatVal]> cache in
          match validMetrics ins !! key with
          | None => variables_loop n ins tags rows' slist cache textItems
          | Some _ =>
            variables_loop n ins tags rows'
              (push n slist ("global_variables_" +:+ key) (VFloat64 floatVal) [tags]) cache textItems
          end
        end
      end
    end
  end.

(** [gcache.size = (\d+)([MG]?);], whose dot is any character but a newline. *)
Definition re_gcache (l : list ascii) : option (list ascii * option ascii) :=
  l ← re_lit (bytes_of "gcache") l;
  match l with
  | [] => None
  | c :: _ =>
    if decide (c = "010"%char) then None
    else
      l ← re_lit (bytes_of "size = ") (drop (DecodeRune l).2 l);
      '(ds, l) ← re_digits l;
      match l with
      | u :: l' =>
        if decide (u = "M"%char ∨ u = "G"%char) then
          _ ← re_lit (bytes_of ";") l'; Some (ds, Some u)
        else
          _ ← re_lit (bytes_of ";") l; Some (ds, None)
      | [] => None
      end
  end.

Definition parseWsrepProviderOptions (opts : string) : float64 :=
  match re_find re_gcache (bytes_of opts) with
  | None => f_zero
  | Some (ds, unit) =>
    let val := (ParseFloat (of_bytes ds)).1 in
    let k := float_of_Z 1024 in
    match unit with
    | None => val
    | Some u =>
      if decide (u = "M"%char) then f_mul (f_mul val k) k
      else f_mul (f_mul (f_mul val k) k) k
    end
  end.

(** After the loop: the samples made of the textual variables. *)
Definition variables_texts (n : nat) (tags textItems : gmap string string) (slist : SampleList) :
    SampleList :=
  let slist :=
    push n slist "version_info" (VInt 1)
      [tags; list_to_map [("version", text textItems "version");
                          ("innodb_version", text textItems "innodb_version");
                          ("version_comment", text textItems "version_comment")]] in
  let slist :=
    if decide (text textItems "wsrep_cluster_name" ≠ "") then
      push n slist "galera_variables_info" (VInt 1)
        [tags; one "wsrep_cluster_name" (text textItems "wsrep_cluster_name")]
    else slist in
  let slist :=
    if decide (text textItems "wsrep_provider_options" ≠ "") then
      push n slist "galera_gcache_size_bytes"
        (VFloat64 (parseWsrepProviderOptions (text textItems "wsrep_provider_options"))) [tags]
    else slist in
  if decide (text textItems "transaction_isolation" ≠ "" ∨ text textItems "tx_isolation" ≠ "") then
    let level :=
      if decide (text textItems "transaction_isolation" = "")
      then text textItems "tx_isolation" else text textItems "transaction_isolation" in
    push n slist "transaction_isolation" (VInt 1) [tags; one "level" level]
  else slist.

Definition gatherGlobalVariables (n : nat) (ins : Instance) (slist : SampleList) (db : DB)
    (globalTags : gmap string string) (cache : gmap string float64) :
    SampleList * gmap string float64 :=
  if DisableGlobalStatus ins then (slist, cache)
  else match db SQL_GLOBAL_VARIABLES with
  | Err _ => (slist, cache)
  | Ok rows =>
    let tags := Copy n globalTags in
    let '(slist, cache, textItems) :=
      variables_loop n ins tags (Data rows) slist cache variables_text_items in
    (variables_texts n tags textItems slist, cache)
  end.
End gather.

(** ** engine_innodb.go and engine_innodb_compute.go *)

(** [(\d+) queries inside InnoDB, (\d+) queries in queue]. *)
Definition re_queries (l : list ascii) : option (list ascii * list ascii) :=
  '(a, l) ← re_digits l;
  l ← re_lit (bytes_of " queries inside InnoDB, ") l;
  '(b, l) ← re_digits l;
  _ ← re_lit (bytes_of " queries in queue") l;
  Some (a, b).

(** [(\d+) read views open inside InnoDB]. *)
Definition re_views (l : list ascii) : option (list ascii) :=
  '(a, l) ← re_digits l;
  _ ← re_lit (bytes_of " read views open inside InnoDB") l;
  Some a.

Section innodb.
Context `{RangeOrder} `{UnicodeTables} `{LocalZone}.

Definition innodb_line (n : nat) (tags : gmap string string) (slist : SampleList) (line : string) :
    SampleList :=
  match re_find re_queries (bytes_of line) with
  | Some (a, b) =>
    match ParseFloat (of_bytes a) with
    | (_, Some _) => slist
    | (value, None) =>
      let slist := push n slist "engine_innodb_queries_inside_innodb" (VFloat64 value) [tags] in
      match ParseFloat (of_bytes b) with
      | (_, Some _) => slist
      | (value, None) => push n slist "engine_innodb_queries_in_queue" (VFloat64 value) [tags]
      end
    end
  | None =>
    match re_find re_views (bytes_of line) with
    | Some a =>
      match ParseFloat (of_bytes a) with
      | (_, Some _) => slist
      | (value, None) =>
        push n slist "engine_innodb_read_views_open_inside_innodb" (VFloat64 value) [tags]
      end
    | None => slist
    end
  end.

Definition gatherEngineInnodbStatus (n : nat) (ins : Instance) (slist : SampleList) (db : DB)
    (globalTags : gmap string string) : SampleList :=
  if DisableInnodbStatus ins then slist
  else match db SQL_ENGINE_INNODB_STATUS with
  | Err _ => slist
  | Ok rows =>
    let first := match Data rows with
                 | [] => Some ("", "", "")
                 | row :: _ => scan3 scan_string scan_string scan_string row
                 end in
    match first with
    | None => slist
    | Some (_, _, statusCol) =>
      foldl (innodb_line n (Copy n globalTags)) slist (Split "010" statusCol)
    end
  end.

Definition cached (cache : gmap string float64) (key : string) : float64 := default f_zero (cache !! key).

Definition gatherEngineInnodbStatusCompute (n : nat) (ins : Instance) (slist : SampleList)
    (globalTags : gmap string string) (cache : gmap string float64) : SampleList :=
  if DisableExtraInnodbStatus ins then slist
  else
    let tags := Copy n globalTags in
    let total := cached cache "innodb_buffer_pool_pages_total" in
    let pageSize := cached cache "innodb_page_size" in
    let pageUsed := f_sub total (cached cache "innodb_buffer_pool_pages_free") in
    let byteUsed := f_mul pageUsed pageSize in
    let byteData := f_mul (cached cache "innodb_buffer_pool_pages_data") pageSize in
    let byteDirty := f_mul (cached cache "innodb_buffer_pool_pages_dirty") pageSize in
    let byteFree := f_mul (cached cache "innodb_buffer_pool_pages_free") pageSize in
    let byteTotal := f_mul total pageSize in
    let pageUtil := if negb (f_eqb total f_zero)
                    then f_mul (f_div pageUsed total) (float_of_Z 100) else f_zero in
    let slist := push n slist "global_status_buffer_pool_bytes_used" (VFloat64 byteUsed) [tags] in
    let slist := push n slist "global_status_buffer_pool_bytes_data" (VFloat64 byteData) [tags] in
    let slist := push n slist "global_status_buffer_pool_bytes_free" (VFloat64 byteFree) [tags] in
    let slist := push n slist "global_status_buffer_pool_bytes_total" (VFloat64 byteTotal) [tags] in
    let slist := push n slist "global_status_buffer_pool_bytes_dirty" (VFloat64 byteDirty) [tags] in
    let slist := push n slist "global_status_buffer_pool_pages_utilization" (VFloat64 pageUtil) [tags] in
    if ExtraInnodbMetrics ins
    then push n slist "global_status_buffer_pool_pages_used" (VFloat64 pageUsed) [tags] else slist.

(** ** binlog.go *)

(** The loop over the logs; [None] is an early return. *)
Fixpoint binlog_loop (columnCount : nat) (rows : list (list dbval)) (size count filesize : Z)
    (filename : string) : option (Z * Z * string) :=
  match rows with
  | [] => Some (size, count, filename)
  | row :: rows' =>
    match columnCount with
    | 2%nat =>
      match scan2 scan_string (scan_uint 64) row with
      | None => None
      | Some (filename, filesize) =>
        binlog_loop columnCount rows' (wrapu64 (size + filesize)) (wrapu64 (count + 1)) filesize filename
      end
    | 3%nat =>
      match scan3 scan_string (scan_uint 64) scan_string row with
      | None => None
      | Some (filename, filesize, _) =>
        binlog_loop columnCount rows' (wrapu64 (size + filesize)) (wrapu64 (count + 1)) filesize filename
      end
    | _ =>
      binlog_loop columnCount rows' (wrapu64 (size + filesize)) (wrapu64 (count + 1)) filesize filename
    end
  end.

(** [QueryRow(...).Scan(&logBin)]. *)
Definition log_bin (db : DB) : option Z :=
  match db "SELECT @@log_bin" with
  | Err _ => None
  | Ok rows => match Data rows with [] => None | row :: _ => scan1 (scan_uint 8) row end
  end.

Definition gatherBinlog (n : nat) (ins : Instance) (slist : SampleList) (db : DB)
    (globalTags : gmap string string) : SampleList :=
  if DisablebinLogs ins then slist
  else match log_bin db with
  | None => slist
  | Some logBin =>
    if decide (logBin = 0) then slist
    else match db "SHOW BINARY LOGS" with
    | Err _ => slist
    | Ok rows =>
      match binlog_loop (length (Columns rows)) (Data rows) 0 0 0 "" with
      | None => slist
      | Some (size, count, filename) =>
        let tags := Copy n globalTags in
        let slist := push n slist "binlog_size_bytes" (VUint64 size) [tags] in
        let slist := push n slist "binlog_file_count" (VUint64 count) [tags] in
        match Split "." filename with
        | _ :: number :: _ =>
          if decide (count = 0) then slist
          else match ParseFloat number with
               | (value, None) => push n slist "binlog_file_number" (VFloat64 value) [tags]
               | _ => slist
               end
        | _ => slist
        end
      end
    end
  end.

(** ** processlist.go and processlist_by_user.go *)

Definition underscores_to_spaces (s : string) : string := ReplaceAll "_" " " (strings_ToLower s).

Definition findThreadState (rawCommand rawState : string) : string :=
  let command := underscores_to_spaces rawCommand in
  let state := underscores_to_spaces rawState in
  match generalThreadStates !! state with
  | Some _ => state
  | None =>
    match stateStatusMappings !! state with
    | Some mappedState => mappedState
    | None =>
      if Contains state "waiting for" && Contains state "lock" then "waiting for lock"
      else if decide (command = "sleep" ∧ state = "") then "idle"
      else if decide (command = "query") then "executing"
      else if decide (command = "binlog dump") then "replication master"
      else "other"
    end
  end.

(** The counting loop; [None] when a row does not scan. *)
Fixpoint state_loop (rows : list (list dbval)) (stateCounts : gmap string Z) : option (gmap string Z) :=
  match rows with
  | [] => Some stateCounts
  | row :: rows' =>
    match scan3 scan_string scan_string (scan_uint 32) row with
    | None => None
    | Some (command, state, count) =>
      let foundState := findThreadState command state in
      state_loop rows'
        (<[foundState := wrapu32 (default 0 (stateCounts !! foundState) + count)]> stateCounts)
    end
  end.

Definition gatherProcesslistByState (n : nat) (ins : Instance) (slist : SampleList) (db : DB)
    (globalTags : gmap string string) : SampleList :=
  if GatherProcessListProcessByState ins then
    match db SQL_INFO_SCHEMA_PROCESSLIST with
    | Err _ => slist
    | Ok rows =>
      let labels := Copy n globalTags in
      match state_loop (Data rows) (insert_all (range_list n generalThreadStates) ∅) with
      | None => slist
      | Some stateCounts =>
        foldl (λ l sc, push n l "processlist_processes_by_state" (VUint32 sc.2) [labels; one "state" sc.1])
          slist (range_list n stateCounts)
      end
    end
  else slist.

(** A loop that pushes samples for each row and returns at the first row that
    does not scan, keeping what it pushed. *)
Fixpoint rows_loop {A} (scan : list dbval → option A) (f : SampleList → A → SampleList)
    (rows : list (list dbval)) (slist : SampleList) : SampleList :=
  match rows with
  | [] => slist
  | row :: rows' =>
    match scan row with
    | None => slist
    | Some a => rows_loop scan f rows' (f slist a)
    end
  end.

Definition gatherProcesslistByUser (n : nat) (ins : Instance) (slist : SampleList) (db : DB)
    (globalTags : gmap string string) : SampleList :=
  if GatherProcessListProcessByUser ins then
    match db SQL_INFO_SCHEMA_PROCESSLIST_BY_USER with
    | Err _ => slist
    | Ok rows =>
      let labels := Copy n globalTags in
      rows_loop (scan2 scan_string scan_int64)
        (λ l '(user, connections),
           push n l "processlist_processes_by_user" (VInt64 connections) [labels; one "user" user])
        (Data rows) slist
    end
  else slist.

(** ** schema_size.go and table_size.go *)

Definition gatherSchemaSize (n : nat) (ins : Instance) (slist : SampleList) (db : DB)
    (globalTags : gmap string string) : SampleList :=
  if GatherSchemaSize ins then
    match db SQL_QUERY_SCHEMA_SIZE with
    | Err _ => slist
    | Ok rows =>
      let labels := Copy n globalTags in
      rows_loop (scan2 scan_string scan_int64)
        (λ l '(schema, size), push n l "schema_size_bytes" (VInt64 size) [labels; one "schema" schema])
        (Data rows) slist
    end
  else slist.

Definition table_labels (schema table : string) : gmap string string :=
  list_to_map [("schema", schema); ("table", table)].

Definition gatherTableSize (n : nat) (ins : Instance) (slist : SampleList) (db : DB)
    (globalTags : gmap string string) (isSystem : bool) : SampleList :=
  let query := if isSystem then SQL_QUERY_SYSTEM_TABLE_SIZE else SQL_QUERY_TABLE_SIZE in
  if (if isSystem then GatherSystemTableSize ins else GatherTableSize ins) then
    match db query with
    | Err _ => slist
    | Ok rows =>
      let labels := Copy n globalTags in
      rows_loop (scan4 scan_string scan_string scan_int64 scan_int64)
        (λ l '(schema, table, indexSize, dataSize),
           let l := push n l "table_size_index_bytes" (VInt64 indexSize)
                      [labels; table_labels schema table] in
           push n l "table_size_data_bytes" (VInt64 dataSize) [labels; table_labels schema table])
        (Data rows) slist
    end
  else slist.

(** ** slave_status.go *)

Definition slaveStatusQueries : list string := ["SHOW ALL SLAVES STATUS"; "SHOW SLAVE STATUS"].
Definition slaveStatusQuerySuffixes : list string := [" NONBLOCKING"; " NOLOCK"; ""].

(** The statements [querySlaveStatus] tries, in order. *)
Definition slave_statements : list string :=
  query ← slaveStatusQueries;
  query :: ((λ suffix, query +:+ suffix) <$> slaveStatusQuerySuffixes).

(** Tries them until one succeeds; the last error otherwise. *)
Fixpoint query_first (db : DB) (statements : list string) (last : result Rows) : result Rows :=
  match statements with
  | [] => last
  | q :: qs => match db q with
               | Ok rows => Ok rows
               | Err e => query_first db qs (Err e)
               end
  end.

Definition querySlaveStatus (db : DB) : result Rows :=
  query_first db slave_statements (Err (Errorf "")).

Fixpoint columnIndex_from (i : nat) (slaveCols : list string) (colName : string) : option nat :=
  match slaveCols with
  | [] => None
  | c :: cs => if decide (c = colName) then Some i else columnIndex_from (S i) cs colName
  end.

(** [None] is -1. *)
Definition columnIndex (slaveCols : list string) (colName : string) : option nat :=
  columnIndex_from 0 slaveCols colName.

(** The scanned columns are as many as the names. *)
Definition columnValue (scanArgs slaveCols : list string) (colName : string) : string :=
  match columnIndex slaveCols colName with
  | None => ""
  | Some i => default "" (scanArgs !! i)
  end.

Definition slave_labels (scanArgs slaveCols : list string) : gmap string string :=
  let channelName := columnValue scanArgs slaveCols "Channel_Name" in
  let connectionName := columnValue scanArgs slaveCols "Connection_name" in
  let channelName := if decide (connectionName ≠ "") then connectionName else channelName in
  let channelName := if decide (channelName = "") then "default" else channelName in
  list_to_map [("master_host", columnValue scanArgs slaveCols "Master_Host");
               ("master_uuid", columnValue scanArgs slaveCols "Master_UUID");
               ("channel_name", channelName)].

Definition slave_column (n : nat) (ins : Instance) (globalTags labels : gmap string string)
    (slist : SampleList) (cv : string * string) : SampleList :=
  let key := strings_ToLower cv.1 in
  match validMetrics ins !! key with
  | None => slist
  | Some _ =>
    match parseStatus cv.2 with
    | (value, true) => push n slist ("slave_status_" +:+ key) (VFloat64 value) [globalTags; labels]
    | (_, false) => slist
    end
  end.

Definition slave_row (n : nat) (ins : Instance) (globalTags : gmap string string)
    (slaveCols : list string) (slist : SampleList) (row : list dbval) : SampleList :=
  match scan_all (length slaveCols) row with
  | None => slist
  | Some scanArgs =>
    foldl (slave_column n ins globalTags (slave_labels scanArgs slaveCols)) slist
      (zip slaveCols scanArgs)
  end.

Definition gatherSlaveStatus (n : nat) (ins : Instance) (slist : SampleList) (db : DB)
    (globalTags : gmap string string) : SampleList :=
  if GatherSlaveStatus ins then
    match querySlaveStatus db with
    | Err _ => slist
    | Ok rows => foldl (slave_row n ins globalTags (Columns rows)) slist (Data rows)
    end
  else slist.

(** ** Gather *)

(** What one gather reads from outside: the seconds it took, whether opening
    and pinging failed, and the server's answers. *)
Record mysql_world := mkMysqlWorld {
  mw_loop : nat;
  mw_seconds : float64;
  mw_open : option error;
  mw_ping : option error;
  mw_db : DB
}.

(** The calls after a successful ping. *)
Definition gather_all (n : nat) (ins : Instance) (slist : SampleList) (db : DB)
    (tags : gmap string string) : SampleList :=
  let '(slist, cache) := gatherGlobalStatus n ins slist db tags ∅ in
  let '(slist, cache) := gatherGlobalVariables n ins slist db tags cache in
  let slist := gatherEngineInnodbStatus n ins slist db tags in
  let slist := gatherEngineInnodbStatusCompute n ins slist tags cache in
  let slist := gatherBinlog n ins slist db tags in
  let slist := gatherProcesslistByState n ins slist db tags in
  let slist := gatherProcesslistByUser n ins slist db tags in
  let slist := gatherSchemaSize n ins slist db tags in
  let slist := gatherTableSize n ins slist db tags false in
  let slist := gatherTableSize n ins slist db tags true in
  gatherSlaveStatus n ins slist db tags.

(** The deferred push of the scrape time comes last, on every path. *)
Definition mysql_Gather (ins : Instance) (w : mysql_world) (slist : SampleList) :
    SampleList * option error :=
  let n := mw_loop w in
  let tags := one "address" (Address ins) in
  let finish l := push n l "scrape_use_seconds" (VFloat64 (mw_seconds w)) [tags] in
  match mw_open w with
  | Some err => (finish (push n slist "up" (VInt 0) [tags]), Some err)
  | None =>
    match mw_ping w with
    | Some err => (finish (push n slist "up" (VInt 0) [tags]), Some err)
    | None => (finish (gather_all n ins (push n slist "up" (VInt 1) [tags]) (mw_db w) tags), None)
    end
  end.
End innodb.

#[export] Instance mysql_handler `{RangeOrder} `{UnicodeTables} `{LocalZone} `{MysqlDriver} :
    HandlerFactory Instance mysql_world := {|
  Name ins := inputName;
  Init ins config := mysql_Init 0 ins config;
  handler_Gather ins w slist :=
    let '(slist, err) := mysql_Gather ins w slist in Done (ins, slist, err)
|}.
