(* ===== verification/MysqlProps.v ===== *)
(** * Properties of the mysql handler

    What each gather of [Mysql] adds to the sample list, that the handler obeys
    the interface of [Input], and what its parsing and its configuration do. *)
From S2P Require Import Prelude GoText GoNum SafeLists Conv Labels Samples Emit Input GoTime Sql MysqlTables Mysql.
#[local] Open Scope Z_scope.

Section handler.
Context `{RangeOrder} `{UnicodeTables} `{LocalZone}.
Implicit Types (ins : Instance) (db : DB) (tags : gmap string string).

Definition sample_of (n : nat) (metric : string) (value : iface) (labels : list (gmap string string)) :
    option Sample := Some (NewSample n inputName metric value labels).

Lemma push_emits n metric value labels :
  emits (λ l, push n l metric value labels) [sample_of n metric value labels].
Proof. intros q. apply PushFront_of_queue. Qed.

Lemma push_appends n metric value labels : appends (λ l, push n l metric value labels).
Proof. eexists. apply push_emits. Qed.

Lemma if_appends (b : bool) f g : appends f → appends g → appends (λ l, if b then f l else g l).
Proof. by destruct b. Qed.

(** *** The two status queries *)

(** The sample of a row of SHOW GLOBAL STATUS. *)
Definition status_row (n : nat) ins tags (row : list dbval) : option (option Sample) :=
  '(key, val) ← scan2 scan_string scan_raw row;
  let key := strings_ToLower key in
  match status_text_items !! key, parseStatus val, validMetrics ins !! key with
  | None, (v, true), Some _ =>
    let '(metric, extra) := status_metric key in
    Some (sample_of n metric (VFloat64 v) (tags :: extra))
  | _, _, _ => None
  end.

Definition variables_row (n : nat) ins tags (row : list dbval) : option (option Sample) :=
  '(key, val) ← scan2 scan_string scan_raw row;
  let key := strings_ToLower key in
  match variables_text_items !! key, parseStatus val, validMetrics ins !! key with
  | None, (v, true), Some _ => Some (sample_of n ("global_variables_" +:+ key) (VFloat64 v) [tags])
  | _, _, _ => None
  end.

(** The entry a row adds to the cache; [items] are the textual variables. *)
Definition cache_row (items : gmap string string) (cache : gmap string float64) (row : list dbval) :
    gmap string float64 :=
  match scan2 scan_string scan_raw row with
  | None => cache
  | Some (key, val) =>
    let key := strings_ToLower key in
    match items !! key, parseStatus val with
    | None, (v, true) => <[key := v]> cache
    | _, _ => cache
    end
  end.

(** What it makes of the textual variables. *)
Definition text_row (items : gmap string string) (row : list dbval) : gmap string string :=
  match scan2 scan_string scan_raw row with
  | None => items
  | Some (key, val) =>
    let key := strings_ToLower key in
    match items !! key with Some _ => <[key := val]> items | None => items end
  end.

Definition same_keys (a b : gmap string string) : Prop := ∀ k, is_Some (a !! k) ↔ is_Some (b !! k).

Lemma same_keys_None a b k : same_keys a b → a !! k = None ↔ b !! k = None.
Proof. intros Hk. rewrite !eq_None_not_Some. by rewrite (Hk k). Qed.

Lemma same_keys_insert a b k v : same_keys a b → is_Some (a !! k) → same_keys (<[k := v]> a) b.
Proof.
  intros Hk Ha k'. rewrite <- (Hk k'). destruct (decide (k' = k)) as [->|Hne].
  - rewrite lookup_insert_eq. split; [done|by eexists].
  - by rewrite lookup_insert_ne.
Qed.

Lemma status_loop_rows n ins tags rows q cache items :
  same_keys items status_text_items →
  status_loop n ins tags rows (of_queue q) cache items =
    (of_queue (q ++ omap (status_row n ins tags) rows),
     foldl (cache_row status_text_items) cache rows, foldl text_row items rows).
Proof.
  revert q cache items. induction rows as [|row rows IH]; intros q cache items Hk; csimpl.
  { by rewrite app_nil_r. }
  unfold status_row at 1, cache_row at 2, text_row at 2.
  destruct (scan2 scan_string scan_raw row) as [[key val]|]; simpl; [|by apply IH].
  set (k := strings_ToLower key). destruct (items !! k) as [t|] eqn:Hi.
  - assert (Ht : is_Some (status_text_items !! k)) by (apply Hk; by eexists).
    destruct Ht as [t' Ht]. rewrite Ht. apply IH. apply same_keys_insert; [done|by eexists].
  - rewrite (proj1 (same_keys_None _ _ _ Hk) Hi).
    destruct (parseStatus val) as [v []]; [|by apply IH].
    destruct (validMetrics ins !! k); [|by apply IH].
    destruct (status_metric k) as [metric extra].
    rewrite (push_emits n metric (VFloat64 v) (tags :: extra) q), IH by done.
    by rewrite <- app_assoc.
Qed.

Lemma variables_loop_rows n ins tags rows q cache items :
  same_keys items variables_text_items →
  variables_loop n ins tags rows (of_queue q) cache items =
    (of_queue (q ++ omap (variables_row n ins tags) rows),
     foldl (cache_row variables_text_items) cache rows, foldl text_row items rows).
Proof.
  revert q cache items. induction rows as [|row rows IH]; intros q cache items Hk; csimpl.
  { by rewrite app_nil_r. }
  unfold variables_row at 1, cache_row at 2, text_row at 2.
  destruct (scan2 scan_string scan_raw row) as [[key val]|]; simpl; [|by apply IH].
  set (k := strings_ToLower key). destruct (items !! k) as [t|] eqn:Hi.
  - assert (Ht : is_Some (variables_text_items !! k)) by (apply Hk; by eexists).
    destruct Ht as [t' Ht]. rewrite Ht. apply IH. apply same_keys_insert; [done|by eexists].
  - rewrite (proj1 (same_keys_None _ _ _ Hk) Hi).
    destruct (parseStatus val) as [v []]; [|by apply IH].
    destruct (validMetrics ins !! k); [|by apply IH].
    rewrite (push_emits n ("global_variables_" +:+ k) (VFloat64 v) [tags] q), IH by done.
    by rewrite <- app_assoc.
Qed.

(** *** Every gather only adds samples *)

(** A gather that also extends the cache. *)
Definition appends_cache (f : SampleList → SampleList * gmap string float64) : Prop :=
  ∃ out cache, ∀ q, f (of_queue q) = (of_queue (q ++ out), cache).

Lemma appends_cache_pair (f : SampleList → SampleList) cache :
  appends f → appends_cache (λ l, (f l, cache)).
Proof. intros [out Hf]. exists out, cache. intros q. by rewrite Hf. Qed.

Ltac appends_step :=
  first [ apply appends_id | apply push_appends
        | apply appends_foldl; intros ?
        | match goal with
          | |- appends (λ l, push _ (@?f l) _ _ _) =>
            apply (appends_comp f (λ l, push _ l _ _ _)); [|apply push_appends]
          end ].

Lemma status_texts_appends n tags items : appends (status_texts n tags items).
Proof.
  unfold status_texts. cbn zeta.
  destruct (decide (text items "wsrep_local_state_uuid" ≠ ""));
    destruct (decide (text items "wsrep_evs_repl_latency" ≠ ""));
    try destruct (evs_values _); repeat appends_step.
  refine (appends_comp _ (λ l, foldl _ l _) _ _); repeat appends_step.
Qed.

Lemma variables_texts_appends n tags items : appends (variables_texts n tags items).
Proof.
  unfold variables_texts. cbn zeta.
  destruct (decide (text items "wsrep_cluster_name" ≠ ""));
    destruct (decide (text items "wsrep_provider_options" ≠ ""));
    destruct (decide (text items "transaction_isolation" ≠ "" ∨ text items "tx_isolation" ≠ ""));
    repeat appends_step.
Qed.

Lemma gatherGlobalStatus_appends n ins db tags cache :
  appends_cache (λ l, gatherGlobalStatus n ins l db tags cache).
Proof.
  unfold gatherGlobalStatus. destruct (DisableGlobalStatus ins); [apply appends_cache_pair, appends_id|].
  destruct (db SQL_GLOBAL_STATUS) as [rows|e]; [|apply appends_cache_pair, appends_id].
  destruct (status_texts_appends n (Copy n tags) (foldl text_row status_text_items (Data rows)))
    as [out Hout].
  eexists _, _. intros q. rewrite status_loop_rows by done. rewrite Hout, <- app_assoc. done.
Qed.

Lemma gatherGlobalVariables_appends n ins db tags cache :
  appends_cache (λ l, gatherGlobalVariables n ins l db tags cache).
Proof.
  unfold gatherGlobalVariables. destruct (DisableGlobalStatus ins); [apply appends_cache_pair, appends_id|].
  destruct (db SQL_GLOBAL_VARIABLES) as [rows|e]; [|apply appends_cache_pair, appends_id].
  destruct (variables_texts_appends n (Copy n tags) (foldl text_row variables_text_items (Data rows)))
    as [out Hout].
  eexists _, _. intros q. rewrite variables_loop_rows by done. rewrite Hout, <- app_assoc. done.
Qed.

Lemma innodb_line_appends n tags line : appends (λ l, innodb_line n tags l line).
Proof. unfold innodb_line. repeat case_match; repeat appends_step. Qed.

Lemma gatherEngineInnodbStatus_appends n ins db tags :
  appends (λ l, gatherEngineInnodbStatus n ins l db tags).
Proof.
  unfold gatherEngineInnodbStatus. repeat case_match; try apply appends_id;
    apply appends_foldl; intros line; apply innodb_line_appends.
Qed.

Lemma gatherEngineInnodbStatusCompute_appends n ins tags cache :
  appends (λ l, gatherEngineInnodbStatusCompute n ins l tags cache).
Proof.
  unfold gatherEngineInnodbStatusCompute. cbn zeta.
  destruct (DisableExtraInnodbStatus ins), (ExtraInnodbMetrics ins); repeat appends_step.
Qed.

Lemma gatherBinlog_appends n ins db tags : appends (λ l, gatherBinlog n ins l db tags).
Proof. unfold gatherBinlog. repeat case_match; repeat appends_step. Qed.

Lemma gatherProcesslistByState_appends n ins db tags :
  appends (λ l, gatherProcesslistByState n ins l db tags).
Proof. unfold gatherProcesslistByState. repeat case_match; repeat appends_step. Qed.

Lemma rows_loop_appends {A} (scan : list dbval → option A) f rows :
  (∀ a, appends (λ l, f l a)) → appends (rows_loop scan f rows).
Proof.
  intros Hf. induction rows as [|row rows IH]; [apply appends_id|]. cbn [rows_loop].
  destruct (scan row) as [a|]; [|apply appends_id]. exact (appends_comp _ _ (Hf a) IH).
Qed.

Lemma gatherProcesslistByUser_appends n ins db tags :
  appends (λ l, gatherProcesslistByUser n ins l db tags).
Proof.
  unfold gatherProcesslistByUser. repeat case_match; try apply appends_id.
  apply rows_loop_appends. intros [user connections]. appends_step.
Qed.

Lemma gatherSchemaSize_appends n ins db tags : appends (λ l, gatherSchemaSize n ins l db tags).
Proof.
  unfold gatherSchemaSize. repeat case_match; try apply appends_id.
  apply rows_loop_appends. intros [schema size]. appends_step.
Qed.

Lemma gatherTableSize_appends n ins db tags isSystem :
  appends (λ l, gatherTableSize n ins l db tags isSystem).
Proof.
  unfold gatherTableSize. cbn zeta. destruct isSystem; repeat case_match; try apply appends_id;
    apply rows_loop_appends; intros [[[schema table] indexSize] dataSize]; repeat appends_step.
Qed.

Lemma slave_column_appends n ins tags labels cv : appends (λ l, slave_column n ins tags labels l cv).
Proof. unfold slave_column. repeat case_match; repeat appends_step. Qed.

Lemma gatherSlaveStatus_appends n ins db tags : appends (λ l, gatherSlaveStatus n ins l db tags).
Proof.
  unfold gatherSlaveStatus. repeat case_match; try apply appends_id.
  apply appends_foldl. intros row. unfold slave_row.
  destruct (scan_all _ row) as [scanArgs|]; [|apply appends_id].
  apply appends_foldl. intros cv. apply slave_column_appends.
Qed.

Lemma gather_all_appends n ins db tags : appends (λ l, gather_all n ins l db tags).
Proof.
  unfold gather_all.
  destruct (gatherGlobalStatus_appends n ins db tags ∅) as (o1 & cache1 & H1').
  destruct (gatherGlobalVariables_appends n ins db tags cache1) as (o2 & cache2 & H2').
  pose proof (appends_comp _ _ (gatherEngineInnodbStatus_appends n ins db tags)
    (appends_comp _ _ (gatherEngineInnodbStatusCompute_appends n ins tags cache2)
    (appends_comp _ _ (gatherBinlog_appends n ins db tags)
    (appends_comp _ _ (gatherProcesslistByState_appends n ins db tags)
    (appends_comp _ _ (gatherProcesslistByUser_appends n ins db tags)
    (appends_comp _ _ (gatherSchemaSize_appends n ins db tags)
    (appends_comp _ _ (gatherTableSize_appends n ins db tags false)
    (appends_comp _ _ (gatherTableSize_appends n ins db tags true)
       (gatherSlaveStatus_appends n ins db tags))))))))) as [out Hout].
  exists (o1 ++ o2 ++ out). intros q. rewrite H1', H2', Hout. by rewrite <- !app_assoc.
Qed.
End handler.

(** ** The handler obeys the interface *)

Section laws.
Context `{RangeOrder} `{UnicodeTables} `{LocalZone}.

(** The up and scrape_use_seconds samples of a gather. *)
Definition up_sample (ins : Instance) (w : mysql_world) (up : Z) : option Sample :=
  sample_of (mw_loop w) "up" (VInt up) [one "address" (Address ins)].
Definition scrape_sample (ins : Instance) (w : mysql_world) : option Sample :=
  sample_of (mw_loop w) "scrape_use_seconds" (VFloat64 (mw_seconds w)) [one "address" (Address ins)].

Definition gather_error (w : mysql_world) : option error :=
  match mw_open w with Some e => Some e | None => mw_ping w end.

Lemma mysql_Gather_out ins w :
  ∃ body, (∀ q, mysql_Gather ins w (of_queue q) =
      (of_queue (q ++ up_sample ins w (if gather_error w then 0 else 1) :: body ++ [scrape_sample ins w]),
       gather_error w)) ∧
    (is_Some (gather_error w) → body = []).
Proof.
  unfold mysql_Gather, gather_error. cbn zeta.
  destruct (mw_open w) as [e|]; [|destruct (mw_ping w) as [e|]].
  1,2: exists []; split; [|done]; intros q; rewrite !(push_emits _ _ _ _ _), <- !app_assoc; done.
  destruct (gather_all_appends (mw_loop w) ins (mw_db w) (one "address" (Address ins))) as [out Hout].
  exists out. split; [|by intros [? ?]]. intros q.
  rewrite (push_emits _ _ _ _ _), Hout, (push_emits _ _ _ _ _). by rewrite <- !app_assoc.
Qed.

#[export] Instance mysql_laws `{MysqlDriver} : HandlerLaws Instance mysql_world.
Proof.
  split; [done| |].
  - intros ins w l ins' l' e. simpl. destruct (mysql_Gather ins w l). by intros [= <- _ _].
  - intros ins w q ins' l' e. simpl. destruct (mysql_Gather_out ins w) as (body & Hg & _).
    rewrite Hg. intros [= _ <- _]. by eexists.
Qed.
End laws.

(** ** Parsing *)

Section parsing.
Context `{UnicodeTables} `{LocalZone}.

Definition digit_or_minus (c : ascii) : bool := is_digit c || bool_decide (c = "-"%char).

Definition status_words : list string :=
  ["yes"; "on"; "no"; "off"; "disabled"; "connecting"; "primary"; "non-primary"; "disconnected"].

Lemma lower_number l :
  Forall (λ c, digit_or_minus c = true) l → strings_ToLower (of_bytes l) = of_bytes l.
Proof.
  intros Hl. assert (Hc : Forall (λ c, byte_val c < 65) l).
  { eapply Forall_impl; [exact Hl|]. intros c. unfold digit_or_minus.
    rewrite orb_true_iff, is_digit_range, bool_decide_eq_true. intros [?| ->]; [lia|]. by vm_compute. }
  unfold strings_ToLower, ascii_only, map_bytes. rewrite !bytes_of_bytes.
  assert (Ha : forallb (λ c, byte_val c <? 128) l = true).
  { apply forallb_forall. intros c Hin. rewrite Forall_forall in Hc.
    apply Z.ltb_lt. specialize (Hc c). rewrite list_elem_of_In in Hc. specialize (Hc Hin). lia. }
  rewrite Ha. f_equal. clear Ha Hl. induction Hc as [|c l Hc Hl IH]; csimpl; [done|].
  rewrite IH. f_equal. unfold ascii_lower. rewrite (proj2 (Z.leb_gt 65 (byte_val c))) by lia.
  simpl. apply val_byte_val.
Qed.

Lemma number_not_word l :
  Forall (λ c, digit_or_minus c = true) l → l ≠ [] → of_bytes l ∉ status_words.
Proof.
  intros Hl Hn Hin. assert (Hw : Forall (λ w, match bytes_of w with
    | c :: _ => digit_or_minus c = false | [] => False end) status_words) by (repeat constructor).
  rewrite Forall_forall in Hw. specialize (Hw _ Hin). rewrite bytes_of_bytes in Hw.
  destruct Hl as [|c l Hc _]; [done|]. congruence.
Qed.

Lemma parseStatus_number l :
  Forall (λ c, digit_or_minus c = true) l → l ≠ [] →
  Parse_Unix layout_datetime (of_bytes l) = None → Parse_Unix layout_ssl (of_bytes l) = None →
  parseStatus (of_bytes l) =
    ((ParseFloat (of_bytes l)).1, bool_decide ((ParseFloat (of_bytes l)).2 = None)).
Proof.
  intros Hl Hn Hd Hs. unfold parseStatus. rewrite lower_number by done.
  pose proof (number_not_word l Hl Hn) as Hw. unfold status_words in Hw.
  rewrite !not_elem_of_cons in Hw. destruct Hw as (?&?&?&?&?&?&?&?&?&_).
  rewrite !decide_False by (rewrite ?not_elem_of_cons; auto using not_elem_of_nil).
  rewrite Hd, Hs. by destruct (ParseFloat (of_bytes l)).
Qed.
End parsing.

(** ** Thread states *)

Lemma generalThreadStates_lookup s :
  is_Some (generalThreadStates !! s) ↔ s ∈ generalThreadStates_keys.
Proof.
  unfold generalThreadStates. split.
  - intros [v Hv]. apply elem_of_list_to_map_2 in Hv.
    by apply list_elem_of_fmap in Hv as (k & [= -> _] & ?).
  - intros Hs. apply not_eq_None_Some. intros Hn%not_elem_of_list_to_map_2. apply Hn.
    rewrite <- list_fmap_compose. apply list_elem_of_fmap. by exists s.
Qed.

Lemma generalThreadStates_zero s : s ∈ generalThreadStates_keys → generalThreadStates !! s = Some 0.
Proof.
  intros Hs%generalThreadStates_lookup. destruct Hs as [v Hv]. rewrite Hv. f_equal.
  apply elem_of_list_to_map_2, list_elem_of_fmap in Hv. by destruct Hv as (k & [= _ ->] & _).
Qed.

Lemma generalThreadStates_NoDup : NoDup generalThreadStates_keys.
Proof. apply (bool_decide_unpack _). vm_compute. exact I. Qed.

Lemma mapped_states_valid :
  map_Forall (λ _ s, s ∈ generalThreadStates_keys) stateStatusMappings.
Proof. apply (bool_decide_unpack _). vm_compute. exact I. Qed.

Section states.
Context `{RangeOrder} `{UnicodeTables} `{LocalZone}.

Lemma findThreadState_in command state : findThreadState command state ∈ generalThreadStates_keys.
Proof.
  assert (Hc : ∀ s, bool_decide (s ∈ generalThreadStates_keys) = true → s ∈ generalThreadStates_keys)
    by (intros s; apply bool_decide_eq_true_1).
  unfold findThreadState.
  destruct (generalThreadStates !! _) as [v|] eqn:Hg; [apply generalThreadStates_lookup; by eexists|].
  destruct (stateStatusMappings !! _) as [s|] eqn:Hs; [by apply (mapped_states_valid _ _ Hs)|].
  repeat case_match; apply Hc; vm_compute; done.
Qed.

#[local] Opaque findThreadState generalThreadStates generalThreadStates_keys.

(** The count of a scanned row, if it is of the state [s]. *)
Definition state_count (s : string) (row : string * string * Z) : Z :=
  let '(command, state, count) := row in
  if decide (findThreadState command state = s) then count else 0.

Definition scan_process (row : list dbval) : option (string * string * Z) :=
  scan3 scan_string scan_string (scan_uint 32) row.

Lemma state_loop_counts rows triples counts :
  mapM scan_process rows = Some triples →
  (∀ s, is_Some (counts !! s) ↔ s ∈ generalThreadStates_keys) →
  (∀ s c, counts !! s = Some c → wrapu32 c = c) →
  ∃ counts', state_loop rows counts = Some counts' ∧
    ∀ s, counts' !! s = (λ c, wrapu32 (c + sumZ (state_count s) triples)) <$> counts !! s.
Proof.
  revert triples counts. induction rows as [|row rows IH]; intros triples counts Hm Hk Hw; simpl in Hm.
  - injection Hm as <-. exists counts. split; [done|]. intros s. simpl.
    destruct (counts !! s) as [c|] eqn:Hc; simpl; [|done]. by rewrite Z.add_0_r, (Hw s c).
  - cbn [state_loop]. fold (scan_process row).
    destruct (scan_process row) as [[[command state] count]|]; [|done].
    simpl in Hm. destruct (mapM scan_process rows) as [triples'|] eqn:Hm'; [|done]. simpl in Hm.
    injection Hm as <-. set (f := findThreadState command state).
    assert (Hf : is_Some (counts !! f)) by (apply Hk; apply findThreadState_in).
    destruct Hf as [c0 Hc0]. rewrite Hc0. cbn [default].
    destruct (IH triples' (<[f := wrapu32 (c0 + count)]> counts) eq_refl) as (counts' & Hl & Hs).
    { intros s. rewrite lookup_insert_is_Some'. rewrite (Hk s). split; [|auto].
      intros [<-|?]; [apply findThreadState_in|done]. }
    { intros s c. rewrite lookup_insert_Some. intros [[_ <-]|[_ Hc]]; [|by apply (Hw s)].
      unfold wrapu32. by rewrite Z.mod_mod. }
    exists counts'. split; [done|]. intros s. rewrite Hs. fold f. cbn [sumZ foldr state_count].
    destruct (decide (f = s)) as [<-|Hne].
    + rewrite lookup_insert_eq, Hc0, decide_True by done. simpl. f_equal.
      rewrite wrapu32_add_l. f_equal. unfold sumZ. lia.
    + rewrite lookup_insert_ne, decide_False by done. done.
Qed.

Lemma state_loop_fails rows counts : mapM scan_process rows = None → state_loop rows counts = None.
Proof.
  revert counts. induction rows as [|row rows IH]; intros counts; simpl; [done|].
  fold (scan_process row). destruct (scan_process row) as [[[command state] count]|]; [|done].
  simpl. destruct (mapM scan_process rows); [done|]. intros _. by apply IH.
Qed.
End states.

(** ** Properties *)


(** The global status. When the query succeeds, every row that scans and
    is not a textual variable, whose value parses and whose lower-case name is
    wanted, gives one sample with that value under the metric of its group, in
    the order of the rows, and nothing else in the loop gives one; every such
    row, wanted or not, is in the cache. *)
Theorem global_status_spec `{RangeOrder} `{UnicodeTables} `{LocalZone} n ins db tags rows :
  DisableGlobalStatus ins = false → db SQL_GLOBAL_STATUS = Ok rows →
  ∃ texts, ∀ q cache,
    gatherGlobalStatus n ins (of_queue q) db tags cache =
      (of_queue (q ++ omap (status_row n ins tags) (Data rows) ++ texts),
       foldl (cache_row status_text_items) cache (Data rows)).
Proof.
  intros Hd Hq. destruct (status_texts_appends n (Copy n tags)
    (foldl text_row status_text_items (Data rows))) as [texts Ht].
  exists texts. intros q cache. unfold gatherGlobalStatus. rewrite Hd, Hq.
  rewrite status_loop_rows, Ht, Copy_eq by done. by rewrite <- app_assoc.
Qed.

#[local] Instance mysql_demo_order : RangeOrder := canonical_order.

#[local] Instance demo_tables : UnicodeTables := ascii_tables.
#[local] Instance demo_zone : LocalZone := utc_zone.

Definition demo_instance (byState disableVariables : bool) : Instance :=
  mkInstance "h" "u" "p" "" 3 false false byState false false false false false
    false disableVariables false false false (key_set ["com_select"; "uptime"]) "dsn".

Lemma global_status_spec_witness :
  ∃ texts cache, gatherGlobalStatus 0 (demo_instance false false) (of_queue [])
    (λ _, Ok (mkRows ["k"; "v"] [[DBytes "Com_select"; DBytes "7"]; [DBytes "other"; DBytes "1"]]))
    ∅ ∅ =
    (of_queue ([] ++ [sample_of 0 "global_status_commands_total" (VFloat64 (float_of_Z 7))
                 [∅; one "command" "select"]] ++ texts), cache) ∧
    cache !! "other" = Some f_one.
Proof.
  set (rows := mkRows ["k"; "v"] [[DBytes "Com_select"; DBytes "7"]; [DBytes "other"; DBytes "1"]]).
  destruct (global_status_spec 0 (demo_instance false false) (λ _, Ok rows) ∅ rows eq_refl eq_refl)
    as (texts & Hg).
  exists texts, (foldl (cache_row status_text_items) ∅ (Data rows)). rewrite Hg.
  split; [|vm_compute; reflexivity].
  replace (omap (status_row 0 (demo_instance false false) ∅) (Data rows)) with
    [sample_of 0 "global_status_commands_total" (VFloat64 (float_of_Z 7)) [∅; one "command" "select"]]
    by (vm_compute; reflexivity).
  reflexivity.
Defined.

(** The process list by state. Every process is counted under a state of
    the fixed list, and when the query succeeds and every row scans there is
    exactly one sample for each state of the list, whose value is the number of
    processes mapped to it modulo 2^32; when the query or a row fails there is
    none at all. *)
Theorem processlist_by_state_spec `{RangeOrder} `{UnicodeTables} `{LocalZone} n ins db tags :
  GatherProcessListProcessByState ins = true →
  match db SQL_INFO_SCHEMA_PROCESSLIST with
  | Err _ => ∀ l, gatherProcesslistByState n ins l db tags = l
  | Ok rows =>
    match mapM scan_process (Data rows) with
    | None => ∀ l, gatherProcesslistByState n ins l db tags = l
    | Some triples => ∃ out,
        (∀ q, gatherProcesslistByState n ins (of_queue q) db tags = of_queue (q ++ out)) ∧
        out ≡ₚ (λ s, sample_of n "processlist_processes_by_state"
                       (VUint32 (wrapu32 (sumZ (state_count s) triples))) [tags; one "state" s])
               <$> generalThreadStates_keys
    end
  end.
Proof.
  intros Hg. destruct (db SQL_INFO_SCHEMA_PROCESSLIST) as [rows|e] eqn:Hq;
    [|intros l; unfold gatherProcesslistByState; by rewrite Hg, Hq].
  unfold gatherProcesslistByState. rewrite Hg, Hq, insert_all_range_empty, Copy_eq. cbn zeta.
  destruct (mapM scan_process (Data rows)) as [triples|] eqn:Hm;
    [|intros l; by rewrite state_loop_fails].
  destruct (state_loop_counts (Data rows) triples generalThreadStates Hm) as (counts & -> & Hc).
  { apply generalThreadStates_lookup. }
  { intros s c Hs. rewrite generalThreadStates_zero in Hs
      by (apply generalThreadStates_lookup; by eexists). by injection Hs as <-. }
  set (f sc := sample_of n "processlist_processes_by_state" (VUint32 sc.2) [tags; one "state" sc.1]).
  exists (f <$> range_list n counts). split.
  - exact (emits_foldl_map _ f (range_list n counts) (λ sc, push_emits _ _ _ _)).
  - rewrite range_list_perm.
    assert (Hl : map_to_list counts ≡ₚ
      (λ s, (s, wrapu32 (sumZ (state_count s) triples))) <$> generalThreadStates_keys).
    { apply NoDup_Permutation.
      - apply NoDup_map_to_list.
      - apply NoDup_fmap_2; [by intros s1 s2 [= ->]|]. apply generalThreadStates_NoDup.
      - intros [s c]. rewrite elem_of_map_to_list, list_elem_of_fmap, Hc. split.
        + intros Hs. destruct (generalThreadStates !! s) as [c0|] eqn:Hg0; [|done].
          assert (Hin : s ∈ generalThreadStates_keys) by (apply generalThreadStates_lookup; by eexists).
          rewrite generalThreadStates_zero in Hg0 by done. injection Hg0 as <-.
          injection Hs as <-. by exists s.
        + intros (s' & [= -> ->] & Hin). by rewrite generalThreadStates_zero. }
    rewrite Hl, <- list_fmap_compose. done.
Qed.

#[local] Transparent findThreadState generalThreadStates generalThreadStates_keys.

Lemma processlist_by_state_spec_witness :
  let db : DB := λ _, Ok (mkRows ["c"; "s"; "n"]
    [[DBytes "Query"; DBytes "Sending_data"; DBytes "3"];
     [DBytes "Query"; DBytes "sending data"; DBytes "4294967295"]]) in
  ∃ out, (∀ q, gatherProcesslistByState 0 (demo_instance true false) (of_queue q) db ∅ =
               of_queue (q ++ out)) ∧ length out = 51%nat ∧
    sample_of 0 "processlist_processes_by_state" (VUint32 2) [∅; one "state" "sending data"] ∈ out.
Proof.
  intros db. destruct (processlist_by_state_spec 0 (demo_instance true false) db ∅ eq_refl)
    as (out & Hg & Hp).
  exists out. split; [exact Hg|]. split; [rewrite Hp; reflexivity|].
  rewrite Hp. apply list_elem_of_fmap. exists "sending data".
  split; [vm_compute; reflexivity|]. apply (bool_decide_unpack _). vm_compute. exact I.
Defined.

(** The decimal text of an integer of up to 64 bits, as the server prints
    its counters, is read as the nearest float, never as a word or a time. *)
Theorem parseStatus_Itoa `{UnicodeTables} `{LocalZone} z :
  - 2 ^ 64 < z < 2 ^ 64 → parseStatus (Itoa z) = (float_of_Z z, true).
Proof.
  intros Hz. pose proof (ParseFloat_Itoa z Hz) as Hp.
  assert (Hd : ∃ neg l, Itoa z = of_bytes (if neg : bool then "-"%char :: l else l) ∧ all_digits l ∧ l ≠ []).
  { destruct (Z_lt_ge_dec z 0) as [Hneg|Hpos].
    - destruct (Itoa_neg z Hneg) as (l & Hb & ? & ? & _). exists true, l.
      by rewrite <- Hb, of_bytes_of.
    - destruct (Itoa_nonneg z ltac:(lia)) as (l & Hb & ? & ? & _). exists false, l.
      subst l. by rewrite of_bytes_of. }
  destruct Hd as (neg & l & Hi & Hl & Hn). rewrite Hi in *.
  destruct (Parse_Unix_digits neg l Hl) as [H1' H2'].
  rewrite parseStatus_number; [by rewrite Hp| |by destruct neg|done|done].
  assert (Hall : Forall (λ c, digit_or_minus c = true) l).
  { eapply Forall_impl; [exact Hl|]. intros c Hc. unfold digit_or_minus. by rewrite Hc. }
  destruct neg; [by constructor|done].
Qed.

Lemma parseStatus_Itoa_witness :
  parseStatus (Itoa (-2023)) = (float_of_Z (-2023), true).
Proof. apply (parseStatus_Itoa (-2023)). lia. Defined.

(** Every name of the always gathered tables, and of the optional ones asked
    for. *)
Definition wanted (extraStatus extraInnodb : bool) : gmap string unit :=
  (if extraInnodb then OPTIONAL_INNODB_VARS else ∅) ∪ (if extraStatus then OPTIONAL_STATUS_VARS else ∅)
  ∪ SYNTHETIC_VARS ∪ GROUP_REPLICATION_VARS ∪ REPLICA_VARS ∪ TABLE_VARS ∪ SCHEMA_VARS
  ∪ PERFORMANCE_VARS ∪ GALERA_VARS ∪ BINLOG_VARS ∪ INNODB_VARS ∪ VARIABLES_VARS ∪ STATUS_VARS.

Lemma valid_metrics_wanted `{RangeOrder} n extraStatus extraInnodb :
  valid_metrics n extraStatus extraInnodb = wanted extraStatus extraInnodb.
Proof.
  unfold valid_metrics, wanted, add_keys.
  destruct extraStatus, extraInnodb; rewrite !insert_all_range, ?(left_id_L ∅ (∪)), (right_id_L ∅ (∪));
    by rewrite ?(assoc_L (∪)).
Qed.

(** Configuring the handler. It succeeds only with a numeric timeout, an
    address and a data source name the driver accepts; the name kept is then the
    driver's own rendering and the wanted metrics are the tables' names,
    whatever the order their maps are visited in. A failed configuration has
    already replaced the address, but the wanted metrics are the previous ones,
    and so is the data source name unless it is the rejected one. *)
Theorem mysql_Init_spec `{RangeOrder} `{MysqlDriver} n ins config :
  let '(ins', err) := mysql_Init n ins config in
  Address ins' = Get config "address" ∧
  match err with
  | None => Address ins' ≠ "" ∧ (∃ t, ParseInt (Get config "timeout_seconds") 10 = (t, None)) ∧
      (∃ conf, dsn ins' = FormatDSN conf) ∧
      validMetrics ins' = wanted (ExtraStatusMetrics ins') (ExtraInnodbMetrics ins')
  | Some e => validMetrics ins' = validMetrics ins ∧
      (dsn ins' = dsn ins ∨ ParseDSN (dsn ins') = Err e)
  end.
Proof.
  unfold mysql_Init. destruct (ParseInt (Get config "timeout_seconds") 10) as [timeout [e|]] eqn:Ht.
  { simpl. split_and!; [done|done|by left]. }
  case_decide as Ha; simpl in Ha; [simpl; split_and!; [done|done|by left]|]. cbn zeta.
  set (d := Username _ +:+ _). destruct (ParseDSN d) as [conf|e] eqn:Hd;
    [|simpl; split_and!; [done|done|by right]].
  case_decide; simpl; (split_and!; [done|done|by eexists|by eexists|apply valid_metrics_wanted]).
Qed.

(** The handler with another value of the field that disable_global_variables
    sets. *)
Definition with_DisableGlobalVariables (b : bool) (ins : Instance) : Instance :=
  mkInstance (Address ins) (Username ins) (Password ins) (Parameters ins) (TimeoutSeconds ins)
    (ExtraStatusMetrics ins) (ExtraInnodbMetrics ins)
    (GatherProcessListProcessByState ins) (GatherProcessListProcessByUser ins)
    (GatherSchemaSize ins) (GatherTableSize ins) (GatherSystemTableSize ins) (GatherSlaveStatus ins)
    (DisableGlobalStatus ins) b (DisableInnodbStatus ins)
    (DisableExtraInnodbStatus ins) (DisablebinLogs ins) (validMetrics ins) (dsn ins).

Lemma variables_loop_flag `{RangeOrder} `{UnicodeTables} `{LocalZone} b n ins tags rows l cache items :
  variables_loop n (with_DisableGlobalVariables b ins) tags rows l cache items =
  variables_loop n ins tags rows l cache items.
Proof.
  revert l cache items. induction rows as [|row rows IH]; intros l cache items; simpl; [done|].
  repeat case_match; simplify_eq/=; done.
Qed.

(** The option disable_global_variables has no effect: the global
    variables are gathered under its setting exactly as without it, and are
    left out exactly when the global status is. *)
Theorem disable_global_variables_ignored `{RangeOrder} `{UnicodeTables} `{LocalZone}
    n ins l db tags cache b :
  gatherGlobalVariables n (with_DisableGlobalVariables b ins) l db tags cache =
    gatherGlobalVariables n ins l db tags cache ∧
  (DisableGlobalStatus ins = true → gatherGlobalVariables n ins l db tags cache = (l, cache)).
Proof.
  split.
  - unfold gatherGlobalVariables. simpl. destruct (DisableGlobalStatus ins); [done|].
    destruct (db SQL_GLOBAL_VARIABLES); [|done]. by rewrite variables_loop_flag.
  - intros Hd. unfold gatherGlobalVariables. by rewrite Hd.
Qed.

Lemma disable_global_variables_ignored_witness :
  DisableGlobalVariables (demo_instance false true) = true ∧
  gatherGlobalVariables 0 (demo_instance false true) (of_queue []) (λ _, Ok (mkRows [] [])) ∅ ∅ =
    gatherGlobalVariables 0 (demo_instance false false) (of_queue []) (λ _, Ok (mkRows [] [])) ∅ ∅.
Proof.
  split; [done|].
  exact (proj1 (disable_global_variables_ignored 0 (demo_instance false false) (of_queue [])
                  (λ _, Ok (mkRows [] [])) ∅ ∅ true)).
Defined.

(** The replication status is asked for in eight ways, MariaDB's form first
    and in each form the lock-free variants before the plain one; the answer is
    that of the first statement the server accepts, and an error only when it
    accepts none. *)
Theorem querySlaveStatus_spec (db : DB) :
  slave_statements =
    ["SHOW ALL SLAVES STATUS"; "SHOW ALL SLAVES STATUS NONBLOCKING"; "SHOW ALL SLAVES STATUS NOLOCK";
     "SHOW ALL SLAVES STATUS"; "SHOW SLAVE STATUS"; "SHOW SLAVE STATUS NONBLOCKING";
     "SHOW SLAVE STATUS NOLOCK"; "SHOW SLAVE STATUS"] ∧
  match querySlaveStatus db with
  | Ok rows => ∃ i q, slave_statements !! i = Some q ∧ db q = Ok rows ∧
      ∀ j q', (j < i)%nat → slave_statements !! j = Some q' → ∃ e, db q' = Err e
  | Err e => Forall (λ q, ∃ e, db q = Err e) slave_statements ∧ db "SHOW SLAVE STATUS" = Err e
  end.
Proof.
  split; [reflexivity|]. unfold querySlaveStatus.
  assert (Hlast : last slave_statements = Some "SHOW SLAVE STATUS") by reflexivity.
  assert (Hne : slave_statements ≠ []) by done.
  revert Hlast Hne. generalize slave_statements as qs, (Err (Errorf "") : result Rows) as r0.
  intros qs. induction qs as [|q qs IH]; intros r0 Hlast Hne; [done|]. cbn [query_first].
  destruct (db q) as [rows|e] eqn:Hq.
  - exists 0%nat, q. split_and!; [done|done|lia].
  - destruct qs as [|q2 qs].
    + simpl in *. injection Hlast as ->. split; [|done]. repeat constructor. by eexists.
    + specialize (IH (Err e) Hlast ltac:(done)).
      destruct (query_first db (q2 :: qs) (Err e)) as [rows|e'].
      * destruct IH as (i & q' & Hi & Hdb & Hj). exists (S i), q'. split_and!; [done|done|].
        intros [|j] q'' Hlt Hl; [simplify_eq/=; by eexists|]. apply (Hj j q''); [lia|done].
      * destruct IH as [Hall He]. split; [|done]. constructor; [by eexists|done].
Qed.

(** A scanned binary log: its name and size. *)
Definition scan_binlog (columnCount : nat) (row : list dbval) : option (string * Z) :=
  match columnCount with
  | 2%nat => scan2 scan_string (scan_uint 64) row
  | _ => '(f, s, _) ← scan3 scan_string (scan_uint 64) scan_string row; Some (f, s)
  end.

Lemma binlog_loop_sum columnCount rows logs size count filesize filename :
  columnCount = 2%nat ∨ columnCount = 3%nat →
  mapM (scan_binlog columnCount) rows = Some logs →
  is_uint64 size → is_uint64 count →
  binlog_loop columnCount rows size count filesize filename =
    Some (wrapu64 (size + sumZ snd logs), wrapu64 (count + Z.of_nat (length logs)),
          default filename (fst <$> last logs)).
Proof.
  intros Hc. revert logs size count filesize filename.
  induction rows as [|row rows IH]; intros logs size count filesize filename Hm Hs Hn; simpl in Hm.
  - injection Hm as <-. simpl. by rewrite !Z.add_0_r, !wrapu64_id.
  - destruct (scan_binlog columnCount row) as [[f s]|] eqn:Hrow; [|done]. simpl in Hm.
    destruct (mapM (scan_binlog columnCount) rows) as [logs'|] eqn:Hm'; [|done]. simpl in Hm.
    injection Hm as <-. cbn [binlog_loop].
    assert (Hstep : binlog_loop columnCount (row :: rows) size count filesize filename =
      binlog_loop columnCount rows (wrapu64 (size + s)) (wrapu64 (count + 1)) s f).
    { unfold scan_binlog in Hrow. cbn [binlog_loop]. destruct Hc as [-> | ->].
      - by rewrite Hrow.
      - destruct (scan3 scan_string (scan_uint 64) scan_string row) as [[[f' s'] enc]|]; [|done].
        simpl in Hrow. by injection Hrow as <- <-. }
    cbn [binlog_loop] in Hstep. rewrite Hstep, (IH logs') by auto using wrapu64_range.
    rewrite !wrapu64_add_l.
    replace (size + s + sumZ snd logs') with (size + sumZ snd ((f, s) :: logs')) by (simpl; lia).
    replace (count + 1 + Z.of_nat (length logs')) with (count + Z.of_nat (length ((f, s) :: logs')))
      by (cbn [length]; lia).
    f_equal. f_equal. rewrite last_cons. by destruct (last logs').
Qed.

(** The binary logs. With the log on and a two- or three-column answer
    whose rows all scan, the samples are the total size and the number of the
    logs, modulo 2^64, and the number in the name of the last log when it has
    one; with the log off, or when any query or row fails, there are none. *)
Theorem gatherBinlog_spec `{RangeOrder} `{UnicodeTables} `{LocalZone} n ins db tags rows logs :
  DisablebinLogs ins = false → (∃ b, log_bin db = Some b ∧ b ≠ 0) → db "SHOW BINARY LOGS" = Ok rows →
  length (Columns rows) = 2%nat ∨ length (Columns rows) = 3%nat →
  mapM (scan_binlog (length (Columns rows))) (Data rows) = Some logs →
  Z.of_nat (length logs) < 2 ^ 64 →
  ∀ q, gatherBinlog n ins (of_queue q) db tags = of_queue (q ++
    [sample_of n "binlog_size_bytes" (VUint64 (wrapu64 (sumZ snd logs))) [tags];
     sample_of n "binlog_file_count" (VUint64 (Z.of_nat (length logs))) [tags]] ++
    match last logs with
    | None => []
    | Some (filename, _) =>
      match Split "." filename with
      | _ :: number :: _ =>
        match ParseFloat number with
        | (value, None) => [sample_of n "binlog_file_number" (VFloat64 value) [tags]]
        | _ => []
        end
      | _ => []
      end
    end).
Proof.
  intros Hd (b & Hb & Hnz) Hq Hc Hm Hlen q. unfold gatherBinlog.
  rewrite Hd, Hb, decide_False, Hq by done.
  rewrite (binlog_loop_sum _ _ logs 0 0 0 "" Hc Hm) by done. cbn zeta. rewrite Copy_eq, !Z.add_0_l.
  rewrite (wrapu64_id (Z.of_nat (length logs))) by (unfold is_uint64; lia).
  rewrite (push_emits _ _ _ _ q), (push_emits _ _ _ _ _), <- app_assoc. cbn [app].
  destruct (last logs) as [[f s]|] eqn:Hl; simpl.
  - assert (Hne : Z.of_nat (length logs) ≠ 0) by (destruct logs; [done|simpl; lia]).
    destruct (Split "." f) as [|x [|number rest]]; [done|done|].
    rewrite decide_False by done. destruct (ParseFloat number) as [value [e|]]; [done|].
    by rewrite (push_emits _ _ _ _ _), <- app_assoc.
  - done.
Qed.

Lemma gatherBinlog_spec_witness :
  let db : DB := λ q, if decide (q = "SELECT @@log_bin") then Ok (mkRows ["@@log_bin"] [[DBytes "1"]])
    else Ok (mkRows ["Log_name"; "File_size"]
           [[DBytes "bin.000001"; DBytes "100"]; [DBytes "bin.000002"; DBytes "11"]]) in
  gatherBinlog 0 (demo_instance false false) (of_queue []) db ∅ = of_queue
    [sample_of 0 "binlog_size_bytes" (VUint64 111) [∅]; sample_of 0 "binlog_file_count" (VUint64 2) [∅];
     sample_of 0 "binlog_file_number" (VFloat64 (float_of_Z 2)) [∅]].
Proof.
  intros db. rewrite (gatherBinlog_spec 0 (demo_instance false false) db ∅
    (mkRows ["Log_name"; "File_size"]
       [[DBytes "bin.000001"; DBytes "100"]; [DBytes "bin.000002"; DBytes "11"]])
    [("bin.000001", 100); ("bin.000002", 11)]);
    [vm_compute; reflexivity | reflexivity | | reflexivity | by left | vm_compute; reflexivity | reflexivity].
  exists 1. split; [vm_compute; reflexivity|lia].
Defined.
