(* ===== verification/Redis.v ===== *)
(** * The redis handler

    internal/handlers/redis: the answer of INFO is cut into lines, and each line
    becomes a field, or samples of its own in the Keyspace, Commandstats and
    Replication sections. The client is go-redis's: [redis_world] is what it
    answers in one gather. The code passes one map of tags by reference: [info]
    functions take it and return what they made of it. *)
From S2P Require Import Prelude GoText GoNum SafeLists Conv Samples Input GoTime.
#[local] Open Scope Z_scope.

(** ** strings.TrimSpace and bufio.Scanner *)

(** [unicode.IsSpace]. *)
Definition IsSpace (r : Z) : bool :=
  bool_decide (r ∈ [9; 10; 11; 12; 13; 32; 133; 160; 5760; 8232; 8233; 8239; 8287; 12288])
  || ((8192 <=? r) && (r <=? 8202)).

(** The runes of a text with the bytes each takes. *)
Fixpoint segments_fuel (fuel : nat) (l : list ascii) : list (Z * list ascii) :=
  match fuel, l with
  | S fuel', _ :: _ => let '(r, w) := DecodeRune l in (r, take w l) :: segments_fuel fuel' (drop w l)
  | _, _ => []
  end.

Fixpoint drop_space (l : list (Z * list ascii)) : list (Z * list ascii) :=
  match l with
  | (r, b) :: l' => if IsSpace r then drop_space l' else l
  | [] => []
  end.

Definition TrimSpace (s : string) : string :=
  let segs := segments_fuel (String.length s) (bytes_of s) in
  of_bytes (concat (snd <$> rev (drop_space (rev (drop_space segs))))).

Definition drop_cr (l : string) : string := TrimSuffix l (String "013" "").

(** [bufio.MaxScanTokenSize]: a longer line ends the scan. *)
Definition max_token : Z := 65536.

Fixpoint scan_pieces (pieces : list string) : list string :=
  match pieces with
  | [] => []
  | [p] => if decide (p = "") then [] else
           if Z.of_nat (String.length p) <? max_token then [drop_cr p] else []
  | p :: ps =>
    if Z.of_nat (String.length p) <? max_token then drop_cr p :: scan_pieces ps else []
  end.

(** The lines a [bufio.Scanner] yields. *)
Definition scan_lines (s : string) : list string := scan_pieces (Split "010" s).

(** ** redis.go *)

Definition redis_inputName : string := "redis".

Record Command := mkCommand { Command_Command : list iface; Command_Metric : string }.

Record redis_Options := mkRedisOptions {
  opt_Addr : string; opt_Username : string; opt_Password : string; opt_PoolSize : Z
}.

(** The client is nil until it is made, and then known by its options. *)
Record Instance := mkRedisInstance {
  Address : string; Port : string; Username : string; Password : string;
  PoolSize : Z;
  Commands : list Command;
  client : option redis_Options
}.

(** What one gather sees: the errors and answers of the client, the seconds
    until after the ping and at the end, and the clock's Unix seconds. *)
Record redis_world := mkRedisWorld {
  rw_loop : nat;
  rw_ping : option error;
  rw_ping_seconds : float64;
  rw_seconds : float64;
  rw_unix : Z;
  rw_info : list string → result string;
  rw_do : list iface → result iface
}.

Definition redis_Init `{FloatToInt} (ins : Instance) (config : ConfigMap) : Instance * option error :=
  let address := Get config "address" in
  let username := Get config "username" in
  let password := Get config "password" in
  let port := Get config "port" in
  match ToInt (VString (Get config "pool_size")) with
  | (_, Some err) =>
    (mkRedisInstance address port username password (PoolSize ins) (Commands ins) (client ins), Some err)
  | (poolSize, None) =>
    (mkRedisInstance address port username password poolSize (Commands ins)
       (Some (mkRedisOptions (address +:+ ":" +:+ port) username password poolSize)), None)
  end.

Section gather.
Context `{RangeOrder}.

(** [slist.PushFront(types.NewSample(inputName, metric, value, tags))]. *)
Definition rpush (n : nat) (tags : gmap string string) (slist : SampleList) (metric : string)
    (value : iface) : SampleList :=
  PushSample n slist redis_inputName metric value [tags].

(** [for k, v := range fields { push(prefix+k, v) }]. *)
Definition push_fields (n : nat) (tags : gmap string string) (prefix : string)
    (fields : gmap string iface) (slist : SampleList) : SampleList :=
  foldl (λ l kv, rpush n tags l (prefix +:+ kv.1) kv.2) slist (range_list n fields).

Definition command_fields (w : redis_world) (cmds : list Command) : gmap string iface :=
  foldl (λ fields cmd,
    match rw_do w (Command_Command cmd) with
    | Err _ => fields
    | Ok val =>
      if decide (Command_Metric cmd = "") then fields
      else match ToFloat64 val with
           | (fval, None) => <[Command_Metric cmd := VFloat64 fval]> fields
           | _ => fields
           end
    end) ∅ cmds.

Definition gatherCommandValues (w : redis_world) (ins : Instance) (slist : SampleList)
    (tags : gmap string string) : SampleList :=
  push_fields (rw_loop w) tags "exec_result_" (command_fields w (Commands ins)) slist.

(** The copy of the tags each line makes. *)
Definition copy_tags (n : nat) (globalTags : gmap string string) : gmap string string :=
  insert_all (range_list n globalTags) ∅.

(** One part of a keyspace line: [kv[1]] is read without looking whether the
    part has a [=]. *)
Definition keyspace_part (fields : gmap string iface) (dbp : string) :
    outcome (gmap string iface) :=
  match Split "=" dbp with
  | k :: v :: _ =>
    Done match ParseInt v 10 with
         | (ival, None) => <[k := VInt64 ival]> fields
         | _ => fields
         end
  | _ => Panic "index out of range"
  end.

Fixpoint keyspace_parts (parts : list string) (fields : gmap string iface) :
    outcome (gmap string iface) :=
  match parts with
  | [] => Done fields
  | p :: ps => fields ← keyspace_part fields p; keyspace_parts ps fields
  end.

Definition gatherKeyspaceLine (n : nat) (name line : string) (slist : SampleList)
    (globalTags : gmap string string) : outcome SampleList :=
  if Contains line "keys=" then
    let tags := <["db" := name]> (copy_tags n globalTags) in
    fields ← keyspace_parts (Split "," line) ∅;
    Done (push_fields n tags "keyspace_" fields slist)
  else Done slist.

Definition cmdstat_part (fields : gmap string iface) (part : string) : gmap string iface :=
  match Split "=" part with
  | [k; v] =>
    if decide (k = "calls" ∨ k = "usec") then
      match ParseInt v 10 with (ival, None) => <[k := VInt64 ival]> fields | _ => fields end
    else if decide (k = "usec_per_call") then
      match ParseFloat v with (fval, None) => <[k := VFloat64 fval]> fields | _ => fields end
    else fields
  | _ => fields
  end.

Definition gatherCommandstateLine (n : nat) (name line : string) (slist : SampleList)
    (globalTags : gmap string string) : SampleList :=
  if HasPrefix name "cmdstat" then
    let tags := <["command" := TrimPrefix name "cmdstat_"]> (copy_tags n globalTags) in
    push_fields n tags "cmdstat_" (foldl cmdstat_part ∅ (Split "," line)) slist
  else slist.

Definition replication_part (st : gmap string string * gmap string iface) (part : string) :
    gmap string string * gmap string iface :=
  let '(tags, fields) := st in
  match Split "=" part with
  | [k; v] =>
    if decide (k = "ip") then (<["replica_ip" := v]> tags, fields)
    else if decide (k = "port") then (<["replica_port" := v]> tags, fields)
    else if decide (k = "state") then (tags, fields)
    else match ParseInt v 10 with
         | (ival, None) => (tags, <[k := VInt64 ival]> fields)
         | _ => (tags, fields)
         end
  | _ => (tags, fields)
  end.

Definition gatherReplicationLine (n : nat) (name line : string) (slist : SampleList)
    (globalTags : gmap string string) : SampleList :=
  let tags := <["replica_id" := TrimLeft name "slave"]> (copy_tags n globalTags) in
  let '(tags, fields) := foldl replication_part (tags, ∅) (Split "," line) in
  push_fields n tags "replication_" fields slist.

(** [^slave\d+]. *)
Definition replicationSlaveMetricPrefix (name : string) : bool :=
  match re_lit (bytes_of "slave") (bytes_of name) with
  | Some l => match re_digits l with Some _ => true | None => false end
  | None => false
  end.

(** The variables of the loop over the lines. *)
Record info_state := mkInfo {
  section : string;
  fields : gmap string iface;
  keyspaceHits : Z;
  keyspaceMisses : Z;
  info_tags : gmap string string;
  info_slist : SampleList
}.

Definition set_section (st : info_state) (s : string) : info_state :=
  mkInfo s (fields st) (keyspaceHits st) (keyspaceMisses st) (info_tags st) (info_slist st).
Definition set_fields (st : info_state) (f : gmap string iface) : info_state :=
  mkInfo (section st) f (keyspaceHits st) (keyspaceMisses st) (info_tags st) (info_slist st).
Definition set_slist (st : info_state) (l : SampleList) : info_state :=
  mkInfo (section st) (fields st) (keyspaceHits st) (keyspaceMisses st) (info_tags st) l.

Definition set_field (st : info_state) (name : string) (v : iface) : info_state :=
  set_fields st (<[name := v]> (fields st)).

(** The value of an integer field, and what depends on it. *)
Definition int_field (unix : Z) (st : info_state) (name : string) (ival : Z) : info_state :=
  let st :=
    if decide (name = "keyspace_hits") then
      mkInfo (section st) (fields st) ival (keyspaceMisses st) (info_tags st) (info_slist st)
    else if decide (name = "keyspace_misses") then
      mkInfo (section st) (fields st) (keyspaceHits st) ival (info_tags st) (info_slist st)
    else if decide (name = "rdb_last_save_time") then
      set_field st "rdb_last_save_time_elapsed" (VInt64 (wrap64 (unix - ival)))
    else st in
  set_field st name (VInt64 ival).

Definition value_line (unix : Z) (st : info_state) (name part : string) : info_state :=
  let val := TrimSuffix (TrimSpace part) "%" in
  match ParseInt val 10 with
  | (ival, None) => int_field unix st name ival
  | _ =>
    match ParseFloat val with
    | (fval, None) => set_field st name (VFloat64 fval)
    | _ =>
      match ToFloat64 (VString val) with
      | (fval, None) => set_field st name (VFloat64 fval)
      | _ =>
        if decide (name = "role") then
          mkInfo (section st) (fields st) (keyspaceHits st) (keyspaceMisses st)
            (<["replica_role" := val]> (info_tags st)) (info_slist st)
        else st
      end
    end
  end.

Definition skipped (section name : string) : bool :=
  bool_decide (section = "Server" ∧ name ≠ "uptime_in_seconds")
  || HasPrefix name "master_replid" || bool_decide (name = "mem_allocator")
  || HasSuffix name "_human".

(** A line that is neither empty nor a comment. *)
Definition data_line (n : nat) (unix : Z) (st : info_state) (line : string) : outcome info_state :=
  match SplitN2 ":" line with
  | name :: part :: _ =>
    if skipped (section st) name then Done st
    else if decide (section st = "Keyspace") then
      l ← gatherKeyspaceLine n name (TrimSpace part) (info_slist st) (info_tags st);
      Done (set_slist st l)
    else if decide (section st = "Commandstats") then
      Done (set_slist st (gatherCommandstateLine n name (TrimSpace part) (info_slist st) (info_tags st)))
    else if bool_decide (section st = "Replication") && replicationSlaveMetricPrefix name then
      Done (set_slist st (gatherReplicationLine n name (TrimSpace part) (info_slist st) (info_tags st)))
    else Done (value_line unix st name part)
  | _ => Done st
  end.

Definition info_line (n : nat) (unix : Z) (st : info_state) (line : string) : outcome info_state :=
  match line with
  | "" => Done st
  | String c rest =>
    if decide (c = "#"%char) then
      Done match rest with
           | String _ (String _ _ as s) => set_section st s
           | _ => st
           end
    else data_line n unix st line
  end%string.

Fixpoint info_loop (n : nat) (unix : Z) (st : info_state) (lines : list string) : outcome info_state :=
  match lines with
  | [] => Done st
  | line :: lines' => st ← info_line n unix st line; info_loop n unix st lines'
  end.

Definition keyspace_hitrate (hits misses : Z) : float64 :=
  if decide (hits ≠ 0 ∨ misses ≠ 0)
  then f_div (float_of_Z hits) (float_of_Z (wrap64 (hits + misses))) else f_zero.

(** The answer of INFO ALL, or of INFO when that fails or is empty. *)
Definition info_answer (w : redis_world) : result string :=
  match rw_info w ["ALL"] with
  | Ok info => if decide (info = "") then rw_info w [] else Ok info
  | Err _ => rw_info w []
  end.

Definition gatherInfoAll (w : redis_world) (slist : SampleList) (tags : gmap string string) :
    outcome (SampleList * gmap string string) :=
  match info_answer w with
  | Err _ => Done (slist, tags)
  | Ok info =>
    st ← info_loop (rw_loop w) (rw_unix w) (mkInfo "" ∅ 0 0 tags slist) (scan_lines info);
    let fields := <["keyspace_hitrate" :=
                      VFloat64 (keyspace_hitrate (keyspaceHits st) (keyspaceMisses st))]> (fields st) in
    Done (push_fields (rw_loop w) (info_tags st) "" fields (info_slist st), info_tags st)
  end.

(** The deferred push of the scrape time sees the tags as they are then. *)
Definition redis_Gather (ins : Instance) (w : redis_world) (slist : SampleList) :
    outcome (SampleList * option error) :=
  let n := rw_loop w in
  let tags := {["address" := Address ins]} : gmap string string in
  match client ins with
  | None => Panic "nil pointer dereference"
  | Some _ =>
    let slist := rpush n tags slist "ping_use_seconds" (VFloat64 (rw_ping_seconds w)) in
    match rw_ping w with
    | Some err =>
      let slist := rpush n tags slist "up" (VInt 0) in
      Done (rpush n tags slist "scrape_use_seconds" (VFloat64 (rw_seconds w)), Some err)
    | None =>
      let slist := rpush n tags slist "up" (VInt 1) in
      '(slist, tags) ← gatherInfoAll w slist tags;
      let slist := gatherCommandValues w ins slist tags in
      Done (rpush n tags slist "scrape_use_seconds" (VFloat64 (rw_seconds w)), None)
    end
  end.
End gather.

#[export] Instance redis_handler `{RangeOrder} `{FloatToInt} : HandlerFactory Instance redis_world := {|
  Name ins := redis_inputName;
  Init ins config := redis_Init ins config;
  handler_Gather ins w slist :=
    '(slist, err) ← redis_Gather ins w slist; Done (ins, slist, err)
|}.
