(* ===== verification/RedisProps.v ===== *)
(** * Properties of the redis handler *)
From S2P Require Import Prelude GoText GoNum SafeLists Conv Samples Emit Input GoTime Redis.
#[local] Open Scope Z_scope.

Section handler.
Context `{RangeOrder}.
Implicit Types (tags : gmap string string).

Definition redis_sample (n : nat) tags (metric : string) (value : iface) : option Sample :=
  Some (NewSample n redis_inputName metric value [tags]).

Lemma rpush_emits n tags metric value :
  emits (λ l, rpush n tags l metric value) [redis_sample n tags metric value].
Proof. intros q. apply PushFront_of_queue. Qed.

Lemma push_fields_emits n tags prefix fields :
  emits (push_fields n tags prefix fields)
    ((λ kv, redis_sample n tags (prefix +:+ kv.1) kv.2) <$> range_list n fields).
Proof. apply emits_foldl_map. intros kv. apply rpush_emits. Qed.

Lemma rpush_queue n tags q metric value :
  rpush n tags (of_queue q) metric value = of_queue (q ++ [redis_sample n tags metric value]).
Proof. apply rpush_emits. Qed.

Lemma push_fields_queue n tags prefix fields q :
  push_fields n tags prefix fields (of_queue q) =
  of_queue (q ++ ((λ kv, redis_sample n tags (prefix +:+ kv.1) kv.2) <$> range_list n fields)).
Proof. apply push_fields_emits. Qed.

Lemma copy_tags_eq n tags : copy_tags n tags = tags.
Proof. apply insert_all_range_empty. Qed.

(** ** Keyspace lines *)

Definition has_equals (part : string) : Prop := "="%char ∈ bytes_of part.

#[export] Instance has_equals_dec part : Decision (has_equals part).
Proof. unfold has_equals. apply _. Defined.

Lemma Split_two sep s : sep ∈ bytes_of s → ∃ a b rest, Split sep s = a :: b :: rest.
Proof.
  induction s as [|c s IH]; simpl; [by intros ?%elem_of_nil|].
  intros [->|Hs]%elem_of_cons.
  - destruct (ascii_dec c c) as [_|]; [|done]. pose proof (Split_not_nil c s).
    destruct (Split c s) as [|b rest]; [done|]. by eexists _, _, _.
  - destruct (IH Hs) as (a & b & rest & ->). destruct (ascii_dec c sep); by eexists _, _, _.
Qed.

Lemma keyspace_part_panic fields p : is_panic (keyspace_part fields p) ↔ ¬ has_equals p.
Proof.
  unfold keyspace_part, has_equals. split.
  - intros [s Hs] Hin. destruct (Split_two _ _ Hin) as (a & b & rest & He). by rewrite He in Hs.
  - intros Hn. rewrite Split_no_sep by done. by eexists.
Qed.

Lemma keyspace_parts_panic parts fields :
  is_panic (keyspace_parts parts fields) ↔ Exists (λ p, ¬ has_equals p) parts.
Proof.
  revert fields. induction parts as [|p parts IH]; intros fields; simpl.
  - split; [by intros [? ?]|]. intros He. inversion He.
  - rewrite Exists_cons, <- (keyspace_part_panic fields p).
    destruct (keyspace_part fields p) as [f|s]; simpl.
    + rewrite IH. split; [by right|]. intros [[? ?]|?]; done.
    + split; [by left|]. intros _. by eexists.
Qed.

(** How redis prints the fields of a line. *)
Definition print_field (kz : string * Z) : string := kz.1 +:+ "=" +:+ Itoa kz.2.
Definition print_fields (l : list (string * Z)) : string := Join "," (print_field <$> l).

Definition clean_key (k : string) : Prop := ","%char ∉ bytes_of k ∧ "="%char ∉ bytes_of k.

Lemma Split_field k z :
  clean_key k → Split "=" (print_field (k, z)) = [k; Itoa z].
Proof.
  intros [_ He]. unfold print_field. simpl.
  change (k +:+ "=" +:+ Itoa z) with (k +:+ String "=" (Itoa z)).
  rewrite Split_app_sep by done. by rewrite Split_no_sep by (apply Itoa_clean; done).
Qed.

Lemma keyspace_parts_print l fields :
  Forall (λ kz, clean_key kz.1 ∧ is_int64 kz.2) l →
  keyspace_parts (print_field <$> l) fields =
    Done (foldl (λ m kz, <[kz.1 := VInt64 kz.2]> m) fields l).
Proof.
  intros Hl. revert fields. induction Hl as [|[k z] l [Hk Hz] Hl IH]; intros fields; csimpl; [done|].
  unfold keyspace_part. rewrite Split_field by done. rewrite ParseInt_Itoa by done. simpl. apply IH.
Qed.

Lemma print_fields_split l :
  l ≠ [] → Forall (λ kz, clean_key kz.1) l → Split "," (print_fields l) = print_field <$> l.
Proof.
  intros Hn Hl. apply Split_Join; [by destruct l|]. apply Forall_fmap.
  eapply Forall_impl; [exact Hl|]. intros [k z] [Hc _]. simpl. unfold print_field. simpl.
  rewrite !bytes_of_app, !not_elem_of_app. split_and!; [done| |apply Itoa_clean; done].
  intros Hin. apply list_elem_of_singleton in Hin. done.
Qed.
End handler.

(** ** The loop over the lines *)

Section info.
Context `{RangeOrder}.
Implicit Types (st : info_state).

Definition st_at st (q : list (option Sample)) : info_state := set_slist st (of_queue q).

(** A step that either crashes whatever the list holds, or adds to it. *)
Definition info_appends (g : info_state → outcome info_state) : Prop := ∀ st,
  (∃ s, ∀ q, g (st_at st q) = Panic s) ∨
  ∃ st' out, ∀ q, g (st_at st q) = Done (st_at st' (q ++ out)).

Lemma st_at_set_list st f out q :
  emits f out → set_slist (st_at st q) (f (of_queue q)) = st_at st (q ++ out).
Proof. intros Hf. unfold st_at, set_slist. simpl. by rewrite Hf. Qed.

Lemma gatherKeyspaceLine_cases n name line tags :
  (∃ s, ∀ q, gatherKeyspaceLine n name line (of_queue q) tags = Panic s) ∨
  ∃ out, ∀ q, gatherKeyspaceLine n name line (of_queue q) tags = Done (of_queue (q ++ out)).
Proof.
  unfold gatherKeyspaceLine. destruct (Contains line "keys=");
    [|right; exists []; intros q; by rewrite app_nil_r].
  destruct (keyspace_parts (Split "," line) ∅) as [fields|s]; simpl; [|left; by exists s].
  right. eexists. intros q. by rewrite push_fields_queue.
Qed.

Lemma gatherCommandstateLine_appends n name line tags :
  appends (λ l, gatherCommandstateLine n name line l tags).
Proof.
  unfold gatherCommandstateLine. destruct (HasPrefix name "cmdstat"); [|apply appends_id].
  eexists. apply push_fields_emits.
Qed.

Lemma gatherReplicationLine_appends n name line tags :
  appends (λ l, gatherReplicationLine n name line l tags).
Proof.
  unfold gatherReplicationLine. destruct (foldl _ _ _) as [tags' fields].
  eexists. apply push_fields_emits.
Qed.

Lemma value_line_at unix st q name part :
  value_line unix (st_at st q) name part = st_at (value_line unix st name part) q.
Proof.
  unfold value_line, int_field. cbn zeta. repeat case_match; done.
Qed.

Lemma data_line_appends n unix line : info_appends (λ st, data_line n unix st line).
Proof.
  intros st. unfold data_line. assert (Hid : ∃ st' out, ∀ q, Done (st_at st q) = Done (st_at st' (q ++ out)))
    by (exists st, []; intros q; by rewrite app_nil_r).
  destruct (SplitN2 ":" line) as [|name [|part rest]]; [by right|by right|].
  cbn [section st_at set_slist info_slist info_tags].
  destruct (skipped (section st) name); [by right|].
  case_decide.
  { destruct (gatherKeyspaceLine_cases n name (TrimSpace part) (info_tags st)) as [[s Hs]|[out Ho]].
    - left. exists s. intros q. by rewrite Hs.
    - right. exists st, out. intros q. rewrite Ho. done. }
  case_decide.
  { destruct (gatherCommandstateLine_appends n name (TrimSpace part) (info_tags st)) as [out Ho].
    right. exists st, out. intros q. f_equal. exact (st_at_set_list st _ out q Ho). }
  destruct (bool_decide (section st = "Replication") && replicationSlaveMetricPrefix name).
  { destruct (gatherReplicationLine_appends n name (TrimSpace part) (info_tags st)) as [out Ho].
    right. exists st, out. intros q. f_equal. exact (st_at_set_list st _ out q Ho). }
  right. exists (value_line unix st name part), []. intros q.
  rewrite app_nil_r. f_equal. apply value_line_at.
Qed.

Lemma info_line_appends n unix line : info_appends (λ st, info_line n unix st line).
Proof.
  intros st. unfold info_line. destruct line as [|c rest].
  { right. exists st, []. intros q. by rewrite app_nil_r. }
  case_decide; [|by apply data_line_appends].
  destruct rest as [|c1 [|c2 rest]]; right; [exists st, []|exists st, []|eexists (set_section st _), []];
    intros q; by rewrite app_nil_r.
Qed.

Lemma info_loop_appends n unix lines : info_appends (λ st, info_loop n unix st lines).
Proof.
  induction lines as [|line lines IH]; intros st; cbn [info_loop].
  { right. exists st, []. intros q. by rewrite app_nil_r. }
  destruct (info_line_appends n unix line st) as [[s Hs]|(st1 & out1 & H1)].
  { left. exists s. intros q. by rewrite Hs. }
  destruct (IH st1) as [[s Hs]|(st2 & out2 & H2)].
  - left. exists s. intros q. rewrite H1. simpl. apply Hs.
  - right. exists st2, (out1 ++ out2). intros q. rewrite H1. simpl. rewrite H2. by rewrite app_assoc.
Qed.

Lemma gatherInfoAll_cases w tags :
  (∃ s, ∀ q, gatherInfoAll w (of_queue q) tags = Panic s) ∨
  ∃ out tags', ∀ q, gatherInfoAll w (of_queue q) tags = Done (of_queue (q ++ out), tags').
Proof.
  unfold gatherInfoAll. destruct (info_answer w) as [info|e];
    [|right; exists [], tags; intros q; by rewrite app_nil_r].
  destruct (info_loop_appends (rw_loop w) (rw_unix w) (scan_lines info) (mkInfo "" ∅ 0 0 tags NewSampleList))
    as [[s Hs]|(st & out & Hd)].
  - left. exists s. intros q. specialize (Hs q). unfold st_at, set_slist in Hs. simpl in Hs. by rewrite Hs.
  - right. eexists _, _. intros q. specialize (Hd q). unfold st_at, set_slist in Hd. simpl in Hd.
    rewrite Hd. simpl. rewrite push_fields_queue, <- app_assoc. done.
Qed.

(** What a gather adds: the ping's time, up, what INFO gave, and last the time
    it took. *)
Lemma redis_Gather_cases ins w :
  (∃ s, ∀ q, redis_Gather ins w (of_queue q) = Panic s) ∨
  ∃ body tags', ∀ q, redis_Gather ins w (of_queue q) =
    Done (of_queue (q ++ redis_sample (rw_loop w) {["address" := Address ins]} "ping_use_seconds"
                           (VFloat64 (rw_ping_seconds w))
                      :: redis_sample (rw_loop w) {["address" := Address ins]} "up"
                           (VInt (if rw_ping w then 0 else 1))
                      :: body ++ [redis_sample (rw_loop w) tags' "scrape_use_seconds"
                                    (VFloat64 (rw_seconds w))]), rw_ping w).
Proof.
  unfold redis_Gather. cbn zeta. destruct (client ins) as [opts|]; [|left; by eexists].
  set (tags := {["address" := Address ins]}).
  destruct (rw_ping w) as [err|].
  { right. exists [], tags. intros q. rewrite !rpush_queue, <- !app_assoc. done. }
  destruct (gatherInfoAll_cases w tags) as [[s Hs]|(out & tags' & Hi)].
  { left. exists s. intros q. rewrite !rpush_queue, Hs. done. }
  right. unfold gatherCommandValues.
  set (vals := (λ kv, redis_sample (rw_loop w) tags' ("exec_result_" +:+ kv.1) kv.2) <$>
                 range_list (rw_loop w) (command_fields w (Commands ins))).
  exists (out ++ vals), tags'. intros q. rewrite !rpush_queue, Hi. simpl.
  rewrite push_fields_queue, rpush_queue. fold vals. by rewrite <- !app_assoc.
Qed.

#[export] Instance redis_laws `{FloatToInt} : HandlerLaws Instance redis_world.
Proof.
  split; [done| |].
  - intros ins w l ins' l' e. simpl. destruct (redis_Gather ins w l) as [[? ?]|]; [|done].
    by intros [= <- _ _].
  - intros ins w q ins' l' e. simpl.
    destruct (redis_Gather_cases ins w) as [[s Hs]|(body & tags' & Hg)]; [by rewrite Hs|].
    rewrite Hg. intros [= _ <- _]. by eexists.
Qed.

(** ** Where a gather can crash *)

(** A data line whose value the keyspace parser cannot read. *)
Definition bad_keyspace_line (line : string) : Prop :=
  ∃ name part rest, SplitN2 ":" line = name :: part :: rest ∧
    Contains (TrimSpace part) "keys=" = true ∧ Exists (λ p, ¬ has_equals p) (Split "," (TrimSpace part)).

Lemma gatherKeyspaceLine_panic n name line l tags :
  is_panic (gatherKeyspaceLine n name line l tags) ↔
  Contains line "keys=" = true ∧ Exists (λ p, ¬ has_equals p) (Split "," line).
Proof.
  unfold gatherKeyspaceLine. destruct (Contains line "keys=") eqn:Hc; cycle 1.
  { split; [by intros [? ?]|by intros [? ?]]. }
  rewrite <- (keyspace_parts_panic _ ∅). destruct (keyspace_parts (Split "," line) ∅) as [f|s]; simpl.
  - split; [by intros [? ?]|by intros [_ [? ?]]].
  - split; [intros _; split; [done|by exists s]|]. intros _. by exists s.
Qed.

(** The title of a comment, and the section that lines belong to. *)
Definition title (line : string) : option string :=
  match line with
  | String "#" (String _ (String _ _ as s)) => Some s
  | _ => None
  end.

Definition section_after (start : string) (lines : list string) : string :=
  default start (last (omap title lines)).

Definition is_data (line : string) : Prop :=
  match line with String c _ => c ≠ "#"%char | "" => False end%string.

(** A line of the keyspace section that the loop cannot read. *)
Definition crash_line (line : string) : Prop :=
  is_data line ∧ skipped "Keyspace" (default "" (head (SplitN2 ":" line))) = false ∧ bad_keyspace_line line.

Lemma data_line_panic n unix st line :
  is_panic (data_line n unix st line) ↔
  section st = "Keyspace" ∧ skipped "Keyspace" (default "" (head (SplitN2 ":" line))) = false ∧
  bad_keyspace_line line.
Proof.
  unfold data_line, bad_keyspace_line. destruct (SplitN2 ":" line) as [|name [|part rest]].
  1-2: split; [by intros [? ?]|intros (_ & _ & ? & ? & ? & ? & _); done].
  change (default "" (head (name :: part :: rest))) with name.
  assert (section st = "Keyspace" ∨ section st ≠ "Keyspace") as [Hs|Hs] by (destruct (decide (section st = "Keyspace")); auto).
  2: { split; [|by intros [? _]]. by repeat case_match; intros [? ?]. }
  rewrite Hs. destruct (skipped "Keyspace" name); [split; [by intros [? ?]|by intros (_ & ? & _)]|].
  rewrite decide_True by done.
  assert (is_panic (l ← gatherKeyspaceLine n name (TrimSpace part) (info_slist st) (info_tags st);
                    Done (set_slist st l)) ↔
          is_panic (gatherKeyspaceLine n name (TrimSpace part) (info_slist st) (info_tags st))) as ->.
  { destruct (gatherKeyspaceLine _ _ _ _ _); simpl; [split; by intros [? ?]|].
    split; intros _; by eexists. }
  rewrite gatherKeyspaceLine_panic. split.
  - intros Hp. split_and!; [done..|]. by eexists _, _, _.
  - intros (_ & _ & ? & ? & ? & ? & Hp). by simplify_eq.
Qed.

Lemma data_line_section n unix st line st' :
  data_line n unix st line = Done st' → section st' = section st.
Proof.
  unfold data_line, value_line, int_field, set_field, set_fields, set_slist.
  destruct (SplitN2 ":" line) as [|name [|part rest]]; [by intros [= <-]..|].
  destruct (skipped (section st) name); [by intros [= <-]|].
  case_decide; [by destruct (gatherKeyspaceLine _ _ _ _ _); simpl; [intros [= <-]|]|].
  by repeat case_match; intros [= <-].
Qed.

Lemma info_line_panic n unix st line :
  is_panic (info_line n unix st line) ↔ section st = "Keyspace" ∧ crash_line line.
Proof.
  unfold info_line, crash_line, is_data. destruct line as [|c rest]; [split; [by intros [? ?]|tauto]|].
  case_decide; [split; [by intros [? ?]|tauto]|]. rewrite data_line_panic. tauto.
Qed.

Lemma info_line_section n unix st line st' :
  info_line n unix st line = Done st' → section st' = section_after (section st) [line].
Proof.
  unfold info_line. destruct line as [|c rest]; [by intros [= <-]|].
  case_decide as Hc; [subst c; by destruct rest as [|? [|? ?]]; intros [= <-]|].
  intros ->%data_line_section. assert (title (String c rest) = None) as Ht.
  { destruct (title (String c rest)) eqn:Ht; [|done]. exfalso. apply Hc.
    revert Ht. unfold title. by repeat case_match; simplify_eq. }
  unfold section_after. unfold omap, list_omap. by rewrite Ht.
Qed.

Lemma section_after_app start l1 l2 :
  section_after start (l1 ++ l2) = section_after (section_after start l1) l2.
Proof.
  unfold section_after. rewrite omap_app, last_app. by destruct (last (omap title l2)).
Qed.

Lemma info_loop_panic n unix st lines :
  is_panic (info_loop n unix st lines) ↔
  ∃ before line after, lines = before ++ line :: after ∧
    section_after (section st) before = "Keyspace" ∧ crash_line line.
Proof.
  revert st. induction lines as [|line lines IH]; intros st; cbn [info_loop].
  { split; [by intros [? ?]|by intros ([] & ? & ? & ? & _)]. }
  destruct (info_line n unix st line) as [st'|s] eqn:Hl; simpl.
  - rewrite IH, (info_line_section _ _ _ _ _ Hl). split.
    + intros (before & bad & after & -> & Hs & Hb). exists (line :: before), bad, after.
      split_and!; [done| |done]. by rewrite <- section_after_app in Hs.
    + intros ([|line' before] & bad & after & [= -> ->] & Hs & Hb).
      * exfalso. assert (is_panic (info_line n unix st bad)) as [s Hp] by by apply info_line_panic.
        by rewrite Hl in Hp.
      * exists before, bad, after. split_and!; [done| |done]. by rewrite <- section_after_app.
  - split; [intros _|intros _; by eexists].
    destruct (proj1 (info_line_panic n unix st line) ltac:(rewrite Hl; by eexists)) as [Hs Hb].
    by exists [], line, lines.
Qed.
End info.

(** ** Properties *)

(** A redis gather crashes exactly when the handler was never configured, or
    the server answers the ping and its INFO has, in the section Keyspace, a line
    that is not left out, whose value contains keys= and, among its
    comma-separated parts, one without an equals sign. *)
Theorem redis_Gather_crash `{RangeOrder} ins w q :
  is_panic (redis_Gather ins w (of_queue q)) ↔
  client ins = None ∨
  rw_ping w = None ∧ ∃ info before line after,
    info_answer w = Ok info ∧ scan_lines info = before ++ line :: after ∧
    section_after "" before = "Keyspace" ∧ crash_line line.
Proof.
  unfold redis_Gather. cbn zeta. destruct (client ins) as [opts|].
  2: { split; [by left|]. intros _. by eexists. }
  destruct (rw_ping w) as [e|]; [split; [by intros [? ?]|by intros [?|[? _]]]|].
  set (l := rpush _ _ _ _ _). unfold gatherInfoAll.
  destruct (info_answer w) as [info|e];
    [|split; [by intros [? ?]|by intros [?|(_ & ? & ? & ? & ? & ? & _)]]].
  set (st := mkInfo _ _ _ _ _ l).
  pose proof (info_loop_panic (rw_loop w) (rw_unix w) st (scan_lines info)) as Hp.
  destruct (info_loop (rw_loop w) (rw_unix w) st (scan_lines info)) as [st'|s]; simpl.
  - split; [by intros [? ?]|]. intros [?|(_ & info' & before & line & after & [= <-] & Hr)]; [done|].
    destruct (proj2 Hp) as [s Hs]; [by exists before, line, after|done].
  - split; [intros _; right|intros _; by eexists]. split; [done|].
    destruct (proj1 Hp ltac:(by eexists)) as (before & line & after & Hr). by exists info, before, line, after.
Qed.

#[local] Instance redis_demo_order : RangeOrder := canonical_order.

Definition redis_demo (client : option redis_Options) : Instance :=
  mkRedisInstance "h" "6379" "" "" 10 [] client.

Definition redis_demo_world (info : string) : redis_world :=
  mkRedisWorld 0 None f_zero f_one 0 (λ _, Ok info) (λ _, Err (Errorf "nil")).

(** An expiry without its value, where redis prints expires=0. *)
Example redis_crash_line : crash_line "db0:keys=2,expires".
Proof.
  split; [done|]. split; [reflexivity|]. exists "db0", "keys=2,expires", []. split; [reflexivity|].
  split; [reflexivity|]. apply Exists_exists. exists "expires". split; [right; left|].
  by apply (bool_decide_unpack _).
Qed.

Lemma redis_Gather_crash_witness :
  let ins := redis_demo (Some (mkRedisOptions "h:6379" "" "" 10)) in
  let w := redis_demo_world ("# Keyspace" +:+ String "010" "db0:keys=2,expires") in
  is_panic (redis_Gather ins w (of_queue [])).
Proof.
  intros ins w. apply (redis_Gather_crash ins w []). right. split; [reflexivity|].
  exists ("# Keyspace" +:+ String "010" "db0:keys=2,expires"), ["# Keyspace"], "db0:keys=2,expires", [].
  split; [reflexivity|]. split; [vm_compute; reflexivity|]. split; [reflexivity|exact redis_crash_line].
Defined.

(** A keyspace line as redis prints it is read back. For distinct keys
    without commas and equals signs, the first of them keys, and 64-bit values,
    the line gives exactly one sample per key, with its value, labelled with
    the database; it never crashes. *)
Theorem keyspace_roundtrip `{RangeOrder} n name tags (l : list (string * Z)) rest v :
  l = ("keys", v) :: rest → NoDup l.*1 → Forall (λ kz, clean_key kz.1 ∧ is_int64 kz.2) l →
  ∃ out, (∀ q, gatherKeyspaceLine n name (print_fields l) (of_queue q) tags = Done (of_queue (q ++ out))) ∧
    out ≡ₚ (λ kz, redis_sample n (<["db" := name]> tags) ("keyspace_" +:+ kz.1) (VInt64 kz.2)) <$> l.
Proof.
  intros Hl Hnd Hf. unfold gatherKeyspaceLine.
  assert (Hc : Contains (print_fields l) "keys=" = true).
  { subst l. apply Contains_prefix. unfold print_fields.
    assert (Hx : ∃ x, Join "," (print_field <$> ("keys", v) :: rest) = "keys=" +:+ x)
      by (destruct rest; by eexists).
    destruct Hx as [x ->]. apply HasPrefix_app. }
  rewrite Hc, print_fields_split by (subst l; done || (eapply Forall_impl; [exact Hf|by intros ? [? _]])).
  rewrite keyspace_parts_print by done. simpl. rewrite copy_tags_eq.
  set (fields := foldl (λ m kz, <[kz.1 := VInt64 kz.2]> m) ∅ l).
  eexists. split; [intros q; by rewrite push_fields_queue|].
  rewrite range_list_perm.
  assert (Hfields : fields = list_to_map ((λ kz, (kz.1, VInt64 kz.2)) <$> l)).
  { unfold fields. transitivity (list_to_map ((λ kz, (kz.1, VInt64 kz.2)) <$> l) ∪ ∅ : gmap string iface);
      [|apply (right_id_L ∅ (∪))].
    generalize (∅ : gmap string iface) as acc. clear Hf Hc Hl.
    revert Hnd. induction l as [|[k z] l IH]; intros Hnd acc; csimpl; [by rewrite (left_id_L ∅ (∪))|].
    inversion_clear Hnd as [|? ? Hk Hnd']. rewrite IH by done.
    rewrite <- insert_union_l, <- insert_union_r; [done|].
    apply not_elem_of_list_to_map_1. by rewrite <- list_fmap_compose. }
  rewrite Hfields, map_to_list_to_map by by rewrite <- list_fmap_compose.
  by rewrite <- list_fmap_compose.
Qed.

Lemma keyspace_roundtrip_witness :
  let l := [("keys", 2); ("expires", 0); ("avg_ttl", -1)] in
  print_fields l = "keys=2,expires=0,avg_ttl=-1" ∧
  ∃ out, (∀ q, @gatherKeyspaceLine canonical_order 0 "db0" (print_fields l) (of_queue q) ∅ =
               Done (of_queue (q ++ out))) ∧ length out = 3%nat.
Proof.
  intros l. split; [vm_compute; reflexivity|].
  destruct (@keyspace_roundtrip canonical_order 0 "db0" ∅ l [("expires", 0); ("avg_ttl", -1)] 2 eq_refl)
    as (out & Ho & Hp).
  - apply (bool_decide_unpack _). vm_compute. exact I.
  - rewrite Forall_forall. intros kz Hin. unfold l in Hin. rewrite !elem_of_cons, elem_of_nil in Hin.
    destruct Hin as [->|[->|[->|[]]]]; split_and!;
      try (apply (bool_decide_unpack _); vm_compute; exact I); split; lia.
  - exists out. split; [exact Ho|]. rewrite Hp. reflexivity.
Defined.

(** A redis gather that does not crash adds, whatever the list held, the
    time of the ping, up (0 with the ping's error, 1 otherwise), the samples of
    INFO and of the commands, and last the time it took; its error is the
    ping's, and the handler is unchanged. *)
Theorem redis_Gather_spec `{RangeOrder} `{FloatToInt} (ins : Instance) (w : redis_world) :
  (∃ s, ∀ q, handler_Gather ins w (of_queue q) = Panic s) ∨
  ∃ body tags', ∀ q, handler_Gather ins w (of_queue q) =
    Done (ins, of_queue (q ++ redis_sample (rw_loop w) {["address" := Address ins]} "ping_use_seconds"
                           (VFloat64 (rw_ping_seconds w))
                      :: redis_sample (rw_loop w) {["address" := Address ins]} "up"
                           (VInt (if rw_ping w then 0 else 1))
                      :: body ++ [redis_sample (rw_loop w) tags' "scrape_use_seconds"
                                    (VFloat64 (rw_seconds w))]), rw_ping w).
Proof.
  destruct (redis_Gather_cases ins w) as [[s Hs]|(body & tags' & Hg)].
  - left. exists s. intros q. simpl. by rewrite Hs.
  - right. exists body, tags'. intros q. simpl. by rewrite Hg.
Qed.
