(* ===== verification/Postgres.v ===== *)
(** * The postgresql handler

    internal/handlers/postgresql/postgresql.go, one definition per function. A
    gather sees the server as [pg_world]: what opening the pool and each
    statement give, and in which order the goroutines that scrape the custom
    metrics get to push ([pw_schedule]). pgx's configuration of a connection is
    a parameter ([PgxDriver]). The field [db] is left out: it holds the pool of
    the gather that runs, which closes it. *)
From S2P Require Import Prelude Interleave GoText GoNum SafeLists Conv Samples Input GoTime GoUrl GoFmt.
#[local] Open Scope Z_scope.

(** ** What the driver returns *)

(** [driver.Value]: bytes and times are known by what [fmt.Sprint] prints. *)
Inductive dvalue :=
| DvNil | DvInt64 (z : Z) | DvFloat64 (f : float64) | DvBool (b : bool) | DvString (s : string)
| DvOther (sprint : string).

Definition to_iface (v : dvalue) : iface :=
  match v with
  | DvNil => VNil
  | DvInt64 z => VInt64 z
  | DvFloat64 f => VFloat64 f
  | DvBool b => VBool b
  | DvString s => VString s
  | DvOther s => VOther s
  end.

(** [fmt.Sprint] of one value. *)
Definition Sprint_value (v : dvalue) : string :=
  match v with
  | DvNil => "<nil>"
  | DvInt64 z => Itoa z
  | DvFloat64 f => FormatFloat f
  | DvBool b => if b then "true" else "false"
  | DvString s => s
  | DvOther s => s
  end.

(** The answer to a statement: what [Columns] gives, and at each [Next] the
    row, or the error [Scan] meets there. *)
Record pgRows := mkPgRows {
  pg_Columns : result (list string);
  pg_Rows : list (result (list dvalue))
}.

(** [Scan] into [dest] variables of type interface{}, which take any value. *)
Definition Scan (dest : nat) (row : result (list dvalue)) : result (list dvalue) :=
  match row with
  | Err e => Err e
  | Ok vals =>
    if decide (length vals = dest) then Ok vals
    else Err (Errorf "sql: wrong number of destination arguments in Scan")
  end.

(** [pgx.ConnConfig]; [RegisterConnConfig] makes a new name at each call. *)
Class PgxDriver := {
  ConnConfig : Type;
  ParseConfig : string → result ConnConfig;
  cc_Host : ConnConfig → string;
  set_Host : ConnConfig → string → ConnConfig;
  set_PreferSimpleProtocol : ConnConfig → ConnConfig;
  RegisterConnConfig : nat → ConnConfig → string
}.

(** ** postgresql.go *)

Definition pg_inputName : string := "postgresql".

Record MetricConfig := mkMetricConfig {
  Mesurement : string;
  LabelFields : list string;
  MetricFields : list string;
  FieldToAppend : string;
  Timeout : Z;
  Request : string;
  IgnoreZeroResult : bool
}.

Record Instance := mkPgInstance {
  Address : string;
  MaxLifetime : Z;
  IsPgBouncer : bool;
  OutputAddress : string;
  Databases : list string;
  IgnoredDatabases : list string;
  PreparedStatements : bool;
  Metrics : list MetricConfig;
  MaxIdle : Z;
  MaxOpen : Z;
  connConfig : string
}.

Definition ignoredColumns : gmap string bool := {["stats_reset" := true]}.

(** [/\.s\.PGSQL\.\d+$]. *)
Definition socket_here (l : bytes) : bool :=
  match re_lit (bytes_of "/.s.PGSQL.") l with
  | Some r => match re_digits r with Some (_, []) => true | _ => false end
  | None => false
  end.

Fixpoint strip_socket (l : bytes) : bytes :=
  if socket_here l then [] else match l with [] => [] | c :: l' => c :: strip_socket l' end.

(** [socketRegexp.ReplaceAllLiteralString(host, "")]. *)
Definition remove_socket (host : string) : string := of_bytes (strip_socket (bytes_of host)).

Definition set_pg (ins : Instance) (address : string) (prepared : bool) (conn : string) : Instance :=
  mkPgInstance address (MaxLifetime ins) (IsPgBouncer ins) (OutputAddress ins) (Databases ins)
    (IgnoredDatabases ins) prepared (Metrics ins) 1 1 conn.

(** [registered] counts the configurations registered so far. The assignment
    to Address for localhost is overwritten before it is read. *)
Definition postgres_Init `{PgxDriver} (registered : nat) (ins : Instance) (config : ConfigMap) :
    Instance * option error :=
  let prepared := negb (IsPgBouncer ins) in
  let localhost := if decide (Address ins = "localhost") then "host=localhost sslmode=disable"
                   else Address ins in
  let ins := set_pg ins localhost prepared (connConfig ins) in
  let ins := set_pg ins (Get config "address") prepared (connConfig ins) in
  match ParseConfig (Address ins) with
  | Err err => (ins, Some err)
  | Ok connConfig =>
    let connConfig := set_Host connConfig (remove_socket (cc_Host connConfig)) in
    let connConfig := if IsPgBouncer ins then set_PreferSimpleProtocol connConfig else connConfig in
    (set_pg ins (Address ins) prepared (RegisterConnConfig registered connConfig), None)
  end.

(** *** Addresses *)

(** The replacer: a backslash before a space, a quote and a backslash. *)
Definition escaper (v : bytes) : bytes :=
  concat ((λ c, if decide (c ∈ [" "; "'"; "\"]%char) then ["\"; c]%char else [c]) <$> v).

Definition accrue (kvs : list string) (k : string) (v : bytes) : list string :=
  if decide (v = []) then kvs else kvs ++ [k +:+ "=" +:+ of_bytes (escaper v)].

Section handler.
Context `{RangeOrder}.

Definition url_kvs (n : nat) (u : URL) : list string :=
  let kvs := match User u with
             | Some user => accrue (accrue [] "user" (user_name user)) "password" (user_password user)
             | None => []
             end in
  let kvs := match SplitHostPort (Host u) with
             | None => accrue kvs "host" (Host u)
             | Some (host, port) => accrue (accrue kvs "host" host) "port" port
             end in
  let kvs := match Path u with [] => kvs | _ :: path => accrue kvs "dbname" path end in
  let q := url_Query (RawQuery u) in
  foldl (λ kvs kv, accrue kvs kv.1 (Values_Get q kv.1)) kvs (range_list n q).

Definition parseURL (n : nat) (uri : string) : result string :=
  match url_Parse (bytes_of uri) with
  | None => Err (Errorf "parse")
  | Some u =>
    if decide (Scheme u ≠ bytes_of "postgres" ∧ Scheme u ≠ bytes_of "postgresql")
    then Err (Errorf ("invalid connection protocol: " +:+ of_bytes (Scheme u)))
    else Ok (Join " " (merge_sort String.le (url_kvs n u)))
  end.

(** [\S]. *)
Definition not_space (c : ascii) : bool :=
  negb (has_byte c [" "; "009"; "010"; "012"; "013"]%char).

Definition secret_keys : list string :=
  ["user"; "password"; "sslcert"; "sslkey"; "sslmode"; "sslrootcert"].

(** Whether the key with its equals sign and one character that is not a space
    are here. *)
Definition key_here (l : bytes) (key : string) : bool :=
  match re_lit (bytes_of (key +:+ "=")) l with
  | Some (c :: _) => not_space c
  | _ => false
  end.

(** Removing every match of [(user|...)=\S+ ?]: a match goes from the key to
    the end of the characters that are no spaces, and takes one blank more.
    [inside] says that a match has begun. *)
Fixpoint kv_strip (inside : bool) (l : bytes) : bytes :=
  match l with
  | [] => []
  | c :: l' =>
    if inside then
      if not_space c then kv_strip true l'
      else if ascii_dec c " " then kv_strip false l' else c :: kv_strip false l'
    else if existsb (key_here l) secret_keys then kv_strip true l'
    else c :: kv_strip false l'
  end.

(** [kvMatcher.ReplaceAllString(s, "")]. *)
Definition strip_secrets (s : string) : string := of_bytes (kv_strip false (bytes_of s)).

Definition SanitizedAddress (n : nat) (ins : Instance) : result string :=
  if decide (OutputAddress ins ≠ "") then Ok (OutputAddress ins)
  else if HasPrefix (Address ins) "postgres://" || HasPrefix (Address ins) "postgresql://" then
    match parseURL n (Address ins) with
    | Err err => Err err
    | Ok canonicalizedAddress => Ok (strip_secrets canonicalizedAddress)
    end
  else Ok (strip_secrets (Address ins)).

(** *** Rows of the statistics views *)

(** [slist.PushSample(inputName, metric, value, labels)]: the sample pushed. *)
Definition pg_sample (n : nat) (metric : string) (value : iface) (labels : gmap string string) :
    option Sample := Some (NewSample n pg_inputName metric value [labels]).

Definition column_names (columns : list string) : gmap string dvalue :=
  insert_all ((λ c, (c, DvNil)) <$> columns) ∅.

Definition database_name (columnMap : gmap string dvalue) : string :=
  match columnMap !! "datname" with
  | None => "postgres"
  | Some (DvString dbNameStr) => dbNameStr
  | Some _ => "postgres_global"
  end.

(** The fields of a row: the columns that are not ignored. *)
Definition row_fields (n : nat) (columnMap : gmap string dvalue) : gmap string dvalue :=
  insert_all (filter (λ kv, ignoredColumns !! kv.1 = None) (range_list n columnMap)) ∅.

(** A column's variable is the one the map holds for its name; there are as
    many variables as the map has names, never more than columns. *)
Definition accRow (n : nat) (ins : Instance) (row : result (list dvalue)) (slist : SampleList)
    (columns : list string) : SampleList * option error :=
  let columnMap := column_names columns in
  let columnVars := take (size columnMap) columns in
  match Scan (length columnVars) row with
  | Err err => (slist, Some err)
  | Ok vals =>
    let columnMap := insert_all (zip columnVars vals) columnMap in
    let dbname := database_name columnMap in
    match SanitizedAddress n ins with
    | Err err => (slist, Some err)
    | Ok tagAddress =>
      let tags := <["db" := dbname]> {["server" := tagAddress]} in
      let fields := row_fields (n + 1) columnMap in
      (foldl (λ l kv, PushFront l (pg_sample n kv.1 (to_iface kv.2) tags)) slist
         (range_list (n + 2) fields), None)
    end
  end.

(** The rows of a statement, until one fails. Each row has three loops. *)
Fixpoint acc_rows (n : nat) (ins : Instance) (columns : list string)
    (rows : list (result (list dvalue))) (slist : SampleList) : SampleList * option error :=
  match rows with
  | [] => (slist, None)
  | row :: rows' =>
    match accRow n ins row slist columns with
    | (slist, Some err) => (slist, Some err)
    | (slist, None) => acc_rows (n + 3) ins columns rows' slist
    end
  end.

Definition acc_query (n : nat) (ins : Instance) (answer : result pgRows) (slist : SampleList) :
    SampleList * option error :=
  match answer with
  | Err err => (slist, Some err)
  | Ok rows =>
    match pg_Columns rows with
    | Err err => (slist, Some err)
    | Ok columns => acc_rows n ins columns (pg_Rows rows) slist
    end
  end.

(** *** Custom metrics *)

Section metrics.
Context `{UnicodeTables}.

Definition cleanName (s : string) : string :=
  let s := ReplaceAll " " "_" s in
  let s := ReplaceAll "(" "" s in
  let s := ReplaceAll ")" "" s in
  let s := ReplaceAll "/" "" s in
  let s := ReplaceAll "*" "" s in
  let s := ReplaceAll "%" "percent" s in
  strings_ToLower s.

Definition add_label (row labels : gmap string string) (label : string) : gmap string string :=
  match row !! label with
  | Some labelValue => <[label := ReplaceAll " " "_" labelValue]> labels
  | None => labels
  end.

Definition row_labels (n : nat) (row : gmap string string) (LabelFields : list string)
    (tags : gmap string string) : gmap string string :=
  foldl (add_label row) (insert_all (range_list n tags) ∅) LabelFields.

(** A column a row does not have reads as the empty text. *)
Definition row_text (row : gmap string string) (column : string) : string :=
  default "" (row !! column).

Definition metric_name (mc : MetricConfig) (row : gmap string string) (column : string) : string :=
  if decide (FieldToAppend mc = "") then Mesurement mc +:+ "_" +:+ column
  else Mesurement mc +:+ "_" +:+ cleanName (row_text row (FieldToAppend mc)) +:+ "_" +:+ column.

(** The samples pushed, in order, and the error that ended the loop. *)
Fixpoint metric_loop (n : nat) (mc : MetricConfig) (row labels : gmap string string)
    (columns : list string) : list (option Sample) * option error :=
  match columns with
  | [] => ([], None)
  | column :: columns' =>
    match ToFloat64 (VString (row_text row column)) with
    | (_, Some err) => ([], Some err)
    | (value, None) =>
      let '(samples, err) := metric_loop n mc row labels columns' in
      (pg_sample n (metric_name mc row column) (VFloat64 value) labels :: samples, err)
    end
  end.

Definition parseRow (n : nat) (row : gmap string string) (mc : MetricConfig)
    (tags : gmap string string) : list (option Sample) * option error :=
  metric_loop n mc row (row_labels n row (LabelFields mc) tags) (MetricFields mc).

(** The map of a row: a column's text under its name in lower case. *)
Definition row_map (cols : list string) (vals : list dvalue) : gmap string string :=
  insert_all (zip_with (λ c v, (strings_ToLower c, Sprint_value v)) cols vals) ∅.

(** A row that cannot be scanned ends the loop, one that cannot be parsed does
    not. *)
Fixpoint metric_rows (n : nat) (mc : MetricConfig) (tags : gmap string string) (cols : list string)
    (rows : list (result (list dvalue))) : list (option Sample) :=
  match rows with
  | [] => []
  | row :: rows' =>
    match Scan (length cols) row with
    | Err _ => []
    | Ok vals => (parseRow n (row_map cols vals) mc tags).1 ++ metric_rows n mc tags cols rows'
    end
  end.

(** What a goroutine meets: whether its deadline had passed when the query
    came back, and the answer. A timeout that is not positive has passed. *)
Definition scrapeMetric (n : nat) (answer : bool * result pgRows) (mc : MetricConfig)
    (tags : gmap string string) : list (option Sample) :=
  if (Timeout mc <=? 0) || answer.1 then []
  else match answer.2 with
       | Err _ => []
       | Ok rows =>
         match pg_Columns rows with
         | Err _ => []
         | Ok cols => metric_rows n mc tags cols (pg_Rows rows)
         end
       end.

(** *** Gather *)

Record pg_world := mkPgWorld {
  pw_loop : nat;
  pw_open : option error;
  pw_query : string → result pgRows;
  pw_request : nat → bool * result pgRows;
  pw_schedule : list nat
}.

Definition database_query (ins : Instance) : string :=
  match Databases ins, IgnoredDatabases ins with
  | [], [] => "SELECT * FROM pg_stat_database"
  | _, _ :: _ =>
    "SELECT * FROM pg_stat_database WHERE datname NOT IN ('" +:+
    Join "','" (IgnoredDatabases ins) +:+ "')"
  | _ :: _, [] =>
    "SELECT * FROM pg_stat_database WHERE datname IN ('" +:+ Join "','" (Databases ins) +:+ "')"
  end.

(** What the goroutines push. *)
Definition metric_tasks (w : pg_world) (ins : Instance) : list (list (option Sample)) :=
  imap (λ i m, scrapeMetric (pw_loop w) (pw_request w i) m ∅) (Metrics ins).

Definition postgres_Gather (ins : Instance) (w : pg_world) (slist : SampleList) :
    SampleList * option error :=
  let n := pw_loop w in
  let addr := match SanitizedAddress n ins with Ok addr => addr | Err _ => "" end in
  let tags := {["server" := addr]} : gmap string string in
  match pw_open w with
  | Some err => (PushFront slist (pg_sample n "up" (VInt 0) tags), Some err)
  | None =>
    let slist := PushFront slist (pg_sample n "up" (VInt 1) tags) in
    match acc_query n ins (pw_query w (database_query ins)) slist with
    | (slist, Some err) => (slist, Some err)
    | (slist, None) =>
      match acc_query n ins (pw_query w "SELECT * FROM pg_stat_bgwriter") slist with
      | (slist, Some err) => (slist, Some err)
      | (slist, None) =>
        (foldl PushFront slist (run_schedule (pw_schedule w) (metric_tasks w ins)), None)
      end
    end
  end.
End metrics.
End handler.

#[export] Instance postgres_handler `{RangeOrder} `{UnicodeTables} `{PgxDriver} :
    HandlerFactory Instance pg_world := {|
  Name ins := pg_inputName;
  Init ins config := postgres_Init 0 ins config;
  handler_Gather ins w slist :=
    let '(slist, err) := postgres_Gather ins w slist in Done (ins, slist, err)
|}.
