(* ===== verification/PostgresProps.v ===== *)
(** * Properties of the postgresql handler

    The connection string and what is hidden of it, the samples of a row, the
    pushes of the concurrent scrapes, and that the handler obeys the interface
    of [Input]. *)
From S2P Require Import Prelude Interleave GoText GoNum SafeLists Conv Samples Emit Input GoTime GoUrl GoFmt Postgres.
#[local] Open Scope Z_scope.

(** ** parseURL *)

Lemma accrue_app kvs k v : accrue kvs k v = kvs ++ accrue [] k v.
Proof. unfold accrue. case_decide; [by rewrite app_nil_r|done]. Qed.

Lemma foldl_accrue {A} (value : string → bytes) (l : list (string * A)) kvs :
  foldl (λ kvs kv, accrue kvs kv.1 (value kv.1)) kvs l = kvs ++ (l ≫= λ kv, accrue [] kv.1 (value kv.1)).
Proof.
  revert kvs. induction l as [|kv l IH]; intros kvs; csimpl; [by rewrite app_nil_r|].
  by rewrite IH, (accrue_app kvs), <- app_assoc.
Qed.

Lemma url_kvs_perm (R1 R2 : RangeOrder) n1 n2 u : @url_kvs R1 n1 u ≡ₚ @url_kvs R2 n2 u.
Proof.
  unfold url_kvs. rewrite !foldl_accrue. f_equiv.
  by rewrite (@range_list_perm R1), (@range_list_perm R2).
Qed.

(** The connection string made of a URL does not depend on the order in
    which the runtime visits the settings of its query: sorting takes it out. *)
Theorem parseURL_order (R1 R2 : RangeOrder) n1 n2 uri :
  @parseURL R1 n1 uri = @parseURL R2 n2 uri.
Proof.
  unfold parseURL. destruct (url_Parse (bytes_of uri)) as [u|]; [|done].
  case_decide; [done|]. do 2 f_equal.
  apply (Sorted_unique String.le); [apply Sorted_merge_sort, _..|].
  by rewrite !merge_sort_Permutation, (url_kvs_perm R1 R2 n1 n2 u).
Qed.

(** ** What the sanitised address shows *)

Definition spaceless (l : bytes) : Prop := Forall (λ c, not_space c = true) l.

Definition secret_here (l : bytes) : bool := existsb (key_here l) secret_keys.

(** A setting of a secret key, and a text that holds no such setting. *)
Definition secret (t : string) : Prop :=
  ∃ key v, key ∈ secret_keys ∧ v ≠ "" ∧ t = key +:+ "=" +:+ v.

Fixpoint no_secret (l : bytes) : bool :=
  match l with [] => true | _ :: l' => negb (secret_here l) && no_secret l' end.

Definition public (t : string) : Prop := no_secret (bytes_of t) = true.

Definition ends_token (rest : bytes) : Prop := ∀ c r, rest = c :: r → not_space c = false.

Lemma re_lit_app p l rest :
  spaceless p → ends_token rest → re_lit p (l ++ rest) = (λ r, r ++ rest) <$> re_lit p l.
Proof.
  intros Hp Hr. revert l. induction Hp as [|c p Hc Hp IH]; intros l; [by destruct l|].
  destruct l as [|a l]; simpl; [|by case_decide].
  destruct rest as [|b rest]; simpl; [done|]. case_decide; [|done]. subst b.
  by rewrite (Hr c rest eq_refl) in Hc.
Qed.

Lemma re_lit_same p l : re_lit p (p ++ l) = Some l.
Proof. induction p as [|c p IH]; simpl; [by destruct l|]. by rewrite decide_True. Qed.

Lemma secret_keys_spaceless key : key ∈ secret_keys → spaceless (bytes_of (key +:+ "=")).
Proof.
  unfold secret_keys. rewrite !elem_of_cons, elem_of_nil.
  intros [->|[->|[->|[->|[->|[->|[]]]]]]]; repeat constructor.
Qed.

Lemma key_here_app l rest key :
  key ∈ secret_keys → ends_token rest → key_here (l ++ rest) key = key_here l key.
Proof.
  intros Hk Hr. unfold key_here. rewrite re_lit_app by eauto using secret_keys_spaceless.
  destruct (re_lit _ l) as [[|c r]|]; simpl; [|done..].
  destruct rest as [|c rest]; [done|]. by eapply Hr.
Qed.

Lemma secret_here_app l rest : ends_token rest → secret_here (l ++ rest) = secret_here l.
Proof.
  intros Hr. unfold secret_here.
  assert (He : ∀ key, key ∈ secret_keys → key_here (l ++ rest) key = key_here l key)
    by (intros; by apply key_here_app).
  revert He. generalize secret_keys as ks. induction ks as [|k ks IH]; intros He; simpl; [done|].
  rewrite He by set_solver. by rewrite IH by set_solver.
Qed.

Lemma kv_strip_public l rest :
  no_secret l = true → spaceless l → ends_token rest →
  kv_strip false (l ++ rest) = l ++ kv_strip false rest.
Proof.
  intros Hp Hl Hr. induction Hl as [|c l Hc Hl IH]; [done|].
  simpl in Hp. apply andb_true_iff in Hp as [Hh Hp]. apply negb_true_iff in Hh.
  rewrite <- (secret_here_app (c :: l) rest Hr) in Hh. unfold secret_here in Hh.
  change ((c :: l) ++ rest) with (c :: (l ++ rest)) in *. cbn [kv_strip].
  rewrite Hh. simpl. f_equal. by apply IH.
Qed.

Lemma kv_strip_inside l rest : spaceless l → kv_strip true (l ++ rest) = kv_strip true rest.
Proof. intros Hl. induction Hl as [|c l Hc Hl IH]; [done|]. simpl. by rewrite Hc. Qed.

Lemma secret_is_here t rest : secret t → spaceless (bytes_of t) → secret_here (bytes_of t ++ rest) = true.
Proof.
  intros (key & v & Hk & Hv & ->) Hs. apply existsb_exists. exists key.
  split; [by apply list_elem_of_In|]. unfold key_here.
  rewrite append_assoc, bytes_of_app in Hs. rewrite append_assoc, (bytes_of_app (key +:+ "=") v).
  rewrite <- app_assoc, re_lit_same.
  apply Forall_app in Hs as [_ Hs]. destruct v as [|c v]; [done|]. by inversion Hs.
Qed.

Lemma secret_not_empty t : secret t → ∃ c l, bytes_of t = c :: l.
Proof. intros ([|c key] & v & Hk & _ & ->); by eexists _, _. Qed.

Lemma kv_strip_secret t rest :
  secret t → spaceless (bytes_of t) → kv_strip false (bytes_of t ++ rest) = kv_strip true rest.
Proof.
  intros Ht Hs. pose proof (secret_is_here t rest Ht Hs) as Hh.
  destruct (secret_not_empty t Ht) as (c & l & He). rewrite He in *.
  change ((c :: l) ++ rest) with (c :: (l ++ rest)) in *. cbn [kv_strip].
  unfold secret_here in Hh. rewrite Hh. apply kv_strip_inside. by inversion Hs.
Qed.

Lemma secret_not_public t : secret t → spaceless (bytes_of t) → ¬ public t.
Proof.
  intros Ht Hs. pose proof (secret_is_here t [] Ht Hs) as Hh. rewrite app_nil_r in Hh.
  unfold public. destruct (secret_not_empty t Ht) as (c & l & He). rewrite He in *.
  cbn [no_secret]. by rewrite Hh.
Qed.

#[export] Instance public_dec t : Decision (public t).
Proof. unfold public. apply _. Defined.

Lemma Join_cons2 sep a b l : Join sep (a :: b :: l) = a +:+ (sep +:+ Join sep (b :: l)).
Proof. done. Qed.

Lemma kv_strip_blank rest : kv_strip false (" "%char :: rest) = " "%char :: kv_strip false rest.
Proof. done. Qed.

(** What is left of settings without white space, each a secret or public. *)
Lemma strip_join ts :
  Forall (λ t, spaceless (bytes_of t) ∧ (secret t ∨ public t)) ts →
  let shown := filter public ts in
  let stripped := kv_strip false (bytes_of (Join " " ts)) in
  (shown = [] ∧ stripped = []) ∨
  (shown ≠ [] ∧ ∃ blank, blank ∈ [""; " "] ∧ stripped = bytes_of (Join " " shown +:+ blank)).
Proof.
  induction 1 as [|t ts [Hs Ht] Hts IH]; [by left|]. cbn zeta in *.
  assert (Hend : ∀ l, ends_token (" "%char :: l)) by by intros l ? ? [= <- _].
  destruct ts as [|t2 ts].
  - change (Join " " [t]) with t. rewrite <- (app_nil_r (bytes_of t)).
    destruct Ht as [Ht|Ht].
    + left. rewrite kv_strip_secret by done. by rewrite filter_cons_False by by apply secret_not_public.
    + right. rewrite kv_strip_public by done. rewrite filter_cons_True by done. split; [done|].
      exists "". split; [set_solver|]. simpl. by rewrite app_nil_r, append_nil_r.
  - rewrite Join_cons2, !bytes_of_app. change (bytes_of " ") with [" "%char]. cbn [app].
    destruct Ht as [Ht|Ht].
    + rewrite filter_cons_False by by apply secret_not_public.
      by rewrite kv_strip_secret.
    + right. rewrite filter_cons_True by done. split; [done|].
      rewrite kv_strip_public, kv_strip_blank by done.
      destruct IH as [[-> ->]|(Hne & blank & Hb & ->)].
      * exists " ". split; [set_solver|]. by rewrite bytes_of_app.
      * exists blank. split; [done|]. destruct (filter public (t2 :: ts)) as [|t3 l]; [done|].
        rewrite Join_cons2, !bytes_of_app, <- app_assoc. done.
Qed.

(** What the sanitised address of a URL shows. When every setting of its
    connection string is free of white space, and is a setting of a secret key
    or holds none, what is left are exactly the others, in order, with a blank
    at most behind them: no user, password, certificate, key or mode. *)
Theorem SanitizedAddress_hides `{RangeOrder} n ins uri kvs :
  OutputAddress ins = "" → Address ins = uri →
  HasPrefix uri "postgres://" = true ∨ HasPrefix uri "postgresql://" = true →
  parseURL n uri = Ok (Join " " kvs) →
  Forall (λ t, spaceless (bytes_of t) ∧ (secret t ∨ public t)) kvs →
  ∃ blank, blank ∈ [""; " "] ∧
    SanitizedAddress n ins = Ok (Join " " (filter public kvs) +:+ blank).
Proof.
  intros Ho Ha Hp Hu Hk. unfold SanitizedAddress. rewrite decide_False by by intros [].
  rewrite Ha. rewrite (proj2 (orb_true_iff _ _) Hp), Hu. unfold strip_secrets.
  destruct (strip_join kvs Hk) as [[-> ->]|(_ & blank & Hb & ->)].
  - exists "". by split; [set_solver|].
  - exists blank. by rewrite of_bytes_of.
Qed.

Definition pg_demo (address : string) : Instance :=
  mkPgInstance address 0 false "" [] [] true [] 1 1 "".

Lemma SanitizedAddress_hides_witness :
  let uri := "postgres://u:secret@db:5432/app?sslmode=disable" in
  ∃ blank, blank ∈ [""; " "] ∧
    @SanitizedAddress canonical_order 0 (pg_demo uri) = Ok ("dbname=app host=db port=5432" +:+ blank).
Proof.
  intros uri.
  apply (@SanitizedAddress_hides canonical_order 0 (pg_demo uri) uri
           ["dbname=app"; "host=db"; "password=secret"; "port=5432"; "sslmode=disable"; "user=u"]);
    [reflexivity|reflexivity|by left|vm_compute; reflexivity|].
  rewrite Forall_forall. intros t Ht. unfold spaceless. rewrite Forall_forall.
  rewrite !elem_of_cons, elem_of_nil in Ht.
  destruct Ht as [->|[->|[->|[->|[->|[->|[]]]]]]]; (split; [by apply Forall_forall; repeat constructor|]).
  - by right.
  - by right.
  - left. exists "password", "secret". split_and!; [set_solver|done|reflexivity].
  - by right.
  - left. exists "sslmode", "disable". split_and!; [set_solver|done|reflexivity].
  - left. exists "user", "u". split_and!; [set_solver|done|reflexivity].
Defined.

(** A blank in a password is escaped before the secrets are removed, and the
    removal stops at it: what follows the blank stays. *)
Example SanitizedAddress_leaks :
  @SanitizedAddress canonical_order 0 (pg_demo "postgres://u:top%20secret@db/app") =
  Ok "dbname=app host=db secret ".
Proof. vm_compute. reflexivity. Qed.

(** ** Rows *)

Lemma dom_column_names columns : dom (column_names columns) = list_to_set columns.
Proof.
  unfold column_names. enough (He : ∀ acc : gmap string dvalue,
    dom (insert_all ((λ c, (c, DvNil)) <$> columns) acc) = list_to_set columns ∪ dom acc)
    by (rewrite He, dom_empty_L; set_solver).
  induction columns as [|c columns IH]; intros acc; csimpl; [set_solver|].
  unfold insert_all in *. simpl. rewrite IH, dom_insert_L. set_solver.
Qed.

Lemma size_column_names columns : size (column_names columns) = size (list_to_set columns : gset string).
Proof. by rewrite <- dom_column_names, size_dom. Qed.

Lemma size_column_names_le columns : (size (column_names columns) ≤ length columns)%nat.
Proof.
  rewrite size_column_names. induction columns as [|c l IH]; [done|]. cbn [list_to_set length].
  rewrite size_union_alt, size_singleton.
  pose proof (subseteq_size (list_to_set l ∖ {[c]}) (list_to_set l : gset string) ltac:(set_solver)).
  lia.
Qed.

Lemma scanned_columns columns vals :
  NoDup columns → length vals = length columns →
  insert_all (zip columns vals) (column_names columns) = list_to_map (zip columns vals).
Proof.
  intros Hnd Hl. assert (Hz : (zip columns vals).*1 = columns) by (apply fst_zip; lia).
  rewrite insert_all_NoDup by by rewrite Hz.
  apply map_eq. intros k. rewrite lookup_union.
  destruct (list_to_map (zip columns vals) !! k) as [v|] eqn:Hk.
  - by destruct (column_names columns !! k).
  - rewrite <- not_elem_of_list_to_map, Hz in Hk.
    rewrite (proj1 (not_elem_of_dom (column_names columns) k)); [done|].
    rewrite dom_column_names. set_solver.
Qed.

Lemma ignored_iff k : ignoredColumns !! k = None ↔ k ≠ "stats_reset".
Proof. unfold ignoredColumns. rewrite lookup_singleton_None. naive_solver. Qed.

Lemma row_fields_perm `{RangeOrder} n columns vals :
  NoDup columns → length vals = length columns →
  map_to_list (row_fields n (list_to_map (zip columns vals))) ≡ₚ
  filter (λ kv, kv.1 ≠ "stats_reset") (zip columns vals).
Proof.
  intros Hnd Hl. assert (Hz : (zip columns vals).*1 = columns) by (apply fst_zip; lia).
  unfold row_fields. set (M := list_to_map (zip columns vals)).
  assert (HM : range_list n M ≡ₚ zip columns vals)
    by (rewrite range_list_perm; apply map_to_list_to_map; by rewrite Hz).
  assert (Hf : filter (λ kv, ignoredColumns !! kv.1 = None) (range_list n M) ≡ₚ
               filter (λ kv, kv.1 ≠ "stats_reset") (zip columns vals)).
  { rewrite HM. by rewrite (list_filter_iff (λ kv, ignoredColumns !! kv.1 = None)
      (λ kv, kv.1 ≠ "stats_reset")) by (intros [k v]; apply ignored_iff). }
  assert (Hn : NoDup (filter (λ kv, ignoredColumns !! kv.1 = None) (range_list n M)).*1).
  { rewrite Hf. eapply sublist_NoDup; [|apply fmap_sublist, sublist_filter]. by rewrite Hz. }
  by rewrite insert_all_NoDup, (right_id_L ∅ (∪)), map_to_list_to_map.
Qed.

Lemma pushes_emits (l : list (option Sample)) : emits (λ q, foldl PushFront q l) l.
Proof.
  pose proof (emits_foldl_map (λ q s, PushFront q s) id l) as He.
  rewrite list_fmap_id in He. apply He. intros s q. apply PushFront_of_queue.
Qed.

(** The samples of a row of a statistics view. *)
Definition view_sample `{RangeOrder} (n : nat) (server db : string) (kv : string * dvalue) : option Sample :=
  pg_sample n kv.1 (to_iface kv.2) (<["db" := db]> {["server" := server]}).

Lemma view_emits `{RangeOrder} n server db fields q :
  foldl (λ l kv, PushFront l (pg_sample n kv.1 (to_iface kv.2) (<["db" := db]> {["server" := server]})))
    (of_queue q) fields = of_queue (q ++ (view_sample n server db <$> fields)).
Proof. apply (emits_foldl_map _ (view_sample n server db)). intros kv q'. apply PushFront_of_queue. Qed.

(** A row of a statistics view. Two columns of one name, an address that
    cannot be sanitised or a failed scan add nothing and end the gather with an
    error; otherwise every column but stats_reset gives one sample, with its
    value, the server and the row's database. *)
Theorem accRow_spec `{RangeOrder} n ins vals columns (q : list (option Sample)) :
  length vals = length columns →
  let db := database_name (list_to_map (zip columns vals)) in
  if decide (NoDup columns) then
    match SanitizedAddress n ins with
    | Err e => accRow n ins (Ok vals) (of_queue q) columns = (of_queue q, Some e)
    | Ok server =>
      ∃ out, accRow n ins (Ok vals) (of_queue q) columns = (of_queue (q ++ out), None) ∧
        out ≡ₚ view_sample n server db <$> filter (λ kv, kv.1 ≠ "stats_reset") (zip columns vals)
    end
  else ∃ e, accRow n ins (Ok vals) (of_queue q) columns = (of_queue q, Some e).
Proof.
  intros Hl db. unfold accRow, Scan. rewrite length_take.
  pose proof (size_column_names_le columns). rewrite Nat.min_l by done.
  destruct (decide (NoDup columns)) as [Hnd|Hnd].
  - pose proof (proj1 (NoDup_list_to_set columns) Hnd) as Hs. rewrite <- size_column_names in Hs.
    rewrite Hs, decide_True, firstn_all, scanned_columns by done. fold db.
    destruct (SanitizedAddress n ins) as [server|e]; [|done].
    eexists. rewrite view_emits. split; [done|]. f_equiv.
    by rewrite range_list_perm, row_fields_perm.
  - rewrite decide_False; [by eexists|]. rewrite Hl, size_column_names. intros Hs.
    by apply Hnd, NoDup_list_to_set.
Qed.

Lemma accRow_spec_witness :
  let columns := ["datname"; "numbackends"; "stats_reset"] in
  let vals := [DvString "app"; DvInt64 3; DvNil] in
  ∃ out, @accRow canonical_order 0 (pg_demo "host=db password=x") (Ok vals) (of_queue []) columns =
           (of_queue out, None) ∧ length out = 2%nat.
Proof.
  intros columns vals.
  destruct (@accRow_spec canonical_order 0 (pg_demo "host=db password=x") vals columns [] eq_refl)
    as (out & Ho & Hp).
  exists out. split; [exact Ho|]. rewrite Hp. reflexivity.
Defined.

(** ** Custom metrics *)

Section metrics.
Context `{RangeOrder} `{UnicodeTables}.

(** The sample of a metric column, if its text is a number. *)
Definition metric_sample (n : nat) (mc : MetricConfig) (row labels : gmap string string)
    (column : string) : result (option Sample) :=
  match ToFloat64 (VString (row_text row column)) with
  | (value, None) => Ok (pg_sample n (metric_name mc row column) (VFloat64 value) labels)
  | (_, Some e) => Err e
  end.

Lemma metric_loop_spec n mc row labels columns :
  ∃ good rest, columns = good ++ rest ∧
    Ok <$> (metric_loop n mc row labels columns).1 = metric_sample n mc row labels <$> good ∧
    match (metric_loop n mc row labels columns).2 with
    | None => rest = []
    | Some e => ∃ c rest', rest = c :: rest' ∧ metric_sample n mc row labels c = Err e
    end.
Proof.
  induction columns as [|c columns IH]; [by exists [], []|]. cbn [metric_loop].
  destruct (ToFloat64 (VString (row_text row c))) as [value [e|]] eqn:Hv.
  - exists [], (c :: columns). split_and!; [done..|]. exists c, columns. split; [done|].
    unfold metric_sample. by rewrite Hv.
  - destruct IH as (good & rest & Hc & Hs & He).
    destruct (metric_loop n mc row labels columns) as [samples err]. cbn [fst snd] in *.
    exists (c :: good), rest. split_and!; [by rewrite Hc| |done].
    rewrite !fmap_cons, Hs. f_equal. unfold metric_sample. by rewrite Hv.
Qed.

Lemma add_label_lookup row labels l k :
  add_label row labels l !! k =
  match row !! k with
  | Some v => if decide (k = l) then Some (ReplaceAll " " "_" v) else labels !! k
  | None => labels !! k
  end.
Proof.
  unfold add_label. destruct (decide (k = l)) as [->|Hne].
  - destruct (row !! l); [|done]. by rewrite lookup_insert_eq.
  - destruct (row !! l); destruct (row !! k); try done; by rewrite lookup_insert_ne.
Qed.

Lemma row_labels_lookup n row ls tags k :
  row_labels n row ls tags !! k =
  match row !! k with
  | Some v => if decide (k ∈ ls) then Some (ReplaceAll " " "_" v) else tags !! k
  | None => tags !! k
  end.
Proof.
  unfold row_labels. rewrite insert_all_range_empty.
  induction ls as [|l ls IH] using rev_ind; [by destruct (row !! k)|].
  rewrite foldl_app. cbn [foldl]. rewrite add_label_lookup, IH.
  destruct (row !! k); [|done].
  destruct (decide (k = l)), (decide (k ∈ ls)); case_decide; done || set_solver.
Qed.

(** One row of a custom metric. The columns are read in order; each that is
    a number gives a sample, the first that is not ends the row with its error,
    and what was pushed before stays. The labels are the tags and, over them,
    the label columns the row has, their blanks made underscores. *)
Theorem parseRow_spec n row mc tags :
  let labels := row_labels n row (LabelFields mc) tags in
  (∃ good rest, MetricFields mc = good ++ rest ∧
    Ok <$> (parseRow n row mc tags).1 = metric_sample n mc row labels <$> good ∧
    match (parseRow n row mc tags).2 with
    | None => rest = []
    | Some e => ∃ c rest', rest = c :: rest' ∧ metric_sample n mc row labels c = Err e
    end) ∧
  ∀ k, labels !! k =
    match row !! k with
    | Some v => if decide (k ∈ LabelFields mc) then Some (ReplaceAll " " "_" v) else tags !! k
    | None => tags !! k
    end.
Proof.
  intros labels. split; [apply metric_loop_spec|]. intros k. apply row_labels_lookup.
Qed.
End metrics.

(** ** The goroutines of a gather *)

(** Some schedule of the goroutines leaves [l] in the list. *)
Definition scheduled `{RangeOrder} `{UnicodeTables} (w : pg_world) (ins : Instance)
    (l : list (option Sample)) : Prop := ∃ schedule, run_schedule schedule (metric_tasks w ins) = l.

(** The concurrent scrapes of the custom metrics. Whatever the scheduler
    does, the list gets an interleaving of their pushes: all of them once, each
    task's in its own order; and every interleaving is the work of some
    schedule. *)
Theorem scrapes_interleave `{RangeOrder} `{UnicodeTables} w ins l :
  let tasks := metric_tasks w ins in
  (scheduled w ins l ↔ interleaving tasks l) ∧
  (interleaving tasks l →
   l ≡ₚ concat tasks ∧ ∀ i task, tasks !! i = Some task → task `sublist_of` l).
Proof.
  intros tasks. split; [split; [|apply interleaving_run_schedule]|].
  - intros [schedule <-]. apply run_schedule_interleaving.
  - intros Hl. split; [by apply interleaving_perm|]. intros i task. by apply interleaving_sublist.
Qed.

(** ** Gather *)

(** [f] adds some samples, and its error does not depend on the list. *)
Definition tells (f : SampleList → SampleList * option error) (out : list (option Sample))
    (err : option error) : Prop := ∀ q, f (of_queue q) = (of_queue (q ++ out), err).

Section gather.
Context `{RangeOrder} `{UnicodeTables}.

Lemma accRow_tells n ins row columns : ∃ out err, tells (λ l, accRow n ins row l columns) out err.
Proof.
  unfold accRow, tells. destruct (Scan _ row) as [vals|e].
  - destruct (SanitizedAddress n ins) as [server|e].
    + eexists _, _. intros q. by rewrite view_emits.
    + exists [], (Some e). intros q. by rewrite app_nil_r.
  - exists [], (Some e). intros q. by rewrite app_nil_r.
Qed.

Lemma acc_rows_tells n ins columns rows : ∃ out err, tells (acc_rows n ins columns rows) out err.
Proof.
  revert n. induction rows as [|row rows IH]; intros n.
  - exists [], None. intros q. by rewrite app_nil_r.
  - destruct (accRow_tells n ins row columns) as (o1 & [e|] & H1).
    + exists o1, (Some e). intros q. simpl. by rewrite H1.
    + destruct (IH (n + 3)%nat) as (o2 & err & H2). exists (o1 ++ o2), err. intros q. simpl.
      by rewrite H1, H2, app_assoc.
Qed.

Lemma acc_query_tells n ins answer : ∃ out err, tells (acc_query n ins answer) out err.
Proof.
  unfold acc_query. destruct answer as [rows|e]; [|exists [], (Some e); intros q; by rewrite app_nil_r].
  destruct (pg_Columns rows) as [columns|e]; [|exists [], (Some e); intros q; by rewrite app_nil_r].
  apply acc_rows_tells.
Qed.

(** The tags of up: an address that cannot be sanitised is empty. *)
Definition up_sample (n : nat) ins (v : Z) : option Sample :=
  pg_sample n "up" (VInt v)
    {["server" := match SanitizedAddress n ins with Ok addr => addr | Err _ => "" end]}.

Lemma postgres_Gather_cases ins w :
  let n := pw_loop w in
  (∃ e, pw_open w = Some e ∧ tells (postgres_Gather ins w) [up_sample n ins 0] (Some e)) ∨
  (pw_open w = None ∧ ∃ o1 e1, tells (acc_query n ins (pw_query w (database_query ins))) o1 e1 ∧
   match e1 with
   | Some e => tells (postgres_Gather ins w) (up_sample n ins 1 :: o1) (Some e)
   | None =>
     ∃ o2 e2, tells (acc_query n ins (pw_query w "SELECT * FROM pg_stat_bgwriter")) o2 e2 ∧
     tells (postgres_Gather ins w)
       (up_sample n ins 1 :: o1 ++ o2 ++
        match e2 with Some _ => [] | None => run_schedule (pw_schedule w) (metric_tasks w ins) end) e2
   end).
Proof.
  intros n. unfold postgres_Gather, tells. fold n. destruct (pw_open w) as [e|].
  - left. exists e. split; [done|]. intros q. by rewrite PushFront_of_queue.
  - right. split; [done|].
    destruct (acc_query_tells n ins (pw_query w (database_query ins))) as (o1 & e1 & H1).
    exists o1, e1. split; [exact H1|]. destruct e1 as [e|].
    + intros q. by rewrite PushFront_of_queue, H1, <- app_assoc.
    + destruct (acc_query_tells n ins (pw_query w "SELECT * FROM pg_stat_bgwriter")) as (o2 & e2 & H2).
      exists o2, e2. split; [exact H2|]. intros q. rewrite PushFront_of_queue, H1, H2.
      destruct e2 as [e|]; [|rewrite pushes_emits]; by rewrite ?app_nil_r, <- ?app_assoc.
Qed.

#[export] Instance postgres_laws `{PgxDriver} : HandlerLaws Instance pg_world.
Proof.
  split; simpl; [done|by intros h w l h' l' e; destruct (postgres_Gather h w l); intros [=]|].
  intros h w q h' l' e. pose proof (postgres_Gather_cases h w) as Hc. simpl in Hc.
  destruct Hc as [(e0 & _ & Ht)|(_ & o1 & [e1|] & _ & Ht)].
  - rewrite Ht. intros [= _ <- _]. by eexists.
  - rewrite Ht. intros [= _ <- _]. by eexists.
  - destruct Ht as (o2 & e2 & _ & Ht). rewrite Ht. intros [= _ <- _]. by eexists.
Qed.

End gather.

(** ** Init *)

(** Init replaces the address whatever it was (the shorthand localhost is
    never expanded), and the prepared statements by the pooler's flag, before
    it reads the address; an address that cannot be read is kept all the same,
    with the connection made for the one before. A good one is registered with
    the socket's file name cut off its host. *)
Theorem postgres_Init_spec `{PgxDriver} registered ins config :
  let address := Get config "address" in
  let '(ins', err) := postgres_Init registered ins config in
  Address ins' = address ∧ PreparedStatements ins' = negb (IsPgBouncer ins) ∧
  match ParseConfig address with
  | Err e => err = Some e ∧ connConfig ins' = connConfig ins
  | Ok c =>
    let c' := set_Host c (remove_socket (cc_Host c)) in
    err = None ∧ connConfig ins' =
      RegisterConnConfig registered (if IsPgBouncer ins then set_PreferSimpleProtocol c' else c')
  end.
Proof.
  intros address. unfold postgres_Init. simpl. fold address.
  destruct (ParseConfig address) as [c|e]; by simpl.
Qed.

Example remove_socket_file : remove_socket "/var/run/.s.PGSQL.5432" = "/var/run".
Proof. vm_compute. reflexivity. Qed.

Example remove_socket_host : remove_socket "/.s.PGSQL.5432/x" = "/.s.PGSQL.5432/x".
Proof. vm_compute. reflexivity. Qed.
