(* ===== verification/Clickhouse.v ===== *)
(** * The clickhouse handler

    internal/handlers/clickhouse/clickhouse.go, one definition per function, in
    the monad of [Scrape]. Each metric function works on one connection: its
    state is the connection's URL, into which [execQuery] writes the query. A
    gather sees the servers as [ch_world]: what they answer to a request of the
    discovery, of a connection and of a custom metric, and in which order the
    goroutines of the custom metrics push.

    In every list of rows the value of a column of type chUInt64 is the integer;
    its type matters only where the value is pushed as it is ([VOther]). *)
From S2P Require Import Prelude Interleave GoText GoNum SafeLists Conv Samples Stringx Emit Scrape Input GoFmt GoUrl GoHttp Jsonx GoJson.
#[local] Open Scope Z_scope.

Definition ch_inputName : string := "clickhouse".

Definition defaultTimeout : Z := 5 * 1000000000.

Record MetricConfig := mkChMetric {
  Mesurement : string;
  LabelFields : list string;
  MetricFields : list string;
  FieldToAppend : string;
  Timeout : Z;
  Request : string;
  IgnoreZeroResult : bool
}.

(** The [http.Client] made by Init. *)
Record http_Client := mkHttpClient { client_Timeout : Z; client_MaxIdleConnsPerHost : Z }.

Record Instance := mkClickhouse {
  Username : string;
  Password : string;
  Servers : list string;
  AutoDiscovery : bool;
  ClusterInclude : list string;
  ClusterExclude : list string;
  ins_Timeout : Z;
  Metrics : list MetricConfig;
  HTTPClient : option http_Client
}.

Record connect := mkConnect {
  Cluster : string;
  ShardNum : Z;
  conn_Hostname : string;
  conn_url : option URL
}.

Definition clickhouse_Init (ins : Instance) (config : ConfigMap) : Instance * option error :=
  let timeout := if ins_Timeout ins =? 0 then defaultTimeout else ins_Timeout ins in
  (mkClickhouse (Get config "username") (Get config "password") (ParseSlice config "servers")
     (ConfigMap_ParseBool config "auto_discovery") (ParseSlice config "cluster_include")
     (ParseSlice config "cluster_exclude") (ins_Timeout ins) (Metrics ins)
     (Some (mkHttpClient timeout 1)), None).

(** ** The statements *)

Definition systemEventsSQL : string :=
  "SELECT event AS metric, toUInt64(value) AS value FROM system.events".

Definition systemMetricsSQL : string :=
  "SELECT          metric, toUInt64(value) AS value FROM system.metrics".

Definition systemAsyncMetricsSQL : string :=
  "SELECT          metric, toFloat64(value) AS value FROM system.asynchronous_metrics".

Definition systemPartsSQL : string :=
  "
		SELECT
			database,
			table,
			SUM(bytes) AS bytes,
			COUNT(*)   AS parts,
			SUM(rows)  AS rows
		FROM system.parts
		WHERE active = 1
		GROUP BY
			database, table
		ORDER BY
			database, table
	".

Definition systemZookeeperExistsSQL : string :=
  "SELECT count() AS zk_exists FROM system.tables WHERE database='system' AND name='zookeeper'".

Definition systemZookeeperRootNodesSQL : string :=
  "SELECT count() AS zk_root_nodes FROM system.zookeeper WHERE path='/'".

Definition systemReplicationExistsSQL : string :=
  "SELECT count() AS replication_queue_exists FROM system.tables WHERE database='system' AND name='replication_queue'".

Definition systemReplicationNumTriesSQL : string :=
  "SELECT countIf(num_tries>1) AS replication_num_tries_replicas, countIf(num_tries>100) AS replication_too_many_tries_replicas FROM system.replication_queue SETTINGS empty_result_for_aggregation_by_empty_set=0".

Definition systemDetachedPartsSQL : string :=
  "SELECT count() AS detached_parts FROM system.detached_parts SETTINGS empty_result_for_aggregation_by_empty_set=0".

Definition systemDictionariesSQL : string :=
  "SELECT origin, status, bytes_allocated FROM system.dictionaries".

Definition systemMutationSQL : string :=
  "SELECT countIf(latest_fail_time>toDateTime('0000-00-00 00:00:00') AND is_done=0) AS failed, countIf(latest_fail_time=toDateTime('0000-00-00 00:00:00') AND is_done=0) AS running, countIf(is_done=1) AS completed FROM system.mutations SETTINGS empty_result_for_aggregation_by_empty_set=0".

Definition systemDisksSQL : string :=
  "SELECT name, path, toUInt64(100*free_space / total_space) AS free_space_percent, toUInt64( 100 * keep_free_space / total_space) AS keep_free_space_percent FROM system.disks".

Definition systemProcessesSQL : string :=
  "SELECT multiIf(positionCaseInsensitive(query,'select')=1,'select',positionCaseInsensitive(query,'insert')=1,'insert','other') AS query_type, quantile
(0.5)(elapsed) AS p50, quantile(0.9)(elapsed) AS p90, max(elapsed) AS longest_running FROM system.processes GROUP BY query_type SETTINGS empty_result_for_aggregation_by_empty_set=0".

Definition systemTextLogExistsSQL : string :=
  "SELECT count() AS text_log_exists FROM system.tables WHERE database='system' AND name='text_log'".

Definition systemTextLogSQL : string :=
  "SELECT count() AS messages_last_10_min, level FROM system.text_log WHERE level <= 'Notice' AND event_time >= now() - INTERVAL 600 SECOND GROUP BY level SETTINGS empty_result_for_aggregation_by_empty_set=0".

Definition commonMetrics_table : gmap string string :=
  {["events" := systemEventsSQL; "metrics" := systemMetricsSQL;
    "asynchronous_metrics" := systemAsyncMetricsSQL]}.

Definition commonMetricsIsFloat : gmap string bool :=
  {["events" := false; "metrics" := false; "asynchronous_metrics" := true]}.

(** *** The clusters to discover *)

(** [escape]: a literal of ClickHouse, with its quotes. *)
Definition escape_byte_sql (c : ascii) : bytes :=
  if ascii_dec c "\" then ["\"; "\"]%char else if ascii_dec c "'" then ["\"; "'"]%char else [c].

Definition sql_escape (v : string) : string :=
  of_bytes ("'"%char :: concat (escape_byte_sql <$> bytes_of v) ++ ["'"%char]).

Definition makeFilter (expr : string) (args : list string) : string :=
  "cluster " +:+ expr +:+ " (" +:+ Join ", " (sql_escape <$> args) +:+ ")".

Definition clusterIncludeExcludeFilter (ins : Instance) : string :=
  match ClusterInclude ins, ClusterExclude ins with
  | [], [] => ""
  | _, _ =>
    let includeFilter := match ClusterInclude ins with [] => "" | l => makeFilter "IN" l end in
    let excludeFilter := match ClusterExclude ins with [] => "" | l => makeFilter "NOT IN" l end in
    if decide (includeFilter ≠ "" ∧ excludeFilter ≠ "")
    then "WHERE " +:+ includeFilter +:+ " OR " +:+ excludeFilter
    else if decide (includeFilter = "" ∧ excludeFilter ≠ "") then "WHERE " +:+ excludeFilter
    else "WHERE " +:+ includeFilter
  end.

(** ** Columns *)

(** [chUInt64.UnmarshalJSON]: [b] is the text of the value. *)
Definition UnmarshalJSON (b : bytes) : option Z :=
  let q := of_bytes [dquote] in
  no_error (ParseUint (TrimSuffix (TrimPrefix (of_bytes b) q) q) 10).

(** A container's text is given without its blanks; no such text is a number. *)
Definition dec_chUInt64 : decoder Z := λ v old, UnmarshalJSON (print v).

(** Rows are always decoded into new elements. *)
Record metric_row := mkMetricRow { row_Metric : string; row_Value : Z }.
Record float_row := mkFloatRow { frow_Metric : string; frow_Value : float64 }.

Definition dec_metric_row : decoder metric_row := λ v _,
  ms ← struct_members v;
  let names := ["metric"; "value"] in
  m ← dec_field names ms "metric" dec_string "";
  x ← dec_field names ms "value" dec_chUInt64 0;
  Some (mkMetricRow m x).

Definition dec_float_row : decoder float_row := λ v _,
  ms ← struct_members v;
  let names := ["metric"; "value"] in
  m ← dec_field names ms "metric" dec_string "";
  x ← dec_field names ms "value" dec_float f_zero;
  Some (mkFloatRow m x).

(** A struct with one field of type chUInt64. *)
Definition dec_count (name : string) : decoder Z := λ v _,
  ms ← struct_members v; dec_field [name] ms name dec_chUInt64 0.

Record tries_row := mkTries { NumTriesReplicas : Z; TooManyTriesReplicas : Z }.

Definition dec_tries : decoder tries_row := λ v _,
  ms ← struct_members v;
  let names := ["replication_num_tries_replicas"; "replication_too_many_tries_replicas"] in
  a ← dec_field names ms "replication_num_tries_replicas" dec_chUInt64 0;
  b ← dec_field names ms "replication_too_many_tries_replicas" dec_chUInt64 0;
  Some (mkTries a b).

Record dict_row := mkDict { Origin : string; BytesAllocated : Z; dict_Status : string }.

Definition dec_dict : decoder dict_row := λ v _,
  ms ← struct_members v;
  let names := ["origin"; "bytes_allocated"; "status"] in
  o ← dec_field names ms "origin" dec_string "";
  b ← dec_field names ms "bytes_allocated" dec_chUInt64 0;
  s ← dec_field names ms "status" dec_string "";
  Some (mkDict o b s).

Record mutation_row := mkMutation { Failed : Z; Running : Z; Completed : Z }.

Definition dec_mutation : decoder mutation_row := λ v _,
  ms ← struct_members v;
  let names := ["failed"; "running"; "completed"] in
  f ← dec_field names ms "failed" dec_chUInt64 0;
  r ← dec_field names ms "running" dec_chUInt64 0;
  c ← dec_field names ms "completed" dec_chUInt64 0;
  Some (mkMutation f r c).

Record disk_row := mkDisk {
  disk_Name : string; disk_Path : string; FreePercent : Z; KeepFreePercent : Z
}.

Definition dec_disk : decoder disk_row := λ v _,
  ms ← struct_members v;
  let names := ["name"; "path"; "free_space_percent"; "keep_free_space_percent"] in
  n ← dec_field names ms "name" dec_string "";
  p ← dec_field names ms "path" dec_string "";
  f ← dec_field names ms "free_space_percent" dec_chUInt64 0;
  k ← dec_field names ms "keep_free_space_percent" dec_chUInt64 0;
  Some (mkDisk n p f k).

Record process_row := mkProcess {
  QueryType : string; Percentile50 : float64; Percentile90 : float64; LongestRunning : float64
}.

Definition dec_process : decoder process_row := λ v _,
  ms ← struct_members v;
  let names := ["query_type"; "p50"; "p90"; "longest_running"] in
  t ← dec_field names ms "query_type" dec_string "";
  a ← dec_field names ms "p50" dec_float f_zero;
  b ← dec_field names ms "p90" dec_float f_zero;
  l ← dec_field names ms "longest_running" dec_float f_zero;
  Some (mkProcess t a b l).

Record text_row := mkText { Level : string; MessagesLast10Min : Z }.

Definition dec_text : decoder text_row := λ v _,
  ms ← struct_members v;
  let names := ["level"; "messages_last_10_min"] in
  l ← dec_field names ms "level" dec_string "";
  m ← dec_field names ms "messages_last_10_min" dec_chUInt64 0;
  Some (mkText l m).

Record part_row := mkPart {
  Database : string; Table : string; part_Bytes : Z; part_Parts : Z; part_Rows : Z
}.

Definition dec_part : decoder part_row := λ v _,
  ms ← struct_members v;
  let names := ["database"; "table"; "bytes"; "parts"; "rows"] in
  d ← dec_field names ms "database" dec_string "";
  t ← dec_field names ms "table" dec_string "";
  b ← dec_field names ms "bytes" dec_chUInt64 0;
  p ← dec_field names ms "parts" dec_chUInt64 0;
  r ← dec_field names ms "rows" dec_chUInt64 0;
  Some (mkPart d t b p r).

Definition dec_connect : decoder connect := λ v _,
  ms ← struct_members v;
  let names := ["cluster"; "shard_num"; "host_name"] in
  c ← dec_field names ms "cluster" dec_string "";
  s ← dec_field names ms "shard_num" dec_int 0;
  h ← dec_field names ms "host_name" dec_string "";
  Some (mkConnect c s h None).

(** ** Queries *)

Definition makeDefaultTags (conn : connect) : gmap string string :=
  let tags := {["source" := conn_Hostname conn]} in
  let tags := if decide (Cluster conn = "") then tags else <["cluster" := Cluster conn]> tags in
  if ShardNum conn =? 0 then tags else <["shard_num" := Itoa (ShardNum conn)]> tags.

Definition clickhouseError (StatusCode : Z) (body : bytes) : error :=
  Errorf ("received error code " +:+ Itoa StatusCode +:+ ": " +:+ of_bytes body).

(** An error of encoding/json; its text is not modelled. *)
Definition json_error : error := ExternalError "json".

Definition decoded_or {St T} (r : option T) : scrape St T :=
  match r with Some t => mret t | None => fail json_error end.

Section handler.
Context `{RangeOrder}.
Variable ins : Instance.

(** [q.Set("query", query+" FORMAT JSON"); address.RawQuery = q.Encode()]. *)
Definition set_query (address : URL) (query : string) : URL :=
  set_RawQuery address (Encode_values
    (Values_Set (url_Query (RawQuery address)) "query" (bytes_of (query +:+ " FORMAT JSON")))).

Definition add_credentials (req : GoHttp.Request) : GoHttp.Request :=
  let add k v req := mkRequest (req_Method req) (req_URL req) (req_Host req)
                       (Header_Add (req_Header req) k v) (req_Body req) in
  let req := if decide (Username ins ≠ "") then add "X-ClickHouse-User" (Username ins) req else req in
  if decide (Password ins ≠ "") then add "X-ClickHouse-Key" (Password ins) req else req.

(** The query is sent and the answer awaited. A URL that cannot be read back
    gives a nil request, whose use is a crash, as is that of a nil client. *)
Definition send_query (Do : Doer) (query : string) : scrape URL Response :=
  address ← get;
  let address := set_query address query in
  _ ← put address;
  match NewRequest "GET" (of_bytes (URL_String address)) "", HTTPClient ins with
  | Ok req, Some _ => of_result (Do (add_credentials req))
  | _, _ => crash "nil pointer dereference"
  end.

(** The status, and the struct around the rows. *)
Definition checked_answer {T} (dec : decoder T) (zero : T) (resp : Response) : scrape URL T :=
  if 300 <=? StatusCode resp
  then fail (clickhouseError (StatusCode resp) (take 200 (resp_Body resp)))
  else decoded_or (Decode dec zero resp).

(** [io.Copy(io.Discard, resp.Body)]. *)
Definition drain_body (resp : Response) : scrape URL unit :=
  match body_error resp with Some err => fail err | None => mret () end.

Definition execQuery {T} (Do : Doer) (dec : decoder (list T)) (query : string) : scrape URL (list T) :=
  resp ← send_query Do query;
  data ← checked_answer (λ v _, ms ← struct_members v; dec_field ["Data"] ms "Data" dec_RawMessage None)
           None resp;
  rows ← decoded_or (Unmarshal dec [] data);
  _ ← drain_body resp;
  mret rows.

(** ** The metric functions *)

Section metric_functions.
Variable Do : Doer.
Variable conn : connect.

(** [slist.PushFront(types.NewSample(prefix, metric, value, tags))]. *)
Definition ch_push (prefix metric : string) (value : iface) (tags : gmap string string) :
    scrape URL unit := push_sample prefix metric value [tags].

Definition rows {T} (zero : T) (dec : decoder T) (query : string) : scrape URL (list T) :=
  execQuery Do (dec_slice zero dec) query.

Context `{UnicodeTables}.

Definition commonMetrics (metric : string) : scrape URL unit :=
  let tags := makeDefaultTags conn in
  let query := default "" (commonMetrics_table !! metric) in
  if default false (commonMetricsIsFloat !! metric) then
    floatResult ← rows (mkFloatRow "" f_zero) dec_float_row query;
    for_each floatResult (λ r,
      ch_push ("clickhouse_" +:+ metric) (SnakeCase (frow_Metric r)) (VFloat64 (frow_Value r)) tags)
  else
    intResult ← rows (mkMetricRow "" 0) dec_metric_row query;
    for_each intResult (λ r,
      ch_push ("clickhouse_" +:+ metric) (SnakeCase (row_Metric r)) (VOther (Itoa (row_Value r))) tags).

Definition zookeeper : scrape URL unit :=
  zkExists ← rows 0 (dec_count "zk_exists") systemZookeeperExistsSQL;
  let tags := makeDefaultTags conn in
  when (0 <? default 0 (head zkExists))
    (zkRootNodes ← rows 0 (dec_count "zk_root_nodes") systemZookeeperRootNodesSQL;
     match zkRootNodes with
     | [] => crash "index out of range"
     | n :: _ => ch_push "clickhouse_zookeeper" "root_nodes" (VUint64 n) tags
     end).

Definition replicationQueue : scrape URL unit :=
  replicationQueueExists ← rows 0 (dec_count "replication_queue_exists") systemReplicationExistsSQL;
  let tags := makeDefaultTags conn in
  when (0 <? default 0 (head replicationQueueExists))
    (replicationTooManyTries ← rows (mkTries 0 0) dec_tries systemReplicationNumTriesSQL;
     match replicationTooManyTries with
     | [] => crash "index out of range"
     | t :: _ =>
       _ ← ch_push "clickhouse_replication_queue" "too_many_tries_replicas"
             (VUint64 (TooManyTriesReplicas t)) tags;
       ch_push "clickhouse_replication_queue" "num_tries_replicas" (VUint64 (NumTriesReplicas t)) tags
     end).

Definition detachedParts : scrape URL unit :=
  parts ← rows 0 (dec_count "detached_parts") systemDetachedPartsSQL;
  match parts with
  | [] => mret ()
  | n :: _ =>
    ch_push "clickhouse_detached_parts" "detached_parts" (VUint64 n) (makeDefaultTags conn)
  end.

Definition dictionaries : scrape URL unit :=
  brokenDictionaries ← rows (mkDict "" 0 "") dec_dict systemDictionariesSQL;
  for_each brokenDictionaries (λ dict,
    let isLoaded := if decide (dict_Status dict ≠ "LOADED") then 0 else 1 in
    if decide (Origin dict ≠ "") then
      let tags := <["dict_origin" := Origin dict]> (makeDefaultTags conn) in
      _ ← ch_push "clickhouse_dictionaries" "is_loaded" (VUint64 isLoaded) tags;
      ch_push "clickhouse_dictionaries" "bytes_allocated" (VUint64 (BytesAllocated dict)) tags
    else mret ()).

Definition mutations : scrape URL unit :=
  mutationsStatus ← rows (mkMutation 0 0 0) dec_mutation systemMutationSQL;
  match mutationsStatus with
  | [] => mret ()
  | m :: _ =>
    let tags := makeDefaultTags conn in
    _ ← ch_push "clickhouse_mutations" "failed" (VUint64 (Failed m)) tags;
    _ ← ch_push "clickhouse_mutations" "running" (VUint64 (Running m)) tags;
    ch_push "clickhouse_mutations" "completed" (VUint64 (Completed m)) tags
  end.

Definition disks : scrape URL unit :=
  disksStatus ← rows (mkDisk "" "" 0 0) dec_disk systemDisksSQL;
  for_each disksStatus (λ disk,
    let tags := <["path" := disk_Path disk]> (<["name" := disk_Name disk]> (makeDefaultTags conn)) in
    _ ← ch_push "clickhouse_disks" "free_space_percent" (VUint64 (FreePercent disk)) tags;
    ch_push "clickhouse_disks" "keep_free_space_percent" (VUint64 (KeepFreePercent disk)) tags).

Definition processes : scrape URL unit :=
  processesStats ← rows (mkProcess "" f_zero f_zero f_zero) dec_process systemProcessesSQL;
  for_each processesStats (λ process,
    let tags := <["query_type" := QueryType process]> (makeDefaultTags conn) in
    _ ← ch_push "clickhouse_processes" "percentile_50" (VFloat64 (Percentile50 process)) tags;
    _ ← ch_push "clickhouse_processes" "percentile_90" (VFloat64 (Percentile90 process)) tags;
    ch_push "clickhouse_processes" "longest_running" (VFloat64 (LongestRunning process)) tags).

Definition textLog : scrape URL unit :=
  textLogExists ← rows 0 (dec_count "text_log_exists") systemTextLogExistsSQL;
  when (0 <? default 0 (head textLogExists))
    (textLogLast10MinMessages ← rows (mkText "" 0) dec_text systemTextLogSQL;
     for_each textLogLast10MinMessages (λ item,
       let tags := <["level" := Level item]> (makeDefaultTags conn) in
       ch_push "clickhouse_text_log" "messages_last_10_min" (VUint64 (MessagesLast10Min item)) tags)).

(** The tags are shared by the parts, and each part overwrites both it sets. *)
Definition tables : scrape URL unit :=
  parts ← rows (mkPart "" "" 0 0 0) dec_part systemPartsSQL;
  for_each parts (λ part,
    let tags := <["database" := Database part]> (<["table" := Table part]> (makeDefaultTags conn)) in
    _ ← ch_push "clickhouse_tables" "bytes" (VUint64 (part_Bytes part)) tags;
    _ ← ch_push "clickhouse_tables" "parts" (VUint64 (part_Parts part)) tags;
    ch_push "clickhouse_tables" "rows" (VUint64 (part_Rows part)) tags).

Definition metricsFuncs : list (scrape URL unit) :=
  [tables; zookeeper; replicationQueue; detachedParts; dictionaries; mutations; disks; processes;
   textLog].

(** What a connection is asked: every error is logged and passed over. *)
Definition gather_connection : scrape URL unit :=
  _ ← for_each metricsFuncs attempt;
  metrics ← range_map commonMetrics_table;
  for_each metrics (λ m, attempt (commonMetrics m.1)).
End metric_functions.

(** ** Custom metrics *)

Section custom.
Context `{UnicodeTables}.

(** [gjson.Get(item, path).String()]. *)
Variable gjson_String : raw → string → string.

Definition cleanName (s : string) : string :=
  let s := ReplaceAll " " "_" s in
  let s := ReplaceAll "(" "" s in
  let s := ReplaceAll ")" "" s in
  let s := ReplaceAll "/" "" s in
  let s := ReplaceAll "*" "" s in
  let s := ReplaceAll "%" "percent" s in
  strings_ToLower s.

Definition custom_name (m : MetricConfig) (item : raw) (column : string) : string :=
  if decide (FieldToAppend m = "") then Mesurement m +:+ "_" +:+ column
  else Mesurement m +:+ "_" +:+ cleanName (gjson_String item (FieldToAppend m)) +:+ "_" +:+ column.

(** [localTags] is the map [tags]: a label stays there for the next items. *)
Definition custom_labels (m : MetricConfig) (item : raw) (tags : gmap string string) :
    gmap string string :=
  foldl (λ tags label, <[label := gjson_String item label]> tags) tags (LabelFields m).

(** A text is converted; an error stops the query. *)
Fixpoint custom_columns (m : MetricConfig) (item : raw) (tags : gmap string string)
    (columns : list string) : scrape URL unit :=
  match columns with
  | [] => mret ()
  | column :: columns' =>
    match ToFloat64 (VString (gjson_String item column)) with
    | (_, Some err) => fail err
    | (value, None) =>
      _ ← ch_push ch_inputName (custom_name m item column) (VFloat64 value) tags;
      custom_columns m item tags columns'
    end
  end.

Fixpoint custom_items (m : MetricConfig) (tags : gmap string string) (items : list raw) :
    scrape URL unit :=
  match items with
  | [] => mret ()
  | item :: items' =>
    let tags := custom_labels m item tags in
    _ ← custom_columns m item tags (MetricFields m);
    custom_items m tags items'
  end.

Definition execCustomQuery (Do : Doer) (conn : connect) (m : MetricConfig) : scrape URL unit :=
  resp ← send_query Do (Request m);
  data ← checked_answer (λ v _, ms ← struct_members v;
             dec_field ["data"] ms "data" (dec_slice RNull (λ v _, Some v)) []) [] resp;
  _ ← custom_items m (makeDefaultTags conn) data;
  drain_body resp.

(** ** Gather *)

(** A gather's state: the connections, whose URLs the queries change. *)
Abbreviation connections := (list connect).

Definition set_url (c : connect) (u : URL) : connect :=
  mkConnect (Cluster c) (ShardNum c) (conn_Hostname c) (Some u).

(** Runs [f] on [&connects[i]]. *)
Definition with_connection (i : nat) (f : connect → scrape URL unit) : scrape connections unit :=
  λ n connects,
    match connects !! i with
    | None => Panic "index out of range"
    | Some c =>
      match conn_url c with
      | None => Panic "nil pointer dereference"
      | Some u =>
        match f c n u with
        | Panic s => Panic s
        | Done (n, u, out, r) => Done (n, <[i := set_url c u]> connects, out, r)
        end
      end
    end.

Record ch_world := mkChWorld {
  cw_loop : nat;
  cw_discover : nat → Doer;
  cw_connection : nat → Doer;
  cw_custom : nat → nat → Doer;
  cw_schedule : nat → list nat
}.

Variable w : ch_world.

Definition exists_host (connects : connections) (host : string) : bool :=
  existsb (λ c, bool_decide (conn_Hostname c = host)) connects.

(** The connection to a discovered host, through the port of the server. *)
Definition discovered (u : URL) (c : connect) : connect :=
  mkConnect (Cluster c) (ShardNum c) (conn_Hostname c)
    (Some (mkURL (Scheme u) [] None (JoinHostPort (bytes_of (conn_Hostname c)) (Port u))
             [] [] false false [] [] [])).

Fixpoint add_discovered (u : URL) (conns connects : connections) : connections :=
  match conns with
  | [] => connects
  | c :: conns' =>
    add_discovered u conns'
      (if exists_host connects (conn_Hostname c) then connects else connects ++ [discovered u c])
  end.

Definition discovery_query : string :=
  "SELECT cluster, shard_num, host_name FROM system.clusters " +:+ clusterIncludeExcludeFilter ins.

(** The servers, the first of which is number [i]. *)
Fixpoint find_connections (i : nat) (servers : list string) : scrape connections unit :=
  match servers with
  | [] => mret ()
  | server :: servers' =>
    match url_Parse (bytes_of server) with
    | None => fail (ExternalError "parse")
    | Some u =>
      _ ← (if AutoDiscovery ins then λ n connects,
             match rows (cw_discover w i) (mkConnect "" 0 "" None) dec_connect discovery_query n u with
             | Panic s => Panic s
             | Done (n, u, out, Ok conns) => Done (n, add_discovered u conns connects, out, Ok ())
             | Done (n, u, out, Err _) => Done (n, connects, out, Ok ())
             end
           else
             connects ← get;
             put (connects ++ [mkConnect "" 0 (of_bytes (Hostname u)) (Some u)]));
      find_connections (S i) servers'
    end
  end.

(** The tasks of the custom metrics for connection [i]: metric [j] runs on
    connection [j], as the loop variable of the metrics hides that of the
    connections. What each pushes is apart from what the others do. *)
Fixpoint custom_tasks (i j : nat) (metrics : list MetricConfig) (n : nat) (connects : connections) :
    outcome (nat * connections * list (list (option Sample))) :=
  match metrics with
  | [] => Done (n, connects, [])
  | m :: metrics' =>
    match with_connection j (λ c, execCustomQuery (cw_custom w i j) c m) n connects with
    | Panic s => Panic s
    | Done (n, connects, out, _) =>
      '(n, connects, tasks) ← custom_tasks i (S j) metrics' n connects;
      Done (n, connects, out :: tasks)
    end
  end.

Definition custom_metrics (i : nat) : scrape connections unit := λ n connects,
  '(n, connects, tasks) ← custom_tasks i 0 (Metrics ins) n connects;
  Done (n, connects, run_schedule (cw_schedule w i) tasks, Ok ()).

Definition gather_all_connections : scrape connections unit :=
  connects ← get;
  for_each (seq 0 (length connects)) (λ i,
    _ ← with_connection i (λ c, gather_connection (cw_connection w i) c);
    custom_metrics i).

Definition clickhouse_gather : scrape connections unit :=
  _ ← find_connections 0 (Servers ins);
  gather_all_connections.
End custom.
End handler.

Definition clickhouse_Gather `{RangeOrder} `{UnicodeTables} (gjson_String : raw → string → string)
    (ins : Instance) (w : ch_world) (slist : SampleList) : outcome (SampleList * option error) :=
  match clickhouse_gather ins gjson_String w (cw_loop w) [] with
  | Panic s => Panic s
  | Done (_, _, out, Ok _) => Done (pushed out slist, None)
  | Done (_, _, out, Err err) => Done (pushed out slist, Some err)
  end.

(** What [gjson] reads, as an interface. *)
Class Gjson := gjson_Get : raw → string → string.

#[export] Instance clickhouse_handler `{RangeOrder} `{UnicodeTables} `{Gjson} :
    HandlerFactory Instance ch_world := {|
  Name ins := ch_inputName;
  Init ins config := clickhouse_Init ins config;
  handler_Gather ins w slist :=
    '(slist, err) ← clickhouse_Gather gjson_Get ins w slist; Done (ins, slist, err)
|}.
