(* ===== verification/ClickhouseProps.v ===== *)
(** * Properties of the clickhouse handler

    What a query's request carries, that the statements of one connection do not
    disturb each other, how answers become samples, which answers crash the
    process, what the discovery finds, and that the handler obeys the interface
    of [Input]. *)
From S2P Require Import Prelude Interleave GoText GoNum SafeLists Conv Samples Stringx Emit Scrape Input GoFmt GoUrl GoUrlProps GoHttp Jsonx GoJson GoJsonProps Clickhouse.
#[local] Open Scope Z_scope.

(** ** The request of a query *)

Definition sql_text (query : string) : bytes := bytes_of (query +:+ " FORMAT JSON").

Lemma set_query_Query u query :
  url_Query (RawQuery (set_query u query)) = <["query" := [sql_text query]]> (url_Query (RawQuery u)).
Proof.
  unfold set_query, set_RawQuery, Values_Set. cbn [RawQuery]. apply Query_Encode.
  apply map_Forall_insert_2; [done|apply url_Query_nonempty].
Qed.

(** A query overwrites the one before. *)
Lemma set_query_set_query u q1 q2 : set_query (set_query u q1) q2 = set_query u q2.
Proof.
  unfold set_query at 1 3. rewrite set_query_Query. unfold Values_Set. by rewrite insert_insert_eq.
Qed.

Lemma set_query_nonempty u query : RawQuery (set_query u query) ≠ [].
Proof.
  intros He. pose proof (set_query_Query u query) as Hq. rewrite He in Hq.
  apply (f_equal (λ m : Values, m !! "query")) in Hq. by rewrite lookup_insert_eq in Hq.
Qed.

(** A URL that goes to a server: no opaque part, and a scheme without marks. *)
Definition server_url (u : URL) : Prop := Opaque u = [] ∧ Forall unmarked (Scheme u).

Lemma set_query_with_query u query : server_url u → with_query (set_query u query).
Proof.
  intros [Ho Hs]. split_and!; [done|apply set_query_nonempty|done|].
  apply query_bytes_plain, Encode_values_query_byte.
Qed.

(** A URL that stays readable with a query in it, and a client. *)
Definition sendable (ins : Instance) (u : URL) : Prop :=
  is_Some (HTTPClient ins) ∧
  ∀ query, is_ok (NewRequest "GET" (of_bytes (URL_String (set_query u query))) "").

Lemma sendable_set_query ins u query : sendable ins u → sendable ins (set_query u query).
Proof. intros [Hc Hq]. split; [done|]. intros q. by rewrite set_query_set_query. Qed.

(** One query that can be read back is enough. *)
Lemma sendable_one ins u query :
  server_url u → is_Some (HTTPClient ins) →
  is_Some (url_Parse (URL_String (set_query u query))) → sendable ins u.
Proof.
  intros [Ho Hs] Hc Hq. split; [done|]. intros query'. unfold NewRequest, url_host.
  rewrite bytes_of_bytes.
  assert (is_Some (url_Parse (URL_String (set_query u query')))) as [u2 ->]; [|by eexists].
  pose proof (set_query_nonempty u query) as N. pose proof (set_query_nonempty u query') as N'.
  revert Hq. unfold set_query. apply url_Parse_any_query; auto using Encode_values_query_byte.
Qed.

Lemma send_query_step `{RangeOrder} ins Do query n u x :
  send_query ins Do query n u = Done x →
  ∃ req, NewRequest "GET" (of_bytes (URL_String (set_query u query))) "" = Ok req ∧
    x = (n, set_query u query, [], Do (add_credentials ins req)).
Proof.
  unfold send_query, mbind, scrape_bind, get, put. simpl.
  destruct (NewRequest _ _ _) as [req|e] eqn:Hr; [|done].
  destruct (HTTPClient ins); [|done]. destruct (Do _) eqn:Hd; simpl; intros [= <-]; exists req;
    rewrite Hd; by split.
Qed.

(** The header a value of a credential sets. *)
Lemma add_credentials_spec ins req :
  req_Header req = ∅ →
  let r := add_credentials ins req in
  req_Method r = req_Method req ∧ req_URL r = req_URL req ∧
  req_Header r !! "X-Clickhouse-User" = (if decide (Username ins = "") then None else Some [Username ins]) ∧
  req_Header r !! "X-Clickhouse-Key" = (if decide (Password ins = "") then None else Some [Password ins]).
Proof.
  intros Hr. unfold add_credentials, Header_Add.
  change (CanonicalHeaderKey "X-ClickHouse-User") with "X-Clickhouse-User".
  change (CanonicalHeaderKey "X-ClickHouse-Key") with "X-Clickhouse-Key".
  repeat case_decide; simpl; rewrite ?Hr; done.
Qed.

(** A query reaches the server as it is. Whatever the URL of a connection
    already holds, the request is a GET whose URL, read back by the server, has
    the statement and its output format under the key query, and every other
    setting unchanged; the credentials are in its headers when they are set; and
    the next query overwrites this one. *)
Theorem send_query_spec `{RangeOrder} ins Do query n u :
  server_url u → sendable ins u →
  ∃ req u' u2, send_query ins Do query n u = Done (n, u', [], Do req) ∧ req_Method req = "GET" ∧
    url_Parse (bytes_of (req_URL req)) = Some u2 ∧
    url_Query (RawQuery u2) = <["query" := [sql_text query]]> (url_Query (RawQuery u)) ∧
    req_Header req !! "X-Clickhouse-User" = (if decide (Username ins = "") then None else Some [Username ins]) ∧
    req_Header req !! "X-Clickhouse-Key" = (if decide (Password ins = "") then None else Some [Password ins]) ∧
    ∀ query', set_query u' query' = set_query u query'.
Proof.
  intros Hu [[c Hc] Hq]. destruct (Hq query) as [req Hr].
  destruct (NewRequest_spec _ _ _ _ Hr) as (Hm & Hurl & Hh & [u2 Hp]). rewrite bytes_of_bytes in Hp.
  destruct (add_credentials_spec ins req Hh) as (Hm' & Hurl' & Hn & Hk).
  exists (add_credentials ins req), (set_query u query), u2. split_and!; try done.
  - unfold send_query, mbind, scrape_bind, get, put. rewrite Hr, Hc. by destruct (Do _).
  - by rewrite Hm'.
  - by rewrite Hurl', Hurl, bytes_of_bytes.
  - rewrite (url_Parse_RawQuery (set_query u query)) by (done || by apply set_query_with_query).
    apply set_query_Query.
  - intros query'. apply set_query_set_query.
Qed.

Definition demo_ch : Instance :=
  mkClickhouse "u" "" ["http://h:8123/?db=x"] false [""] [""] 0 [] (Some (mkHttpClient defaultTimeout 1)).

Definition demo_url : URL :=
  mkURL (bytes_of "http") [] None (bytes_of "h:8123") (bytes_of "/") [] false false
    (bytes_of "db=x") [] [].

Lemma demo_sendable : sendable demo_ch demo_url.
Proof.
  apply (sendable_one _ _ ""); [split; [done|by apply (bool_decide_unpack _)]|by eexists|].
  vm_compute. by eexists.
Qed.

Lemma send_query_spec_witness :
  let Do := λ req, Ok (mkResponse 200 (bytes_of (req_URL req)) None) in
  ∃ req u' u2, send_query demo_ch Do "SELECT 'a&b'" 0%nat demo_url = Done (0%nat, u', [], Do req) ∧
    req_URL req = "http://h:8123/?db=x&query=SELECT+%27a%26b%27+FORMAT+JSON" ∧
    url_Parse (bytes_of (req_URL req)) = Some u2 ∧
    Values_Get (url_Query (RawQuery u2)) "query" = bytes_of "SELECT 'a&b' FORMAT JSON".
Proof.
  intros Do.
  destruct (@send_query_spec canonical_order demo_ch Do "SELECT 'a&b'" 0%nat demo_url
    ltac:(split; [done|]; by apply (bool_decide_unpack _)) demo_sendable)
    as (req & u' & u2 & Hs & _ & Hp & Hq & _).
  exists req, u', u2. split; [exact Hs|]. split.
  - assert (Hu : req_URL req = match send_query demo_ch (λ req, Ok (mkResponse 200 (bytes_of (req_URL req)) None))
                                     "SELECT 'a&b'" 0%nat demo_url with
                               | Done (_, _, _, Ok r) => of_bytes (resp_Body r) | _ => "" end).
    { fold Do. rewrite Hs. symmetry. apply of_bytes_of. }
    rewrite Hu. vm_compute. reflexivity.
  - split; [exact Hp|]. unfold Values_Get. by rewrite Hq, lookup_insert_eq.
Defined.

(** ** The filter of the discovery *)

(** Reading a literal of ClickHouse after its opening quote: a backslash takes
    the next byte as it is (the escapes of control characters apart, which the
    program does not write). *)
Fixpoint read_literal (l : bytes) : option (bytes * bytes) :=
  match l with
  | [] => None
  | c :: l1 =>
    if ascii_dec c "'" then Some ([], l1)
    else if ascii_dec c "\" then
      match l1 with d :: l2 => '(v, r) ← read_literal l2; Some (d :: v, r) | [] => None end
    else '(v, r) ← read_literal l1; Some (c :: v, r)
  end.

(** A list of literals up to its closing parenthesis. *)
Fixpoint read_literals (fuel : nat) (l : bytes) : option (list string * bytes) :=
  match fuel, l with
  | S fuel', "'"%char :: l1 =>
    '(v, r) ← read_literal l1;
    match r with
    | ")"%char :: r' => Some ([of_bytes v], r')
    | ","%char :: " "%char :: r' => '(vs, r'') ← read_literals fuel' r'; Some (of_bytes v :: vs, r'')
    | _ => None
    end
  | _, _ => None
  end.

(** A condition on the cluster: its operator and the names it lists. *)
Definition read_condition (expr : string) (l : bytes) : option (list string * bytes) :=
  l ← strip (bytes_of ("cluster " +:+ expr +:+ " (")) l; read_literals (length l) l.

Lemma read_literal_escape s rest :
  read_literal (concat (escape_byte_sql <$> s) ++ "'"%char :: rest) = Some (s, rest).
Proof.
  induction s as [|c s IH]; [done|]. csimpl. unfold escape_byte_sql at 1.
  destruct (ascii_dec c "\") as [->|H1]; [simpl; by rewrite IH|].
  destruct (ascii_dec c "'") as [->|H2]; [simpl; by rewrite IH|].
  cbn [app read_literal]. destruct (ascii_dec c "'"); [done|]. destruct (ascii_dec c "\"); [done|].
  by rewrite IH.
Qed.

Lemma bytes_of_Join sep x l :
  bytes_of (Join sep (x :: l)) =
  bytes_of x ++ match l with [] => [] | _ => bytes_of sep ++ bytes_of (Join sep l) end.
Proof.
  destruct l as [|y l]; [simpl; by rewrite app_nil_r|].
  change (Join sep (x :: y :: l)) with (x +:+ sep +:+ Join sep (y :: l)).
  by rewrite !bytes_of_app.
Qed.

Lemma read_literals_escape fuel vs rest : vs ≠ [] → (length vs ≤ fuel)%nat →
  read_literals fuel (bytes_of (Join ", " (sql_escape <$> vs)) ++ ")"%char :: rest) = Some (vs, rest).
Proof.
  revert fuel. induction vs as [|v vs IH]; intros fuel Hn Hf; [done|].
  destruct fuel as [|fuel]; [simpl in Hf; lia|]. rewrite fmap_cons, bytes_of_Join.
  unfold sql_escape at 1. rewrite bytes_of_bytes. cbn [app read_literals].
  rewrite <- !app_assoc. cbn [app]. rewrite read_literal_escape. cbn [mbind option_bind].
  destruct vs as [|v' vs]; [cbn [fmap list_fmap app]; by rewrite of_bytes_of|].
  rewrite fmap_cons. cbn [app bytes_of]. rewrite <- fmap_cons.
  change (bytes_of ", ") with [","; " "]%char. cbn [app].
  rewrite IH; [|done|simpl in *; lia]. cbn [mbind option_bind]. by rewrite of_bytes_of.
Qed.

Lemma length_Join_escape vs : vs ≠ [] → (length vs ≤ length (bytes_of (Join ", " (sql_escape <$> vs))))%nat.
Proof.
  induction vs as [|v vs IH]; intros Hn; [done|]. rewrite fmap_cons, bytes_of_Join, length_app.
  unfold sql_escape at 1. rewrite bytes_of_bytes. cbn [length].
  destruct vs as [|v' vs]; [simpl; lia|]. rewrite fmap_cons. rewrite <- fmap_cons, length_app.
  specialize (IH ltac:(done)). simpl in *. lia.
Qed.

Lemma read_condition_makeFilter expr vs rest : vs ≠ [] →
  read_condition expr (bytes_of (makeFilter expr vs) ++ rest) = Some (vs, rest).
Proof.
  intros Hn. unfold read_condition.
  assert (bytes_of (makeFilter expr vs) = bytes_of ("cluster " +:+ expr +:+ " (") ++
            bytes_of (Join ", " (sql_escape <$> vs)) ++ [")"%char]) as ->.
  { unfold makeFilter. by rewrite !bytes_of_app, <- !app_assoc. }
  rewrite <- !app_assoc, strip_app. cbn [mbind option_bind app].
  apply read_literals_escape; [done|]. rewrite length_app. pose proof (length_Join_escape vs Hn). lia.
Qed.

Lemma makeFilter_nonempty expr vs : makeFilter expr vs ≠ "".
Proof. done. Qed.

(** No cluster name breaks out of the statement of the discovery. Once the
    handler is configured, the condition reads back as the two configured lists,
    whatever bytes their names hold. It is a disjunction, and a list that was not
    configured holds the empty name: so every named cluster satisfies it when
    no excluded ones are configured. *)
Theorem discovery_filter_roundtrip ins config :
  let ins' := (clickhouse_Init ins config).1 in
  ∃ rest,
    strip (bytes_of "WHERE ") (bytes_of (clusterIncludeExcludeFilter ins')) = Some rest ∧
    ('(inc, r) ← read_condition "IN" rest; r ← strip (bytes_of " OR ") r;
     '(exc, r) ← read_condition "NOT IN" r; Some (inc, exc, r)) =
      Some (ParseSlice config "cluster_include", ParseSlice config "cluster_exclude", []) ∧
    (config !! "cluster_exclude" = None →
     ∀ name, name ≠ "" → name ∉ ParseSlice config "cluster_exclude").
Proof.
  intros ins'. set (inc := ParseSlice config "cluster_include").
  set (exc := ParseSlice config "cluster_exclude").
  assert (Hi : inc ≠ []) by apply Split_not_nil. assert (He : exc ≠ []) by apply Split_not_nil.
  assert (Hf : clusterIncludeExcludeFilter ins' =
    "WHERE " +:+ (makeFilter "IN" inc +:+ (" OR " +:+ makeFilter "NOT IN" exc))).
  { unfold clusterIncludeExcludeFilter, ins'. cbn [clickhouse_Init fst ClusterInclude ClusterExclude].
    fold inc exc. destruct inc as [|i inc'], exc as [|e exc']; try done. }
  eexists. rewrite Hf, bytes_of_app, strip_app. split; [done|]. split.
  - rewrite bytes_of_app, read_condition_makeFilter by done. cbn [mbind option_bind].
    rewrite bytes_of_app, strip_app. cbn [mbind option_bind].
    rewrite <- (app_nil_r (bytes_of (makeFilter "NOT IN" exc))).
    by rewrite read_condition_makeFilter.
  - unfold exc, ParseSlice, Get. intros -> name Hn. change (name ∉ [""]). by rewrite list_elem_of_singleton.
Qed.

(** ** One connection *)

(** Goes through the steps after the first query. *)
Ltac follow rule_bind rule_each rule_when rule_rows :=
  repeat first
    [ apply rule_rows | apply rule_bind; [|intros ?] | apply rule_each; intros ? | apply rule_when
    | case_match | case_decide | progress intros | solve [unfold ch_push; auto with kubemon] ].

Section connection.
Context `{RangeOrder} `{UnicodeTables}.
Variables (ins : Instance) (Do : Doer) (conn : connect).

(** The URLs that queries make of [u]. *)
Definition queried (u u' : URL) : Prop := u' = u ∨ ∃ query, u' = set_query u query.

(** A computation that begins with a query. *)
Definition restarts {A} (m : scrape URL A) : Prop := ∀ n u u', queried u u' → m n u' = m n u.

Lemma restarts_bind {A B} (m : scrape URL A) (f : A → scrape URL B) : restarts m → restarts (m ≫= f).
Proof. intros Hm n u u' Hu. unfold mbind, scrape_bind. by rewrite (Hm n u u' Hu). Qed.

Lemma restarts_send query : restarts (send_query ins Do query).
Proof.
  intros n u u' [->|[q ->]]; [done|]. unfold send_query, mbind, scrape_bind, get, put.
  by rewrite set_query_set_query.
Qed.

Lemma keeps_send u query : keeps (queried u) (send_query ins Do query).
Proof.
  intros n st n' st' out r Hq Hs. apply send_query_step in Hs as (req & _ & [= -> -> -> ->]).
  right. exists query. destruct Hq as [->|[q ->]]; [done|]. by rewrite set_query_set_query.
Qed.

Lemma uniform_send query : uniform (send_query ins Do query).
Proof.
  unfold send_query. apply uniform_bind; [done|]. intros address. apply uniform_bind; [done|].
  intros _. repeat case_match; auto with kubemon.
Qed.

Lemma keeps_checked {T} I dec (zero : T) resp : keeps I (checked_answer dec zero resp).
Proof. unfold checked_answer, decoded_or. repeat case_match; auto with kubemon. Qed.

Lemma uniform_checked {T} dec (zero : T) resp : uniform (checked_answer dec zero resp).
Proof. unfold checked_answer, decoded_or. repeat case_match; auto with kubemon. Qed.

Lemma keeps_rows {T} u (zero : T) dec query : keeps (queried u) (rows ins Do zero dec query).
Proof.
  unfold rows, execQuery. apply keeps_bind; [apply keeps_send|]. intros resp.
  apply keeps_bind; [apply keeps_checked|]. intros data. unfold decoded_or, drain_body.
  apply keeps_bind; [case_match; auto with kubemon|]. intros t.
  apply keeps_bind; [case_match; auto with kubemon|]. auto with kubemon.
Qed.

Lemma uniform_rows {T} (zero : T) dec query : uniform (rows ins Do zero dec query).
Proof.
  unfold rows, execQuery. apply uniform_bind; [apply uniform_send|]. intros resp.
  apply uniform_bind; [apply uniform_checked|]. intros data. unfold decoded_or, drain_body.
  apply uniform_bind; [case_match; auto with kubemon|]. intros t.
  apply uniform_bind; [case_match; auto with kubemon|]. auto with kubemon.
Qed.

Lemma silent_rows {T} (zero : T) dec query : silent (rows ins Do zero dec query).
Proof.
  unfold rows, execQuery. apply silent_bind.
  { intros n u n' u' out r Hs. by apply send_query_step in Hs as (req & _ & [= _ _ -> _]). }
  intros resp. apply silent_bind; [unfold checked_answer, decoded_or; repeat case_match; auto with kubemon|].
  intros data. unfold decoded_or, drain_body.
  apply silent_bind; [case_match; auto with kubemon|]. intros t.
  apply silent_bind; [case_match; auto with kubemon|]. auto with kubemon.
Qed.

Lemma restarts_rows {T} (zero : T) dec query : restarts (rows ins Do zero dec query).
Proof. apply restarts_bind, restarts_send. Qed.

(** What each metric function is: it changes the URL by queries only, its
    samples do not depend on the numbers of its loops, and it begins with a
    query. *)
Definition well_behaved (m : scrape URL unit) : Prop :=
  (∀ u, keeps (queried u) m) ∧ uniform m ∧ restarts m.

Ltac metric_function :=
  split_and!; [intros u|..];
  [ follow (@keeps_bind URL) (@keeps_for_each URL) (@keeps_when URL) @keeps_rows
  | follow (@uniform_bind URL) (@uniform_for_each URL) (@uniform_when URL) @uniform_rows
  | apply restarts_bind, restarts_rows ].

Lemma metricsFuncs_well_behaved : Forall well_behaved (metricsFuncs ins Do conn).
Proof. repeat apply Forall_cons_2; [..|apply Forall_nil_2]; metric_function. Qed.

Lemma commonMetrics_well_behaved metric : well_behaved (commonMetrics ins Do conn metric).
Proof.
  split_and!; [intros u|..].
  - unfold commonMetrics. follow (@keeps_bind URL) (@keeps_for_each URL) (@keeps_when URL) @keeps_rows.
  - unfold commonMetrics. follow (@uniform_bind URL) (@uniform_for_each URL) (@uniform_when URL) @uniform_rows.
  - unfold commonMetrics. case_match; apply restarts_bind, restarts_rows.
Qed.

Lemma queried_refl u : queried u u.
Proof. by left. Qed.

Lemma gather_connection_pushes n u :
  ∃ order, order ≡ₚ (map_to_list commonMetrics_table).*1 ∧
    pushes (gather_connection ins Do conn n u) =
    concat_pushes (pushes_from u <$>
      (metricsFuncs ins Do conn ++ (commonMetrics ins Do conn <$> order))).
Proof.
  assert (Hw : ∀ f, well_behaved f → keeps (queried u) f ∧ uniform f ∧
    ∀ n st, queried u st → f n st = f n u).
  { intros f (Hk & Hu & Hr). split_and!; [apply Hk|done|]. intros n' st Hq. by apply Hr. }
  pose proof (attempts_spec (queried u) u (metricsFuncs ins Do conn) id n u) as Hp. rewrite list_fmap_id in Hp.
  ospecialize* Hp; [|apply queried_refl|].
  { intros f Hf. apply Hw. pose proof metricsFuncs_well_behaved as Ha. rewrite Forall_forall in Ha. by apply Ha. }
  unfold gather_connection. rewrite pushes_bind.
  change (for_each (metricsFuncs ins Do conn) attempt) with
    (for_each (metricsFuncs ins Do conn) (λ f, attempt (id f))).
  destruct (for_each (metricsFuncs ins Do conn) _ n u) as [[[[k s] o] r]|msg].
  2: { exists (map_to_list commonMetrics_table).*1. split; [done|].
       rewrite fmap_app, concat_pushes_app. by rewrite Hp. }
  destruct Hp as (-> & Hs & Hp).
  exists (range_list k commonMetrics_table).*1. split; [by rewrite range_list_perm|].
  rewrite fmap_app, concat_pushes_app, Hp. cbn [mbind outcome_bind].
  rewrite pushes_bind. cbn [range_map].
  pose proof (attempts_spec (queried u) u (range_list k commonMetrics_table)
    (λ m, commonMetrics ins Do conn m.1) (S k) s) as Hc.
  ospecialize* Hc; [intros m _; apply Hw, commonMetrics_well_behaved|done|].
  rewrite <- (list_fmap_compose fst (commonMetrics ins Do conn)). unfold compose.
  destruct (for_each (range_list k commonMetrics_table) _ (S k) s) as [[[[k' s'] o'] r']|].
  - destruct Hc as (_ & _ & ->). done.
  - by rewrite Hc.
Qed.
End connection.

(** ** Which answers crash the process *)

Section crash.
Context `{RangeOrder} `{UnicodeTables}.
Variables (ins : Instance) (Do : Doer) (conn : connect).

(** The rows a statement is answered with. *)
Definition reply {T} (u : URL) (zero : T) (dec : decoder T) (query : string) : result (list T) :=
  match rows ins Do zero dec query 0%nat u with
  | Done (_, _, _, r) => r
  | Panic _ => Err json_error
  end.

Lemma send_query_ok query n u : sendable ins u →
  ∃ req, send_query ins Do query n u = Done (n, set_query u query, [], Do (add_credentials ins req)).
Proof.
  intros [[c Hc] Hq]. destruct (Hq query) as [req Hr]. exists req.
  unfold send_query, mbind, scrape_bind, get, put. rewrite Hr, Hc. unfold of_result.
  by destruct (Do _).
Qed.

Lemma rows_runs {T} u (zero : T) dec query : sendable ins u →
  runs (rows ins Do zero dec query) u [] (set_query u query) (reply u zero dec query).
Proof.
  intros Hu. assert (Hr : ∃ r, ∀ n, rows ins Do zero dec query n u = Done (n, set_query u query, [], r)).
  { destruct (send_query_ok query 0 u Hu) as [req _].
    unfold rows, execQuery, checked_answer, decoded_or, drain_body.
    assert (Hs : ∃ r, ∀ n, send_query ins Do query n u = Done (n, set_query u query, [], r)).
    { destruct Hu as [[c Hc] Hq]. destruct (Hq query) as [req' Hr].
      exists (Do (add_credentials ins req')). intros n.
      unfold send_query, mbind, scrape_bind, get, put. rewrite Hr, Hc. by destruct (Do _). }
    destruct Hs as [[resp|e] Hs]; [|exists (Err e); intros n; unfold mbind, scrape_bind; by rewrite Hs].
    unfold mbind, scrape_bind. setoid_rewrite Hs.
    destruct (300 <=? StatusCode resp); [by eexists|].
    destruct (Decode _ None resp) as [data|]; simpl; [|by eexists].
    destruct (Unmarshal _ [] data) as [t|]; simpl; [|by eexists].
    destruct (body_error resp); simpl; by eexists. }
  destruct Hr as [r Hr]. unfold reply. rewrite Hr. intros n. exists n. apply Hr.
Qed.

Lemma safe_rows {T} (zero : T) dec query : safe (sendable ins) (rows ins Do zero dec query).
Proof.
  intros n u Hu. destruct (rows_runs u zero dec query Hu n) as [n' Hr]. rewrite Hr.
  eexists _, _, _, _. split; [done|]. by apply sendable_set_query.
Qed.

(** The functions that never panic. *)
Lemma safe_metricsFuncs f : f ∈ metricsFuncs ins Do conn →
  f = zookeeper ins Do conn ∨ f = replicationQueue ins Do conn ∨ safe (sendable ins) f.
Proof.
  intros Hf. unfold metricsFuncs in Hf. rewrite !elem_of_cons, elem_of_nil in Hf.
  destruct Hf as [->|[->|[->|[->|[->|[->|[->|[->|[->|[]]]]]]]]]]; auto; right; right;
    follow (@safe_bind URL) (@safe_for_each URL) (@safe_when URL) @safe_rows.
Qed.

Lemma safe_commonMetrics metric : safe (sendable ins) (commonMetrics ins Do conn metric).
Proof. unfold commonMetrics. follow (@safe_bind URL) (@safe_for_each URL) (@safe_when URL) @safe_rows. Qed.

Definition first_positive (r : result (list Z)) : Prop :=
  match r with Ok l => 0 < default 0 (head l) | Err _ => False end.

(** The second statement of a function that looks at the first row without
    looking whether there is one. *)
Definition empty_reply {T} (u : URL) (zero : T) (dec : decoder T) (query : string) : Prop :=
  reply u zero dec query = Ok [].

Lemma crash_after_exists {T} u name query (zero : T) dec query' (f : T → scrape URL unit) :
  sendable ins u → (∀ t, safe (sendable ins) (f t)) →
  is_panic (pushes_from u
    (l ← rows ins Do 0 (dec_count name) query;
     when (0 <? default 0 (head l))
       (l' ← rows ins Do zero dec query';
        match l' with [] => crash "index out of range" | t :: _ => f t end))) ↔
  first_positive (reply u 0 (dec_count name) query) ∧ empty_reply u zero dec query'.
Proof.
  intros Hu Hf. unfold pushes_from.
  destruct (rows_runs u 0 (dec_count name) query Hu 0%nat) as [n1 H1].
  rewrite pushes_bind, H1. unfold first_positive.
  destruct (reply u 0 (dec_count name) query) as [l|e]; [|split; [by intros [? ?]|by intros [? _]]].
  destruct (Z.ltb_spec 0 (default 0 (head l))) as [Hp|Hp]; cbn [when].
  2: { split; [by intros [? ?]|by intros [? _]; lia]. }
  rewrite pushes_bind. pose proof (sendable_set_query ins u query Hu) as Hu'.
  rewrite (restarts_rows ins Do zero dec query' n1 u) by (right; by exists query).
  destruct (rows_runs u zero dec query' Hu n1) as [n2 H2]. rewrite H2. unfold empty_reply.
  destruct (reply u zero dec query') as [[|t l']|e].
  - split; [done|]. intros _. by eexists.
  - destruct (Hf t n2 (set_query u query') ltac:(by apply sendable_set_query)) as (? & ? & ? & ? & -> & _).
    split; [by intros [? ?]|by intros [_ ?]].
  - split; [by intros [? ?]|by intros [_ ?]].
Qed.
End crash.

Lemma sendable_no_panic `{RangeOrder} ins u f : sendable ins u → safe (sendable ins) f → ¬ is_panic (pushes_from u f).
Proof.
  intros Hu Hf [s Hs]. unfold pushes_from in Hs.
  destruct (Hf 0%nat u Hu) as (? & ? & ? & ? & He & _). by rewrite He in Hs.
Qed.

Lemma zookeeper_crash `{RangeOrder} ins Do conn u : sendable ins u →
  is_panic (pushes_from u (zookeeper ins Do conn)) ↔
  first_positive (reply ins Do u 0 (dec_count "zk_exists") systemZookeeperExistsSQL) ∧
  empty_reply ins Do u 0 (dec_count "zk_root_nodes") systemZookeeperRootNodesSQL.
Proof.
  intros Hu. apply (crash_after_exists ins Do u "zk_exists" systemZookeeperExistsSQL 0
    (dec_count "zk_root_nodes") systemZookeeperRootNodesSQL
    (λ n, ch_push "clickhouse_zookeeper" "root_nodes" (VUint64 n) (makeDefaultTags conn)) Hu).
  intros t. apply safe_push_sample.
Qed.

Lemma replicationQueue_crash `{RangeOrder} ins Do conn u : sendable ins u →
  is_panic (pushes_from u (replicationQueue ins Do conn)) ↔
  first_positive (reply ins Do u 0 (dec_count "replication_queue_exists") systemReplicationExistsSQL) ∧
  empty_reply ins Do u (mkTries 0 0) dec_tries systemReplicationNumTriesSQL.
Proof.
  intros Hu. apply (crash_after_exists ins Do u "replication_queue_exists" systemReplicationExistsSQL
    (mkTries 0 0) dec_tries systemReplicationNumTriesSQL
    (λ t, _ ← ch_push "clickhouse_replication_queue" "too_many_tries_replicas"
                (VUint64 (TooManyTriesReplicas t)) (makeDefaultTags conn);
          ch_push "clickhouse_replication_queue" "num_tries_replicas"
            (VUint64 (NumTriesReplicas t)) (makeDefaultTags conn)) Hu).
  intros t. apply safe_bind; intros; apply safe_push_sample.
Qed.

(** C12: when the answers of a server crash the process. Whatever else they hold,
    errors and malformed rows included, the questions to a connection panic in
    two cases only: the server says that it has ZooKeeper, or a replication
    queue, and then answers the question about it without a row. *)
Theorem gather_connection_crash `{RangeOrder} `{UnicodeTables} ins Do conn n u :
  sendable ins u →
  is_panic (gather_connection ins Do conn n u) ↔
  (first_positive (reply ins Do u 0 (dec_count "zk_exists") systemZookeeperExistsSQL) ∧
   empty_reply ins Do u 0 (dec_count "zk_root_nodes") systemZookeeperRootNodesSQL) ∨
  (first_positive (reply ins Do u 0 (dec_count "replication_queue_exists") systemReplicationExistsSQL) ∧
   empty_reply ins Do u (mkTries 0 0) dec_tries systemReplicationNumTriesSQL).
Proof.
  intros Hu. rewrite <- pushes_panic, <- (zookeeper_crash _ _ conn) , <- (replicationQueue_crash _ _ conn) by done.
  destruct (gather_connection_pushes ins Do conn n u) as (order & _ & ->).
  rewrite concat_pushes_panic, Exists_fmap, Exists_app. unfold compose. split.
  - intros [Hf|Hc].
    + apply Exists_exists in Hf as (f & Hin & Hf).
      destruct (safe_metricsFuncs ins Do conn f Hin) as [->|[->|Hs]]; [by left|by right|].
      exfalso. eapply sendable_no_panic; [exact Hu|exact Hs|exact Hf].
    + exfalso. apply Exists_exists in Hc as (f & Hin & Hf). apply list_elem_of_fmap in Hin as (m & -> & _).
      eapply sendable_no_panic; [exact Hu|apply safe_commonMetrics|exact Hf].
  - unfold metricsFuncs. rewrite !Exists_cons. tauto.
Qed.

(** A server that has ZooKeeper, when asked for its tables, and nothing else. *)
Definition empty_server (req : GoHttp.Request) : result Response :=
  let query := Values_Get (url_Query (default [] (RawQuery <$> url_Parse (bytes_of (req_URL req))))) "query" in
  let body := if decide (query = sql_text systemZookeeperExistsSQL)
              then RObject [(bytes_of "data", RArray [RObject [(bytes_of "zk_exists", RString (bytes_of "1"))]])]
              else RObject [(bytes_of "data", RArray [])] in
  Ok (mkResponse 200 (print body) None).

Lemma gather_connection_crash_witness :
  is_panic (@gather_connection canonical_order demo_ch empty_server (mkConnect "" 0 "h" (Some demo_url))
              ascii_tables 0%nat demo_url).
Proof.
  apply (@gather_connection_crash canonical_order ascii_tables demo_ch empty_server).
  - apply (sendable_one _ _ ""); [split; [done|by apply (bool_decide_unpack _)]|by eexists|].
    vm_compute. by eexists.
  - left. split; vm_compute; reflexivity.
Defined.

(** ** Discovery *)

Abbreviation hosts cs := (conn_Hostname <$> cs).

Lemma exists_host_spec cs host : exists_host cs host = true ↔ host ∈ hosts cs.
Proof.
  unfold exists_host. rewrite existsb_exists, list_elem_of_fmap. split.
  - intros (c & Hc & He). apply bool_decide_eq_true in He as <-. exists c. by rewrite list_elem_of_In.
  - intros (c & -> & Hc). exists c. by rewrite <- list_elem_of_In, bool_decide_eq_true.
Qed.

(** A connection made by the discovery through the server of [u]. *)
Definition discovered_by (u : URL) (c : connect) : Prop :=
  conn_url c = Some (mkURL (Scheme u) [] None (JoinHostPort (bytes_of (conn_Hostname c)) (Port u))
                       [] [] false false [] [] []).

Lemma add_discovered_spec (P : connect → Prop) u conns cs :
  NoDup (hosts cs) → Forall P cs → (∀ c, discovered_by u c → P c) →
  let cs' := add_discovered u conns cs in
  NoDup (hosts cs') ∧ Forall P cs' ∧ hosts cs ⊆ hosts cs' ∧ hosts conns ⊆ hosts cs'.
Proof.
  intros Hn HP Hu. revert cs Hn HP. induction conns as [|c conns IH]; intros cs Hn HP; simpl; [set_solver|].
  destruct (exists_host cs (conn_Hostname c)) eqn:He.
  - apply exists_host_spec in He. destruct (IH cs Hn HP) as (? & ? & ? & ?). split_and!; set_solver.
  - assert (Hc : conn_Hostname c ∉ hosts cs).
    { intros Hin. apply exists_host_spec in Hin. congruence. }
    destruct (IH (cs ++ [discovered u c])) as (? & ? & ? & ?).
    + rewrite fmap_app. apply NoDup_app. split_and!; [done|set_solver|apply NoDup_singleton].
    + apply Forall_app_2; [done|]. apply Forall_cons_2; [by apply Hu|constructor].
    + rewrite fmap_app in *. split_and!; set_solver.
Qed.

Section discovery.
Context `{RangeOrder}.
Variables (ins : Instance) (w : ch_world).

(** What the [i]-th server answers to the discovery. *)
Definition listed (i : nat) (server : string) (conns : list connect) : Prop :=
  ∃ u, url_Parse (bytes_of server) = Some u ∧
       reply ins (cw_discover w i) u (mkConnect "" 0 "" None) dec_connect (discovery_query ins) = Ok conns.

Definition by_server (servers : list string) (c : connect) : Prop :=
  ∃ server u, server ∈ servers ∧ url_Parse (bytes_of server) = Some u ∧ discovered_by u c.

Lemma rows_step {T} Do (zero : T) dec query n u n' u' out r :
  rows ins Do zero dec query n u = Done (n', u', out, r) →
  out = [] ∧ queried u u' ∧ r = reply ins Do u zero dec query.
Proof.
  intros Hs. pose proof (uniform_rows ins Do zero dec query n 0%nat u) as Hu.
  unfold reply. rewrite Hs in Hu. simpl in Hu.
  destruct (rows ins Do zero dec query 0%nat u) as [[[[? ?] ?] r']|]; [|done]. injection Hu as <- <- <-.
  split_and!; [by eapply silent_rows|eapply keeps_rows; [apply queried_refl|exact Hs]|done].
Qed.

Lemma find_connections_discovered servers0 i servers n cs n' cs' out r :
  AutoDiscovery ins = true → servers ⊆ servers0 →
  NoDup (hosts cs) → Forall (by_server servers0) cs →
  find_connections ins w i servers n cs = Done (n', cs', out, r) →
  out = [] ∧ NoDup (hosts cs') ∧ Forall (by_server servers0) cs' ∧ hosts cs ⊆ hosts cs' ∧
  match r with
  | Ok _ => ∀ j server conns, servers !! j = Some server → listed (i + j) server conns →
              hosts conns ⊆ hosts cs'
  | Err _ => Exists (λ server, url_Parse (bytes_of server) = None) servers
  end.
Proof.
  intros Ha. revert i n cs n' cs' out r. induction servers as [|server servers IH];
    intros i n cs n' cs' out r Hsub Hn HF; cbn [find_connections].
  { intros [= <- <- <- <-]. split_and!; [done..|set_solver|done]. }
  destruct (url_Parse (bytes_of server)) as [u|] eqn:Hp.
  2: { intros [= <- <- <- <-]. split_and!; [done..|set_solver|]. by left. }
  rewrite Ha. unfold mbind, scrape_bind.
  destruct (rows _ _ _ _ _ n u) as [[[[k u1] o] r1]|] eqn:Hr; [|done].
  apply rows_step in Hr as (-> & Hu1 & Hr1).
  assert (Hnext : ∃ cs1, NoDup (hosts cs1) ∧ Forall (by_server servers0) cs1 ∧ hosts cs ⊆ hosts cs1 ∧
    (∀ conns, r1 = Ok conns → hosts conns ⊆ hosts cs1) ∧
    match r1 with Ok conns => Done (k, add_discovered u1 conns cs, [], Ok ())
                | Err _ => Done (k, cs, [], Ok ()) end =
      Done (k, cs1, [] : list (option Sample), Ok () : result unit)).
  { destruct r1 as [conns|e]; [|exists cs; split_and!; [done..|set_solver|done|done]].
    destruct (add_discovered_spec (by_server servers0) u1 conns cs Hn HF) as (H1 & H2 & H3 & H4).
    { intros c Hc. exists server, u. split_and!; [set_solver|done|].
      unfold discovered_by in *. by destruct Hu1 as [->|[q ->]]. }
    eexists. split_and!; [exact H1|exact H2|exact H3| |done]. by intros ? [= <-]. }
  destruct Hnext as (cs1 & H1 & H2 & H3 & H4 & Heq). rewrite Heq.
  destruct (find_connections ins w (S i) servers k cs1) as [[[[k' cs2] o'] r']|] eqn:Hrec; [|done].
  intros [= <- <- <- <-].
  destruct (IH _ _ _ _ _ _ _ ltac:(set_solver) H1 H2 Hrec) as (-> & ? & ? & ? & Hr').
  split_and!; [done..|set_solver|]. destruct r' as [[]|]; [|by right].
  intros [|j] srv conns Hj Hl.
  - injection Hj as <-. destruct Hl as (u0 & Hu0 & Hl). rewrite Nat.add_0_r in Hl. simplify_eq.
    specialize (H4 conns Hl). set_solver.
  - rewrite Nat.add_succ_r in Hl. by apply (Hr' j srv).
Qed.
End discovery.

(** Requests to the configured servers can be made. *)
Definition askable (ins : Instance) (servers : list string) : Prop :=
  Forall (λ server, ∀ u, url_Parse (bytes_of server) = Some u → sendable ins u) servers.

Definition has_url (c : connect) : Prop := is_Some (conn_url c).

Lemma add_discovered_urls u conns cs : Forall has_url cs → Forall has_url (add_discovered u conns cs).
Proof.
  revert cs. induction conns as [|c conns IH]; intros cs Hc; simpl; [done|].
  destruct (exists_host _ _); apply IH; [done|].
  apply Forall_app_2; [done|]. apply Forall_singleton. by eexists.
Qed.

(** The search for connections ends. *)
Lemma find_connections_ends `{RangeOrder} ins w i servers n cs :
  askable ins servers → Forall has_url cs →
  ∃ n' cs' out r, find_connections ins w i servers n cs = Done (n', cs', out, r) ∧ Forall has_url cs'.
Proof.
  intros Hs. revert i n cs. induction Hs as [|server servers Hs _ IH]; intros i n cs Hc; cbn [find_connections].
  { by eexists _, _, _, _. }
  destruct (url_Parse (bytes_of server)) as [u|]; [|by eexists _, _, _, _].
  unfold mbind, scrape_bind. destruct (AutoDiscovery ins).
  - destruct (safe_rows ins (cw_discover w i) (mkConnect "" 0 "" None) dec_connect (discovery_query ins)
      n u (Hs u eq_refl)) as (n1 & u1 & o1 & [conns|e] & -> & _).
    + destruct (IH (S i) n1 _ (add_discovered_urls u1 conns cs Hc)) as (? & ? & ? & ? & -> & ?).
      by eexists _, _, _, _.
    + destruct (IH (S i) n1 cs Hc) as (? & ? & ? & ? & -> & ?). by eexists _, _, _, _.
  - unfold get, put.
    destruct (IH (S i) n (cs ++ [mkConnect "" 0 (of_bytes (Hostname u)) (Some u)])) as (? & ? & ? & ? & -> & ?).
    { apply Forall_app_2; [done|]. apply Forall_singleton. by eexists. }
    by eexists _, _, _, _.
Qed.

(** What the discovery finds. It ends, and never lists a host twice: the
    hosts of the connections are distinct, each is reached with the scheme and
    the port of a configured server, and every host that a server lists is among
    them, unless some address cannot be parsed, which ends the gather. *)
Theorem discovery_spec ins w n :
  AutoDiscovery ins = true → askable ins (Servers ins) →
  ∃ n' cs r, find_connections ins w 0 (Servers ins) n [] = Done (n', cs, [], r) ∧
  NoDup (hosts cs) ∧ Forall (by_server (Servers ins)) cs ∧
  match r with
  | Ok _ => ∀ i server conns, Servers ins !! i = Some server → listed ins w i server conns →
              hosts conns ⊆ hosts cs
  | Err _ => Exists (λ server, url_Parse (bytes_of server) = None) (Servers ins)
  end.
Proof.
  intros Ha Hs. pose proof canonical_order as Hro.
  destruct (find_connections_ends ins w 0 (Servers ins) n [] Hs ltac:(constructor)) as (n' & cs & out & r & Hf & _).
  destruct (find_connections_discovered ins w (Servers ins) 0 (Servers ins) n [] n' cs out r)
    as (-> & ? & ? & _ & ?); try done; try constructor. by eexists _, _, _.
Qed.

(** A server that lists the host [h2] twice in its clusters. *)
Definition cluster_server (req : GoHttp.Request) : result Response :=
  let host h := RObject [(bytes_of "cluster", RString (bytes_of "c")); (bytes_of "shard_num", RNumber (bytes_of "1"));
                         (bytes_of "host_name", RString (bytes_of h))] in
  Ok (mkResponse 200 (print (RObject [(bytes_of "data", RArray [host "h2"; host "h3"; host "h2"])])) None).

Definition demo_ch_world (Do : Doer) : ch_world :=
  mkChWorld 0 (λ _, Do) (λ _, Do) (λ _ _, Do) (λ _, []).

Definition demo_discover : Instance :=
  mkClickhouse "" "" ["http://a:8123/"; "http://b:9000/"] true [""] [""] 0 [] (Some (mkHttpClient defaultTimeout 1)).

Lemma demo_askable : askable demo_discover (Servers demo_discover).
Proof.
  apply Forall_cons_2; [|apply Forall_cons_2; [|apply Forall_nil_2]]; intros u Hu; vm_compute in Hu; injection Hu as <-;
    (apply (sendable_one _ _ ""); [split; [done|by apply (bool_decide_unpack _)]|by eexists|vm_compute; by eexists]).
Qed.

Lemma discovery_spec_witness :
  ∃ n cs, find_connections demo_discover (demo_ch_world cluster_server) 0
      (Servers demo_discover) 0%nat [] = Done (n, cs, [], Ok ()) ∧
    NoDup (hosts cs) ∧ hosts cs = ["h2"; "h3"] ∧
    Forall (by_server (Servers demo_discover)) cs.
Proof.
  destruct (discovery_spec demo_discover (demo_ch_world cluster_server) 0%nat eq_refl demo_askable)
    as (n & cs & r & Hf & Hn & HF & _).
  pose proof Hf as He. vm_compute in He. injection He as <- <- <-.
  eexists _, _. split; [exact Hf|]. split; [exact Hn|]. split; [vm_compute; reflexivity|exact HF].
Defined.

(** ** Gather *)

Section gather.
Context `{RangeOrder} `{UnicodeTables}.
Variables (gjson_String : raw → string → string) (ins : Instance) (w : ch_world).

(** What connection [i] pushes: each function as if it alone were run, the
    common metrics in some order. *)
Definition gathered (i : nat) (c : connect) (out : list (option Sample)) : Prop :=
  ∃ u order, conn_url c = Some u ∧ order ≡ₚ (map_to_list commonMetrics_table).*1 ∧
    concat_pushes (pushes_from u <$>
      (metricsFuncs ins (cw_connection w i) c ++ (commonMetrics ins (cw_connection w i) c <$> order))) =
    Done out.

Lemma custom_metrics_none i n cs :
  Metrics ins = [] → custom_metrics ins gjson_String w i n cs = Done (n, cs, [], Ok ()).
Proof.
  intros Hm. unfold custom_metrics. rewrite Hm. simpl.
  by induction (cw_schedule w i) as [|j l IH].
Qed.

Lemma gather_connection_errorless Do c : errorless (gather_connection ins Do c).
Proof.
  apply errorless_bind; [apply errorless_for_each; intros; apply errorless_attempt|]. intros _.
  apply errorless_bind; [apply errorless_range|]. intros m.
  apply errorless_for_each. intros; apply errorless_attempt.
Qed.

(** A question to connection [i] panics. *)
Definition crashing (i : nat) (c : connect) : Prop :=
  ∃ u, conn_url c = Some u ∧ is_panic (gather_connection ins (cw_connection w i) c 0%nat u).

Lemma Exists_perm {A} (P : A → Prop) l l' : l ≡ₚ l' → Exists P l ↔ Exists P l'.
Proof. intros Hl. rewrite !Exists_exists. by setoid_rewrite Hl. Qed.

(** Whether the questions panic depends on no loop's order. *)
Lemma gather_connection_panic i c n u :
  is_panic (gather_connection ins (cw_connection w i) c n u) ↔
  Exists (λ f, is_panic (pushes_from u f))
    (metricsFuncs ins (cw_connection w i) c ++
     (commonMetrics ins (cw_connection w i) c <$> (map_to_list commonMetrics_table).*1)).
Proof.
  rewrite <- pushes_panic. destruct (gather_connection_pushes ins (cw_connection w i) c n u) as (o & Ho & ->).
  rewrite concat_pushes_panic, Exists_fmap, !Exists_app, !Exists_fmap, (Exists_perm _ _ _ Ho), !Exists_fmap.
  reflexivity.
Qed.

Lemma crashing_gathered i c out : crashing i c → ¬ gathered i c out.
Proof.
  intros (u & Hu & Hp) (u' & o & Hu' & Ho & Hg). simplify_eq.
  apply gather_connection_panic in Hp.
  assert (is_panic (concat_pushes (pushes_from u <$> (metricsFuncs ins (cw_connection w i) c ++
    (commonMetrics ins (cw_connection w i) c <$> o))))) as [s Hs].
  { rewrite concat_pushes_panic, Exists_fmap, Exists_app, Exists_fmap, (Exists_perm _ _ _ Ho).
    by rewrite Exists_app, Exists_fmap in Hp. }
  congruence.
Qed.

(** The loop over the connections from [k] on, with those still as they were. *)
Lemma gather_loop_spec (cs0 : list connect) k m n (cs : list connect) :
  Metrics ins = [] → Forall has_url cs0 → length cs0 = (k + m)%nat → (∀ i, k ≤ i → cs !! i = cs0 !! i)%nat →
  match for_each (seq k m) (λ i, _ ← with_connection i (λ c, gather_connection ins (cw_connection w i) c);
                                 custom_metrics ins gjson_String w i) n cs with
  | Done (_, _, out, r) =>
    r = Ok () ∧ ∃ outs, out = concat outs ∧ length outs = m ∧
      ∀ j o, outs !! j = Some o → ∃ c, cs0 !! (k + j)%nat = Some c ∧ gathered (k + j) c o
  | Panic _ => ∃ i c, cs0 !! i = Some c ∧ crashing i c
  end.
Proof.
  intros Hm Hurl. revert k n cs. induction m as [|m IH]; intros k n cs Hlen Hcs; cbn [seq for_each].
  { split; [done|]. by exists []. }
  unfold mbind, scrape_bind in *. unfold with_connection at 1. rewrite (Hcs k ltac:(lia)).
  destruct (lookup_lt_is_Some_2 cs0 k ltac:(lia)) as [c Hc]. rewrite Hc.
  assert (is_Some (conn_url c)) as [u Hu] by exact (Forall_lookup_1 _ _ _ _ Hurl Hc). rewrite Hu.
  pose proof (gather_connection_pushes ins (cw_connection w k) c n u) as (order & Hord & Hp).
  destruct (gather_connection ins (cw_connection w k) c n u) as [[[[n1 u1] o1] r1]|s] eqn:Hg.
  2: { exists k, c. split; [done|]. exists u. split; [done|].
       apply gather_connection_panic, (gather_connection_panic _ _ n). rewrite Hg. by eexists. }
  destruct (gather_connection_errorless _ _ _ _ _ _ _ _ Hg) as [[] ->].
  rewrite custom_metrics_none by done.
  specialize (IH (S k) n1 (<[k:=set_url c u1]> cs) ltac:(lia)).
  destruct (for_each (seq (S k) m) _ _ _) as [[[[n2 cs2] o2] r2]|].
  2: { apply IH. intros i Hi. rewrite list_lookup_insert_ne by lia. apply Hcs. lia. }
  destruct IH as (-> & outs & -> & Hl & Ho).
  { intros i Hi. rewrite list_lookup_insert_ne by lia. apply Hcs. lia. }
  split; [done|]. exists (o1 :: outs). split_and!; [by rewrite app_nil_r|simpl; by rewrite Hl|].
  intros [|j] o Hj.
  - injection Hj as <-. rewrite Nat.add_0_r. exists c. split; [done|]. by exists u, order.
  - rewrite Nat.add_succ_r. by apply (Ho j).
Qed.
End gather.

(** C31: what a gather of ClickHouse adds. An address that cannot be parsed ends
    it with an error, what was pushed before added. Otherwise it returns no
    error, and each connection adds, in their order, what each of its questions
    would add if it were asked alone, a failed one included: no answer changes
    what is made of another. It crashes exactly when a question to some
    connection does. (No configuration sets custom metrics.) *)
Theorem clickhouse_Gather_spec `{RangeOrder} `{UnicodeTables} gjson_String ins w slist :
  Metrics ins = [] → askable ins (Servers ins) →
  let G := clickhouse_Gather gjson_String ins w slist in
  ∃ n cs out r, find_connections ins w 0 (Servers ins) (cw_loop w) [] = Done (n, cs, out, r) ∧
  match r with
  | Err e => G = Done (pushed out slist, Some e)
  | Ok _ =>
    ((∀ i c, cs !! i = Some c → ¬ crashing ins w i c) ∧
     ∃ outs, G = Done (pushed (out ++ concat outs) slist, None) ∧ length outs = length cs ∧
       ∀ i o, outs !! i = Some o → ∃ c, cs !! i = Some c ∧ gathered ins w i c o) ∨
    ((∃ i c, cs !! i = Some c ∧ crashing ins w i c) ∧ is_panic G)
  end.
Proof.
  intros Hm Hs G. destruct (find_connections_ends ins w 0 (Servers ins) (cw_loop w) [] Hs ltac:(constructor))
    as (n & cs & out & r & Hf & Hurl).
  exists n, cs, out, r. split; [done|]. revert G.
  unfold clickhouse_Gather, clickhouse_gather, gather_all_connections, get.
  unfold mbind, scrape_bind. rewrite Hf. destruct r as [[]|e]; [|done].
  pose proof (gather_loop_spec gjson_String ins w cs 0 (length cs) n cs Hm Hurl eq_refl
    ltac:(by intros)) as Hl. unfold mbind, scrape_bind in Hl.
  destruct (for_each _ _ n cs) as [[[[n' cs'] out'] r]|s]; [left|right; split; [done|by eexists]].
  destruct Hl as (-> & outs & -> & Hlen & Ho). split; [|by exists outs].
  intros i c Hc Hp. destruct (lookup_lt_is_Some_2 outs i) as [o Hout]; [rewrite Hlen; by eapply lookup_lt_Some|].
  destruct (Ho _ _ Hout) as (c' & Hc' & Hg). simplify_eq/=. by eapply crashing_gathered.
Qed.

(** ** From an answer to samples *)

(** A row of system.events or system.metrics as ClickHouse writes it; whether
    64-bit integers are quoted is a setting of the server. *)
Definition value_json (quoted : bool) (value : Z) : raw :=
  if quoted then RString (bytes_of (Itoa value)) else RNumber (bytes_of (Itoa value)).

Definition row_json (quoted : bool) (row : string * Z) : raw :=
  RObject [(bytes_of "metric", RString (bytes_of row.1)); (bytes_of "value", value_json quoted row.2)].

Definition row_ok (row : string * Z) : Prop := plain row.1 ∧ is_uint64 row.2.

(** The body: members before and after the data. *)
Definition answer_json (quoted : bool) (before after : list (bytes * raw)) (rows : list (string * Z)) : raw :=
  RObject (before ++ (bytes_of "data", RArray (row_json quoted <$> rows)) :: after).

Definition other_members (ms : list (bytes * raw)) : Prop :=
  Forall (λ kv, field_name ["Data"] (unquote kv.1) ≠ Some "Data") ms ∧ wf 0 (RObject ms).

Lemma UnmarshalJSON_value quoted value : is_uint64 value →
  UnmarshalJSON (print (value_json quoted value)) = Some value.
Proof.
  intros Hv. unfold UnmarshalJSON, value_json.
  assert (Hq : dquote ∉ bytes_of (Itoa value)) by by apply Itoa_clean.
  destruct (Trim_byte _ _ Hq) as [Hp Hs].
  destruct quoted; cbn [print].
  - unfold GoJson.quoted. change (dquote :: bytes_of (Itoa value) ++ [dquote]) with
      ([dquote] ++ (bytes_of (Itoa value) ++ [dquote])).
    rewrite !of_bytes_app, of_bytes_of, TrimPrefix_app, TrimSuffix_app, ParseUint_Itoa by done. done.
  - rewrite of_bytes_of. change (of_bytes [dquote]) with (String dquote "").
    by rewrite Hp, Hs, ParseUint_Itoa.
Qed.

Lemma dec_row_json quoted row old : row_ok row →
  dec_metric_row (row_json quoted row) old = Some (mkMetricRow row.1 row.2).
Proof.
  intros [Hp Hv]. destruct row as [name value]. unfold dec_metric_row, row_json, struct_members.
  cbn [mbind option_bind fst snd].
  set (names := ["metric"; "value"]).
  assert (Hn : field_name names (unquote (bytes_of "metric")) = Some "metric") by done.
  assert (Hw : field_name names (unquote (bytes_of "value")) = Some "value") by done.
  rewrite (dec_field_one names (bytes_of "metric") _ _ "metric" dec_string "" name Hn).
  2: { simpl. by rewrite unquote_plain. }
  2: { apply Forall_cons_2; [|constructor]. cbn [fst]. by rewrite Hw. }
  cbn [mbind option_bind].
  rewrite (dec_field_skip names [(bytes_of "metric", RString (bytes_of name))]
    [(bytes_of "value", value_json quoted value)]).
  2: { apply Forall_cons_2; [|constructor]. cbn [fst]. by rewrite Hn. }
  rewrite (dec_field_one names _ _ _ "value" dec_chUInt64 0 value Hw); [done| |constructor].
  by apply UnmarshalJSON_value.
Qed.

Lemma wf_row_json d quoted row : d + 1 < maxNestingDepth → row_ok row → wf d (row_json quoted row).
Proof.
  intros Hd [Hp Hv]. apply wf_object_cons; [lia|by apply body_ok_plain|by apply wf_string, body_ok_plain|].
  apply wf_object_cons; [lia|by apply body_ok_plain| |by apply wf_object_nil; lia].
  destruct quoted; [by apply wf_string, body_ok_plain, plain_Itoa|].
  apply wf_number, number_ok_Itoa. by destruct Hv.
Qed.

Lemma wf_answer quoted before after rs :
  other_members before → other_members after → Forall row_ok rs →
  wf 0 (answer_json quoted before after rs).
Proof.
  intros [_ Hb] [_ Ha] Hr. unfold answer_json.
  inversion Hb as [? ? Hd Hb1 Hb2| | | | |]; subst. inversion Ha as [? ? _ Ha1 Ha2| | | | |]; subst.
  assert (Hdata : wf 1 (RArray (row_json quoted <$> rs))).
  { apply wf_array; [done|]. apply Forall_fmap. eapply Forall_impl; [exact Hr|].
    intros row Hrow. by apply wf_row_json. }
  apply wf_object; [done|..]; apply Forall_app_2; try done; by apply Forall_cons_2.
Qed.

(** The samples of the rows, each exact. *)
Definition counter_samples (conn : connect) `{RangeOrder} `{UnicodeTables} (metric : string)
    (rs : list (string * Z)) : list (option Sample) :=
  (λ row : string * Z, Some (NewSample 0 ("clickhouse_" +:+ metric) (SnakeCase row.1) (VOther (Itoa row.2))
               [makeDefaultTags conn])) <$> rs.

Lemma rows_answer `{RangeOrder} ins Do u query quoted before after rs rest :
  sendable ins u → other_members before → other_members after → Forall row_ok rs → ends_value rest →
  (∀ req, Do req = Ok (mkResponse 200 (print (answer_json quoted before after rs) ++ rest) None)) →
  runs (rows ins Do (mkMetricRow "" 0) dec_metric_row query) u [] (set_query u query)
    (Ok ((λ row, mkMetricRow row.1 row.2) <$> rs)).
Proof.
  intros Hu Hb Ha Hr He HDo. pose proof (rows_runs ins Do u (mkMetricRow "" 0) dec_metric_row query Hu) as Hrun.
  assert (Hrep : reply ins Do u (mkMetricRow "" 0) dec_metric_row query =
    Ok ((λ row, mkMetricRow row.1 row.2) <$> rs)); [|by rewrite Hrep in Hrun].
  unfold reply, rows, execQuery. destruct (send_query_ok ins Do query 0%nat u Hu) as [req Hs].
  rewrite HDo in Hs. rewrite (bind_silent _ _ _ _ _ _ _ Hs). unfold checked_answer. cbn [StatusCode].
  replace (300 <=? 200) with false by done.
  unfold answer_json. rewrite Decode_print; [|by apply wf_answer|done].
  cbn [struct_members mbind option_bind].
  rewrite dec_field_skip by apply Hb.
  rewrite (dec_field_one _ _ _ _ _ _ _ (Some (RArray (row_json quoted <$> rs)))) by (done || apply Ha).
  assert (Hdec : Unmarshal (dec_slice (mkMetricRow "" 0) dec_metric_row) []
    (Some (RArray (row_json quoted <$> rs))) = Some ((λ row, mkMetricRow row.1 row.2) <$> rs)).
  { unfold Unmarshal. cbn [mbind option_bind dec_slice]. apply mapM_fmap_ok. intros row Hin.
    apply dec_row_json. rewrite Forall_forall in Hr. by apply Hr. }
  cbn [decoded_or]. by rewrite bind_ret, Hdec.
Qed.

(** C25: the counters of a server arrive exactly. For system.events and
    system.metrics, whatever names and 64-bit values the rows hold, whether the
    server quotes the values, and whatever else its answer has around the rows,
    each row gives one sample, in order, named by the row in snake case, whose
    value the queue reads as the double nearest to the integer. *)
Theorem counters_roundtrip `{RangeOrder} `{UnicodeTables} ins Do conn u metric quoted before after rs rest :
  commonMetricsIsFloat !! metric = Some false →
  sendable ins u → other_members before → other_members after → Forall row_ok rs → ends_value rest →
  (∀ req, Do req = Ok (mkResponse 200 (print (answer_json quoted before after rs) ++ rest) None)) →
  runs (commonMetrics ins Do conn metric) u (counter_samples conn metric rs)
    (set_query u (default "" (commonMetrics_table !! metric))) (Ok ()) ∧
  ∀ s row, (Some s, row) ∈ zip (counter_samples conn metric rs) rs →
    types_ToFloat64 (Value s) = (float_of_Z row.2, None).
Proof.
  intros Hm Hu Hb Ha Hr He HDo. split.
  - unfold commonMetrics. rewrite Hm. cbn [default].
    eapply runs_bind_nil; [by apply (rows_answer ins Do u _ quoted before after rs rest)|].
    clear - rs. unfold counter_samples.
    generalize (set_query u (default "" (commonMetrics_table !! metric))). intros u'.
    induction rs as [|row rs IH]; [apply runs_ret|]. csimpl.
    eapply (runs_bind _ _ _ [_]); [apply runs_push_sample|exact IH].
  - clear - Hr. unfold counter_samples. induction Hr as [|row rs [_ Hv] Hr IH]; intros s row'; csimpl; [set_solver|].
    rewrite elem_of_cons. intros [[= -> ->]|Hin]; [|by apply IH].
    cbn [Value NewSample types_ToFloat64 Sprint]. unfold of_num. rewrite ParseFloat_Itoa; [done|].
    unfold is_uint64 in Hv. lia.
Qed.

Definition counters_answer : raw :=
  answer_json true [(bytes_of "meta", RArray [])] [(bytes_of "rows", RNumber (bytes_of "2"))]
    [("OSCPUVirtualTimeMicroseconds", 18446744073709551615); ("Query", 7)].

Lemma other_members_one k v : field_name ["Data"] (unquote (bytes_of k)) ≠ Some "Data" → plain k → wf 1 v →
  other_members [(bytes_of k, v)].
Proof.
  intros Hk Hp Hv. split; [by apply Forall_cons_2|].
  apply wf_object_cons; [done|by apply body_ok_plain|done|by apply wf_object_nil].
Qed.

Lemma counters_roundtrip_witness :
  runs (@commonMetrics canonical_order demo_ch
          (λ _, Ok (mkResponse 200 (print counters_answer ++ []) None)) (mkConnect "" 0 "h" None) ascii_tables "events") demo_url
    [Some (mkSample "clickhouse_events_oscpu_virtual_time_microseconds" time_zero
             (VOther "18446744073709551615") {["source" := "h"]});
     Some (mkSample "clickhouse_events_query" time_zero (VOther "7") {["source" := "h"]})]
    (set_query demo_url systemEventsSQL) (Ok ()).
Proof.
  destruct (@counters_roundtrip canonical_order ascii_tables demo_ch
    (λ _, Ok (mkResponse 200 (print counters_answer ++ []) None)) (mkConnect "" 0 "h" None) demo_url "events" true
    [(bytes_of "meta", RArray [])] [(bytes_of "rows", RNumber (bytes_of "2"))]
    [("OSCPUVirtualTimeMicroseconds", 18446744073709551615); ("Query", 7)] []) as [Hr _].
  - vm_compute. reflexivity.
  - apply (sendable_one _ _ ""); [split; [done|by apply (bool_decide_unpack _)]|by eexists|].
    vm_compute. by eexists.
  - apply other_members_one; [vm_compute; done|done|]. by apply wf_array.
  - apply other_members_one; [vm_compute; done|done|]. apply wf_number, (number_ok_Itoa 2). done.
  - repeat apply Forall_cons_2; [split; [vm_compute; done|split; vm_compute; done]..|constructor].
  - intros ?? [=].
  - done.
  - vm_compute in Hr |- *. exact Hr.
Defined.

(** A metric per connection is all there may be: with more custom metrics than
    connections, the first connection's turn indexes past the connections. *)
Theorem custom_metrics_crash `{RangeOrder} `{UnicodeTables} gjson_String ins w i n cs :
  (length cs < length (Metrics ins))%nat → is_panic (custom_metrics ins gjson_String w i n cs).
Proof.
  intros Hl. unfold custom_metrics.
  assert (Ht : ∀ metrics j n cs, (length cs < j + length metrics)%nat → (j ≤ length cs)%nat →
    is_panic (custom_tasks ins gjson_String w i j metrics n cs)).
  { clear. induction metrics as [|m metrics IH]; intros j n cs Hl Hj; simpl in *; [lia|].
    unfold with_connection. destruct (cs !! j) as [c|] eqn:Hc; [|by eexists].
    destruct (conn_url c) as [u|]; [|by eexists].
    destruct (execCustomQuery _ _ _ _ _ n u) as [[[[k u'] o] r]|]; [|by eexists].
    apply lookup_lt_Some in Hc.
    destruct (IH (S j) k (<[j:=set_url c u']> cs)) as [s ->]; [rewrite length_insert; lia..|].
    by eexists. }
  destruct (Ht (Metrics ins) 0%nat n cs Hl ltac:(lia)) as [s ->]. by eexists.
Qed.

Lemma custom_metrics_crash_witness :
  let m := mkChMetric "m" [] [] "" 0 "SELECT 1" false in
  let ins := mkClickhouse "" "" [] false [] [] 0 [m; m] (Some (mkHttpClient defaultTimeout 1)) in
  is_panic (@custom_metrics canonical_order ins ascii_tables (λ _ _, "") (demo_ch_world cluster_server) 0%nat 0%nat
              [mkConnect "" 0 "h" (Some demo_url)]).
Proof.
  intros m ins. apply (@custom_metrics_crash canonical_order ascii_tables).
  simpl. lia.
Defined.

Lemma clickhouse_Gather_spec_witness :
  let w := demo_ch_world cluster_server in
  let G := @clickhouse_Gather canonical_order ascii_tables (λ _ _, "") demo_discover w NewSampleList in
  ∃ n cs outs, find_connections demo_discover w 0 (Servers demo_discover) 0%nat [] = Done (n, cs, [], Ok ()) ∧
    hosts cs = ["h2"; "h3"] ∧ length outs = 2%nat ∧ G = Done (pushed (concat outs) NewSampleList, None).
Proof.
  intros w G.
  destruct (@clickhouse_Gather_spec canonical_order ascii_tables (λ _ _, "") demo_discover w NewSampleList
    eq_refl demo_askable) as (n & cs & out & r & Hf & Hr).
  pose proof Hf as He. vm_compute in He. injection He as <- <- <- <-.
  destruct Hr as [(_ & outs & Hg & Hlen & _)|[_ [s Hg]]].
  - eexists _, _, outs. split; [exact Hf|]. split; [vm_compute; reflexivity|]. split; [exact Hlen|exact Hg].
  - exfalso. vm_compute in Hg. discriminate Hg.
Defined.

(** ** The interface of the registry *)

#[export] Instance clickhouse_laws `{RangeOrder} `{UnicodeTables} `{Gjson} : HandlerLaws Instance ch_world.
Proof.
  split.
  - done.
  - intros h w l h' l' e Hg. simpl in Hg. destruct (clickhouse_Gather _ _ _ _) as [[? ?]|]; by simplify_eq/=.
  - intros h w q h' l' e Hg. simpl in Hg. unfold clickhouse_Gather in Hg.
    destruct (clickhouse_gather _ _ _ _ _) as [[[[n cs] out] [[]|err]]|]; simplify_eq/=;
      exists out; apply pushed_emits.
Qed.

(** A list option that is not configured still holds a condition, and no
    configuration sets the custom metrics or the timeout. *)
Lemma clickhouse_Init_spec ins config :
  let ins' := (clickhouse_Init ins config).1 in
  (clickhouse_Init ins config).2 = None ∧ Metrics ins' = Metrics ins ∧
  Servers ins' ≠ [] ∧ ClusterInclude ins' ≠ [] ∧ ClusterExclude ins' ≠ [] ∧
  ∃ t, HTTPClient ins' = Some (mkHttpClient t 1) ∧ t ≠ 0.
Proof.
  split_and!; try done; try apply Split_not_nil. eexists. split; [done|].
  destruct (Z.eqb_spec (ins_Timeout ins) 0); [done|done].
Qed.
