(* ===== verification/ElasticData.v ===== *)
(** * The answers of Elasticsearch

    The structs of internal/handlers/elasticsearch/elasticsearch.go that answers
    are decoded into, and how each is decoded. They are always decoded into new
    variables. *)
From S2P Require Import Prelude GoText GoNum GoUrl GoHttp GoJson.
#[local] Open Scope Z_scope.

Record nodeStat := mk_nodeStat {
  node_Host : string; node_Name : string; node_Roles : list string;
  node_Attributes : gmap string string; node_Indices : any; node_OS : any; node_Process : any;
  node_JVM : any; node_ThreadPool : any; node_FS : any; node_Transport : any; node_HTTP : any;
  node_Breakers : any
}.

Definition zero_nodeStat : nodeStat :=
  mk_nodeStat "" "" [] ∅ None None None None None None None None None.

Definition dec_nodeStat : decoder nodeStat := λ v _,
  ms ← struct_members v;
  let names :=
    ["host"; "name"; "roles"; "attributes"; "indices"; "os"; "process"; "jvm"; "thread_pool";
     "fs"; "transport"; "http"; "breakers"] in
  let field {T} name (dec : decoder T) zero := dec_field names ms name dec zero in
  x0 ← field "host" dec_string "";
  x1 ← field "name" dec_string "";
  x2 ← field "roles" (dec_slice "" dec_string) [];
  x3 ← field "attributes" (dec_map "" dec_string) ∅;
  x4 ← field "indices" dec_any None;
  x5 ← field "os" dec_any None;
  x6 ← field "process" dec_any None;
  x7 ← field "jvm" dec_any None;
  x8 ← field "thread_pool" dec_any None;
  x9 ← field "fs" dec_any None;
  x10 ← field "transport" dec_any None;
  x11 ← field "http" dec_any None;
  x12 ← field "breakers" dec_any None;
  Some (mk_nodeStat x0 x1 x2 x3 x4 x5 x6 x7 x8 x9 x10 x11 x12).

Record indexHealth := mk_indexHealth {
  ih_ActivePrimaryShards : Z; ih_ActiveShards : Z; ih_InitializingShards : Z;
  ih_NumberOfReplicas : Z; ih_NumberOfShards : Z; ih_RelocatingShards : Z; ih_Status : string;
  ih_UnassignedShards : Z
}.

Definition zero_indexHealth : indexHealth :=
  mk_indexHealth 0 0 0 0 0 0 "" 0.

Definition dec_indexHealth : decoder indexHealth := λ v _,
  ms ← struct_members v;
  let names :=
    ["active_primary_shards"; "active_shards"; "initializing_shards"; "number_of_replicas";
     "number_of_shards"; "relocating_shards"; "status"; "unassigned_shards"] in
  let field {T} name (dec : decoder T) zero := dec_field names ms name dec zero in
  x0 ← field "active_primary_shards" dec_int 0;
  x1 ← field "active_shards" dec_int 0;
  x2 ← field "initializing_shards" dec_int 0;
  x3 ← field "number_of_replicas" dec_int 0;
  x4 ← field "number_of_shards" dec_int 0;
  x5 ← field "relocating_shards" dec_int 0;
  x6 ← field "status" dec_string "";
  x7 ← field "unassigned_shards" dec_int 0;
  Some (mk_indexHealth x0 x1 x2 x3 x4 x5 x6 x7).

Record clusterHealth := mk_clusterHealth {
  ch_ActivePrimaryShards : Z; ch_ActiveShards : Z; ch_ActiveShardsPercentAsNumber : float64;
  ch_ClusterName : string; ch_DelayedUnassignedShards : Z; ch_InitializingShards : Z;
  ch_NumberOfDataNodes : Z; ch_NumberOfInFlightFetch : Z; ch_NumberOfNodes : Z;
  ch_NumberOfPendingTasks : Z; ch_RelocatingShards : Z; ch_Status : string;
  ch_TaskMaxWaitingInQueueMillis : Z; ch_TimedOut : bool; ch_UnassignedShards : Z;
  ch_Indices : gmap string indexHealth
}.

Definition zero_clusterHealth : clusterHealth :=
  mk_clusterHealth 0 0 f_zero "" 0 0 0 0 0 0 0 "" 0 false 0 ∅.

Definition dec_clusterHealth : decoder clusterHealth := λ v _,
  ms ← struct_members v;
  let names :=
    ["active_primary_shards"; "active_shards"; "active_shards_percent_as_number"; "cluster_name";
     "delayed_unassigned_shards"; "initializing_shards"; "number_of_data_nodes";
     "number_of_in_flight_fetch"; "number_of_nodes"; "number_of_pending_tasks";
     "relocating_shards"; "status"; "task_max_waiting_in_queue_millis"; "timed_out";
     "unassigned_shards"; "indices"] in
  let field {T} name (dec : decoder T) zero := dec_field names ms name dec zero in
  x0 ← field "active_primary_shards" dec_int 0;
  x1 ← field "active_shards" dec_int 0;
  x2 ← field "active_shards_percent_as_number" dec_float f_zero;
  x3 ← field "cluster_name" dec_string "";
  x4 ← field "delayed_unassigned_shards" dec_int 0;
  x5 ← field "initializing_shards" dec_int 0;
  x6 ← field "number_of_data_nodes" dec_int 0;
  x7 ← field "number_of_in_flight_fetch" dec_int 0;
  x8 ← field "number_of_nodes" dec_int 0;
  x9 ← field "number_of_pending_tasks" dec_int 0;
  x10 ← field "relocating_shards" dec_int 0;
  x11 ← field "status" dec_string "";
  x12 ← field "task_max_waiting_in_queue_millis" dec_int 0;
  x13 ← field "timed_out" dec_bool false;
  x14 ← field "unassigned_shards" dec_int 0;
  x15 ← field "indices" (dec_map zero_indexHealth dec_indexHealth) ∅;
  Some (mk_clusterHealth x0 x1 x2 x3 x4 x5 x6 x7 x8 x9 x10 x11 x12 x13 x14 x15).

Record clusterStats := mk_clusterStats {
  cs_NodeName : string; cs_ClusterName : string; cs_Status : string; cs_Indices : any;
  cs_Nodes : any
}.

Definition zero_clusterStats : clusterStats :=
  mk_clusterStats "" "" "" None None.

Definition dec_clusterStats : decoder clusterStats := λ v _,
  ms ← struct_members v;
  let names :=
    ["node_name"; "cluster_name"; "status"; "indices"; "nodes"] in
  let field {T} name (dec : decoder T) zero := dec_field names ms name dec zero in
  x0 ← field "node_name" dec_string "";
  x1 ← field "cluster_name" dec_string "";
  x2 ← field "status" dec_string "";
  x3 ← field "indices" dec_any None;
  x4 ← field "nodes" dec_any None;
  Some (mk_clusterStats x0 x1 x2 x3 x4).

Record indexStat := mk_indexStat {
  is_Primaries : any; is_Total : any; is_Shards : gmap string (list any)
}.

Definition zero_indexStat : indexStat := mk_indexStat None None ∅.

Definition dec_indexStat : decoder indexStat := λ v _,
  ms ← struct_members v;
  let names :=
    ["primaries"; "total"; "shards"] in
  let field {T} name (dec : decoder T) zero := dec_field names ms name dec zero in
  x0 ← field "primaries" dec_any None;
  x1 ← field "total" dec_any None;
  x2 ← field "shards" (dec_map [] (dec_slice None dec_any)) ∅;
  Some (mk_indexStat x0 x1 x2).

(** The anonymous structs of the functions. *)
Record nodesAnswer := mk_nodesAnswer {
  na_ClusterName : string; na_Nodes : gmap string (option nodeStat)
}.

Definition zero_nodesAnswer : nodesAnswer := mk_nodesAnswer "" ∅.

Definition dec_nodesAnswer : decoder nodesAnswer := λ v _,
  ms ← struct_members v;
  let names := ["cluster_name"; "nodes"] in
  c ← dec_field names ms "cluster_name" dec_string "";
  n ← dec_field names ms "nodes" (dec_map None (dec_ptr zero_nodeStat dec_nodeStat)) ∅;
  Some (mk_nodesAnswer c n).

Record indicesAnswer := mk_indicesAnswer {
  ia_Shards : gmap string any; ia_All : gmap string any; ia_Indices : gmap string indexStat
}.

Definition zero_indicesAnswer : indicesAnswer := mk_indicesAnswer ∅ ∅ ∅.

Definition dec_indicesAnswer : decoder indicesAnswer := λ v _,
  ms ← struct_members v;
  let names := ["_shards"; "_all"; "indices"] in
  s ← dec_field names ms "_shards" (dec_map None dec_any) ∅;
  a ← dec_field names ms "_all" (dec_map None dec_any) ∅;
  i ← dec_field names ms "indices" (dec_map zero_indexStat dec_indexStat) ∅;
  Some (mk_indicesAnswer s a i).
