(* ===== verification/Elastic.v ===== *)
(** * The elasticsearch handler

    internal/handlers/elasticsearch/elasticsearch.go. The gathering functions are
    in the monad of [Scrape]; each takes [Do], what the HTTP client answers to a
    request. [es_Gather] starts a goroutine per server, twice; a goroutine is a
    program ([goroutine]) over what the goroutines share ([shared]): the sample
    list, the map [serverInfo] and an error channel. The world of a gather
    ([es_world]) says what the servers answer and in which order the goroutines
    take their steps, before and after the gather looks at the channel.

    A gather that returns early leaves goroutines behind: they stay in the
    instance ([es_running]) and go on while the next gather runs. A channel is
    closed when its gather returns, so their next send is a crash. *)
From S2P Require Import Prelude Interleave GoText GoNum SafeLists Conv Samples Emit Scrape Input GoUrl GoHttp Jsonx GoJson Filter ElasticData.
#[local] Open Scope Z_scope.

Definition es_inputName : string := "elasticsearch".
Definition statsPath : string := "/_nodes/stats".
Definition statsPathLocal : string := "/_nodes/_local/stats".

Record serverInfo := mkServerInfo { nodeID : string; masterID : string }.

Definition isMaster (i : serverInfo) : bool := bool_decide (nodeID i = masterID i).

(** ** Goroutines *)

(** What a goroutine still does. *)
Inductive goroutine : Type :=
| Finished
| Pushes (s : option Sample) (k : goroutine)
| StoresInfo (server : string) (info : serverInfo) (k : goroutine)
| ReadsInfo (server : string) (k : serverInfo → goroutine)
| Sends (err : error) (k : goroutine)
| Crashes (msg : string).

Record Instance := mkElastic {
  Local : bool;
  Servers : list string;
  HTTPTimeout : Z;
  ClusterHealth : bool;
  ClusterHealthLevel : string;
  ClusterStats : bool;
  IndicesInclude : list string;
  IndicesLevel : string;
  NodeStats : list string;
  Username : string;
  Password : string;
  NumMostRecentIndices : Z;
  es_client : option Z;
  indexMatchers : gmap string (option Filter);
  ins_serverInfo : gmap string serverInfo;
  es_running : list goroutine
}.

(** ** Configuration *)

Section init.
Context (glob_Compile : string → result (string → bool)).

(** A matcher for each configured index. *)
Fixpoint compileIndexMatchers (indices : list string) (matchers : gmap string (option Filter)) :
    result (gmap string (option Filter)) :=
  match indices with
  | [] => Ok matchers
  | index :: indices' =>
    match matchers !! index with
    | Some _ => compileIndexMatchers indices' matchers
    | None =>
      match Compile glob_Compile [index] with
      | Err err => Err err
      | Ok f => compileIndexMatchers indices' (<[index := f]> matchers)
      end
    end
  end.

(** The client is known by its timeouts. *)
Definition createHTTPClient (HTTPTimeout : Z) : result Z := Ok HTTPTimeout.

Definition es_configured `{FloatToInt} (ins : Instance) (config : ConfigMap) : Instance :=
  mkElastic (ConfigMap_ParseBool config "local") (ParseSlice config "servers")
    (if HTTPTimeout ins <=? 0 then 10 * 1000000000 else HTTPTimeout ins)
    (ConfigMap_ParseBool config "cluster_health")
    (let level := Get config "cluster_health_level" in if decide (level = "") then "indices" else level)
    (ConfigMap_ParseBool config "cluster_stats") (ParseSlice config "indices_include")
    (Get config "indices_level") (ParseSlice config "node_stats") (Get config "username")
    (Get config "password") (ConfigMap_ParseInt config "num_most_recent_indices")
    (es_client ins) (indexMatchers ins) (ins_serverInfo ins) (es_running ins).

Definition set_compiled (ins : Instance) (matchers : gmap string (option Filter)) (client : option Z) :
    Instance :=
  mkElastic (Local ins) (Servers ins) (HTTPTimeout ins) (ClusterHealth ins) (ClusterHealthLevel ins)
    (ClusterStats ins) (IndicesInclude ins) (IndicesLevel ins) (NodeStats ins) (Username ins)
    (Password ins) (NumMostRecentIndices ins) client matchers (ins_serverInfo ins) (es_running ins).

Definition es_Init `{FloatToInt} (ins : Instance) (config : ConfigMap) : Instance * option error :=
  let ins := es_configured ins config in
  match compileIndexMatchers (IndicesInclude ins) ∅ with
  | Err err => (ins, Some err)
  | Ok matchers =>
    match createHTTPClient (HTTPTimeout ins) with
    | Err err => (set_compiled ins matchers None, Some err)
    | Ok client => (set_compiled ins matchers (Some client), None)
    end
  end.
End init.

(** ** Requests *)

Section handler.
Context `{RangeOrder} `{UnicodeTables}.
Variable ins : Instance.
Variable Do : Doer.

Abbreviation gather := (scrape unit).

Definition status_message (what : string) (status : Z) : error :=
  Errorf ("elasticsearch: " +:+ what +:+ "API responded with status-code " +:+ Itoa status +:+
          ", expected " +:+ Itoa StatusOK).

(** The request with the credentials, sent; [what] begins the message about
    another status than 200. *)
Definition request (url what : string) : gather Response :=
  match NewRequest "GET" url "" with
  | Err err => fail err
  | Ok req =>
    let req := if decide (Username ins ≠ "" ∨ Password ins ≠ "")
               then SetBasicAuth req (Username ins) (Password ins) else req in
    match es_client ins with
    | None => crash "nil pointer dereference"
    | Some _ =>
      r ← of_result (Do req);
      if StatusCode r =? StatusOK then mret r else fail (status_message what (StatusCode r))
    end
  end.

Definition gatherJSONData {T} (url : string) (dec : decoder T) (zero : T) : gather T :=
  r ← request url "";
  match Decode dec zero r with
  | Some v => mret v
  | None => fail (ExternalError "json")
  end.

Definition getCatMaster (url : string) : gather string :=
  r ← request url "Unable to retrieve master node information. ";
  match body_error r with
  | Some err => fail err
  | None => mret (default "" (head (Split " " (of_bytes (resp_Body r)))))
  end.

Definition gatherNodeID (url : string) : gather string :=
  nodeStats ← gatherJSONData url dec_nodesAnswer zero_nodesAnswer;
  nodes ← range_map (na_Nodes nodeStats);
  match nodes with
  | (id, _) :: _ => mret id
  | [] => mret ""
  end.

Definition nodeStatsURL (baseURL : string) : string :=
  let url := baseURL +:+ (if Local ins then statsPathLocal else statsPath) in
  match NodeStats ins with
  | [] => url
  | l => url +:+ "/" +:+ Join "," l
  end.

Definition mapHealthStatusToCode (s : string) : Z :=
  let s := strings_ToLower s in
  if decide (s = "green") then 1 else if decide (s = "yellow") then 2
  else if decide (s = "red") then 3 else 0.

Definition mapShardStatusToCode (s : string) : Z :=
  let s := strings_ToUpper s in
  if decide (s = "UNASSIGNED") then 1 else if decide (s = "INITIALIZING") then 2
  else if decide (s = "STARTED") then 3 else if decide (s = "RELOCATING") then 4 else 0.

(** ** Flattened values *)

(** [jsonParser.FullFlattenJSON] on a new flattener, of a decoded value. *)
Definition flatten (fieldname : string) (v : any) (convertString convertBool : bool) :
    gather (gmap string iface) := λ n st,
  let '(n, j) := any_json n v in
  match FullFlattenJSON fieldname j convertString convertBool ∅ with
  | (_, Some err) => Done (n, st, [], Err err)
  | (Fields, None) => Done (n, st, [], Ok Fields)
  end.

(** [for key, val := range Fields { slist.PushSample(..., prefix+key, val, ...) }]. *)
Definition push_fields (prefix : string) (Fields : gmap string iface)
    (labels : list (gmap string string)) : gather unit :=
  fields ← range_map Fields;
  for_each fields (λ kv, push_sample "elasticsearch" (prefix +:+ kv.1) kv.2 labels).

(** ** Node statistics *)

Definition node_sections (n : nodeStat) : gmap string any :=
  {["indices" := node_Indices n; "os" := node_OS n; "process" := node_Process n; "jvm" := node_JVM n;
    "thread_pool" := node_ThreadPool n; "fs" := node_FS n; "transport" := node_Transport n;
    "http" := node_HTTP n; "breakers" := node_Breakers n]}.

(** A section that the answer does not have is passed over. *)
Definition node_section (tags addrTag : gmap string string) (section : string * any) : gather unit :=
  match section.2 with
  | None => mret ()
  | Some _ =>
    Fields ← flatten "" section.2 false false;
    push_fields (section.1 +:+ "_") Fields [tags; addrTag]
  end.

Definition gather_node (cluster : string) (addrTag : gmap string string)
    (node : string * option nodeStat) : gather unit :=
  match node.2 with
  | None => crash "nil pointer dereference"
  | Some n =>
    let tags := {["node_id" := node.1; "node_host" := node_Host n; "node_name" := node_Name n;
                  "cluster_name" := cluster]} in
    attributes ← range_map (node_Attributes n);
    _ ← for_each attributes (λ kv,
      push_sample "elasticsearch" ("node_attribute_" +:+ kv.1) (VString kv.2) [tags; addrTag]);
    stats ← range_map (node_sections n);
    for_each stats (node_section tags addrTag)
  end.

Definition gatherNodeStats (url address : string) : gather unit :=
  nodeStats ← gatherJSONData url dec_nodesAnswer zero_nodesAnswer;
  let addrTag := {["address" := address]} in
  nodes ← range_map (na_Nodes nodeStats);
  for_each nodes (gather_node (na_ClusterName nodeStats) addrTag).

(** ** Cluster health and statistics *)

Definition health_fields (h : clusterHealth) : gmap string iface :=
  <["cluster_health_unassigned_shards" := VInt (ch_UnassignedShards h)]>
  {["cluster_health_active_primary_shards" := VInt (ch_ActivePrimaryShards h);
    "cluster_health_active_shards" := VInt (ch_ActiveShards h);
    "cluster_health_active_shards_percent_as_number" := VFloat64 (ch_ActiveShardsPercentAsNumber h);
    "cluster_health_delayed_unassigned_shards" := VInt (ch_DelayedUnassignedShards h);
    "cluster_health_initializing_shards" := VInt (ch_InitializingShards h);
    "cluster_health_number_of_data_nodes" := VInt (ch_NumberOfDataNodes h);
    "cluster_health_number_of_in_flight_fetch" := VInt (ch_NumberOfInFlightFetch h);
    "cluster_health_number_of_nodes" := VInt (ch_NumberOfNodes h);
    "cluster_health_number_of_pending_tasks" := VInt (ch_NumberOfPendingTasks h);
    "cluster_health_relocating_shards" := VInt (ch_RelocatingShards h);
    "cluster_health_status_code" := VInt (mapHealthStatusToCode (ch_Status h));
    "cluster_health_task_max_waiting_in_queue_millis" := VInt (ch_TaskMaxWaitingInQueueMillis h);
    "cluster_health_timed_out" := VBool (ch_TimedOut h)]}.

Definition index_health_fields (h : indexHealth) : gmap string iface :=
  {["cluster_health_indices_active_primary_shards" := VInt (ih_ActivePrimaryShards h);
    "cluster_health_indices_active_shards" := VInt (ih_ActiveShards h);
    "cluster_health_indices_initializing_shards" := VInt (ih_InitializingShards h);
    "cluster_health_indices_number_of_replicas" := VInt (ih_NumberOfReplicas h);
    "cluster_health_indices_number_of_shards" := VInt (ih_NumberOfShards h);
    "cluster_health_indices_relocating_shards" := VInt (ih_RelocatingShards h);
    "cluster_health_indices_status_code" := VInt (mapHealthStatusToCode (ih_Status h));
    "cluster_health_indices_unassigned_shards" := VInt (ih_UnassignedShards h)]}.

Definition gatherClusterHealth (url address : string) : gather unit :=
  healthStats ← gatherJSONData url dec_clusterHealth zero_clusterHealth;
  let addrTag := {["address" := address]} in
  _ ← push_samples "elasticsearch" (health_fields healthStats)
        [{["cluster_name" := ch_ClusterName healthStats]}; addrTag];
  indices ← range_map (ch_Indices healthStats);
  for_each indices (λ nh,
    push_samples "elasticsearch" (index_health_fields nh.2)
      [{["index" := nh.1; "name" := ch_ClusterName healthStats]}; addrTag]).

Definition gatherClusterStats (url address : string) : gather unit :=
  clusterStats ← gatherJSONData url dec_clusterStats zero_clusterStats;
  let tags := {["cluster_name" := cs_ClusterName clusterStats; "address" := address]} in
  stats ← range_map {["nodes" := cs_Nodes clusterStats; "indices" := cs_Indices clusterStats]};
  for_each stats (λ ps,
    Fields ← flatten "" ps.2 false true;
    push_fields ("clusterstats_" +:+ ps.1 +:+ "_") Fields [tags]).

(** ** Indices *)

(** A matcher is compiled from one name, so it is never nil. *)
Definition match_index (f : option Filter) (name : string) : bool :=
  match f with Some f => Match f name | None => false end.

(** The configured index a name is for, the first one met; else the name. *)
Definition category (matchers : list (string * option Filter)) (indexName : string) : string :=
  match list_find (λ nf, match_index nf.2 indexName = true) matchers with
  | Some (_, nf) => nf.1
  | None => indexName
  end.

Definition add_to_category (categorized : gmap string (list string)) (category name : string) :
    gmap string (list string) :=
  <[category := default [] (categorized !! category) ++ [name]]> categorized.

(** Each name has a loop over the matchers of its own. *)
Fixpoint categorize_loop (names : list string) (categorized : gmap string (list string)) :
    gather (gmap string (list string)) :=
  match names with
  | [] => mret categorized
  | name :: names' =>
    matchers ← range_map (indexMatchers ins);
    categorize_loop names' (add_to_category categorized (category matchers name) name)
  end.

Definition all_indices : bool :=
  match IndicesInclude ins with [] => true | index :: _ => bool_decide (index = "_all") end.

Definition categorizeIndices (indices : gmap string indexStat) : gather (gmap string (list string)) :=
  names ← range_map indices;
  if all_indices
  then mret (foldl (λ m name, add_to_category m "_all" name) ∅ names.*1)
  else categorize_loop names.*1 ∅.

(** The names of a category that are gathered, in the order of the loop, which
    counts down from the last. *)
Definition tracked_indices (matchingIndices : list string) : list string :=
  let indicesCount := length matchingIndices in
  let num := NumMostRecentIndices ins in
  let indicesToTrackCount :=
    if (0 <? num) && (num <? Z.of_nat indicesCount) then Z.to_nat num else indicesCount in
  let matchingIndices := if 0 <? num then merge_sort String.le matchingIndices else matchingIndices in
  omap (λ i, matchingIndices !! i) (rev (seq (indicesCount - indicesToTrackCount) indicesToTrackCount)).

Definition is_text_or_bool (v : iface) : bool :=
  match v with VString _ | VBool _ => true | _ => false end.

Definition shard_type (Fields : gmap string iface) : string :=
  match Fields !! "routing_primary" with Some (VBool true) => "primary" | _ => "replica" end.

Definition shard_node (Fields : gmap string iface) : string :=
  match Fields !! "routing_node" with Some (VString node) => node | _ => "" end.

(** The fields of a shard that are pushed: the state as a code, and no texts or
    booleans. *)
Definition shard_fields (Fields : gmap string iface) : gmap string iface :=
  let Fields := delete "routing_primary" Fields in
  let Fields := match Fields !! "routing_state" with
                | Some (VString state) => <["routing_state" := VInt (mapShardStatusToCode state)]> Fields
                | _ => Fields
                end in
  filter (λ kv, is_text_or_bool kv.2 = false) Fields.

Definition gather_shard (name shardNumber : string) (addrTag : gmap string string) (shard : any) :
    gather unit :=
  Fields ← flatten "" shard true true;
  let shardTags := {["index_name" := name; "node_id" := shard_node Fields;
                     "shard_name" := shardNumber; "type" := shard_type Fields]} in
  push_samples "elasticsearch_indices_stats_shards" (shard_fields Fields) [shardTags; addrTag].

Definition gatherSingleIndexStats (name : string) (index : indexStat) (addrTag : gmap string string) :
    gather unit :=
  let indexTag := {["index_name" := name]} in
  stats ← range_map {["primaries" := is_Primaries index; "total" := is_Total index]};
  _ ← for_each stats (λ ms,
        Fields ← flatten "" ms.2 true true;
        push_fields ("indices_stats_" +:+ ms.1 +:+ "_") Fields [indexTag; addrTag]);
  when (bool_decide (IndicesLevel ins = "shards"))
    (shards ← range_map (is_Shards index);
     for_each shards (λ ss, for_each ss.2 (gather_shard name ss.1 addrTag))).

Definition gatherIndividualIndicesStats (indices : gmap string indexStat)
    (addrTag : gmap string string) : gather unit :=
  categorizedIndexNames ← categorizeIndices indices;
  categories ← range_map categorizedIndexNames;
  for_each categories (λ cm,
    for_each (tracked_indices cm.2) (λ indexName,
      gatherSingleIndexStats indexName (default zero_indexStat (indices !! indexName)) addrTag)).

Definition gatherIndicesStats (url address : string) : gather unit :=
  indicesStats ← gatherJSONData url dec_indicesAnswer zero_indicesAnswer;
  let addrTag := {["address" := address]} in
  _ ← push_samples "elasticsearch_indices_stats_shards_total" (any_iface <$> ia_Shards indicesStats) [addrTag];
  all ← range_map (ia_All indicesStats);
  _ ← for_each all (λ ms,
        Fields ← flatten "_" ms.2 false true;
        push_fields ("indices_stats_" +:+ ms.1 +:+ "_") Fields [{["index_name" := "_all"]}; addrTag]);
  gatherIndividualIndicesStats (ia_Indices indicesStats) addrTag.
End handler.

(** ** The goroutines of a gather *)

(** Does [m] from loop [n] on, then what its result calls for. *)
Definition does {A} (m : scrape unit A) (n : nat) (ok : nat → A → goroutine)
    (failed : error → goroutine) : goroutine :=
  match m n () with
  | Panic msg => Crashes msg
  | Done (n, _, out, r) =>
    foldr Pushes (match r with Ok a => ok n a | Err err => failed err end) out
  end.

Section goroutines.
Context `{RangeOrder} `{UnicodeTables}.
Variable ins : Instance.

Definition up_sample (n : nat) (s : string) (value : Z) : option Sample :=
  Some (NewSample n "elasticsearch" "up" (VInt value) [{["address" := s]}]).

(** The first goroutine of server [s]: who it is and who the master is. *)
Definition cluster_goroutine (Do : Doer) (n : nat) (s : string) : goroutine :=
  let failed err := Pushes (up_sample n s 0) (Sends err Finished) in
  does (gatherNodeID ins Do (s +:+ "/_nodes/_local/name")) n (λ n nodeID,
    does (getCatMaster ins Do (s +:+ "/_cat/master")) n (λ n masterID,
      Pushes (up_sample n s 1) (StoresInfo s (mkServerInfo nodeID masterID) Finished)) failed) failed.

Definition health_url (s : string) : string :=
  let url := s +:+ "/_cluster/health" in
  if decide (ClusterHealthLevel ins = "") then url else url +:+ "?level=" +:+ ClusterHealthLevel ins.

Definition indices_url (s : string) : string :=
  s +:+ "/" +:+ Join "," (IndicesInclude ins) +:+
  (if decide (IndicesLevel ins = "shards") then "/_stats?level=shards" else "/_stats").

(** [ins.serverInfo[s].isMaster() || !ins.Local]. *)
Definition asked (info : serverInfo) : bool := isMaster info || negb (Local ins).

(** The second goroutine of server [s]: its statistics, until an error; from
    the last part to the first. *)
Definition indices_part (Do : Doer) (n : nat) (s : string) : goroutine :=
  match IndicesInclude ins with
  | [] => Finished
  | _ => ReadsInfo s (λ info,
      if asked info
      then does (gatherIndicesStats ins Do (indices_url s) s) n (λ _ _, Finished) (λ err, Sends err Finished)
      else Finished)
  end.

Definition stats_part (Do : Doer) (n : nat) (s : string) : goroutine :=
  if ClusterStats ins
  then ReadsInfo s (λ info,
    if asked info
    then does (gatherClusterStats ins Do (s +:+ "/_cluster/stats") s) n
           (λ n _, indices_part Do n s) (λ err, Sends err Finished)
    else indices_part Do n s)
  else indices_part Do n s.

Definition health_part (Do : Doer) (n : nat) (s : string) : goroutine :=
  if ClusterHealth ins
  then does (gatherClusterHealth ins Do (health_url s) s) n
         (λ n _, stats_part Do n s) (λ err, Sends err Finished)
  else stats_part Do n s.

Definition server_goroutine (Do : Doer) (n : nat) (s : string) : goroutine :=
  does (gatherNodeStats ins Do (nodeStatsURL ins s) s) n
    (λ n _, health_part Do n s) (λ err, Sends err Finished).
End goroutines.

(** ** The scheduler *)

Record shared := mkShared {
  sh_list : SampleList;
  sh_info : gmap string serverInfo;
  sh_errors : list error
}.

(** One step of a goroutine. *)
Definition go_step (g : goroutine) (st : shared) : outcome (goroutine * shared) :=
  match g with
  | Finished => Done (Finished, st)
  | Pushes s k => Done (k, mkShared (PushFront (sh_list st) s) (sh_info st) (sh_errors st))
  | StoresInfo s info k => Done (k, mkShared (sh_list st) (<[s := info]> (sh_info st)) (sh_errors st))
  | ReadsInfo s k => Done (k (default (mkServerInfo "" "") (sh_info st !! s)), st)
  | Sends err k => Done (k, mkShared (sh_list st) (sh_info st) (sh_errors st ++ [err]))
  | Crashes msg => Panic msg
  end.

(** The goroutines numbered in the schedule each take a step. *)
Fixpoint run_pool (schedule : list nat) (pool : list goroutine) (st : shared) :
    outcome (list goroutine * shared) :=
  match schedule with
  | [] => Done (pool, st)
  | i :: schedule' =>
    match pool !! i with
    | None => run_pool schedule' pool st
    | Some g => '(g, st) ← go_step g st; run_pool schedule' (<[i := g]> pool) st
    end
  end.

(** The rest of a goroutine. *)
Fixpoint finish (g : goroutine) (st : shared) : outcome shared :=
  match g with
  | Finished => Done st
  | Pushes s k => finish k (mkShared (PushFront (sh_list st) s) (sh_info st) (sh_errors st))
  | StoresInfo s info k => finish k (mkShared (sh_list st) (<[s := info]> (sh_info st)) (sh_errors st))
  | ReadsInfo s k => finish (k (default (mkServerInfo "" "") (sh_info st !! s))) st
  | Sends err k => finish k (mkShared (sh_list st) (sh_info st) (sh_errors st ++ [err]))
  | Crashes msg => Panic msg
  end.

Fixpoint finish_all (pool : list goroutine) (st : shared) : outcome shared :=
  match pool with
  | [] => Done st
  | g :: pool' => st ← finish g st; finish_all pool' st
  end.

(** A goroutine whose channel has been closed. *)
Fixpoint orphan (g : goroutine) : goroutine :=
  match g with
  | Finished => Finished
  | Pushes s k => Pushes s (orphan k)
  | StoresInfo s info k => StoresInfo s info (orphan k)
  | ReadsInfo s k => ReadsInfo s (λ info, orphan (k info))
  | Sends _ _ => Crashes "send on closed channel"
  | Crashes msg => Crashes msg
  end.

(** Starts the goroutines [new] next to the orphans, looks once at the channel,
    and waits if it is empty. *)
Definition phase (before after : list nat) (orphans new : list goroutine) (st : shared) :
    outcome (option error * list goroutine * shared) :=
  '(pool, st) ← run_pool before (orphans ++ new) st;
  match sh_errors st with
  | err :: _ => Done (Some err, take (length orphans) pool ++ (orphan <$> drop (length orphans) pool), st)
  | [] =>
    '(pool, st) ← run_pool after pool st;
    st ← finish_all (drop (length orphans) pool) st;
    Done (None, take (length orphans) pool, st)
  end.

(** ** Gather *)

Record es_world := mkEsWorld {
  ew_cluster : nat → Doer;
  ew_server : nat → Doer;
  ew_loop : nat → nat;
  ew_before : list nat * list nat;
  ew_after : list nat * list nat
}.

Section gather.
Context `{RangeOrder} `{UnicodeTables}.

Definition cluster_goroutines (ins : Instance) (w : es_world) : list goroutine :=
  imap (λ i s, cluster_goroutine ins (ew_cluster w i) (ew_loop w i) s) (Servers ins).

Definition server_goroutines (ins : Instance) (w : es_world) : list goroutine :=
  imap (λ i s, server_goroutine ins (ew_server w i) (ew_loop w i) s) (Servers ins).

Definition cluster_wanted (ins : Instance) : bool :=
  ClusterStats ins || negb (bool_decide (IndicesInclude ins = [])) || negb (bool_decide (IndicesLevel ins = "")).

Definition with_shared (ins : Instance) (info : gmap string serverInfo) (running : list goroutine) : Instance :=
  mkElastic (Local ins) (Servers ins) (HTTPTimeout ins) (ClusterHealth ins) (ClusterHealthLevel ins)
    (ClusterStats ins) (IndicesInclude ins) (IndicesLevel ins) (NodeStats ins) (Username ins)
    (Password ins) (NumMostRecentIndices ins) (es_client ins) (indexMatchers ins) info running.

Definition cluster_phase (ins : Instance) (w : es_world) (slist : SampleList) :
    outcome (option error * list goroutine * shared) :=
  if cluster_wanted ins
  then phase (ew_before w).1 (ew_after w).1 (es_running ins) (cluster_goroutines ins w)
         (mkShared slist ∅ [])
  else Done (None, es_running ins, mkShared slist (ins_serverInfo ins) []).

Definition es_Gather (ins : Instance) (w : es_world) (slist : SampleList) :
    outcome (Instance * SampleList * option error) :=
  '(err, orphans, st) ← cluster_phase ins w slist;
  match err with
  | Some err => Done (with_shared ins (sh_info st) orphans, sh_list st, Some err)
  | None =>
    '(err, orphans, st) ← phase (ew_before w).2 (ew_after w).2 orphans (server_goroutines ins w)
                            (mkShared (sh_list st) (sh_info st) []);
    Done (with_shared ins (sh_info st) orphans, sh_list st, err)
  end.
End gather.

(** The glob library, as an interface. *)
Class Globs := glob_compile : string → result (string → bool).

#[export] Instance elasticsearch_handler `{RangeOrder} `{UnicodeTables} `{FloatToInt} `{Globs} :
    HandlerFactory Instance es_world := {|
  Name ins := es_inputName;
  Init ins config := es_Init glob_compile ins config;
  handler_Gather ins w slist := es_Gather ins w slist
|}.
