(* ===== verification/ElasticProps.v ===== *)
(** * Properties of the elasticsearch handler

    What the goroutines of a gather can do together: the samples are an
    interleaving of theirs when the gather waits for them ([es_Gather_waits]),
    when nothing can crash ([es_Gather_safe]) and how two failing servers crash
    the process ([es_two_failures]); how indices are sorted and picked; how an
    answer on the health of a cluster becomes samples; that the handler obeys
    the interface of [Input]. *)
From S2P Require Import Prelude Interleave GoText GoNum SafeLists Conv Samples Emit Scrape Input GoUrl GoHttp Jsonx GoJson GoJsonProps Filter ElasticData Elastic.
#[local] Open Scope Z_scope.

(** ** What a goroutine does *)

(** The samples a goroutine pushes when the map it reads is [info]. *)
Fixpoint pushes_of (info : gmap string serverInfo) (g : goroutine) : list (option Sample) :=
  match g with
  | Finished | Crashes _ => []
  | Pushes s k => s :: pushes_of info k
  | StoresInfo _ _ k | Sends _ k => pushes_of info k
  | ReadsInfo s k => pushes_of info (k (default (mkServerInfo "" "") (info !! s)))
  end.

Fixpoint crash_free (g : goroutine) : Prop :=
  match g with
  | Finished => True
  | Crashes _ => False
  | Pushes _ k | StoresInfo _ _ k | Sends _ k => crash_free k
  | ReadsInfo _ k => ∀ info, crash_free (k info)
  end.

(** A goroutine that does not read the map, and one that does not write it. *)
Fixpoint reads_free (g : goroutine) : Prop :=
  match g with
  | Finished | Crashes _ => True
  | Pushes _ k | StoresInfo _ _ k | Sends _ k => reads_free k
  | ReadsInfo _ k => False
  end.

Fixpoint stores_free (g : goroutine) : Prop :=
  match g with
  | Finished | Crashes _ => True
  | StoresInfo _ _ _ => False
  | Pushes _ k | Sends _ k => stores_free k
  | ReadsInfo _ k => ∀ info, stores_free (k info)
  end.

(** The goroutines of the first kind write the map, those of the second read
    it: in neither phase does one change what another will push. *)
Definition steady (read_only : bool) (g : goroutine) : Prop :=
  if read_only then stores_free g else reads_free g.

(** The samples a step pushed. *)
Definition appended (st st' : shared) (out : list (option Sample)) : Prop :=
  ∀ q, sh_list st = of_queue q → sh_list st' = of_queue (q ++ out).

Lemma reads_free_pushes info info' g : reads_free g → pushes_of info g = pushes_of info' g.
Proof. induction g as [|s k IH|s i k IH|s k IH|e k IH|]; simpl; intros Hg; try done; rewrite ?IH; auto. Qed.

Lemma go_step_spec ro g st g' st' :
  steady ro g → go_step g st = Done (g', st') →
  steady ro g' ∧ (∀ h, steady ro h → pushes_of (sh_info st') h = pushes_of (sh_info st) h) ∧
  ∃ out, appended st st' out ∧ pushes_of (sh_info st) g = out ++ pushes_of (sh_info st) g'.
Proof.
  intros Hs. destruct g as [|s k|s i k|s k|e k|msg]; intros [= <- <-]; simpl.
  - split; [done|]. split; [done|]. exists []. split; [|done]. intros q ->. by rewrite app_nil_r.
  - split; [by destruct ro|]. split; [done|]. exists [s]. split; [|done].
    intros q ->. apply PushFront_of_queue.
  - destruct ro; [done|]. split; [done|]. split; [intros h Hh; by apply reads_free_pushes|].
    exists []. split; [|done]. intros q ->. by rewrite app_nil_r.
  - destruct ro; [|done]. split; [apply Hs|]. split; [done|]. exists []. split; [|done].
    intros q ->. by rewrite app_nil_r.
  - split; [by destruct ro|]. split; [done|]. exists []. split; [|done]. intros q ->. by rewrite app_nil_r.
Qed.

Lemma appended_trans st1 st2 st3 a b : appended st1 st2 a → appended st2 st3 b → appended st1 st3 (a ++ b).
Proof. intros Ha Hb q Hq. rewrite app_assoc. by apply Hb, Ha. Qed.

Lemma appended_refl st : appended st st [].
Proof. intros q ->. by rewrite app_nil_r. Qed.

Abbreviation all_pushes info pool := (pushes_of info <$> pool).

Lemma run_pool_spec ro schedule pool st pool' st' :
  Forall (steady ro) pool → run_pool schedule pool st = Done (pool', st') →
  Forall (steady ro) pool' ∧ length pool' = length pool ∧
  (∀ h, steady ro h → pushes_of (sh_info st') h = pushes_of (sh_info st) h) ∧
  ∃ out, appended st st' out ∧
    ∀ l, interleaving (all_pushes (sh_info st) pool') l → interleaving (all_pushes (sh_info st) pool) (out ++ l).
Proof.
  revert pool st. induction schedule as [|i schedule IH]; intros pool st Hp; cbn [run_pool].
  { intros [= <- <-]. split_and!; [done..|]. exists []. split; [apply appended_refl|done]. }
  destruct (pool !! i) as [g|] eqn:Hi; [|by apply IH].
  destruct (go_step g st) as [[g' st1]|] eqn:Hg; [|done]. cbn [mbind outcome_bind]. intros Hr.
  assert (Hsg : steady ro g) by (eapply (Forall_lookup_1 (steady ro)); eauto).
  destruct (go_step_spec ro g st g' st1 Hsg Hg) as (Hsg' & Hinfo & o1 & Ha1 & Ho1).
  destruct (IH (<[i := g']> pool) st1) as (Hp' & Hlen & Hinfo' & o2 & Ha2 & Hi2); [by apply Forall_insert|done|].
  split; [done|]. split; [by rewrite Hlen, length_insert|].
  split; [intros h Hh; by rewrite Hinfo', Hinfo|].
  exists (o1 ++ o2). split; [by eapply appended_trans|]. intros l Hl.
  assert (Heq : ∀ pool, Forall (steady ro) pool → all_pushes (sh_info st1) pool = all_pushes (sh_info st) pool).
  { intros pl Hpl. apply list_fmap_ext. intros j h Hj. apply Hinfo. by eapply (Forall_lookup_1 (steady ro)). }
  rewrite !Heq in Hi2 by (done || by apply Forall_insert). specialize (Hi2 l Hl).
  rewrite list_fmap_insert in Hi2.
  rewrite <- app_assoc. apply (interleaving_take _ i _ (pushes_of (sh_info st) g')); [|done].
  by rewrite list_lookup_fmap, Hi, <- Ho1.
Qed.

(** *** Goroutines that are waited for *)

Lemma finish_step g st st' : finish g st = Done st' →
  g = Finished ∧ st' = st ∨ ∃ g1 st1, go_step g st = Done (g1, st1) ∧ finish g1 st1 = Done st'.
Proof.
  destruct g; simpl; intros Hf; simplify_eq; [by left|..]; try (right; by eexists _, _).
Qed.

Lemma finish_spec ro g st st' : steady ro g → finish g st = Done st' →
  (∀ h, steady ro h → pushes_of (sh_info st') h = pushes_of (sh_info st) h) ∧
  appended st st' (pushes_of (sh_info st) g).
Proof.
  assert (Hstep : ∀ g0 g1 st st1, go_step g0 st = Done (g1, st1) → steady ro g0 →
    (∀ st', steady ro g1 → finish g1 st1 = Done st' →
       (∀ h, steady ro h → pushes_of (sh_info st') h = pushes_of (sh_info st1) h) ∧
       appended st1 st' (pushes_of (sh_info st1) g1)) →
    ∀ st', finish g1 st1 = Done st' →
      (∀ h, steady ro h → pushes_of (sh_info st') h = pushes_of (sh_info st) h) ∧
      appended st st' (pushes_of (sh_info st) g0)).
  { intros g0 g1 st0 st1 Hg Hs IH st2 Hf.
    destruct (go_step_spec ro g0 st0 g1 st1 Hs Hg) as (Hs1 & Hinfo & out & Ha & ->).
    destruct (IH st2 Hs1 Hf) as [Hinfo' Ha']. split.
    - intros h Hh. by rewrite Hinfo', Hinfo.
    - rewrite <- Hinfo by done. by eapply appended_trans. }
  revert st st'. induction g as [|s k IH|s i k IH|s k IH|e k IH|msg]; intros st st' Hs Hf.
  - injection Hf as <-. split; [done|apply appended_refl].
  - eapply (Hstep (Pushes s k) k); [done|done| |exact Hf]. intros st2 Hk Hf2. by apply IH.
  - eapply (Hstep (StoresInfo s i k) k); [done|done| |exact Hf]. intros st2 Hk Hf2. by apply IH.
  - eapply (Hstep (ReadsInfo s k) _); [done|done| |exact Hf]. intros st2 Hk Hf2. by apply IH.
  - eapply (Hstep (Sends e k) k); [done|done| |exact Hf]. intros st2 Hk Hf2. by apply IH.
  - done.
Qed.

Lemma finish_all_spec ro pool st st' : Forall (steady ro) pool → finish_all pool st = Done st' →
  (∀ h, steady ro h → pushes_of (sh_info st') h = pushes_of (sh_info st) h) ∧
  appended st st' (concat (all_pushes (sh_info st) pool)).
Proof.
  intros Hp. revert st. induction Hp as [|g pool Hg Hp IH]; intros st; cbn [finish_all].
  { intros [= <-]. split; [done|apply appended_refl]. }
  destruct (finish g st) as [st1|] eqn:Hf; [|done]. cbn [mbind outcome_bind]. intros Hr.
  destruct (finish_spec ro g st st1 Hg Hf) as [Hinfo Ha]. destruct (IH st1 Hr) as [Hinfo' Ha'].
  split; [intros h Hh; by rewrite Hinfo', Hinfo|]. csimpl. eapply appended_trans; [exact Ha|].
  assert (all_pushes (sh_info st) pool = all_pushes (sh_info st1) pool) as ->; [|done].
  apply list_fmap_ext. intros j h Hj. symmetry. apply Hinfo. by eapply (Forall_lookup_1 (steady ro)).
Qed.

(** A phase that waits, with no orphan around. *)
Lemma phase_waits ro before after new st err left st' :
  Forall (steady ro) new → phase before after [] new st = Done (err, left, st') →
  (err = None → left = [] ∧
    (∀ h, steady ro h → pushes_of (sh_info st') h = pushes_of (sh_info st) h) ∧
    ∃ out, appended st st' out ∧ interleaving (all_pushes (sh_info st) new) out) ∧
  (before = [] → sh_errors st = [] → err = None).
Proof.
  intros Hn. unfold phase. cbn [app length].
  destruct (run_pool before new st) as [[pool1 st1]|] eqn:H1; [|done]. cbn [mbind outcome_bind].
  destruct (sh_errors st1) as [|e es] eqn:He.
  2: { intros [= <- <- <-]. split; [done|]. intros ->. simpl in H1. simplify_eq. by rewrite He. }
  destruct (run_pool after pool1 st1) as [[pool2 st2]|] eqn:H2; [|done]. cbn [mbind outcome_bind].
  rewrite drop_0. destruct (finish_all pool2 st2) as [st3|] eqn:H3; [|done]. intros [= <- <- <-].
  split; [intros _|done].
  destruct (run_pool_spec ro _ _ _ _ _ Hn H1) as (Hp1 & _ & I1 & o1 & A1 & L1).
  destruct (run_pool_spec ro _ _ _ _ _ Hp1 H2) as (Hp2 & _ & I2 & o2 & A2 & L2).
  destruct (finish_all_spec ro _ _ _ Hp2 H3) as (I3 & A3).
  split; [done|]. split; [intros h Hh; by rewrite I3, I2, I1|].
  assert (Heq : ∀ sta pl, Forall (steady ro) pl →
    (∀ h, steady ro h → pushes_of (sh_info sta) h = pushes_of (sh_info st) h) →
    all_pushes (sh_info sta) pl = all_pushes (sh_info st) pl).
  { intros sta pl Hpl Hi. apply list_fmap_ext. intros j h Hj. apply Hi. by eapply (Forall_lookup_1 (steady ro)). }
  exists (o1 ++ o2 ++ concat (all_pushes (sh_info st2) pool2)). split.
  - eapply appended_trans; [exact A1|]. by eapply appended_trans.
  - apply L1. rewrite <- (Heq st1 pool1 Hp1 I1). apply L2.
    rewrite (Heq st2 pool2 Hp2) by (intros h Hh; by rewrite I2, I1).
    rewrite (Heq st1 pool2 Hp2 I1). apply interleaving_concat.
Qed.

(** ** The goroutines of the handler *)

(** A property of goroutines that pushing keeps. *)
Lemma does_ind (P : goroutine → Prop) {A} (m : scrape unit A) n ok failed :
  (∀ s k, P k → P (Pushes s k)) → (∀ n a, P (ok n a)) → (∀ e, P (failed e)) →
  (∀ msg, m n () = Panic msg → P (Crashes msg)) → P (does m n ok failed).
Proof.
  intros Hp Ho Hf Hc. unfold does. destruct (m n ()) as [[[[k []] out] r]|msg]; [|by apply Hc].
  clear Hc. induction out as [|s out IH]; simpl; [destruct r; auto|by apply Hp].
Qed.

(** A goroutine sends at most one error, and then ends. *)
Fixpoint sends_once (g : goroutine) : Prop :=
  match g with
  | Finished | Crashes _ => True
  | Pushes _ k | StoresInfo _ _ k => sends_once k
  | ReadsInfo _ k => ∀ info, sends_once (k info)
  | Sends _ k => k = Finished
  end.

Section shape.
Context `{RangeOrder} `{UnicodeTables}.
Variable ins : Instance.

Lemma cluster_goroutine_ind (P : goroutine → Prop) Do n s :
  (∀ s k, P k → P (Pushes s k)) → (∀ s info, P (StoresInfo s info Finished)) →
  (∀ e, P (Sends e Finished)) → (es_client ins = None → ∀ msg, P (Crashes msg)) →
  P (cluster_goroutine ins Do n s).
Proof.
  intros Hp Hi Hs Hc. unfold cluster_goroutine.
  assert (Hreq : ∀ url what n msg, request ins Do url what n () = Panic msg → es_client ins = None).
  { intros url what n0 msg. unfold request. destruct (NewRequest _ _ _) as [req|]; [|done].
    destruct (es_client ins); [|done]. unfold mbind, scrape_bind, of_result.
    destruct (Do _) as [r|]; simpl; [|done]. destruct (StatusCode r =? StatusOK); discriminate. }
  apply does_ind; [done| |intros; by apply Hp|].
  - intros n1 id. apply does_ind; [done|intros; by apply Hp|intros; by apply Hp|].
    intros msg. unfold getCatMaster, mbind, scrape_bind.
    destruct (request ins Do _ _ n1 ()) as [[[[? ?] ?] [r|]]|] eqn:Hr; [|done|intros; apply Hc; by eapply Hreq].
    destruct (body_error r); discriminate.
  - intros msg. unfold gatherNodeID, gatherJSONData, mbind, scrape_bind.
    destruct (request ins Do _ _ n ()) as [[[[? ?] ?] [r|]]|] eqn:Hr; [|done|intros; apply Hc; by eapply Hreq].
    destruct (Decode _ _ r) as [na|]; [|done]. cbn [mret scrape_ret range_map].
    destruct (range_list _ (na_Nodes na)) as [|[? ?] ?]; discriminate.
Qed.

Lemma cluster_goroutine_shape Do n s :
  steady false (cluster_goroutine ins Do n s) ∧ sends_once (cluster_goroutine ins Do n s) ∧
  (is_Some (es_client ins) → crash_free (cluster_goroutine ins Do n s)).
Proof.
  split; [|split]; [..|intros [c Hc]]; apply cluster_goroutine_ind; try done. by rewrite Hc.
Qed.

(** The computations of the second goroutine that do not panic. *)
Definition sure {A} (m : scrape unit A) : Prop := safe (λ _ : unit, True) m.

Lemma sure_request Do url what : is_Some (es_client ins) → sure (request ins Do url what).
Proof.
  intros [c Hc]. unfold request, sure. destruct (NewRequest _ _ _); [|auto with kubemon].
  rewrite Hc. apply safe_bind; [apply safe_of_result|].
  intros r. destruct (StatusCode r =? StatusOK); auto with kubemon.
Qed.

Lemma sure_json {T} Do url dec (zero : T) : is_Some (es_client ins) → sure (gatherJSONData ins Do url dec zero).
Proof.
  intros Hc. apply safe_bind; [by apply sure_request|]. intros r.
  destruct (Decode dec zero r); auto with kubemon.
Qed.

Lemma sure_flatten name v cs cb : sure (flatten name v cs cb).
Proof.
  intros n st HI. unfold flatten. pose proof (any_json_decoded v n) as Hd.
  destruct (any_json n v) as [n' j]. simpl in Hd. rewrite FullFlattenJSON_leaves by done.
  by eexists _, _, _, _.
Qed.

Lemma sure_push_fields prefix Fields labels : sure (push_fields prefix Fields labels).
Proof.
  apply safe_bind; [auto with kubemon|]. intros fields. apply safe_for_each. auto with kubemon.
Qed.
End shape.

#[export] Hint Resolve sure_request sure_json sure_flatten sure_push_fields : kubemon.

(** Goes through a computation that cannot panic. *)
Ltac surely :=
  repeat first
    [ progress intros | apply safe_bind | apply safe_for_each | apply safe_when
    | solve [auto with kubemon] | apply sure_flatten | apply sure_push_fields | case_match ].

Section sure.
Context `{RangeOrder} `{UnicodeTables}.
Variable ins : Instance.
Hypothesis Hclient : is_Some (es_client ins).

Lemma sure_categorize indices : sure (categorizeIndices ins indices).
Proof.
  apply safe_bind; [auto with kubemon|]. intros names. destruct (all_indices ins); [auto with kubemon|].
  generalize (∅ : gmap string (list string)).
  induction names.*1 as [|name l IH]; intros m; cbn [categorize_loop]; [auto with kubemon|].
  apply safe_bind; [auto with kubemon|]. auto.
Qed.

Lemma sure_shard name shardNumber addrTag shard : sure (gather_shard name shardNumber addrTag shard).
Proof. apply safe_bind; [apply sure_flatten|]. auto with kubemon. Qed.

Lemma sure_single name index addrTag : sure (gatherSingleIndexStats ins name index addrTag).
Proof.
  apply safe_bind; [auto with kubemon|]. intros stats. apply safe_bind.
  - apply safe_for_each. intros ms _. apply safe_bind; [apply sure_flatten|intros; apply sure_push_fields].
  - intros _. apply safe_when, safe_bind; [auto with kubemon|]. intros shards. apply safe_for_each. intros ss _.
    apply safe_for_each. intros; apply sure_shard.
Qed.

Lemma sure_indices Do url address : sure (gatherIndicesStats ins Do url address).
Proof.
  apply safe_bind; [by apply sure_json|]. intros ia. apply safe_bind; [auto with kubemon|]. intros _.
  apply safe_bind; [auto with kubemon|]. intros all. apply safe_bind.
  - apply safe_for_each. intros ms _. apply safe_bind; [apply sure_flatten|intros; apply sure_push_fields].
  - intros _. apply safe_bind; [apply sure_categorize|]. intros cats. apply safe_bind; [auto with kubemon|].
    intros categories. apply safe_for_each. intros cm _. apply safe_for_each. intros; apply sure_single.
Qed.

Lemma sure_health Do url address : sure (gatherClusterHealth ins Do url address).
Proof.
  apply safe_bind; [by apply sure_json|]. intros h. apply safe_bind; [auto with kubemon|]. intros _.
  apply safe_bind; [auto with kubemon|]. intros indices. apply safe_for_each. auto with kubemon.
Qed.

Lemma sure_stats Do url address : sure (gatherClusterStats ins Do url address).
Proof.
  apply safe_bind; [by apply sure_json|]. intros h. apply safe_bind; [auto with kubemon|]. intros stats.
  apply safe_for_each. intros ps _. apply safe_bind; [apply sure_flatten|intros; apply sure_push_fields].
Qed.

(** The answer on the nodes is not an object with a null in the place of a node. *)
Definition no_null_node (Do : Doer) (url : string) : Prop :=
  ∀ req r na, NewRequest "GET" url "" = Ok req →
    Do (if decide (Username ins ≠ "" ∨ Password ins ≠ "")
        then SetBasicAuth req (Username ins) (Password ins) else req) = Ok r →
    Decode dec_nodesAnswer zero_nodesAnswer r = Some na →
    map_Forall (λ _ node, is_Some node) (na_Nodes na).

Lemma json_result {T} Do url (dec : decoder T) zero n n' out a :
  gatherJSONData ins Do url dec zero n () = Done (n', (), out, Ok a) →
  ∃ req r, NewRequest "GET" url "" = Ok req ∧
    Do (if decide (Username ins ≠ "" ∨ Password ins ≠ "")
        then SetBasicAuth req (Username ins) (Password ins) else req) = Ok r ∧
    Decode dec zero r = Some a.
Proof.
  destruct Hclient as [c Hc]. unfold gatherJSONData, request.
  destruct (NewRequest _ _ _) as [req|]; [|done]. rewrite Hc.
  cbv [of_result mbind scrape_bind mret scrape_ret].
  destruct (Do _) as [r|] eqn:HDo; [|done].
  destruct (StatusCode r =? StatusOK); [|done].
  destruct (Decode dec zero r) as [v|] eqn:Hd; [|done]. intros Hr. simplify_eq. by exists req, r.
Qed.

Lemma sure_nodes Do url address : no_null_node Do url → sure (gatherNodeStats ins Do url address).
Proof.
  intros Hn. apply safe_bind_answer; [by apply sure_json|]. intros na n [] n1 [] o1 H1.
  apply json_result in H1 as (req & r & Hreq & HDo & Hd). specialize (Hn req r na Hreq HDo Hd).
  cbv zeta. apply safe_bind_answer; [auto with kubemon|]. intros nodes n2 st2 n3 st3 o2 [= _ _ _ <-].
  apply safe_for_each. intros [id node] Hin.
  assert (is_Some node) as [nd ->].
  { apply (Hn id). apply elem_of_map_to_list. by rewrite <- range_list_perm. }
  apply safe_bind; [auto with kubemon|]. intros attributes. apply safe_bind.
  - apply safe_for_each. auto with kubemon.
  - intros _. apply safe_bind; [auto with kubemon|]. intros stats. apply safe_for_each. intros [p v] _.
    unfold node_section. destruct v; [|apply safe_ret]. apply safe_bind; [apply sure_flatten|].
    intros; apply sure_push_fields.
Qed.
End sure.

(** A computation that panics only where [P] does not mind. *)
Lemma does_either (P : goroutine → Prop) {A} (m : scrape unit A) n ok failed :
  (∀ msg, P (Crashes msg)) ∨ sure m →
  (∀ s k, P k → P (Pushes s k)) → (∀ n a, P (ok n a)) → (∀ e, P (failed e)) →
  P (does m n ok failed).
Proof.
  intros Hm Hp Ho Hf. apply does_ind; [done..|]. intros msg Hmsg. destruct Hm as [Hm|Hm]; [done|].
  destruct (Hm n () I) as (? & ? & ? & ? & Hd & _). by rewrite Hd in Hmsg.
Qed.

Section server.
Context `{RangeOrder} `{UnicodeTables}.
Variable ins : Instance.

Lemma server_goroutine_ind (P : goroutine → Prop) Do n s :
  (∀ msg, P (Crashes msg)) ∨ is_Some (es_client ins) ∧ no_null_node ins Do (nodeStatsURL ins s) →
  P Finished → (∀ s k, P k → P (Pushes s k)) → (∀ e, P (Sends e Finished)) →
  (∀ s k, (∀ info, P (k info)) → P (ReadsInfo s k)) → P (server_goroutine ins Do n s).
Proof.
  intros Hc Hf Hp Hs Hr.
  assert (Hi : ∀ n, P (indices_part ins Do n s)).
  { intros k. unfold indices_part. destruct (IndicesInclude ins); [done|]. apply Hr. intros info.
    destruct (asked ins info); [|done]. apply does_either; [|done..].
    destruct Hc as [|[? ?]]; [by left|right; by apply sure_indices]. }
  assert (Ht : ∀ n, P (stats_part ins Do n s)).
  { intros k. unfold stats_part. destruct (ClusterStats ins); [|done]. apply Hr. intros info.
    destruct (asked ins info); [|done]. apply does_either; [|done..].
    destruct Hc as [|[? ?]]; [by left|right; by apply sure_stats]. }
  assert (Hh : ∀ n, P (health_part ins Do n s)).
  { intros k. unfold health_part. destruct (ClusterHealth ins); [|done]. apply does_either; [|done..].
    destruct Hc as [|[? ?]]; [by left|right; by apply sure_health]. }
  unfold server_goroutine. apply does_either; [|done..]. destruct Hc as [|[? ?]]; [by left|right; by apply sure_nodes].
Qed.

Lemma server_goroutine_shape Do n s :
  steady true (server_goroutine ins Do n s) ∧ sends_once (server_goroutine ins Do n s) ∧
  (is_Some (es_client ins) → no_null_node ins Do (nodeStatsURL ins s) →
   crash_free (server_goroutine ins Do n s)).
Proof.
  split; [|split]; [..|intros Hc Hn]; apply server_goroutine_ind; try done; (by left) || (by right).
Qed.
End server.

(** ** Goroutines that cannot crash *)

Fixpoint may_send (g : goroutine) : Prop :=
  match g with
  | Finished | Crashes _ => False
  | Pushes _ k | StoresInfo _ _ k => may_send k
  | ReadsInfo _ k => ∃ info, may_send (k info)
  | Sends _ _ => True
  end.

(** Neither crashes nor sends: what is safe to be left behind. *)
Definition quiet (g : goroutine) : Prop := crash_free g ∧ ¬ may_send g.

Lemma quiet_orphan g : quiet g → quiet (orphan g).
Proof.
  unfold quiet. induction g as [|s k IH|s i k IH|s k IH|e k IH|msg]; simpl; try tauto.
  intros [Hc Hm]. split.
  - intros info. apply IH. split; [done|]. intros Hs. apply Hm. by exists info.
  - intros [info Hs]. apply (IH info); [|done]. split; [done|]. intros Hs'. apply Hm. by exists info.
Qed.

Lemma quiet_sends_once g : quiet g → sends_once g.
Proof.
  unfold quiet. induction g as [|s k IH|s i k IH|s k IH|e k IH|msg]; simpl; try tauto.
  intros [Hc Hm] info. apply IH. split; [done|]. intros Hs. apply Hm. by exists info.
Qed.

Lemma go_step_safe g st : crash_free g → ∃ g' st', go_step g st = Done (g', st') ∧ crash_free g' ∧
  (may_send g' → may_send g) ∧ (sends_once g → sends_once g') ∧
  (sh_errors st' = sh_errors st ∨ may_send g ∧ (sends_once g → ¬ may_send g')).
Proof.
  destruct g as [|s k|s i k|s k|e k|msg]; simpl; intros Hc; [..|done]; eexists _, _;
    (split; [reflexivity|]); simpl.
  1-3: by auto.
  - split; [apply Hc|]. split; [intros Hs; by eexists|]. split; [intros Hs; apply Hs|by left].
  - split; [done|]. split; [done|]. split; [by intros ->|]. right. split; [done|]. by intros -> [].
Qed.

(** At most one goroutine of a pool may send, and none once one has. *)
Definition one_sender (pool : list goroutine) (st : shared) : Prop :=
  (∀ i j g h, pool !! i = Some g → pool !! j = Some h → may_send g → may_send h → i = j) ∧
  (sh_errors st ≠ [] → Forall (λ g, ¬ may_send g) pool).

Lemma run_pool_safe schedule pool st :
  Forall crash_free pool → ∃ pool' st', run_pool schedule pool st = Done (pool', st') ∧
  Forall crash_free pool' ∧ length pool' = length pool ∧
  (∀ i g g', pool !! i = Some g → pool' !! i = Some g' → may_send g' → may_send g) ∧
  (Forall sends_once pool → one_sender pool st → one_sender pool' st').
Proof.
  revert pool st. induction schedule as [|i schedule IH]; intros pool st Hp; cbn [run_pool].
  { exists pool, st. split_and!; [done..| |done]. intros i g g' Hg Hg'. by simplify_eq. }
  destruct (pool !! i) as [g|] eqn:Hi; [|by apply IH].
  assert (Hg : crash_free g) by (by eapply (Forall_lookup_1 crash_free)).
  destruct (go_step_safe g st Hg) as (g' & st1 & -> & Hg' & Hm & Ho & He). cbn [mbind outcome_bind].
  destruct (IH (<[i := g']> pool) st1) as (pool' & st' & Hr & Hp' & Hl & Hm' & H1);
    [by apply Forall_insert|]. exists pool', st'. split; [done|]. split; [done|].
  rewrite Hl, length_insert. split; [done|].
  assert (Hsend : ∀ j h h', pool !! j = Some h → (<[i := g']> pool : list goroutine) !! j = Some h' →
    may_send h' → may_send h).
  { intros j h h' Hh Hh'. destruct (decide (j = i)) as [->|Hne].
    - rewrite list_lookup_insert_eq in Hh' by (by eapply lookup_lt_Some). by simplify_eq.
    - rewrite list_lookup_insert_ne in Hh' by done. by simplify_eq. }
  split.
  - intros j h h' Hh Hh' Hs. destruct (lookup_lt_is_Some_2 (<[i := g']> pool : list goroutine) j) as [h1 Hh1].
    { rewrite length_insert. by eapply lookup_lt_Some. }
    eapply Hsend; eauto.
  - intros Hso [Hone Hnone]. assert (Hgo : sends_once g) by (by eapply (Forall_lookup_1 sends_once)).
    apply H1; [apply Forall_insert; auto|]. split.
    + intros j k h h' Hh Hh' Hs Hs'.
      destruct (lookup_lt_is_Some_2 pool j) as [h0 Hh0].
      { apply lookup_lt_Some in Hh. by rewrite length_insert in Hh. }
      destruct (lookup_lt_is_Some_2 pool k) as [k0 Hk0].
      { apply lookup_lt_Some in Hh'. by rewrite length_insert in Hh'. }
      eapply Hone; [exact Hh0|exact Hk0|eauto..].
    + intros Hne. destruct He as [He|[Hgs Hgn]].
      * rewrite He in Hne. specialize (Hnone Hne). apply Forall_insert; [done|].
        intros Hs. by eapply (Forall_lookup_1 (λ g, ¬ may_send g)); [| |apply Hm].
      * apply Forall_lookup. intros j h Hh Hs. destruct (decide (j = i)) as [->|Hji].
        -- rewrite list_lookup_insert_eq in Hh by (by eapply lookup_lt_Some). simplify_eq. by apply Hgn.
        -- rewrite list_lookup_insert_ne in Hh by done. by apply Hji, (Hone j i h g).
Qed.

Lemma finish_safe g st : crash_free g → ∃ st', finish g st = Done st'.
Proof. revert st. induction g; simpl; intros st Hc; eauto; done. Qed.

Lemma finish_all_safe pool st : Forall crash_free pool → ∃ st', finish_all pool st = Done st'.
Proof.
  intros Hp. revert st. induction Hp as [|g pool Hg Hp IH]; intros st; cbn [finish_all]; [by eexists|].
  destruct (finish_safe g st Hg) as [st1 ->]. apply IH.
Qed.

(** Quiet orphans and goroutines that cannot crash get through a phase, which
    leaves quiet orphans if at most one of the new ones may send. *)
Lemma phase_safe before after orphans new st :
  Forall quiet orphans → Forall crash_free new →
  ∃ err left st', phase before after orphans new st = Done (err, left, st') ∧
    (Forall sends_once new → sh_errors st = [] →
     (∀ i j g h, new !! i = Some g → new !! j = Some h → may_send g → may_send h → i = j) →
     Forall quiet left).
Proof.
  intros Ho Hn. assert (Hpool : Forall crash_free (orphans ++ new)).
  { apply Forall_app. split; [|done]. eapply Forall_impl; [exact Ho|]. by intros g []. }
  destruct (run_pool_safe before _ st Hpool) as (pool & st1 & H1 & Hp & Hl & Hm & Hone).
  assert (Htake : Forall quiet (take (length orphans) pool)).
  { apply Forall_lookup. intros i g' Hg'. apply lookup_take_Some in Hg' as [Hg' Hi].
    destruct (lookup_lt_is_Some_2 orphans i Hi) as [g Hg]. split; [by eapply (Forall_lookup_1 crash_free)|].
    intros Hs. destruct (Forall_lookup_1 quiet _ _ _ Ho Hg) as [_ []]. eapply (Hm i g g'); [|done..].
    by apply lookup_app_l_Some. }
  unfold phase. rewrite H1. cbn [mbind outcome_bind]. destruct (sh_errors st1) as [|e es] eqn:He.
  - destruct (run_pool_safe after _ st1 Hp) as (pool2 & st2 & H2 & Hp2 & Hl2 & Hm2 & _). rewrite H2.
    cbn [mbind outcome_bind].
    destruct (finish_all_safe (drop (length orphans) pool2) st2) as [st3 ->]; [by apply Forall_drop|].
    eexists _, _, _. split; [done|]. intros _ _ _. apply Forall_lookup. intros i g' Hg'.
    apply lookup_take_Some in Hg' as [Hg' Hi].
    destruct (lookup_lt_is_Some_2 (take (length orphans) pool) i) as [g Hg].
    { rewrite length_take, Hl, length_app. lia. }
    destruct (Forall_lookup_1 quiet _ _ _ Htake Hg) as [_ Hgm]. apply lookup_take_Some in Hg as [Hg _].
    split; [by eapply (Forall_lookup_1 crash_free)|]. intros Hs. apply Hgm. by eapply Hm2.
  - eexists _, _, _. split; [done|]. intros Hso Hst Huni. apply Forall_app. split; [done|].
    assert (Hosend : ∀ i g, orphans !! i = Some g → ¬ may_send g).
    { intros i g Hg. by destruct (Forall_lookup_1 quiet _ _ _ Ho Hg). }
    assert (Hpre : one_sender (orphans ++ new) st).
    { split; [|by rewrite Hst]. intros i j g h Hg Hh Hgs Hhs.
      apply lookup_app_Some in Hg as [Hg|[Hi Hg]]; [by destruct (Hosend _ _ Hg)|].
      apply lookup_app_Some in Hh as [Hh|[Hj Hh]]; [by destruct (Hosend _ _ Hh)|].
      pose proof (Huni _ _ _ _ Hg Hh Hgs Hhs). lia. }
    assert (Hsend : Forall sends_once (orphans ++ new)).
    { apply Forall_app. split; [|done]. eapply Forall_impl; [exact Ho|]. apply quiet_sends_once. }
    destruct (Hone Hsend Hpre) as [_ Hnone]. rewrite He in Hnone. apply Forall_fmap, Forall_drop.
    rewrite Forall_lookup in *. intros i g Hg. apply quiet_orphan. split; [by eapply Hp|by eapply Hnone].
Qed.

(** ** What a gather does *)

Section gather.
Context `{RangeOrder} `{UnicodeTables}.

Lemma imap_Forall {A} (P : goroutine → Prop) (f : nat → A → goroutine) (l : list A) :
  (∀ i a, l !! i = Some a → P (f i a)) → Forall P (imap f l).
Proof.
  intros Hl. apply Forall_lookup. intros i g. rewrite list_lookup_imap.
  destruct (l !! i) as [a|] eqn:Ha; [|done]. intros [= <-]. by apply Hl.
Qed.

(** The client is there, and no server answers with a null node. *)
Definition es_ready (ins : Instance) (w : es_world) : Prop :=
  is_Some (es_client ins) ∧
  ∀ i s, Servers ins !! i = Some s → no_null_node ins (ew_server w i) (nodeStatsURL ins s).

Lemma cluster_pool ins w :
  Forall (steady false) (cluster_goroutines ins w) ∧ Forall sends_once (cluster_goroutines ins w) ∧
  (es_ready ins w → Forall crash_free (cluster_goroutines ins w)).
Proof.
  split_and!; [..|intros [Hc _]]; apply imap_Forall; intros i s _; by apply cluster_goroutine_shape.
Qed.

Lemma server_pool ins w :
  Forall (steady true) (server_goroutines ins w) ∧ Forall sends_once (server_goroutines ins w) ∧
  (es_ready ins w → Forall crash_free (server_goroutines ins w)).
Proof.
  split_and!; [..|intros [Hc Hn]]; apply imap_Forall; intros i s Hs; try by apply server_goroutine_shape.
  apply server_goroutine_shape; auto.
Qed.

(** Only one goroutine of a phase may meet an error. *)
Definition one_may_fail (pool : list goroutine) : Prop :=
  ∀ i j g h, pool !! i = Some g → pool !! j = Some h → may_send g → may_send h → i = j.

(** What a gather needs of the instance: a client, and that what earlier
    gathers left running neither crashes nor sends. *)
Definition es_inv (ins : Instance) : Prop := is_Some (es_client ins) ∧ Forall quiet (es_running ins).


(** C11: A gather that nothing was left behind for, with a client and without null
    nodes, never panics. When it returns without error it has waited for all its
    goroutines: nothing is left behind, and the list holds what it held, then an
    interleaving of what the first round pushes for each server, then one of what
    the second pushes, each server in the order of its goroutine. A gather that
    looks at the channels before a goroutine has taken a step returns no error,
    whatever the servers answer. *)
Theorem es_Gather_waits ins w slist q :
  es_running ins = [] → es_ready ins w → slist = of_queue q →
  ∃ ins' slist' err, es_Gather ins w slist = Done (ins', slist', err) ∧
    (err = None → es_running ins' = [] ∧ ∃ out1 out2, slist' = of_queue (q ++ out1 ++ out2) ∧
      interleaving (if cluster_wanted ins then all_pushes ∅ (cluster_goroutines ins w) else []) out1 ∧
      interleaving (all_pushes (ins_serverInfo ins') (server_goroutines ins w)) out2) ∧
    (ew_before w = ([], []) → err = None).
Proof.
  intros Ho Hr ->. destruct (cluster_pool ins w) as (Hst & _ & Hcf). destruct (server_pool ins w) as (Hst' & _ & Hcf').
  specialize (Hcf Hr). specialize (Hcf' Hr).
  assert (∃ err left st, cluster_phase ins w (of_queue q) = Done (err, left, st) ∧
    (err = None → left = [] ∧ ∃ out, sh_list st = of_queue (q ++ out) ∧
      interleaving (if cluster_wanted ins then all_pushes ∅ (cluster_goroutines ins w) else []) out) ∧
    ((ew_before w).1 = [] → err = None)) as (err & left & st & Hp & Hn & He).
  { unfold cluster_phase. rewrite Ho. destruct (cluster_wanted ins).
    - destruct (phase_safe (ew_before w).1 (ew_after w).1 [] _ (mkShared (of_queue q) ∅ []) ltac:(done) Hcf)
        as (err & left & st & Hph & _). rewrite Hph. eexists _, _, _. split; [done|].
      destruct (phase_waits _ _ _ _ _ _ _ _ Hst Hph) as [Hw Hb]. split; [|intros; by apply Hb].
      intros ->. destruct (Hw eq_refl) as (-> & _ & out & Ha & Hi). split; [done|]. exists out. by split; [apply Ha|].
    - eexists _, _, _. split; [done|]. split; [|done]. intros _. split; [done|]. exists [].
      rewrite app_nil_r. split; [done|by constructor]. }
  unfold es_Gather. rewrite Hp. cbn [mbind outcome_bind]. destruct err as [err|].
  { eexists _, _, _. split; [done|]. split; [done|]. intros Hw. by apply He; rewrite Hw. }
  destruct (Hn eq_refl) as (-> & out1 & Hl & Hi1).
  destruct (phase_safe (ew_before w).2 (ew_after w).2 [] _ (mkShared (sh_list st) (sh_info st) []) ltac:(done) Hcf')
    as (err & left' & st' & Hph & _). rewrite Hph. eexists _, _, _. split; [done|].
  destruct (phase_waits _ _ _ _ _ _ _ _ Hst' Hph) as [Hw Hb].
  split; [|intros Hbe; by apply Hb; [rewrite Hbe|]].
  intros ->. destruct (Hw eq_refl) as (-> & Hinfo & out2 & Ha & Hi2). split; [done|].
  exists out1, out2. split; [rewrite app_assoc; by apply Ha|]. split; [done|]. simpl in *.
  rewrite (list_fmap_ext _ (pushes_of (sh_info st))); [done|]. intros j g Hg.
  apply Hinfo. by eapply (Forall_lookup_1 stores_free).
Qed.

(** A server that does not answer the first request. *)
Lemma failing_goroutine ins Do n s :
  is_Some (es_client ins) → (∀ req, ∃ e, Do req = Err e) →
  ∃ e, cluster_goroutine ins Do n s = Pushes (up_sample n s 0) (Sends e Finished).
Proof.
  intros [c Hc] Hd. unfold cluster_goroutine, does at 1, gatherNodeID, gatherJSONData, request.
  destruct (NewRequest _ _ _) as [req|e]; [|by exists e]. rewrite Hc.
  match goal with |- context [Do ?r] => destruct (Hd r) as [e He] end.
  exists e. cbv [mbind scrape_bind of_result]. by rewrite He.
Qed.

(** No server answers. *)
Definition unreachable (w : es_world) : Prop := ∀ i req, ∃ e, ew_cluster w i req = Err e.

(** Two servers that do not answer crash the process. When the goroutine of
    the first has told of its error before the gather looks, the gather returns
    that error and closes the channel; the goroutine of the second, left behind,
    then panics as it sends its own error, during the next gather. *)
Theorem es_two_failures ins w w' slist s1 s2 others sched sched' :
  is_Some (es_client ins) → es_running ins = [] → cluster_wanted ins = true →
  Servers ins = s1 :: s2 :: others → unreachable w →
  ew_before w = ([0; 0]%nat, sched) → ew_before w' = ([1; 1]%nat, sched') →
  ∃ ins' e, es_Gather ins w slist =
      Done (ins', PushFront slist (up_sample (ew_loop w 0) s1 0), Some e) ∧
    ∀ slist', is_panic (es_Gather ins' w' slist').
Proof.
  intros Hc Ho Hw Hs Hd Hb Hb'.
  destruct (failing_goroutine ins _ (ew_loop w 0) s1 Hc (Hd 0%nat)) as [e1 H1].
  destruct (failing_goroutine ins _ (ew_loop w 1) s2 Hc (Hd 1%nat)) as [e2 H2].
  assert (∃ pool, cluster_goroutines ins w = Pushes (up_sample (ew_loop w 0) s1 0) (Sends e1 Finished)
    :: Pushes (up_sample (ew_loop w 1) s2 0) (Sends e2 Finished) :: pool) as [pool Hpool].
  { unfold cluster_goroutines. rewrite Hs. cbn [imap]. rewrite H1. unfold compose. rewrite H2. by eexists. }
  eexists _, e1. split.
  - unfold es_Gather, cluster_phase. rewrite Hw, Ho, Hpool, Hb. reflexivity.
  - intros slist'. eexists. unfold es_Gather, cluster_phase.
    change (cluster_wanted (with_shared _ _ _)) with (cluster_wanted ins). rewrite Hw, Hb'. reflexivity.
Qed.

(** ** A null in the place of a node *)

Lemma errorless_flatten name v cs cb : errorless (flatten name v cs cb).
Proof.
  intros n st n' st' out r. unfold flatten. pose proof (any_json_decoded v n) as Hd.
  destruct (any_json n v) as [n1 j]. simpl in Hd. rewrite FullFlattenJSON_leaves by done.
  intros [= _ _ _ <-]. by eexists.
Qed.

Lemma errorless_gather_node cluster addrTag node : errorless (gather_node cluster addrTag node).
Proof.
  unfold gather_node. destruct node.2 as [nd|]; [|done].
  apply errorless_bind; [apply errorless_range|]. intros attributes. apply errorless_bind.
  { apply errorless_for_each. intros kv. apply errorless_push_sample. }
  intros _. apply errorless_bind; [apply errorless_range|]. intros stats. apply errorless_for_each.
  intros [p v]. unfold node_section. cbn [snd]. destruct v; [|apply errorless_ret].
  apply errorless_bind; [apply errorless_flatten|]. intros Fields.
  apply errorless_bind; [apply errorless_range|]. intros fields. apply errorless_for_each.
  intros kv. apply errorless_push_sample.
Qed.

(** What the server at [url] answers has a null in the place of a node. *)
Definition null_node (ins : Instance) (Do : Doer) (url : string) : Prop :=
  ∃ req r na id, NewRequest "GET" url "" = Ok req ∧
    Do (if decide (Username ins ≠ "" ∨ Password ins ≠ "")
        then SetBasicAuth req (Username ins) (Password ins) else req) = Ok r ∧
    StatusCode r = StatusOK ∧ Decode dec_nodesAnswer zero_nodesAnswer r = Some na ∧
    na_Nodes na !! id = Some None.

Lemma null_node_crashes ins Do n s :
  is_Some (es_client ins) → null_node ins Do (nodeStatsURL ins s) →
  ∃ msg, server_goroutine ins Do n s = Crashes msg.
Proof.
  intros [c Hc] (req & r & na & id & Hreq & HDo & Hst & Hd & Hid).
  assert (Hcr : crashes (gatherNodeStats ins Do (nodeStatsURL ins s) s) ()).
  { unfold gatherNodeStats, gatherJSONData, request. rewrite Hreq, Hc.
    apply (crashes_after _ _ _ [] () na).
    - intros k. exists k. cbv [mbind scrape_bind]. rewrite HDo. cbv [of_result mret scrape_ret].
      by rewrite Hst, Z.eqb_refl, Hd.
    - intros k. rewrite (bind_silent _ _ k () (S k) () (range_list k (na_Nodes na))) by done.
      apply crashes_for_each; [intros; apply errorless_gather_node|].
      apply Exists_exists. exists (id, None). split; [by apply elem_of_range_list|]. intros st k'. by eexists. }
  unfold server_goroutine, does. destruct (Hcr n) as [msg ->]. by exists msg.
Qed.

Lemma run_pool_crash schedule pool st i msg pool' st' :
  pool !! i = Some (Crashes msg) → run_pool schedule pool st = Done (pool', st') →
  pool' !! i = Some (Crashes msg).
Proof.
  revert pool st. induction schedule as [|j schedule IH]; intros pool st Hi; cbn [run_pool]; [by intros [= <- _]|].
  destruct (pool !! j) as [g|] eqn:Hj; [|by apply IH].
  destruct (go_step g st) as [[g' st1]|] eqn:Hg; [|done]. cbn [mbind outcome_bind]. apply IH.
  rewrite list_lookup_insert_ne; [done|]. intros ->. by simplify_eq.
Qed.

Lemma finish_all_crash pool st i msg :
  pool !! i = Some (Crashes msg) → is_panic (finish_all pool st).
Proof.
  revert i st. induction pool as [|g pool IH]; intros [|i] st Hi; simplify_eq/=; [by eexists|].
  destruct (finish g st) as [st1|m]; [by eapply IH|by eexists].
Qed.

(** A node that is null in the answer on the nodes' statistics crashes the
    process: the goroutine of that server follows the pointer, so a gather that
    looks at the channels before a goroutine has taken a step, and so waits for
    all of them, panics in every schedule. *)
Theorem es_null_node_crash ins w slist i s :
  is_Some (es_client ins) → es_running ins = [] → ew_before w = ([], []) →
  Servers ins !! i = Some s → null_node ins (ew_server w i) (nodeStatsURL ins s) →
  is_panic (es_Gather ins w slist).
Proof.
  intros Hc Ho Hb Hs Hn. destruct (null_node_crashes ins _ (ew_loop w i) s Hc Hn) as [msg Hg].
  assert (Hpool : server_goroutines ins w !! i = Some (Crashes msg)).
  { unfold server_goroutines. rewrite list_lookup_imap, Hs. simpl. by rewrite Hg. }
  unfold es_Gather. destruct (cluster_phase ins w slist) as [[[err left] st]|m] eqn:Hp; [|by eexists].
  assert (err = None ∧ left = []) as [-> ->].
  { unfold cluster_phase in Hp. rewrite Hb, Ho in Hp. destruct (cluster_wanted ins); [|by simplify_eq].
    destruct (cluster_pool ins w) as [Hst _].
    destruct (phase_waits _ _ _ _ _ _ _ _ Hst Hp) as [Hw He]. specialize (He eq_refl eq_refl).
    split; [done|]. by apply Hw. }
  cbn [mbind outcome_bind]. rewrite Hb. unfold phase. cbn [app snd run_pool mbind outcome_bind sh_errors].
  destruct (run_pool (ew_after w).2 _ _) as [[pool st']|m] eqn:Hr; [|by eexists]. cbn [mbind outcome_bind length].
  rewrite drop_0. destruct (finish_all_crash pool st' i msg) as [m Hm]; [by eapply run_pool_crash|].
  exists m. by rewrite Hm.
Qed.
End gather.

(** ** Indices *)

(** The names in all the categories together. *)
Definition all_names (m : gmap string (list string)) : list string := concat (map_to_list m).*2.

Lemma all_names_delete m c l : m !! c = Some l → all_names m ≡ₚ l ++ all_names (delete c m).
Proof.
  intros Hc. unfold all_names. by rewrite <- (map_to_list_delete m c l Hc).
Qed.

Lemma all_names_add m c name : all_names (add_to_category m c name) ≡ₚ name :: all_names m.
Proof.
  unfold add_to_category. rewrite (all_names_delete _ c _ (lookup_insert_eq _ _ _)), delete_insert_eq.
  destruct (m !! c) as [l|] eqn:Hc; cbn [default].
  - rewrite (all_names_delete m c l Hc), <- app_assoc. symmetry. apply Permutation_middle.
  - by rewrite delete_id.
Qed.

Section indices.
Context `{RangeOrder}.
Variable ins : Instance.

(** What the category of a name may be. *)
Definition belongs (c name : string) : Prop :=
  if all_indices ins then c = "_all"
  else (∃ f, indexMatchers ins !! c = Some f ∧ match_index f name = true) ∨
       (c = name ∧ map_Forall (λ _ f, match_index f name = false) (indexMatchers ins)).

Definition well_sorted (m : gmap string (list string)) : Prop :=
  map_Forall (λ c l, l ≠ [] ∧ Forall (belongs c) l) m.

Lemma well_sorted_add m c name : belongs c name → well_sorted m → well_sorted (add_to_category m c name).
Proof.
  intros Hb Hm. apply map_Forall_insert_2; [|done]. split; [by destruct (default _ _)|].
  apply Forall_app_2; [|by constructor]. destruct (m !! c) as [l|] eqn:Hc; [|done]. by apply (Hm c l).
Qed.

Lemma belongs_category n name : all_indices ins = false →
  belongs (category (range_list n (indexMatchers ins)) name) name.
Proof.
  intros Ha. unfold belongs, category. rewrite Ha.
  destruct (list_find _ _) as [[i [c f]]|] eqn:Hf.
  - left. apply list_find_Some in Hf as (Hi & Hm & _). exists f. split; [|done].
    apply list_elem_of_lookup_2, elem_of_range_list in Hi. done.
  - right. split; [done|]. intros c f Hc. apply list_find_None in Hf. rewrite Forall_forall in Hf.
    apply not_true_is_false. apply (Hf (c, f)). by apply elem_of_range_list.
Qed.

(** C32: the indices of an answer are sorted into categories: each index is in
    exactly one, once; a category is never empty; and each index is in the
    category of a configured index that matches it, or, when none does, in one
    of its own, or, when all indices are wanted, in the one category [_all]. This
    holds in every order of the loops over the maps. *)
Theorem categorizeIndices_spec indices n :
  ∃ n' m, categorizeIndices ins indices n () = Done (n', (), [], Ok m) ∧
    all_names m ≡ₚ (map_to_list indices).*1 ∧ NoDup (all_names m) ∧ well_sorted m.
Proof.
  assert (Hres : ∃ n' m, categorizeIndices ins indices n () = Done (n', (), [], Ok m) ∧
    all_names m ≡ₚ (range_list n indices).*1 ∧ well_sorted m).
  2: { destruct Hres as (n' & m & Hc & Hp & Hw). exists n', m. rewrite range_list_perm in Hp.
       split; [done|]. split; [done|]. split; [|done]. rewrite Hp. apply NoDup_fst_map_to_list. }
  unfold categorizeIndices. rewrite (bind_silent _ _ n () (S n) () (range_list n indices)) by done.
  generalize (range_list n indices).*1. intros names.
  assert (He : ∃ seen, all_names ∅ ≡ₚ seen ∧ names ≡ₚ seen ++ names) by (by exists []).
  destruct (all_indices ins) eqn:Ha.
  - eexists _, _. split; [reflexivity|].
    assert (Hf : ∀ m, well_sorted m → all_names (foldl (λ m name, add_to_category m "_all" name) m names)
      ≡ₚ names ++ all_names m ∧ well_sorted (foldl (λ m name, add_to_category m "_all" name) m names)).
    { clear He. induction names as [|name names IH]; intros m Hm; [done|]. cbn [foldl].
      destruct (IH (add_to_category m "_all" name)) as [Hp Hw].
      { apply well_sorted_add; [|done]. unfold belongs. by rewrite Ha. }
      split; [|done]. rewrite Hp, all_names_add. symmetry. apply Permutation_middle. }
    destruct (Hf ∅) as [Hp Hw]; [done|]. by rewrite app_nil_r in Hp.
  - clear He. generalize (S n). intros k.
    assert (Hf : ∀ m k, well_sorted m → ∃ n' m', categorize_loop ins names m k () = Done (n', (), [], Ok m') ∧
      all_names m' ≡ₚ names ++ all_names m ∧ well_sorted m').
    { clear k. induction names as [|name names IH]; intros m k Hm; [by eexists _, _|]. cbn [categorize_loop].
      rewrite (bind_silent _ _ k () (S k) () (range_list k (indexMatchers ins))) by done.
      destruct (IH (add_to_category m (category (range_list k (indexMatchers ins)) name) name) (S k))
        as (n' & m' & Hr & Hp & Hw); [by apply well_sorted_add; [apply belongs_category|]|].
      exists n', m'. split; [done|]. split; [|done]. rewrite Hp, all_names_add. symmetry. apply Permutation_middle. }
    destruct (Hf ∅ k) as (n' & m' & Hr & Hp & Hw); [done|]. rewrite app_nil_r in Hp. by exists n', m'.
Qed.

Lemma omap_seq {A} (l : list A) a k : omap (λ i, l !! i) (seq a k) = take k (drop a l).
Proof.
  revert a. induction k as [|k IH]; intros a; [by rewrite take_0|]. cbn [seq]. csimpl. rewrite IH.
  destruct (l !! a) as [x|] eqn:Ha.
  - by rewrite (drop_S l x a Ha).
  - apply lookup_ge_None in Ha. rewrite !(drop_ge l) by lia. by rewrite !take_nil.
Qed.

Lemma omap_rev {A B} (f : A → option B) l : omap f (rev l) = rev (omap f l).
Proof.
  induction l as [|a l IH]; [done|]. cbn [rev]. csimpl. rewrite omap_app, IH. csimpl.
  destruct (f a); [done|]. apply app_nil_r.
Qed.

Lemma tracked_take l : tracked_indices ins l =
  if 0 <? NumMostRecentIndices ins
  then take (Z.to_nat (NumMostRecentIndices ins)) (reverse (merge_sort String.le l))
  else reverse l.
Proof.
  unfold tracked_indices. rewrite omap_rev, omap_seq. change (@rev string) with (@List.rev string). rewrite rev_alt.
  change (rev_append ?l []) with (reverse l).
  destruct (Z.ltb_spec 0 (NumMostRecentIndices ins)) as [Hn|Hn]; cbn [andb]; [|by rewrite Nat.sub_diag, take_ge].
  assert (Hlen : length (merge_sort String.le l) = length l) by by rewrite merge_sort_Permutation.
  rewrite take_reverse, Hlen. f_equal.
  destruct (Z.ltb_spec (NumMostRecentIndices ins) (Z.of_nat (length l))) as [Hm|Hm];
    rewrite take_ge by (rewrite length_drop; lia); [done|]. f_equal. lia.
Qed.

(** Of the indices of a category, the configured number of the last ones in
    the order of their names are gathered, last first, whatever the order the
    answer gave them in; each of them comes after every index that is left out. *)
Theorem tracked_indices_spec l l' :
  l ≡ₚ l' → 0 < NumMostRecentIndices ins →
  tracked_indices ins l = tracked_indices ins l' ∧
  tracked_indices ins l = take (Z.to_nat (NumMostRecentIndices ins)) (reverse (merge_sort String.le l)) ∧
  (∀ x y, x ∈ tracked_indices ins l → y ∈ l → y ∉ tracked_indices ins l → String.le y x).
Proof.
  intros Hl Hn. apply Z.ltb_lt in Hn. rewrite !tracked_take, Hn. split; [|split; [done|]].
  - do 2 f_equal. apply (Sorted_unique String.le); [apply Sorted_merge_sort; apply _..|].
    by rewrite !merge_sort_Permutation.
  - set (k := Z.to_nat (NumMostRecentIndices ins)). intros x y Hx Hy Hny.
    assert (Hs : StronglySorted String.le (reverse (drop k (reverse (merge_sort String.le l))) ++
      reverse (take k (reverse (merge_sort String.le l))))).
    { rewrite <- reverse_app, take_drop, reverse_involutive. apply StronglySorted_merge_sort; apply _. }
    eapply StronglySorted_app_1_elem_of; [exact Hs|apply elem_of_reverse|by apply elem_of_reverse].
    rewrite <- (merge_sort_Permutation String.le l), <- (reverse_Permutation (merge_sort String.le l)) in Hy.
    rewrite <- (take_drop k (reverse (merge_sort String.le l))) in Hy.
    by apply elem_of_app in Hy as [Hy|Hy].
Qed.
End indices.

(** ** The health of a cluster *)

(** A number as an answer writes it. *)
Definition int_json (z : Z) : raw := RNumber (bytes_of (Itoa z)).
Definition string_json (s : string) : raw := RString (bytes_of s).

Definition countable (z : Z) : Prop := 0 ≤ z ∧ is_int64 z.

Lemma dec_int_json z : countable z → dec_int (int_json z) 0 = Some z.
Proof. intros [_ Hz]. unfold dec_int, int_json. by rewrite of_bytes_of, ParseInt_Itoa. Qed.

Lemma wf_int_json d z : countable z → wf d (int_json z).
Proof. intros [Hz _]. by apply wf_number, number_ok_Itoa. Qed.

Definition index_health_members (h : indexHealth) : list (string * raw) :=
  [("active_primary_shards", int_json (ih_ActivePrimaryShards h));
   ("active_shards", int_json (ih_ActiveShards h));
   ("initializing_shards", int_json (ih_InitializingShards h));
   ("number_of_replicas", int_json (ih_NumberOfReplicas h));
   ("number_of_shards", int_json (ih_NumberOfShards h));
   ("relocating_shards", int_json (ih_RelocatingShards h)); ("status", string_json (ih_Status h));
   ("unassigned_shards", int_json (ih_UnassignedShards h))].

Definition index_health_json (h : indexHealth) : raw := RObject (members id (index_health_members h)).

Definition index_health_ok (h : indexHealth) : Prop :=
  Forall countable [ih_ActivePrimaryShards h; ih_ActiveShards h; ih_InitializingShards h;
    ih_NumberOfReplicas h; ih_NumberOfShards h; ih_RelocatingShards h; ih_UnassignedShards h] ∧
  plain (ih_Status h).

(** The answer as Elasticsearch writes it; [pct] is the text of the percentage. *)
Definition health_members (pct : string) (h : clusterHealth) : list (string * raw) :=
  [("cluster_name", string_json (ch_ClusterName h)); ("status", string_json (ch_Status h));
   ("timed_out", RBool (ch_TimedOut h)); ("number_of_nodes", int_json (ch_NumberOfNodes h));
   ("number_of_data_nodes", int_json (ch_NumberOfDataNodes h));
   ("active_primary_shards", int_json (ch_ActivePrimaryShards h));
   ("active_shards", int_json (ch_ActiveShards h));
   ("relocating_shards", int_json (ch_RelocatingShards h));
   ("initializing_shards", int_json (ch_InitializingShards h));
   ("unassigned_shards", int_json (ch_UnassignedShards h));
   ("delayed_unassigned_shards", int_json (ch_DelayedUnassignedShards h));
   ("number_of_pending_tasks", int_json (ch_NumberOfPendingTasks h));
   ("number_of_in_flight_fetch", int_json (ch_NumberOfInFlightFetch h));
   ("task_max_waiting_in_queue_millis", int_json (ch_TaskMaxWaitingInQueueMillis h));
   ("active_shards_percent_as_number", RNumber (bytes_of pct));
   ("indices", RObject (members index_health_json (map_to_list (ch_Indices h))))].

Definition health_json (pct : string) (h : clusterHealth) : raw := RObject (members id (health_members pct h)).

Definition health_ok (pct : string) (h : clusterHealth) : Prop :=
  Forall countable [ch_NumberOfNodes h; ch_NumberOfDataNodes h; ch_ActivePrimaryShards h; ch_ActiveShards h;
    ch_RelocatingShards h; ch_InitializingShards h; ch_UnassignedShards h; ch_DelayedUnassignedShards h;
    ch_NumberOfPendingTasks h; ch_NumberOfInFlightFetch h; ch_TaskMaxWaitingInQueueMillis h] ∧
  plain (ch_ClusterName h) ∧ plain (ch_Status h) ∧
  number_ok (bytes_of pct) ∧ ParseFloat pct = (ch_ActiveShardsPercentAsNumber h, None) ∧
  map_Forall (λ name ih, plain name ∧ index_health_ok ih) (ch_Indices h).

Lemma bind_eval {A B} (x : option A) (f : A → option B) t r : x = Some t → f t = r → (x ≫= f) = r.
Proof. by intros ->. Qed.

(** Reads the next field off the members [l] of an answer. *)
Ltac member Hn Hl :=
  eapply bind_eval;
    [ eapply (dec_field_member _ _ _ _ _ _ _ Hn Hl);
      [ repeat first [by left | right]
      | first [ by apply dec_int_json
              | unfold string_json, id; cbn [dec_string dec_bool]; rewrite ?unquote_plain by done; reflexivity ] ]
    | cbn beta ].

Lemma dec_index_health_json h old : index_health_ok h → dec_indexHealth (index_health_json h) old = Some h.
Proof.
  intros [Hc Hs]. rewrite !Forall_cons in Hc. destruct Hc as (? & ? & ? & ? & ? & ? & ? & _).
  destruct h. simpl in *. unfold dec_indexHealth, index_health_json. cbn [struct_members mbind option_bind].
  set (names := [_; _; _; _; _; _; _; _]). set (l := index_health_members _).
  assert (Hn : NoDup l.*1) by by apply (bool_decide_unpack _).
  assert (Hl : Forall (λ kv, plain kv.1 ∧ kv.1 ∈ names) l) by by apply (bool_decide_unpack _).
  do 8 member Hn Hl. done.
Qed.

Lemma wf_index_health_json d h : d < maxNestingDepth → index_health_ok h → wf d (index_health_json h).
Proof.
  intros Hd [Hc Hs]. rewrite !Forall_cons in Hc. destruct Hc as (? & ? & ? & ? & ? & ? & ? & _).
  apply wf_members; [done|].
  repeat (apply Forall_cons_2; [split; [done|]; cbn [snd id]; try by apply wf_int_json|]); [|constructor].
  by apply wf_string, body_ok_plain.
Qed.

Lemma wf_health_json pct h : health_ok pct h → wf 0 (health_json pct h).
Proof.
  intros (Hc & Hn & Hs & Hp & _ & Hi). rewrite !Forall_cons in Hc.
  destruct Hc as (? & ? & ? & ? & ? & ? & ? & ? & ? & ? & ? & _). apply wf_members; [done|].
  repeat (apply Forall_cons_2; [split; [done|]; cbn [snd id]; try by apply wf_int_json|]); [..|constructor].
  - by apply wf_string, body_ok_plain.
  - by apply wf_string, body_ok_plain.
  - constructor.
  - by constructor.
  - apply wf_members; [done|]. apply Forall_forall. intros [k ih] Hin. apply elem_of_map_to_list in Hin.
    destruct (Hi k ih Hin) as [Hk Hih]. split; [done|]. by apply wf_index_health_json.
Qed.

Lemma dec_health_json pct h old : health_ok pct h → dec_clusterHealth (health_json pct h) old = Some h.
Proof.
  intros (Hc & Hcn & Hs & Hp & Hf & Hi). rewrite !Forall_cons in Hc.
  destruct Hc as (? & ? & ? & ? & ? & ? & ? & ? & ? & ? & ? & _). destruct h as [? ? ? ? ? ? ? ? ? ? ? ? ? ? ? indices].
  simpl in *. unfold dec_clusterHealth, health_json. cbn [struct_members mbind option_bind].
  set (names := [_; _; _; _; _; _; _; _; _; _; _; _; _; _; _; _]). set (l := health_members _ _).
  assert (Hn : NoDup l.*1) by by apply (bool_decide_unpack _).
  assert (Hl : Forall (λ kv, plain kv.1 ∧ kv.1 ∈ names) l) by by apply (bool_decide_unpack _).
  do 2 member Hn Hl. eapply bind_eval.
  { eapply (dec_field_member _ _ _ _ _ _ _ Hn Hl); [repeat first [by left | right]|].
    cbn [dec_float]. by rewrite of_bytes_of, Hf. }
  cbn beta. do 12 member Hn Hl. eapply bind_eval.
  { eapply (dec_field_member _ _ _ _ _ _ _ Hn Hl); [repeat first [by left | right]|].
    apply (dec_map_members _ _ index_health_json). apply Forall_forall. intros [k ih] Hin.
    apply elem_of_map_to_list in Hin. destruct (Hi k ih Hin) as [Hk Hih]. split; [done|].
    by apply dec_index_health_json. }
  rewrite (insert_all_union _ indices) by done. by rewrite (right_id_L ∅ (∪)).
Qed.

(** The samples of the health of a cluster: 14, and 8 for each index. *)
Definition health_samples `{RangeOrder} `{UnicodeTables} (address : string) (h : clusterHealth) : list (option Sample) :=
  (plain_sample "elasticsearch" [{["cluster_name" := ch_ClusterName h]}; {["address" := address]}] <$>
     map_to_list (health_fields h)) ++
  concat ((λ nh : string * indexHealth, plain_sample "elasticsearch"
      [{["index" := nh.1; "name" := ch_ClusterName h]}; {["address" := address]}] <$>
      map_to_list (index_health_fields nh.2)) <$> map_to_list (ch_Indices h)).


(** ** The interface of the registry *)

Definition grows (st st' : shared) : Prop := ∃ out, appended st st' out.

#[local] Instance grows_preorder : PreOrder grows.
Proof.
  split; [intros st; exists []; apply appended_refl|].
  intros st1 st2 st3 [o1 H1] [o2 H2]. exists (o1 ++ o2). by eapply appended_trans.
Qed.

Lemma go_step_grows g st g' st' : go_step g st = Done (g', st') → grows st st'.
Proof.
  destruct g as [|s k|s i k|s k|e k|msg]; intros [= <- <-]; [..|by exists []; intros q ->; rewrite app_nil_r];
    [exists []|exists [s]|exists []|exists []]; intros q Hq; simpl in *; rewrite ?Hq, ?app_nil_r; try done.
  apply PushFront_of_queue.
Qed.

Lemma run_pool_grows schedule pool st pool' st' :
  run_pool schedule pool st = Done (pool', st') → grows st st'.
Proof.
  revert pool st. induction schedule as [|i schedule IH]; intros pool st; cbn [run_pool]; [by intros [= _ <-]|].
  destruct (pool !! i) as [g|]; [|apply IH]. destruct (go_step g st) as [[g' st1]|] eqn:Hg; [|done].
  intros Hr. transitivity st1; [by eapply go_step_grows|by eapply IH].
Qed.

Lemma finish_grows g st st' : finish g st = Done st' → grows st st'.
Proof.
  revert st. induction g as [|s k IH|s i k IH|s k IH|e k IH|msg]; intros st Hf.
  - by simplify_eq/=.
  - transitivity (mkShared (PushFront (sh_list st) s) (sh_info st) (sh_errors st)); [|by apply IH].
    by eapply (go_step_grows (Pushes s k)).
  - transitivity (mkShared (sh_list st) (<[s := i]> (sh_info st)) (sh_errors st)); [|by apply IH].
    by eapply (go_step_grows (StoresInfo s i k)).
  - by eapply IH.
  - transitivity (mkShared (sh_list st) (sh_info st) (sh_errors st ++ [e])); [|by apply IH].
    by eapply (go_step_grows (Sends e k)).
  - done.
Qed.

Lemma finish_all_grows pool st st' : finish_all pool st = Done st' → grows st st'.
Proof.
  revert st. induction pool as [|g pool IH]; intros st; cbn [finish_all]; [by intros [= <-]|].
  destruct (finish g st) as [st1|] eqn:Hf; [|done]. intros Hr.
  transitivity st1; [by eapply finish_grows|by apply IH].
Qed.

Lemma phase_grows before after orphans new st err left st' :
  phase before after orphans new st = Done (err, left, st') → grows st st'.
Proof.
  unfold phase. destruct (run_pool before _ st) as [[pool1 st1]|] eqn:H1; [|done]. cbn [mbind outcome_bind].
  apply run_pool_grows in H1. destruct (sh_errors st1); [|by intros [= _ _ <-]].
  destruct (run_pool after pool1 st1) as [[pool2 st2]|] eqn:H2; [|done]. cbn [mbind outcome_bind].
  apply run_pool_grows in H2. destruct (finish_all _ st2) as [st3|] eqn:H3; [|done].
  apply finish_all_grows in H3. intros [= _ _ <-]. by repeat (etransitivity; [eassumption|]).
Qed.

#[export] Instance elasticsearch_laws `{RangeOrder} `{UnicodeTables} `{FloatToInt} `{Globs} :
  HandlerLaws Instance es_world.
Proof.
  split; [done..|]. intros ins w q ins' l' e Hg. simpl in Hg. unfold es_Gather in Hg.
  destruct (cluster_phase ins w (of_queue q)) as [[[err left] st]|] eqn:Hp; [|done]. cbn [mbind outcome_bind] in Hg.
  assert (∃ out, sh_list st = of_queue (q ++ out)) as [out Hout].
  { unfold cluster_phase in Hp. destruct (cluster_wanted ins).
    - apply phase_grows in Hp as [out Ha]. exists out. by apply Ha.
    - simplify_eq/=. exists []. by rewrite app_nil_r. }
  destruct err as [err|]; [simplify_eq/=; by exists out|].
  destruct (phase _ _ left _ _) as [[[err2 left2] st2]|] eqn:Hp2; [|done]. cbn [mbind outcome_bind] in Hg.
  simplify_eq/=. apply phase_grows in Hp2 as [out2 Ha]. exists (out ++ out2). rewrite app_assoc. by apply Ha.
Qed.

(** ** Init *)

Lemma compileIndexMatchers_spec glob indices matchers matchers' :
  compileIndexMatchers glob indices matchers = Ok matchers' →
  map_Forall (λ index f, Compile glob [index] = Ok f) matchers →
  map_Forall (λ index f, Compile glob [index] = Ok f) matchers' ∧ matchers ⊆ matchers' ∧
  ∀ index, index ∈ indices → is_Some (matchers' !! index).
Proof.
  revert matchers. induction indices as [|index indices IH]; intros m; cbn [compileIndexMatchers].
  { intros [= <-] Hm. split; [done|]. split; [done|]. set_solver. }
  destruct (m !! index) as [f|] eqn:Hi.
  - intros Hr Hm. destruct (IH m Hr Hm) as (Hm' & Hsub & Hall). split; [done|]. split; [done|].
    intros i [->|Hin]%elem_of_cons; [|by apply Hall]. exists f. by eapply lookup_weaken.
  - destruct (Compile glob [index]) as [f|] eqn:Hc; [|done]. intros Hr Hm.
    destruct (IH (<[index := f]> m) Hr) as (Hm' & Hsub & Hall); [by apply map_Forall_insert_2|].
    split; [done|]. split; [etransitivity; [by apply insert_subseteq|done]|].
    intros i [->|Hin]%elem_of_cons; [|by apply Hall]. exists f.
    eapply lookup_weaken; [apply lookup_insert_eq|done].
Qed.

(** After Init the list of servers, of indices and of node statistics are
    never empty, since an option that is not configured is the list of one empty
    string; so every gather asks each server for the statistics of indices and
    who the master is. When Init has no error there is a client, and every index
    configured has the matcher compiled from it. *)
Theorem es_Init_spec `{FloatToInt} glob ins config :
  let ins' := (es_Init glob ins config).1 in
  Servers ins' ≠ [] ∧ IndicesInclude ins' ≠ [] ∧ NodeStats ins' ≠ [] ∧ cluster_wanted ins' = true ∧
  es_running ins' = es_running ins ∧
  ((es_Init glob ins config).2 = None →
   is_Some (es_client ins') ∧
   ∀ index, index ∈ IndicesInclude ins' →
     ∃ f, Compile glob [index] = Ok f ∧ indexMatchers ins' !! index = Some f).
Proof.
  intros ins'. set (conf := es_configured ins config).
  assert (Hsame : Servers ins' = Servers conf ∧ IndicesInclude ins' = IndicesInclude conf ∧
    NodeStats ins' = NodeStats conf ∧ es_running ins' = es_running ins).
  { unfold ins', es_Init. fold conf. by destruct (compileIndexMatchers _ _ _). }
  destruct Hsame as (Hs & Hi & Hn & Hr). rewrite Hs, Hn.
  assert (Hne : IndicesInclude ins' ≠ []) by (rewrite Hi; apply Split_not_nil).
  split; [apply Split_not_nil|]. split; [done|]. split; [apply Split_not_nil|]. split.
  { unfold cluster_wanted. rewrite bool_decide_eq_false_2 by done. simpl. by rewrite orb_true_r. }
  split; [done|]. rewrite Hi. unfold ins', es_Init. fold conf.
  destruct (compileIndexMatchers glob (IndicesInclude conf) ∅) as [matchers|e] eqn:Hm; [|done].
  intros _. split; [by eexists|]. intros index Hin.
  destruct (compileIndexMatchers_spec _ _ _ _ Hm) as (Hall & _ & Hsome); [done|].
  destruct (Hsome index Hin) as [f Hf]. exists f. split; [|done]. by apply Hall.
Qed.

(** ** Concrete runs *)

(** Servers that answer every request with [body]. *)
Definition demo_Do (body : string) : Doer := λ _, Ok (mkResponse 200 (bytes_of body) None).

Definition demo_es (servers : list string) : Instance :=
  mkElastic false servers 0 false "" true [] "" [] "" "" 0 (Some 0) ∅ ∅ [].

Definition demo_es_world (Do : Doer) (before : list nat * list nat) : es_world :=
  mkEsWorld (λ _, Do) (λ _, Do) (λ i, i) before ([1; 0; 1]%nat, [1; 0; 1]%nat).

Lemma demo_ready servers before : es_ready (demo_es servers) (demo_es_world (demo_Do "{}") before).
Proof.
  split; [by eexists|]. intros i s _ req r na _ [= <-] Hd. vm_compute in Hd. by injection Hd as <-.
Qed.

(** With one server at most one fails. *)
Lemma one_server_may_fail `{RangeOrder} `{UnicodeTables} ins w :
  (length (Servers ins) ≤ 1)%nat →
  one_may_fail (cluster_goroutines ins w) ∧ one_may_fail (server_goroutines ins w).
Proof.
  intros Hl. split; intros i j g h Hg%lookup_lt_Some Hh%lookup_lt_Some _ _;
    unfold cluster_goroutines, server_goroutines in *; rewrite length_imap in Hg, Hh; lia.
Qed.

Definition demo_gather (ins : Instance) (w : es_world) : outcome (Instance * SampleList * option error) :=
  @es_Gather canonical_order ascii_tables ins w NewSampleList.

Lemma es_Gather_waits_witness :
  let ins := demo_es ["http://a:9200"; "http://b:9200"] in
  ∃ ins' slist', demo_gather ins (demo_es_world (demo_Do "{}") ([], [])) = Done (ins', slist', None) ∧
    es_running ins' = [] ∧ length (L slist') = 2%nat.
Proof.
  intros ins.
  destruct (@es_Gather_waits canonical_order ascii_tables ins (demo_es_world (demo_Do "{}") ([], []))
    NewSampleList [] eq_refl (demo_ready _ _) eq_refl) as (ins' & slist' & err & Hg & Hw & He).
  specialize (He eq_refl) as ->. exists ins', slist'. split; [exact Hg|].
  split; [by apply Hw|]. clear Hw. vm_compute in Hg. injection Hg as _ <-. reflexivity.
Defined.


Lemma es_two_failures_witness :
  let ins := demo_es ["http://a:9200"; "http://b:9200"] in
  let down : Doer := λ _, Err (ExternalError "dial") in
  ∃ ins' slist' e, demo_gather ins (demo_es_world down ([0; 0]%nat, [])) = Done (ins', slist', Some e) ∧
    is_panic (demo_gather ins' (demo_es_world (demo_Do "{}") ([1; 1]%nat, []))).
Proof.
  intros ins down.
  destruct (@es_two_failures canonical_order ascii_tables ins (demo_es_world down ([0; 0]%nat, []))
    (demo_es_world (demo_Do "{}") ([1; 1]%nat, [])) NewSampleList "http://a:9200" "http://b:9200" [] [] []
    ltac:(by eexists) eq_refl eq_refl eq_refl ltac:(by intros i req; exists (ExternalError "dial")) eq_refl eq_refl)
    as (ins' & e & Hg & Hp).
  eexists ins', _, e. split; [exact Hg|apply Hp].
Defined.

Lemma es_null_node_crash_witness :
  let ins := demo_es ["http://a:9200"] in
  is_panic (demo_gather ins (demo_es_world (λ _, Ok (mkResponse 200
    (print (RObject [(bytes_of "nodes", RObject [(bytes_of "n", RNull)])])) None)) ([], []))).
Proof.
  intros ins. apply (@es_null_node_crash canonical_order ascii_tables ins _ NewSampleList 0 "http://a:9200");
    [by eexists|reflexivity..|].
  eexists _, _, _, "n". split; [vm_compute; reflexivity|]. split; [reflexivity|]. split; [reflexivity|].
  split; [vm_compute; reflexivity|]. vm_compute. reflexivity.
Defined.

Definition demo_ten : Instance := mkElastic false [] 0 false "" false [] "" [] "" "" 2 None ∅ ∅ [].

Lemma tracked_indices_spec_witness :
  tracked_indices demo_ten ["log-2"; "log-3"; "log-1"] = tracked_indices demo_ten ["log-1"; "log-2"; "log-3"] ∧
  tracked_indices demo_ten ["log-2"; "log-3"; "log-1"] = ["log-3"; "log-2"].
Proof.
  destruct (tracked_indices_spec demo_ten ["log-2"; "log-3"; "log-1"] ["log-1"; "log-2"; "log-3"]) as [H _];
    [by apply (bool_decide_unpack _)|simpl; lia|]. split; [exact H|vm_compute; reflexivity].
Defined.

Definition demo_health : clusterHealth :=
  mk_clusterHealth 1 2 (ParseFloat "100").1 "es" 0 0 3 0 3 0 0 "green" 0 false 0
    {["log-1" := mk_indexHealth 1 2 0 1 1 0 "green" 0]}.


(** ** The types of what is pushed *)

(** Every field is a number, or of a type the caller asked to convert. *)
Definition fields_typed (convertString convertBool : bool) (Fields : gmap string iface) : Prop :=
  map_Forall (λ _ x, allowed convertString convertBool x) Fields.

(** C40: a value of any shape that an answer holds flattens: the error for a
    value of unknown type, which every caller would return, never occurs. The
    fields are numbers, and texts or booleans only where the caller converts
    them; so the fields of the statistics of nodes are all numbers. *)
Theorem flatten_types `{RangeOrder} name v cs cb n st :
  ∃ n' Fields, flatten name v cs cb n st = Done (n', st, [], Ok Fields) ∧
    fields_typed cs cb Fields.
Proof.
  unfold flatten, fields_typed. pose proof (any_json_decoded v n) as Hd. destruct (any_json n v) as [n' j]. simpl in Hd.
  pose proof (FullFlattenJSON_allowed j name cs cb ∅ (map_Forall_empty _)) as Ha.
  rewrite FullFlattenJSON_leaves in Ha |- * by done. by eexists _, _.
Qed.
