(* ===== verification/GoFlag.v ===== *)
(** * Command-line flags

    Go's package flag: a flag set, its definition flag by flag, and the parsing of
    a command line, which stops the process on an error ([flag.ExitOnError]). The
    variables that flags are bound to are the fields of one state; setting a flag
    changes that state or fails. What a command line is, declaratively, is the list
    of its [argument]s: [Parse_arguments] and [Parse_help] say that parsing reads
    exactly those. *)
From S2P Require Import Prelude GoText.

Section flags.
Context {St : Type}.

(** A flag: its name, whether it may stand without a value, and its [Set]. *)
Record Flag := mkFlag {
  flag_Name : string;
  IsBoolFlag : bool;
  flag_Set : string → St → option St
}.

Definition FlagSet := list Flag.
Implicit Types (fs : FlagSet) (s : St).

(** [f.formal[name]]. *)
Fixpoint formal fs (name : string) : option Flag :=
  match fs with
  | [] => None
  | f :: fs' => if decide (flag_Name f = name) then Some f else formal fs' name
  end.

(** [FlagSet.Var]. *)
Definition flag_Var (f : Flag) fs : outcome FlagSet :=
  if HasPrefix (flag_Name f) "-" then Panic "flag begins with -"
  else if Contains (flag_Name f) "=" then Panic "flag contains ="
  else match formal fs (flag_Name f) with
  | Some _ => Panic "flag redefined"
  | None => Done (fs ++ [f])
  end.

(** ** Parsing *)

(** The text up to the first equals sign, and what comes after it. *)
Fixpoint cut_equals (name : string) : string * option string :=
  match name with
  | "" => ("", None)
  | String c name' =>
    if ascii_dec c "=" then ("", Some name')
    else let '(n, v) := cut_equals name' in (String c n, v)
  end%string.

(** What an argument says: not a flag, the end of the flags, bad syntax, or a
    name with the value attached to it. *)
Inductive flag_text := NotFlag | Terminator | BadSyntax | Named (name : string) (value : option string).

Definition named (name : string) : flag_text :=
  match name with
  | "" => BadSyntax
  | String c rest =>
    if ascii_dec c "-" then BadSyntax else if ascii_dec c "=" then BadSyntax
    else let '(n, v) := cut_equals rest in Named (String c n) v
  end%string.

Definition read_flag (a : string) : flag_text :=
  match a with
  | String c0 (String c1 rest) =>
    if ascii_dec c0 "-" then
      if ascii_dec c1 "-" then match rest with "" => Terminator | _ => named rest end
      else named (String c1 rest)
    else NotFlag
  | _ => NotFlag
  end%string.

(** One call of [parseOne]: a flag is seen, the flags are at an end, or the process
    exits. *)
Inductive parsed_one := Seen (args : list string) s | AtEnd (args : list string) | Refused (code : Z).

Definition set_flag (f : Flag) (value : string) (args : list string) s : parsed_one :=
  match flag_Set f value s with
  | Some s' => Seen args s'
  | None => Refused 2
  end.

Definition parseOne fs (args : list string) s : parsed_one :=
  match args with
  | [] => AtEnd []
  | a :: args' =>
    match read_flag a with
    | NotFlag => AtEnd args
    | Terminator => AtEnd args'
    | BadSyntax => Refused 2
    | Named name value =>
      match formal fs name with
      | None => Refused (if decide (name = "help" ∨ name = "h") then 0 else 2)
      | Some f =>
        if IsBoolFlag f then set_flag f (default "true" value) args' s
        else match value, args' with
        | Some v, _ => set_flag f v args' s
        | None, v :: args'' => set_flag f v args'' s
        | None, [] => Refused 2
        end
      end
    end
  end.

(** [FlagSet.Parse]: the flags that were set and the arguments that are left, or the
    code the process exits with. Every flag takes an argument, so that there is
    fuel enough ([Parse_eq]). *)
Inductive parsed := Parsed s (rest : list string) | ExitWith (code : Z).

Fixpoint Parse_loop (fuel : nat) fs (args : list string) s : parsed :=
  match fuel with
  | O => ExitWith 2
  | S fuel =>
    match parseOne fs args s with
    | Seen args s => Parse_loop fuel fs args s
    | AtEnd rest => Parsed s rest
    | Refused code => ExitWith code
    end
  end.

Definition Parse fs (args : list string) s : parsed := Parse_loop (S (length args)) fs args s.

(** ** What a command line is *)

(** A flag with its value attached, with its value as the next argument, or alone;
    after one dash or two. *)
Inductive argument :=
| Attached (two : bool) (name value : string)
| Detached (two : bool) (name value : string)
| Alone (two : bool) (name : string).

Definition arg_name (a : argument) : string :=
  match a with Attached _ n _ | Detached _ n _ | Alone _ n => n end.
Definition arg_value (a : argument) : string :=
  match a with Attached _ _ v | Detached _ _ v => v | Alone _ _ => "true" end.

Definition dashes (two : bool) : string := if two then "--" else "-".

Definition render (a : argument) : list string :=
  match a with
  | Attached two n v => [dashes two +:+ n +:+ "=" +:+ v]
  | Detached two n v => [dashes two +:+ n; v]
  | Alone two n => [dashes two +:+ n]
  end.

(** Only a flag that is a boolean may stand alone, and it never takes the next
    argument. *)
Definition allowed fs (a : argument) : Prop :=
  ∃ f, formal fs (arg_name a) = Some f ∧
    match a with Attached _ _ _ => True | Detached _ _ _ => IsBoolFlag f = false | Alone _ _ => IsBoolFlag f = true end.

Definition effect fs (a : argument) s : option St := f ← formal fs (arg_name a); flag_Set f (arg_value a) s.

Fixpoint effects fs (l : list argument) s : option St :=
  match l with
  | [] => Some s
  | a :: l => s ← effect fs a s; effects fs l s
  end.

(** Where the flags end: at "--", or before an argument that is none. *)
Definition ends (tail rest : list string) : Prop :=
  tail = "--" :: rest ∨ tail = rest ∧ match rest with [] => True | a :: _ => read_flag a = NotFlag end.

(** The names a flag can be found by. *)
Definition good_name (n : string) : Prop :=
  n ≠ "" ∧ HasPrefix n "-" = false ∧ "="%char ∉ bytes_of n.

Definition named_well fs : Prop := Forall (λ f, good_name (flag_Name f)) fs.

(** ** Lemmas *)

Definition attached (v : option string) : string := match v with Some v => "=" +:+ v | None => "" end.

Lemma cut_equals_spec t n v : cut_equals t = (n, v) ↔ "="%char ∉ bytes_of n ∧ t = n +:+ attached v.
Proof.
  revert n v. induction t as [|c t IH]; intros n v; simpl.
  { split; [intros [= <- <-]; split; [apply not_elem_of_nil|done]|].
    intros [_ E]. destruct n; [|done]. by destruct v. }
  destruct (ascii_dec c "=") as [->|Hc].
  - split; [intros [= <- <-]; split; [apply not_elem_of_nil|done]|]. intros [Hn E]. destruct n as [|d n].
    + destruct v as [v|]; [|done]. by injection E as ->.
    + injection E as <- _. simpl in *; set_solver.
  - split.
    + destruct (cut_equals t) as [n' v']. destruct (proj1 (IH n' v') eq_refl) as [Hn' ->]. intros [= <- <-].
      by split; [simpl; set_solver|].
    + intros [Hn E]. destruct n as [|d n]; [destruct v; [by injection E as -> _|done]|].
      injection E as <- E. by rewrite (proj2 (IH n v)) by (simpl in *; set_solver).
Qed.

Lemma named_spec t n v : named t = Named n v ↔ good_name n ∧ t = n +:+ attached v.
Proof.
  unfold named, good_name. destruct t as [|c t].
  { split; [done|]. intros [(Hn & _) E]. by destruct n. }
  destruct (ascii_dec c "-") as [->|Hd].
  { split; [done|]. intros [(Hn & Hp & _) E]. destruct n as [|d n]; [done|]. injection E as <- _. by destruct n. }
  destruct (ascii_dec c "=") as [->|He].
  { split; [done|]. intros [(Hn & _ & Hq) E]. destruct n as [|d n]; [done|]. injection E as <- _. simpl in *; set_solver. }
  destruct (cut_equals t) as [n' v'] eqn:Ht. pose proof Ht as [Hn' ->]%cut_equals_spec. split.
  - intros [= <- <-]. split; [|done]. split_and!; [done| |simpl; set_solver]. cbn [HasPrefix]. by destruct (ascii_dec "-" c) as [<-|].
  - intros [(Hn & Hp & Hq) E]. destruct n as [|d n]; [done|]. injection E as <- E.
    rewrite E in Ht. rewrite (proj2 (cut_equals_spec _ n v)) in Ht by (simpl in *; set_solver). congruence.
Qed.

Lemma read_flag_spec a n v :
  read_flag a = Named n v ↔ good_name n ∧ ∃ two, a = dashes two +:+ n +:+ attached v.
Proof.
  split.
  - destruct a as [|c0 [|c1 rest]]; [done..|]. unfold read_flag.
    destruct (ascii_dec c0 "-") as [->|]; [|done]. destruct (ascii_dec c1 "-") as [->|].
    + destruct rest as [|c rest]; [done|]. intros [Hg ->]%named_spec. split; [done|by exists true].
    + intros [Hg E]%named_spec. split; [done|]. exists false. by rewrite E.
  - intros [Hg [two ->]]. pose proof (proj2 (named_spec _ n v) (conj Hg eq_refl)) as Hn.
    destruct Hg as (Hne & Hp & _). destruct n as [|c n]; [done|]. destruct two; [done|].
    cbn [HasPrefix] in Hp. change (read_flag (String "-" (String c (n +:+ attached v))) = Named (String c n) v).
    unfold read_flag. destruct (ascii_dec "-" "-") as [_|]; [|done].
    destruct (ascii_dec c "-") as [->|]; [|done]. by destruct n.
Qed.

Lemma formal_name fs n f : formal fs n = Some f → flag_Name f = n ∧ f ∈ fs.
Proof. induction fs as [|g fs IH]; [done|]. simpl. case_decide; [|set_solver]. intros [= <-]. set_solver. Qed.

Lemma formal_good fs n f : named_well fs → formal fs n = Some f → good_name n.
Proof. intros Hw [<- Hf]%formal_name. by eapply Forall_forall in Hw. Qed.

Lemma length_render a : 0 < length (render a).
Proof. destruct a; simpl; lia. Qed.

(** Reading a flag is reading an argument back. *)
Lemma parseOne_Seen fs args s args' s' : named_well fs →
  parseOne fs args s = Seen args' s' ↔ ∃ a, allowed fs a ∧ args = render a ++ args' ∧ effect fs a s = Some s'.
Proof.
  intros Hw. unfold effect, allowed, parseOne, set_flag. split.
  - destruct args as [|t args]; [done|]. destruct (read_flag t) as [| | |n v] eqn:Ht; try done.
    apply read_flag_spec in Ht as [Hg [two ->]]. destruct (formal fs n) as [f|] eqn:Hf; [|done].
    destruct (IsBoolFlag f) eqn:Hb.
    + destruct (flag_Set f (default "true" v) s) as [s1|] eqn:Hs; [|done]. intros [= <- <-]. destruct v as [v|].
      * exists (Attached two n v). simpl. rewrite Hf. eauto.
      * exists (Alone two n). simpl. rewrite Hf, append_nil_r. eauto.
    + destruct v as [v|]; [|destruct args as [|v args]; [done|]];
        (destruct (flag_Set f v s) as [s1|] eqn:Hs; [|done]); intros [= <- <-].
      * exists (Attached two n v). simpl. rewrite Hf. eauto.
      * exists (Detached two n v). simpl. rewrite Hf, append_nil_r. eauto.
  - intros (a & (f & Hf & Ha) & -> & He). rewrite Hf in He. simpl in He.
    pose proof (formal_good _ _ _ Hw Hf) as Hg.
    destruct a as [two n v|two n v|two n]; cbn [arg_name arg_value render app] in *.
    + rewrite (proj2 (read_flag_spec _ n (Some v))) by eauto. rewrite Hf. simpl. rewrite He. by destruct (IsBoolFlag f).
    + rewrite (proj2 (read_flag_spec _ n None)) by (split; [done|exists two; by rewrite append_nil_r]).
      by rewrite Hf, Ha, He.
    + rewrite (proj2 (read_flag_spec _ n None)) by (split; [done|exists two; by rewrite append_nil_r]).
      rewrite Hf, Ha. simpl. by rewrite He.
Qed.

Lemma parseOne_AtEnd fs args s rest : parseOne fs args s = AtEnd rest ↔ ends args rest.
Proof.
  unfold ends, parseOne, set_flag. split.
  - destruct args as [|t args]; [intros [= <-]; by right|].
    destruct (read_flag t) eqn:Ht; try done; [intros [= <-]; by right| |repeat case_match; done].
    intros [= <-]. left. f_equal. unfold read_flag in Ht. repeat case_match; try done; subst; try done.
    all: unfold named in Ht; repeat case_match; done.
  - intros [->|[-> Hr]]; [done|]. destruct rest as [|t rest]; [done|]. by rewrite Hr.
Qed.

Lemma parseOne_Refused fs args s code : parseOne fs args s = Refused code → code = 0%Z ∨ code = 2%Z.
Proof. unfold parseOne, set_flag. intros Hp. repeat case_match; simplify_eq; auto. Qed.

Definition help : list string := ["help"; "h"].

Lemma parseOne_help fs args s : parseOne fs args s = Refused 0 ↔
  ∃ two n v more, args = (dashes two +:+ n +:+ attached v) :: more ∧ n ∈ help ∧ formal fs n = None.
Proof.
  unfold parseOne, set_flag. split.
  - intros Hp. destruct args as [|t args]; [done|]. destruct (read_flag t) as [| | |n v] eqn:Ht; try done.
    destruct (formal fs n) as [f|] eqn:Hf; [repeat case_match; done|].
    apply read_flag_spec in Ht as [_ [two ->]]. exists two, n, v, args. split_and!; [done| |done].
    unfold help. case_decide; [set_solver|done].
  - intros (two & n & v & more & -> & Hn & Hf). unfold help in Hn.
    rewrite (proj2 (read_flag_spec _ n v)).
    + rewrite Hf. by rewrite decide_True by set_solver.
    + split; [|by exists two]. unfold good_name.
      apply elem_of_cons in Hn as [->|[->|[]%elem_of_nil]%elem_of_cons]; (split_and!; [done..|]); simpl; set_solver.
Qed.

Lemma parseOne_shrinks fs args s args' s' : parseOne fs args s = Seen args' s' → length args' < length args.
Proof.
  unfold parseOne, set_flag. intros Hp. repeat case_match; simplify_eq; simpl; lia.
Qed.

Lemma Parse_loop_fuel fuel1 fuel2 fs args s :
  length args < fuel1 → length args < fuel2 → Parse_loop fuel1 fs args s = Parse_loop fuel2 fs args s.
Proof.
  revert fuel2 args s. induction fuel1 as [|fuel1 IH]; intros [|fuel2] args s H1 H2; [lia..|]. simpl.
  destruct (parseOne fs args s) as [args' s'| |] eqn:Hp; [|done..].
  apply parseOne_shrinks in Hp. apply IH; lia.
Qed.

Lemma Parse_eq fs args s : Parse fs args s =
  match parseOne fs args s with
  | Seen args' s' => Parse fs args' s'
  | AtEnd rest => Parsed s rest
  | Refused code => ExitWith code
  end.
Proof.
  unfold Parse at 1. simpl. destruct (parseOne fs args s) as [args' s'| |] eqn:Hp; [|done..].
  apply parseOne_shrinks in Hp. apply Parse_loop_fuel; lia.
Qed.

(** The arguments that are flags are read one after another. *)
Lemma Parse_render fs l more s s' : named_well fs → Forall (allowed fs) l → effects fs l s = Some s' →
  Parse fs (concat (render <$> l) ++ more) s = Parse fs more s'.
Proof.
  intros Hw. revert s. induction l as [|a l IH]; intros s Hl He; [by injection He as ->|].
  apply Forall_cons in Hl as [Ha Hl]. simpl in He. destruct (effect fs a s) as [s1|] eqn:H1; [|done].
  rewrite fmap_cons. simpl. rewrite <- app_assoc, Parse_eq.
  rewrite (proj2 (parseOne_Seen fs _ s (concat (render <$> l) ++ more) s1 Hw)) by eauto. by apply IH.
Qed.

Lemma Parse_split fs args s : named_well fs → ∃ l more s',
  args = concat (render <$> l) ++ more ∧ Forall (allowed fs) l ∧ effects fs l s = Some s' ∧
  (∀ args'' s'', parseOne fs more s' ≠ Seen args'' s'').
Proof.
  intros Hw. remember (length args) as n eqn:Hn. revert args s Hn.
  induction (lt_wf n) as [n _ IH]. intros args s ->.
  destruct (parseOne fs args s) as [args' s'| |] eqn:Hp.
  2, 3: exists [], args, s; split_and!; [done..|congruence].
  pose proof Hp as Hlt%parseOne_shrinks. apply parseOne_Seen in Hp as (a & Ha & -> & He); [|done].
  destruct (IH _ Hlt args' s' eq_refl) as (l & more & s'' & -> & Hl & Hs & Hm).
  exists (a :: l), more, s''. rewrite fmap_cons. simpl. rewrite He, app_assoc. by split_and!; [|constructor| |].
Qed.

(** A command line is accepted exactly when it is a list of arguments that can all
    be set, up to where the flags end. *)
Lemma Parse_arguments fs args s s' rest : named_well fs → Parse fs args s = Parsed s' rest ↔
  ∃ l tail, args = concat (render <$> l) ++ tail ∧ ends tail rest ∧ Forall (allowed fs) l ∧ effects fs l s = Some s'.
Proof.
  intros Hw. split.
  - intros Hp. destruct (Parse_split fs args s Hw) as (l & more & s1 & -> & Hl & He & Hm).
    rewrite (Parse_render _ _ _ _ s1), Parse_eq in Hp by done.
    destruct (parseOne fs more s1) as [args' s2|tail|] eqn:H1; [by destruct (Hm args' s2)| |done].
    injection Hp as -> ->. apply parseOne_AtEnd in H1. by exists l, more.
  - intros (l & tail & -> & Hends & Hl & He). rewrite (Parse_render _ _ _ _ s'), Parse_eq by done.
    by rewrite (proj2 (parseOne_AtEnd fs tail s' rest)).
Qed.

(** It ends the process without an error exactly when, after such arguments, help
    is asked for. *)
Lemma Parse_help fs args s : named_well fs → Parse fs args s = ExitWith 0 ↔
  ∃ l two n v more, args = concat (render <$> l) ++ (dashes two +:+ n +:+ attached v) :: more ∧
    n ∈ help ∧ formal fs n = None ∧ Forall (allowed fs) l ∧ is_Some (effects fs l s).
Proof.
  intros Hw. split.
  - intros Hp. destruct (Parse_split fs args s Hw) as (l & more & s1 & -> & Hl & He & Hm).
    rewrite (Parse_render _ _ _ _ s1), Parse_eq in Hp by done.
    destruct (parseOne fs more s1) as [args' s2|tail|] eqn:H1; [by destruct (Hm args' s2)|done|].
    injection Hp as ->. apply parseOne_help in H1 as (two & n & v & more' & -> & ? & ?). exists l, two, n, v, more'. eauto 10.
  - intros (l & two & n & v & more & -> & Hn & Hf & Hl & [s' He]). rewrite (Parse_render _ _ _ _ s'), Parse_eq by done.
    rewrite (proj2 (parseOne_help fs _ s')); [done|]. eauto 10.
Qed.

Lemma Parse_exits fs args s code : named_well fs → Parse fs args s = ExitWith code → code = 0%Z ∨ code = 2%Z.
Proof.
  intros Hw Hp. destruct (Parse_split fs args s Hw) as (l & more & s1 & -> & Hl & He & Hm).
  rewrite (Parse_render _ _ _ _ s1), Parse_eq in Hp by done.
  destruct (parseOne fs more s1) as [args' s2|tail|] eqn:H1; [by destruct (Hm args' s2)|done|].
  injection Hp as ->. by eapply parseOne_Refused.
Qed.

(** ** What arguments leave behind *)

(** The value of the last argument of a name: the one that counts. *)
Fixpoint last_value (n : string) (l : list argument) : option string :=
  match l with
  | [] => None
  | a :: l =>
    match last_value n l with
    | Some v => Some v
    | None => if decide (arg_name a = n) then Some (arg_value a) else None
    end
  end.

(** A field that one flag sets and no other touches. *)
Definition field_of {A} fs (get : St → A) (n : string) (reads : string → A → Prop) : Prop :=
  Forall (λ f, ∀ v s s', flag_Set f v s = Some s' →
    if decide (flag_Name f = n) then reads v (get s') else get s' = get s) fs.

Lemma effects_field {A} fs (get : St → A) n reads l s s' : field_of fs get n reads → effects fs l s = Some s' →
  match last_value n l with Some v => reads v (get s') | None => get s' = get s end.
Proof.
  intros Hf. revert s. induction l as [|a l IH]; intros s He; [by injection He as ->|].
  simpl in He. destruct (effect fs a s) as [s1|] eqn:H1; [|done]. specialize (IH s1 He). simpl.
  destruct (last_value n l); [done|]. rewrite IH.
  unfold effect in H1. destruct (formal fs (arg_name a)) as [f|] eqn:Hn; [|done]. simpl in H1.
  apply formal_name in Hn as [Hn Hin]. unfold field_of in Hf. rewrite Forall_forall in Hf.
  specialize (Hf f Hin _ _ _ H1). rewrite Hn in Hf. by case_decide.
Qed.

(** What a flag does to a state, up to a relation that some flags stay within. *)
Definition respects fs (ignored : list string) (R : relation St) : Prop :=
  Forall (λ f, ∀ v s t s', R s t → flag_Set f v s = Some s' →
    if decide (flag_Name f ∈ ignored) then R s' t else ∃ t', flag_Set f v t = Some t' ∧ R s' t') fs.

Lemma effects_ignored fs ignored R l s t s' : respects fs ignored R → R s t → effects fs l s = Some s' →
  ∃ t', effects fs (filter (λ a, arg_name a ∉ ignored) l) t = Some t' ∧ R s' t'.
Proof.
  intros Hr. revert s t. induction l as [|a l IH]; intros s t HR He; [injection He as <-; by exists t|].
  simpl in He. destruct (effect fs a s) as [s1|] eqn:H1; [|done].
  unfold effect in H1. destruct (formal fs (arg_name a)) as [f|] eqn:Hf; [|done]. simpl in H1.
  pose proof Hf as [Hn Hin]%formal_name. unfold respects in Hr. rewrite Forall_forall in Hr.
  specialize (Hr f Hin _ _ _ _ HR H1). rewrite Hn in Hr. rewrite filter_cons. case_decide as Hig.
  - rewrite decide_False by tauto. by apply (IH s1).
  - rewrite decide_True by done. destruct Hr as (t1 & Ht1 & HR1). simpl.
    unfold effect at 1. rewrite Hf. simpl. rewrite Ht1. by apply (IH s1).
Qed.
End flags.
Arguments Flag : clear implicits.
Arguments FlagSet : clear implicits.
Arguments parsed : clear implicits.
Arguments parsed_one : clear implicits.
