(* ===== verification/Logger.v ===== *)
(** * The logger

    cmd/main.go's SetLevel and what it builds the logger with: the levels of
    go.uber.org/zap and the options and flags of controller-runtime's log/zap, both
    translated from the vendored source. A logger is what it was made of: the
    encoder, the sink and the level of its core, and the options applied to it; a
    nil interface is [None]. Fields of an encoder's configuration that nothing sets
    are left out. *)
From S2P Require Import Prelude GoText GoNum GoFlag.
#[local] Open Scope Z_scope.

(** ** Levels (go.uber.org/zap/zapcore/level.go) *)

Definition DebugLevel : Z := -1.
Definition InfoLevel : Z := 0.
Definition WarnLevel : Z := 1.
Definition ErrorLevel : Z := 2.
Definition DPanicLevel : Z := 3.
Definition PanicLevel : Z := 4.
Definition FatalLevel : Z := 5.

(** [Level(int8(z))]. *)
Definition int8 (z : Z) : Z := (z + 128) mod 256 - 128.

Definition Enabled (l lvl : Z) : bool := l <=? lvl.

Definition Level_String (l : Z) : string :=
  if l =? DebugLevel then "debug" else if l =? InfoLevel then "info" else if l =? WarnLevel then "warn"
  else if l =? ErrorLevel then "error" else if l =? DPanicLevel then "dpanic" else if l =? PanicLevel then "panic"
  else if l =? FatalLevel then "fatal" else "Level(" +:+ Itoa l +:+ ")".

Definition level_unmarshalText (text : string) : option Z :=
  if decide (text ∈ ["debug"; "DEBUG"]) then Some DebugLevel
  else if decide (text ∈ ["info"; "INFO"; ""]) then Some InfoLevel
  else if decide (text ∈ ["warn"; "WARN"]) then Some WarnLevel
  else if decide (text ∈ ["error"; "ERROR"]) then Some ErrorLevel
  else if decide (text ∈ ["dpanic"; "DPANIC"]) then Some DPanicLevel
  else if decide (text ∈ ["panic"; "PANIC"]) then Some PanicLevel
  else if decide (text ∈ ["fatal"; "FATAL"]) then Some FatalLevel
  else None.

Section levels.
Context `{UnicodeTables}.

Definition Level_UnmarshalText (text : string) : result Z :=
  match level_unmarshalText text with
  | Some l => Ok l
  | None =>
    match level_unmarshalText (strings_ToLower text) with
    | Some l => Ok l
    | None => Err (Errorf "unrecognized level")
    end
  end.

(** An [AtomicLevel] is the level it holds. *)
Definition NewAtomicLevel : Z := InfoLevel.
Definition NewAtomicLevelAt (l : Z) : Z := l.

Definition AtomicLevel_UnmarshalText (text : string) (lvl : Z) : option error * Z :=
  match Level_UnmarshalText text with
  | Err err => (Some err, lvl)
  | Ok l => (None, l)
  end.

(** The error is dropped. *)
Definition SetLevel (level : string) : Z :=
  let atomicLevel := NewAtomicLevel in
  let '(_, atomicLevel) := AtomicLevel_UnmarshalText level atomicLevel in
  atomicLevel.
End levels.

(** ** Encoders *)

Inductive time_encoder :=
| EpochTimeEncoder | EpochMillisTimeEncoder | EpochNanosTimeEncoder
| ISO8601TimeEncoder | RFC3339TimeEncoder | RFC3339NanoTimeEncoder.
Inductive caller_encoder := ShortCallerEncoder | FullCallerEncoder.
Inductive level_encoder := LowercaseLevelEncoder | CapitalLevelEncoder.
Inductive duration_encoder := SecondsDurationEncoder | StringDurationEncoder.

Record EncoderConfig := mkEncoderConfig {
  TimeKey : string; LevelKey : string; NameKey : string; CallerKey : string;
  FunctionKey : string; MessageKey : string; StacktraceKey : string; LineEnding : string;
  EncodeLevel : level_encoder; EncodeTime : time_encoder;
  EncodeDuration : duration_encoder; EncodeCaller : caller_encoder
}.

Definition OmitKey : string := "".
Definition DefaultLineEnding : string := of_bytes ["010"%char].

Definition NewProductionEncoderConfig : EncoderConfig :=
  mkEncoderConfig "ts" "level" "logger" "caller" OmitKey "msg" "stacktrace" DefaultLineEnding
    LowercaseLevelEncoder EpochTimeEncoder SecondsDurationEncoder ShortCallerEncoder.

Definition NewDevelopmentEncoderConfig : EncoderConfig :=
  mkEncoderConfig "T" "L" "N" "C" OmitKey "M" "S" DefaultLineEnding
    CapitalLevelEncoder ISO8601TimeEncoder StringDurationEncoder ShortCallerEncoder.

Definition with_EncodeTime (e : time_encoder) (c : EncoderConfig) : EncoderConfig :=
  mkEncoderConfig (TimeKey c) (LevelKey c) (NameKey c) (CallerKey c) (FunctionKey c) (MessageKey c)
    (StacktraceKey c) (LineEnding c) (EncodeLevel c) e (EncodeDuration c) (EncodeCaller c).
Definition with_EncodeCaller (e : caller_encoder) (c : EncoderConfig) : EncoderConfig :=
  mkEncoderConfig (TimeKey c) (LevelKey c) (NameKey c) (CallerKey c) (FunctionKey c) (MessageKey c)
    (StacktraceKey c) (LineEnding c) (EncodeLevel c) (EncodeTime c) (EncodeDuration c) e.

Inductive encoder := NewJSONEncoder (c : EncoderConfig) | NewConsoleEncoder (c : EncoderConfig).

Definition EncoderConfigOption := EncoderConfig → EncoderConfig.
Definition NewEncoderFunc := list EncoderConfigOption → encoder.

Definition newJSONEncoder : NewEncoderFunc := λ opts,
  NewJSONEncoder (foldl (λ c opt, opt c) NewProductionEncoderConfig opts).
Definition newConsoleEncoder : NewEncoderFunc := λ opts,
  NewConsoleEncoder (foldl (λ c opt, opt c) NewDevelopmentEncoderConfig opts).

(** ** Options (controller-runtime, pkg/log/zap/zap.go) *)

Inductive zap_option :=
| AddCaller | AddCallerSkip (skip : Z) | ZapDevelopment | WrapSampler (first thereafter : Z)
| AddStacktrace (l : option Z) | ErrorOutput.

Inductive io_Writer := Stderr.

Record Options := mkOptions {
  Development : bool;
  Encoder : option encoder;
  EncoderConfigOptions : list EncoderConfigOption;
  NewEncoder : option NewEncoderFunc;
  DestWriter : option io_Writer;
  Level : option Z;
  StacktraceLevel : option Z;
  ZapOpts : list zap_option;
  TimeEncoder : option time_encoder
}.

Definition zero_Options : Options := mkOptions false None [] None None None None [] None.

Definition with_Development (b : bool) (o : Options) : Options :=
  mkOptions b (Encoder o) (EncoderConfigOptions o) (NewEncoder o) (DestWriter o) (Level o) (StacktraceLevel o) (ZapOpts o) (TimeEncoder o).
Definition with_Encoder (e : encoder) (o : Options) : Options :=
  mkOptions (Development o) (Some e) (EncoderConfigOptions o) (NewEncoder o) (DestWriter o) (Level o) (StacktraceLevel o) (ZapOpts o) (TimeEncoder o).
Definition with_NewEncoder (e : NewEncoderFunc) (o : Options) : Options :=
  mkOptions (Development o) (Encoder o) (EncoderConfigOptions o) (Some e) (DestWriter o) (Level o) (StacktraceLevel o) (ZapOpts o) (TimeEncoder o).
Definition with_Level (l : Z) (o : Options) : Options :=
  mkOptions (Development o) (Encoder o) (EncoderConfigOptions o) (NewEncoder o) (DestWriter o) (Some l) (StacktraceLevel o) (ZapOpts o) (TimeEncoder o).
Definition with_StacktraceLevel (l : Z) (o : Options) : Options :=
  mkOptions (Development o) (Encoder o) (EncoderConfigOptions o) (NewEncoder o) (DestWriter o) (Level o) (Some l) (ZapOpts o) (TimeEncoder o).
Definition with_TimeEncoder (e : time_encoder) (o : Options) : Options :=
  mkOptions (Development o) (Encoder o) (EncoderConfigOptions o) (NewEncoder o) (DestWriter o) (Level o) (StacktraceLevel o) (ZapOpts o) (Some e).

Definition addDefaults (o : Options) : Options :=
  let dest := default Stderr (DestWriter o) in
  let newEncoder := default (if Development o then newConsoleEncoder else newJSONEncoder) (NewEncoder o) in
  let level := default (NewAtomicLevelAt (if Development o then DebugLevel else InfoLevel)) (Level o) in
  let stack := default (NewAtomicLevelAt (if Development o then WarnLevel else ErrorLevel)) (StacktraceLevel o) in
  let zapOpts := ZapOpts o ++
    (if Development o then [ZapDevelopment] else if Enabled level (-2) then [] else [WrapSampler 100 100]) in
  let time := default RFC3339TimeEncoder (TimeEncoder o) in
  let configOptions := with_EncodeTime time :: EncoderConfigOptions o in
  let enc := default (newEncoder configOptions) (Encoder o) in
  mkOptions (Development o) (Some enc) configOptions (Some newEncoder) (Some dest) (Some level) (Some stack)
    (zapOpts ++ [AddStacktrace (Some stack)]) (Some time).

Record logger := mkLogger {
  log_Encoder : option encoder;
  log_Verbose : bool;
  log_Sink : option io_Writer;
  log_Level : option Z;
  log_Options : list zap_option
}.

Definition NewRaw (opts : list (Options → Options)) : logger :=
  let o := addDefaults (foldl (λ o opt, opt o) zero_Options opts) in
  mkLogger (Encoder o) (Development o) (DestWriter o) (Level o) (ZapOpts o ++ [ErrorOutput]).

Definition UseFlagOptions (in_ : Options) : Options → Options := λ _, in_.
Definition JSONEncoder (opts : list EncoderConfigOption) : Options → Options := with_Encoder (newJSONEncoder opts).

(** ** Flags of the options (flags.go and [Options.BindFlags]) *)

Section bind.
Context `{UnicodeTables}.

Definition levelStrings : list (string * Z) := [("debug", DebugLevel); ("info", InfoLevel); ("error", ErrorLevel)].
Definition stackLevelStrings : list (string * Z) := [("info", InfoLevel); ("error", ErrorLevel); ("panic", PanicLevel)].

Fixpoint level_named (levels : list (string * Z)) (name : string) : option Z :=
  match levels with
  | [] => None
  | (n, l) :: levels => if decide (n = name) then Some l else level_named levels name
  end.

(** The [Set] of each flag; [None] is an error. *)
Definition encoderFlag_Set (flagValue : string) (o : Options) : option Options :=
  let val := strings_ToLower flagValue in
  if decide (val = "json") then Some (with_NewEncoder newJSONEncoder o)
  else if decide (val = "console") then Some (with_NewEncoder newConsoleEncoder o)
  else None.

Definition levelFlag_Set (flagValue : string) (o : Options) : option Options :=
  match level_named levelStrings (strings_ToLower flagValue) with
  | Some level => Some (with_Level (NewAtomicLevelAt level) o)
  | None =>
    match Atoi flagValue with
    | (logLevel, None) =>
      if 0 <? logLevel then Some (with_Level (NewAtomicLevelAt (int8 (-1 * logLevel))) o) else None
    | (_, Some _) => None
    end
  end.

Definition stackTraceFlag_Set (flagValue : string) (o : Options) : option Options :=
  match level_named stackLevelStrings (strings_ToLower flagValue) with
  | Some level => Some (with_StacktraceLevel (NewAtomicLevelAt level) o)
  | None => None
  end.

Definition timeEncodingFlag_Set (flagValue : string) (o : Options) : option Options :=
  let val := strings_ToLower flagValue in
  if decide (val = "rfc3339nano") then Some (with_TimeEncoder RFC3339NanoTimeEncoder o)
  else if decide (val = "rfc3339") then Some (with_TimeEncoder RFC3339TimeEncoder o)
  else if decide (val = "iso8601") then Some (with_TimeEncoder ISO8601TimeEncoder o)
  else if decide (val = "millis") then Some (with_TimeEncoder EpochMillisTimeEncoder o)
  else if decide (val = "nanos") then Some (with_TimeEncoder EpochNanosTimeEncoder o)
  else if decide (val = "epoch") then Some (with_TimeEncoder EpochTimeEncoder o)
  else None.

(** The options are a part of what the command line sets: [get] reads them and [put]
    stores them. *)
Definition BindFlags {St} (get : St → Options) (put : Options → St → St) (fs : FlagSet St) : outcome (FlagSet St) :=
  let bind set v s := o ← set v (get s); Some (put o s) in
  fs ← flag_Var (mkFlag "zap-devel" true (bind (λ v o, b ← ParseBool v; Some (with_Development b o)))) fs;
  fs ← flag_Var (mkFlag "zap-encoder" false (bind encoderFlag_Set)) fs;
  fs ← flag_Var (mkFlag "zap-log-level" false (bind levelFlag_Set)) fs;
  fs ← flag_Var (mkFlag "zap-stacktrace-level" false (bind stackTraceFlag_Set)) fs;
  flag_Var (mkFlag "zap-time-encoding" false (bind timeEncodingFlag_Set)) fs.

(** ** Levels, read and written *)

Definition is_level (l : Z) : Prop := DebugLevel ≤ l ≤ FatalLevel.

Lemma level_unmarshalText_range text l : level_unmarshalText text = Some l → is_level l.
Proof. unfold level_unmarshalText, is_level, DebugLevel, FatalLevel. intros Hl. repeat case_decide; simplify_eq; done. Qed.

Lemma SetLevel_range s : is_level (SetLevel s).
Proof.
  unfold SetLevel, AtomicLevel_UnmarshalText, Level_UnmarshalText.
  destruct (level_unmarshalText s) eqn:H1; [by apply level_unmarshalText_range in H1|].
  destruct (level_unmarshalText (strings_ToLower s)) eqn:H2; [by apply level_unmarshalText_range in H2|done].
Qed.

(** A level's name sets it; what names no level leaves the level of a new logger. *)
Lemma SetLevel_String l : is_level l → SetLevel (Level_String l) = l.
Proof.
  unfold is_level, DebugLevel, FatalLevel. intros Hl.
  assert (l ∈ [-1; 0; 1; 2; 3; 4; 5]) as Hin by (rewrite !elem_of_cons; lia).
  rewrite !elem_of_cons, elem_of_nil in Hin. by destruct_or! Hin; subst.
Qed.

Lemma SetLevel_unknown s :
  level_unmarshalText s = None → level_unmarshalText (strings_ToLower s) = None → SetLevel s = InfoLevel.
Proof. intros H1 H2. unfold SetLevel, AtomicLevel_UnmarshalText, Level_UnmarshalText. by rewrite H1, H2. Qed.

(** What a logger does not take from its options: those that an encoder or a level
    given to [New] hides. *)
Record hidden_by_New (o o' : Options) : Prop := {
  same_Development : Development o = Development o';
  same_StacktraceLevel : StacktraceLevel o = StacktraceLevel o';
  same_DestWriter : DestWriter o = DestWriter o';
  same_ZapOpts : ZapOpts o = ZapOpts o'
}.

Lemma NewRaw_hides o o' opts level : hidden_by_New o o' →
  NewRaw [UseFlagOptions o; JSONEncoder opts; with_Level level] =
  NewRaw [UseFlagOptions o'; JSONEncoder opts; with_Level level].
Proof. intros [H1 H2 H3 H4]. unfold NewRaw, addDefaults, JSONEncoder, UseFlagOptions, with_Encoder, with_Level. simpl. by rewrite H1, H2, H3, H4. Qed.
End bind.
