(* ===== verification/CommandLine.v ===== *)
(** * The command line

    cmd/main.go up to flag.Parse and the logger: the flags of the program, among
    them that of controller-runtime's configuration (which its init registers) and
    those of the log options, the settings they leave, and the logger main makes of
    them. *)
From S2P Require Import Prelude GoText GoNum GoFlag Logger.

(** The variables of [main], the options of the logger, and the variable of
    controller-runtime's package config. *)
Record settings := mkSettings {
  logLevel : string;
  probeAddr : string;
  enableLeaderElection : bool;
  metricsAddr : string;
  maxWriterQueueSize : Z;
  writerBatch : Z;
  opts : Options;
  kubeconfig : string
}.

Definition with_logLevel v s := mkSettings v (probeAddr s) (enableLeaderElection s) (metricsAddr s) (maxWriterQueueSize s) (writerBatch s) (opts s) (kubeconfig s).
Definition with_probeAddr v s := mkSettings (logLevel s) v (enableLeaderElection s) (metricsAddr s) (maxWriterQueueSize s) (writerBatch s) (opts s) (kubeconfig s).
Definition with_enableLeaderElection v s := mkSettings (logLevel s) (probeAddr s) v (metricsAddr s) (maxWriterQueueSize s) (writerBatch s) (opts s) (kubeconfig s).
Definition with_metricsAddr v s := mkSettings (logLevel s) (probeAddr s) (enableLeaderElection s) v (maxWriterQueueSize s) (writerBatch s) (opts s) (kubeconfig s).
Definition with_maxWriterQueueSize v s := mkSettings (logLevel s) (probeAddr s) (enableLeaderElection s) (metricsAddr s) v (writerBatch s) (opts s) (kubeconfig s).
Definition with_writerBatch v s := mkSettings (logLevel s) (probeAddr s) (enableLeaderElection s) (metricsAddr s) (maxWriterQueueSize s) v (opts s) (kubeconfig s).
Definition with_opts v s := mkSettings (logLevel s) (probeAddr s) (enableLeaderElection s) (metricsAddr s) (maxWriterQueueSize s) (writerBatch s) v (kubeconfig s).
Definition with_kubeconfig v s := mkSettings (logLevel s) (probeAddr s) (enableLeaderElection s) (metricsAddr s) (maxWriterQueueSize s) (writerBatch s) (opts s) v.

(** [flag.StringVar], [BoolVar] and [IntVar]; the defaults are in the initial
    settings. *)
Definition StringVar (name : string) (put : string → settings → settings) : Flag settings :=
  mkFlag name false (λ v s, Some (put v s)).
Definition BoolVar (name : string) (put : bool → settings → settings) : Flag settings :=
  mkFlag name true (λ v s, b ← ParseBool v; Some (put b s)).
Definition IntVar (name : string) (put : Z → settings → settings) : Flag settings :=
  mkFlag name false (λ v s, match ParseInt v 0 with (n, None) => Some (put n s) | (_, Some _) => None end).

Definition default_maxWriterQueueSize : Z := 1000000.
Definition default_writerBatch : Z := 1000.

(** The options before flags are parsed. *)
Definition main_opts : Options := mkOptions true None [] None None None None [AddCaller; AddCallerSkip 1] None.

Definition default_settings : settings :=
  mkSettings "info" ":8081" false ":8080" default_maxWriterQueueSize default_writerBatch main_opts "".

Section command_line.
Context `{UnicodeTables}.

(** The init of controller-runtime's config, which leaves a flag that is there. *)
Definition RegisterFlags (fs : FlagSet settings) : outcome (FlagSet settings) :=
  match formal fs "kubeconfig" with
  | Some _ => Done fs
  | None => flag_Var (StringVar "kubeconfig" with_kubeconfig) fs
  end.

Definition main_flags : outcome (FlagSet settings) :=
  fs ← RegisterFlags [];
  fs ← flag_Var (StringVar "metrics-bind-address" with_metricsAddr) fs;
  fs ← flag_Var (StringVar "health-probe-bind-address" with_probeAddr) fs;
  fs ← flag_Var (BoolVar "leader-elect" with_enableLeaderElection) fs;
  fs ← flag_Var (StringVar "log-level" with_logLevel) fs;
  fs ← flag_Var (IntVar "max-writer-queue-size" with_maxWriterQueueSize) fs;
  fs ← flag_Var (IntVar "writer-batch" with_writerBatch) fs;
  BindFlags opts with_opts fs.

(** [flag.Parse] on the arguments after the program's name. *)
Definition main_parse (args : list string) : outcome (parsed settings) :=
  fs ← main_flags; Done (Parse fs args default_settings).

Definition main_logger (s : settings) : logger :=
  NewRaw [UseFlagOptions (opts s);
    JSONEncoder [λ c, with_EncodeTime ISO8601TimeEncoder (with_EncodeCaller ShortCallerEncoder c)];
    with_Level (SetLevel (logLevel s))].

(** ** Lemmas *)

Definition the_flags : FlagSet settings := match main_flags with Done fs => fs | Panic _ => [] end.

Lemma main_flags_done : main_flags = Done the_flags.
Proof. reflexivity. Qed.

Lemma main_parse_eq args : main_parse args = Done (Parse the_flags args default_settings).
Proof. unfold main_parse. by rewrite main_flags_done. Qed.

Lemma the_flags_named_well : named_well the_flags.
Proof.
  unfold named_well, good_name. apply Forall_forall. intros f Hf.
  assert (flag_Name f ∈ flag_Name <$> the_flags) as Hn by by apply list_elem_of_fmap_2.
  revert Hn. generalize (flag_Name f). clear f Hf. apply Forall_forall. cbn.
  repeat constructor; try done; cbn; set_solver.
Qed.

(** Each flag's own field: what the flag that sets it read, and that no other
    flag changes it. *)
Ltac flag_by_flag :=
  unfold field_of; cbn; repeat (apply Forall_cons_2 || apply Forall_nil_2);
  intros v s s' Hs; cbn in *; simplify_option_eq; repeat (case_match; simplify_eq/=); done.

Lemma field_metricsAddr : field_of the_flags metricsAddr "metrics-bind-address" (=).
Proof. flag_by_flag. Qed.
Lemma field_probeAddr : field_of the_flags probeAddr "health-probe-bind-address" (=).
Proof. flag_by_flag. Qed.
Lemma field_logLevel : field_of the_flags logLevel "log-level" (=).
Proof. flag_by_flag. Qed.
Lemma field_kubeconfig : field_of the_flags kubeconfig "kubeconfig" (=).
Proof. flag_by_flag. Qed.
Lemma field_enableLeaderElection :
  field_of the_flags enableLeaderElection "leader-elect" (λ v b, ParseBool v = Some b).
Proof. flag_by_flag. Qed.
Lemma field_maxWriterQueueSize :
  field_of the_flags maxWriterQueueSize "max-writer-queue-size" (λ v n, ParseInt v 0 = (n, None)).
Proof. flag_by_flag. Qed.
Lemma field_writerBatch : field_of the_flags writerBatch "writer-batch" (λ v n, ParseInt v 0 = (n, None)).
Proof. flag_by_flag. Qed.

Lemma main_parse_arguments args s rest : main_parse args = Done (Parsed s rest) ↔
  ∃ l tail, args = concat (render <$> l) ++ tail ∧ ends tail rest ∧ Forall (allowed the_flags) l ∧
    effects the_flags l default_settings = Some s.
Proof.
  rewrite main_parse_eq, <- Parse_arguments by apply the_flags_named_well. split; [by intros [= ->]|by intros ->].
Qed.

(** ** What a command line says *)


(** A setting: what the last argument of its name says, or the default. *)
Definition says {A} (l : list argument) (name : string) (read : string → A → Prop) (dflt x : A) : Prop :=
  match last_value name l with Some v => read v x | None => x = dflt end.

(** The settings that a command line leaves: of each flag the last argument counts, and
    a flag that is not given keeps its default. *)
Theorem settings_read args s rest : main_parse args = Done (Parsed s rest) →
  ∃ l tail, args = concat (render <$> l) ++ tail ∧ ends tail rest ∧ Forall (allowed the_flags) l ∧
    says l "metrics-bind-address" (=) ":8080" (metricsAddr s) ∧
    says l "health-probe-bind-address" (=) ":8081" (probeAddr s) ∧
    says l "leader-elect" (λ v b, ParseBool v = Some b) false (enableLeaderElection s) ∧
    says l "log-level" (=) "info" (logLevel s) ∧
    says l "kubeconfig" (=) "" (kubeconfig s) ∧
    says l "max-writer-queue-size" (λ v n, ParseInt v 0 = (n, None)) 1000000%Z (maxWriterQueueSize s) ∧
    says l "writer-batch" (λ v n, ParseInt v 0 = (n, None)) 1000%Z (writerBatch s).
Proof.
  intros (l & tail & Hargs & Hends & Hl & He)%main_parse_arguments. exists l, tail. unfold says.
  split_and!; [done..| | | | | | |];
    eapply effects_field in He; (exact He || eauto using field_metricsAddr, field_probeAddr, field_logLevel, field_kubeconfig,
      field_enableLeaderElection, field_maxWriterQueueSize, field_writerBatch).
Qed.

(** ** The logger *)

(** The flags that main's own options hide. *)
Definition hidden_flags : list string := ["zap-encoder"; "zap-log-level"; "zap-time-encoding"].

(** The same settings, but for what those flags set. *)
Record same_settings (s t : settings) : Prop := {
  same_logLevel : logLevel s = logLevel t;
  same_probeAddr : probeAddr s = probeAddr t;
  same_leader : enableLeaderElection s = enableLeaderElection t;
  same_metricsAddr : metricsAddr s = metricsAddr t;
  same_size : maxWriterQueueSize s = maxWriterQueueSize t;
  same_batch : writerBatch s = writerBatch t;
  same_kubeconfig : kubeconfig s = kubeconfig t;
  same_opts : hidden_by_New (opts s) (opts t)
}.

Lemma same_settings_refl s : same_settings s s.
Proof. done. Qed.

Lemma same_settings_logger s t : same_settings s t → main_logger t = main_logger s.
Proof. intros [H1 _ _ _ _ _ _ H2]. unfold main_logger. rewrite <- H1. symmetry. by apply NewRaw_hides. Qed.

Ltac decide_name :=
  match goal with |- context [decide (?n ∈ hidden_flags)] =>
    let b := eval vm_compute in (bool_decide (n ∈ hidden_flags)) in
    lazymatch b with
    | true => rewrite (decide_True (P:=n ∈ hidden_flags)) by (by eapply bool_decide_eq_true_1)
    | false => rewrite (decide_False (P:=n ∈ hidden_flags)) by (by eapply bool_decide_eq_false_1)
    end
  end.

Lemma flags_respect : respects the_flags hidden_flags same_settings.
Proof.
  unfold respects. cbn -[hidden_flags]. repeat (apply Forall_cons_2 || apply Forall_nil_2);
    intros v s t s' [???????[]] Hs; cbn in Hs; cbn [flag_Name StringVar BoolVar IntVar]; decide_name; cbn;
    unfold encoderFlag_Set, levelFlag_Set, stackTraceFlag_Set, timeEncodingFlag_Set in *;
    simplify_option_eq; repeat (case_match; simplify_eq/=); try (eexists; split; [reflexivity|]); by split.
Qed.

(** The level of the logger is that of the flag log-level, info when its text is no level,
    and it writes JSON with ISO 8601 times: the flags zap-encoder, zap-log-level and
    zap-time-encoding may be taken off a command line that is accepted, and neither the logger
    nor any other setting changes. *)
Theorem log_flags_ignored args s rest : main_parse args = Done (Parsed s rest) →
  log_Level (main_logger s) = Some (SetLevel (logLevel s)) ∧
  log_Encoder (main_logger s) = Some (NewJSONEncoder (with_EncodeTime ISO8601TimeEncoder NewProductionEncoderConfig)) ∧
  ∃ l tail s', args = concat (render <$> l) ++ tail ∧
    main_parse (concat (render <$> filter (λ a, arg_name a ∉ hidden_flags) l) ++ tail) = Done (Parsed s' rest) ∧
    main_logger s' = main_logger s ∧ same_settings s s'.
Proof.
  intros (l & tail & -> & Hends & Hl & He)%main_parse_arguments. split_and!; [done..|].
  destruct (effects_ignored the_flags hidden_flags same_settings l default_settings default_settings s) as (s' & He' & Hs);
    [apply flags_respect|done..|].
  exists l, tail, s'. split_and!; [done| |by apply same_settings_logger|done].
  apply main_parse_arguments. exists (filter (λ a, arg_name a ∉ hidden_flags) l), tail. split_and!; [done..| |done].
  rewrite Forall_forall in Hl |- *. intros a [_ Ha]%list_elem_of_filter. by apply Hl.
Qed.
End command_line.

(** ** A command line, for the witnesses *)

Module line_demo.
#[local] Existing Instance ascii_tables.

Definition line : list string :=
  ["--log-level=debug"; "-zap-log-level"; "error"; "--writer-batch"; "0x10"; "-leader-elect"; "--zap-devel=false"; "x"; "-h"].

Definition set : settings :=
  match main_parse line with Done (Parsed s _) => s | _ => default_settings end.

Example line_accepted : main_parse line = Done (Parsed set ["x"; "-h"]) ∧ writerBatch set = 16%Z.
Proof. split; reflexivity. Qed.

Example line_help : main_parse ["-leader-elect"; "--help"; "-none"] = Done (ExitWith 0).
Proof. reflexivity. Qed.

(** A boolean does not take the next argument; here that ends the flags. *)
Example line_boolean : ∃ s, main_parse ["-leader-elect"; "false"; "-none"] = Done (Parsed s ["false"; "-none"]) ∧
  enableLeaderElection s = true.
Proof. eexists. split; reflexivity. Qed.

Example line_refused : main_parse ["--writer-batch=1e3"] = Done (ExitWith 2).
Proof. reflexivity. Qed.

Lemma log_flags_ignored_witness : log_Level (main_logger set) = Some DebugLevel ∧ ∃ l tail s',
  line = concat (render <$> l) ++ tail ∧
  main_parse (concat (render <$> filter (λ a, arg_name a ∉ hidden_flags) l) ++ tail) = Done (Parsed s' ["x"; "-h"]) ∧
  main_logger s' = main_logger set ∧ same_settings set s'.
Proof. destruct (log_flags_ignored line set ["x"; "-h"] eq_refl) as (Hl & _ & Hs). by split. Defined.
End line_demo.
