(* ===== verification/Runtime.v ===== *)
(** * Signals and the program's context

    runtime/signal.go and runtime/context.go. The package's init registers one
    handler for the shutdown signals and makes the context the program runs
    under. Two goroutines are left running: the one that takes the signals off
    their channel, and the one that passes the end of the handler's context on
    to [SystemContext]. [runtime_steps] runs them with the signals that come. *)
From S2P Require Import Prelude GoText.

(** The signals the program asks for; the system never hands it SIGKILL. *)
Inductive signal := SIGINT | SIGTERM | SIGKILL.

#[export] Instance signal_eq_dec : EqDecision signal.
Proof. solve_decision. Defined.

Definition shutdownSignals : list signal := [SIGINT; SIGTERM; SIGKILL].

(** Where the goroutine of [SetupSignalContext] is. *)
Inductive catcher := WaitFirst | WaitSecond.

(** A context is whether it is done. *)
Record runtime := mkRuntime {
  onlyOneSignalHandler : bool;
  shutdownHandler : list signal;
  rt_catcher : option catcher;
  handlerContext : bool;
  SystemContext : option bool;
  exited : option Z
}.

Definition runtime_zero : runtime := mkRuntime false [] None false None None.

(** [make(chan os.Signal, 2)]. *)
Definition shutdownHandler_cap : nat := 2.

Definition SetupSignalContext (rt : runtime) : outcome runtime :=
  if onlyOneSignalHandler rt then Panic "close of closed channel"
  else Done (mkRuntime true [] (Some WaitFirst) false (SystemContext rt) (exited rt)).

Definition SetupSignalHandler (rt : runtime) : outcome runtime := SetupSignalContext rt.

(** [contextForChannel] on the channel of the handler's context. *)
Definition SetupContext (rt : runtime) : runtime :=
  match SystemContext rt with
  | Some _ => rt
  | None =>
    mkRuntime (onlyOneSignalHandler rt) (shutdownHandler rt) (rt_catcher rt) (handlerContext rt)
      (Some false) (exited rt)
  end.

(** The package's init. *)
Definition runtime_init (rt : runtime) : outcome runtime :=
  rt ← SetupSignalHandler rt;
  Done (SetupContext rt).

(** What may happen next: a signal comes, or a goroutine goes on. *)
Inductive runtime_event := Signal (s : signal) | Caught | Forwarded.

(** A signal that finds the channel full is dropped. *)
Definition deliver (rt : runtime) (s : signal) : runtime :=
  if decide (s = SIGKILL) then
    mkRuntime (onlyOneSignalHandler rt) (shutdownHandler rt) (rt_catcher rt) (handlerContext rt)
      (SystemContext rt) (Some 137%Z)
  else if decide (s ∈ shutdownSignals ∧ length (shutdownHandler rt) < shutdownHandler_cap) then
    mkRuntime (onlyOneSignalHandler rt) (shutdownHandler rt ++ [s]) (rt_catcher rt) (handlerContext rt)
      (SystemContext rt) (exited rt)
  else rt.

(** The goroutine takes a signal: it cancels the first time, and exits the
    second. *)
Definition catch (rt : runtime) : option runtime :=
  match shutdownHandler rt, rt_catcher rt with
  | _ :: buf, Some WaitFirst =>
    Some (mkRuntime (onlyOneSignalHandler rt) buf (Some WaitSecond) true (SystemContext rt) (exited rt))
  | _ :: buf, Some WaitSecond =>
    Some (mkRuntime (onlyOneSignalHandler rt) buf None (handlerContext rt) (SystemContext rt) (Some 1%Z))
  | _, _ => None
  end.

(** The goroutine of [contextForChannel]. *)
Definition forward_done (rt : runtime) : option runtime :=
  match handlerContext rt, SystemContext rt with
  | true, Some false =>
    Some (mkRuntime (onlyOneSignalHandler rt) (shutdownHandler rt) (rt_catcher rt) (handlerContext rt)
            (Some true) (exited rt))
  | _, _ => None
  end.

(** An event that cannot happen now, or after the end, is none. *)
Definition runtime_step (rt : runtime) (e : runtime_event) : option runtime :=
  match exited rt with
  | Some _ => None
  | None =>
    match e with
    | Signal s => Some (deliver rt s)
    | Caught => catch rt
    | Forwarded => forward_done rt
    end
  end.

Fixpoint runtime_steps (rt : runtime) (es : list runtime_event) : option runtime :=
  match es with
  | [] => Some rt
  | e :: es' => rt' ← runtime_step rt e; runtime_steps rt' es'
  end.

(** ** What signals do *)

(** The signals that came and can be caught. *)
#[export] Instance runtime_event_eq_dec : EqDecision runtime_event.
Proof. solve_decision. Defined.

Definition signals (es : list runtime_event) : nat :=
  length (filter (λ e, e = Signal SIGINT ∨ e = Signal SIGTERM) es).

Definition caught (rt : runtime) : nat :=
  match rt_catcher rt with Some WaitFirst => 0 | Some WaitSecond => 1 | None => 2 end.

(** After [n] signals. *)
Record runtime_inv (n : nat) (rt : runtime) : Prop := {
  rt_closed : onlyOneSignalHandler rt = true;
  rt_taken : caught rt + length (shutdownHandler rt) ≤ n;
  rt_pending : n `min` 2 ≤ caught rt + length (shutdownHandler rt);
  rt_handler : handlerContext rt = true ↔ 0 < caught rt;
  rt_system : ∃ done, SystemContext rt = Some done ∧ (done = true → 0 < caught rt);
  rt_exit : exited rt = Some 1%Z → caught rt = 2;
  rt_gone : exited rt = None → caught rt < 2
}.

Lemma runtime_init_inv : ∃ rt, runtime_init runtime_zero = Done rt ∧ runtime_inv 0 rt ∧ exited rt = None.
Proof.
  eexists. split; [reflexivity|]. split; [|done].
  split; simpl; unfold caught; simpl; try done; try lia. by exists false.
Qed.

Definition count (n : nat) (e : runtime_event) : nat :=
  if decide (e = Signal SIGINT ∨ e = Signal SIGTERM) then S n else n.

Lemma runtime_step_inv n rt e rt' :
  runtime_inv n rt → runtime_step rt e = Some rt' → runtime_inv (count n e) rt'.
Proof.
  intros [Hc Ht Hp Hh (d & Hs & Hd) He Hg]. unfold runtime_step, count.
  destruct (exited rt) as [|] eqn:Hx; [done|]. specialize (Hg eq_refl). destruct e as [s| |].
  - intros [= <-]. unfold deliver. destruct (decide (s = SIGKILL)) as [->|Hk].
    + rewrite decide_False by naive_solver. split; simpl; try done; by exists d.
    + rewrite decide_True by (destruct s; naive_solver).
      assert (Hin : s ∈ shutdownSignals) by (destruct s; set_solver). unfold shutdownHandler_cap.
      destruct (decide (s ∈ shutdownSignals ∧ length (shutdownHandler rt) < 2)) as [[_ Hl]|Hl].
      * split; simpl; rewrite ?length_app; cbn [length]; unfold caught in *; simpl; try done; try lia; [by exists d|].
        by rewrite Hx.
      * assert (2 ≤ length (shutdownHandler rt)).
        { destruct (decide (length (shutdownHandler rt) < 2)); [|lia]. by destruct Hl. }
        split; try done; try lia; [by exists d|by rewrite Hx].
  - rewrite decide_False by naive_solver. unfold catch.
    destruct (shutdownHandler rt) as [|x buf] eqn:Hb; [done|]. unfold caught in *.
    destruct (rt_catcher rt) as [[]|]; simpl in *; intros Hr; simplify_eq;
      (split; unfold caught; simpl; rewrite ?Hx; try done; try lia; try (exists d; split; [done|lia]);
       rewrite Hh; lia).
  - rewrite decide_False by naive_solver. unfold forward_done.
    destruct (handlerContext rt) eqn:Hhc; [|done]. rewrite Hs. destruct d; [done|]. intros [= <-].
    split; unfold caught in *; simpl; rewrite ?Hx; try done. exists true. split; [done|]. intros _. by apply Hh.
Qed.

Lemma signals_cons e es n : n + signals (e :: es) = count n e + signals es.
Proof. unfold signals, count. rewrite filter_cons. case_decide; simpl; lia. Qed.

Lemma runtime_steps_inv n rt es rt' :
  runtime_inv n rt → runtime_steps rt es = Some rt' → runtime_inv (n + signals es) rt'.
Proof.
  revert n rt. induction es as [|e es IH]; intros n rt Hi; cbn [runtime_steps].
  - intros [= <-]. by rewrite Nat.add_0_r.
  - destruct (runtime_step rt e) as [rt1|] eqn:He; [|done]. intros Hr.
    rewrite signals_cons. eapply IH; [|exact Hr]. by eapply runtime_step_inv.
Qed.

(** What signals do to the program. Without one its context is never done;
    the program exits by itself only after two. Once one has come, and unless
    the process is gone, the goroutines left alone end the context without
    exiting if it was the only one, and exit with code 1 if there were more,
    even when some were dropped. The handler can be set up only once. *)
Theorem signals_spec es rt :
  (rt0 ← match runtime_init runtime_zero with Done r => Some r | Panic _ => None end; runtime_steps rt0 es) = Some rt →
  (signals es = 0 → SystemContext rt = Some false) ∧
  (exited rt = Some 1%Z → 2 ≤ signals es) ∧
  is_panic (SetupSignalContext rt) ∧ SetupContext rt = rt ∧
  (exited rt = None → 1 ≤ signals es → ∃ es' rt', signals es' = 0 ∧ runtime_steps rt es' = Some rt' ∧
     if decide (signals es = 1) then SystemContext rt' = Some true ∧ exited rt' = None
     else exited rt' = Some 1%Z).
Proof.
  destruct runtime_init_inv as (rt0 & -> & Hi0 & _). cbn [mbind option_bind]. intros Hr.
  destruct (runtime_steps_inv 0 rt0 es rt Hi0 Hr) as [Hc Ht Hp Hh (d & Hs & Hd) He Hg]. simpl in *.
  split. { intros Hz. rewrite Hs. destruct d; [|done]. specialize (Hd eq_refl). lia. }
  split. { intros Hx. specialize (He Hx). lia. }
  split. { unfold SetupSignalContext. rewrite Hc. by eexists. }
  split. { unfold SetupContext. by rewrite Hs. }
  intros Hx Hn. specialize (Hg Hx). destruct rt as [oo buf k h sc ex]. simpl in *. subst oo sc ex.
  unfold caught in *. simpl in *. destruct k as [[]|]; simpl in *; [| |lia].
  - destruct h; [assert (0 < 0) by (by apply Hh); lia|]. destruct d; [specialize (Hd eq_refl); lia|].
    destruct buf as [|b1 buf]; simpl in *; [lia|]. case_decide.
    + exists [Caught; Forwarded]. by eexists.
    + destruct buf as [|b2 buf]; simpl in *; [lia|]. exists [Caught; Caught]. by eexists.
  - destruct h; [|assert (false = true) by (apply Hh; lia); done]. case_decide.
    + destruct d; [exists []|exists [Forwarded]]; by eexists.
    + destruct buf as [|b1 buf]; simpl in *; [lia|]. exists [Caught]. by eexists.
Qed.

Lemma signals_spec_witness :
  let es := [Signal SIGTERM; Caught; Signal SIGINT; Signal SIGINT; Signal SIGINT; Forwarded] in
  let rt := mkRuntime true [SIGINT; SIGINT] (Some WaitSecond) true (Some true) None in
  (rt0 ← match runtime_init runtime_zero with Done r => Some r | Panic _ => None end; runtime_steps rt0 es) = Some rt ∧
  ∃ es' rt', signals es' = 0 ∧ runtime_steps rt es' = Some rt' ∧ exited rt' = Some 1%Z.
Proof.
  intros es rt. assert (Hr : (rt0 ← match runtime_init runtime_zero with Done r => Some r | Panic _ => None end;
    runtime_steps rt0 es) = Some rt) by (vm_compute; reflexivity).
  split; [exact Hr|]. destruct (signals_spec es rt Hr) as (_ & _ & _ & _ & Hex).
  apply (Hex eq_refl). apply (bool_decide_unpack _). vm_compute. exact I.
Defined.
