(* ===== verification/Program.v ===== *)
(** * The program

    cmd/main.go: the five handlers behind the one registry, what [main] sets up
    from its command line ([CommandLine]),
    and the run of the whole program: reconciles of both resources, ticks of the
    monitors' loops, ticks of the metrics loop, steps of the writers' goroutines
    and signals, until the manager returns and the loops are stopped. *)
From S2P Require Import Clickhouse ClickhouseProps Elastic ElasticProps Mysql MysqlProps Redis RedisProps Postgres PostgresProps.
From S2P Require Import GoFlag CommandLine.
From S2P Require Import KubeApi.
From S2P Require Scheme Manager.
From S2P Require Import Prelude GoText GoNum GoTime SafeLists Conv Labels Samples Process Filter Input Worker Writer Controller Metrics Runtime.

(** ** The handlers *)

Inductive handler :=
| HClickhouse (ins : Clickhouse.Instance)
| HElasticsearch (ins : Elastic.Instance)
| HMysql (ins : Mysql.Instance)
| HPostgresql (ins : Postgres.Instance)
| HRedis (ins : Redis.Instance).

(** What a gather of each of them reads from outside. *)
Record world := mkWorld {
  w_clickhouse : Clickhouse.ch_world;
  w_elasticsearch : Elastic.es_world;
  w_mysql : Mysql.mysql_world;
  w_postgresql : Postgres.pg_world;
  w_redis : Redis.redis_world
}.

(** [&Instance{}] of each package. *)
Definition zero_clickhouse : Clickhouse.Instance := Clickhouse.mkClickhouse "" "" [] false [] [] 0 [] None.
Definition zero_elasticsearch : Elastic.Instance :=
  Elastic.mkElastic false [] 0 false "" false [] "" [] "" "" 0 None ∅ ∅ [].
Definition zero_mysql : Mysql.Instance :=
  Mysql.mkInstance "" "" "" "" 0 false false false false false false false false false false false false false ∅ "".
Definition zero_postgresql : Postgres.Instance := Postgres.mkPgInstance "" 0 false "" [] [] false [] 0 0 "".
Definition zero_redis : Redis.Instance := Redis.mkRedisInstance "" "" "" "" 0 [] None.

Section program.
Context `{RangeOrder} `{UnicodeTables} `{LocalZone} `{Mysql.MysqlDriver} `{FloatToInt} `{Postgres.PgxDriver}
  `{Clickhouse.Gjson} `{Elastic.Globs} `{HttpApi}.

Definition lift {I} (c : I → handler) (o : outcome (I * SampleList * option error)) :
    outcome (handler * SampleList * option error) :=
  '(ins, slist, err) ← o; Done (c ins, slist, err).

#[export] Instance program_handlers : HandlerFactory handler world := {|
  Name h :=
    match h with
    | HClickhouse ins => Name ins | HElasticsearch ins => Name ins | HMysql ins => Name ins
    | HPostgresql ins => Name ins | HRedis ins => Name ins
    end;
  Init h config :=
    match h with
    | HClickhouse ins => let '(ins, err) := Init ins config in (HClickhouse ins, err)
    | HElasticsearch ins => let '(ins, err) := Init ins config in (HElasticsearch ins, err)
    | HMysql ins => let '(ins, err) := Init ins config in (HMysql ins, err)
    | HPostgresql ins => let '(ins, err) := Init ins config in (HPostgresql ins, err)
    | HRedis ins => let '(ins, err) := Init ins config in (HRedis ins, err)
    end;
  handler_Gather h w slist :=
    match h with
    | HClickhouse ins => lift HClickhouse (handler_Gather ins (w_clickhouse w) slist)
    | HElasticsearch ins => lift HElasticsearch (handler_Gather ins (w_elasticsearch w) slist)
    | HMysql ins => lift HMysql (handler_Gather ins (w_mysql w) slist)
    | HPostgresql ins => lift HPostgresql (handler_Gather ins (w_postgresql w) slist)
    | HRedis ins => lift HRedis (handler_Gather ins (w_redis w) slist)
    end
|}.

Lemma lift_name {I W} `{HandlerLaws I W} (c : I → handler) (ins : I) w slist h' l' e :
  lift c (handler_Gather ins w slist) = Done (h', l', e) →
  ∃ ins', h' = c ins' ∧ Name ins' = Name ins.
Proof.
  unfold lift. destruct (handler_Gather ins w slist) as [[[ins' l1] e1]|] eqn:Hg; [|done].
  intros [= <- <- <-]. exists ins'. split; [done|]. by eapply Name_Gather.
Qed.

Lemma lift_appends {I W} `{HandlerLaws I W} (c : I → handler) (ins : I) w q h' l' e :
  lift c (handler_Gather ins w (of_queue q)) = Done (h', l', e) → ∃ q', l' = of_queue (q ++ q').
Proof.
  unfold lift. destruct (handler_Gather ins w (of_queue q)) as [[[ins' l1] e1]|] eqn:Hg; [|done].
  intros [= _ <- _]. by eapply Gather_appends.
Qed.

#[export] Instance program_laws : HandlerLaws handler world.
Proof.
  split.
  - intros [ins|ins|ins|ins|ins] c; unfold Init, Name; cbn [program_handlers];
      pose proof (Name_Init ins c) as Hn; by destruct (Init ins c).
  - intros [ins|ins|ins|ins|ins] w l h' l' e Hg; by apply lift_name in Hg as (ins' & -> & Hn).
  - intros [ins|ins|ins|ins|ins] w q h' l' e Hg; by apply lift_appends in Hg.
Qed.

(** ** The registry *)

(** Packages are initialised in the order of their paths. *)
Definition registered : list handler :=
  [HClickhouse zero_clickhouse; HElasticsearch zero_elasticsearch; HMysql zero_mysql;
   HPostgresql zero_postgresql; HRedis zero_redis].

Definition Factory : SharedHandlerFactory handler := foldl RegisterHandler NewHandlerFactory registered.

(** The models a monitor can have. *)
Definition supported : gset string := {["clickhouse"; "elasticsearch"; "mysql"; "postgresql"; "redis"]}.

(** ** main *)

(** What main starts from: the scheme its init made, and the error of making the
    manager, which is an error also when the configuration cannot be read. *)
Record setup := mkSetup {
  main_scheme : Scheme.Scheme;
  NewManager_err : Manager.ManagerOptions → option error
}.

(** The two reconcilers, which are pointers. *)
Inductive reconciler := PushReconciler | MonitorReconciler.

(** Where [main] is: in the manager's [Start], at [StopAll], or gone. *)
Inductive phase := Managing | StoppingTasks | Exited (code : Z).

Record program := mkProgram {
  p_rec : monitorReconciler (workers monitorTask) Writers handler;
  p_metrics : SampleList;
  p_runtime : runtime;
  p_phase : phase;
  p_manager : Manager.manager (R:=reconciler)
}.

(** [ctrl.Options]. *)
Definition main_options (st : setup) (s : settings) : Manager.ManagerOptions :=
  Manager.mkManagerOptions (main_scheme st) (metricsAddr s) (probeAddr s) (enableLeaderElection s)
    "eb138a99.kubemonitor.io" Manager.default_config.

(** [main] from its settings up to the manager's start, or the code it exits with. *)
Definition main (st : setup) (s : settings) (rt : runtime) : Z + program :=
  match Manager.manager_New (NewManager_err st) (main_options st s) with
  | Err _ => inl 1%Z
  | Ok mgr =>
    let writersMgr := NewWriter (maxWriterQueueSize s) (writerBatch s) in
    let wker := NewWorker in
    let '(err, mgr) := Manager.push_SetupWithManager PushReconciler mgr in
    match err with
    | Some _ => inl 1%Z
    | None =>
      let '(err, mgr) := Manager.monitor_SetupWithManager MonitorReconciler mgr in
      match err with
      | Some _ => inl 1%Z
      | None =>
        let '(err, mgr) := Manager.AddHealthzCheck "healthz" Manager.Ping mgr in
        match err with
        | Some _ => inl 1%Z
        | None =>
          let '(err, mgr) := Manager.AddReadyzCheck "readyz" Manager.Ping mgr in
          match err with
          | Some _ => inl 1%Z
          | None => inr (mkProgram (NewMonitorReconciler writersMgr wker Factory) NewSampleList rt Managing mgr)
          end
        end
      end
    end
  end.

(** [main] from the command line: flag.Parse may end the process. *)
Definition main_args (args : list string) (st : setup) (rt : runtime) : outcome (Z + program) :=
  line ← main_parse args;
  match line with
  | ExitWith code => Done (inl code)
  | Parsed s _ => Done (main st s rt)
  end.

(** The process: the init functions, package runtime's and then main's, and [main]. What
    client-go registers in a scheme is an argument. *)
Definition process (clientgo : Scheme.scheme_func) (outside : Manager.ManagerOptions → option error) (args : list string) :
    outcome (Z + program) :=
  rt ← runtime_init runtime_zero;
  sch ← Scheme.main_init clientgo;
  main_args args (mkSetup sch outside) rt.

Implicit Types (p : program).

Definition with_rec p (r : monitorReconciler (workers monitorTask) Writers handler) : program :=
  mkProgram r (p_metrics p) (p_runtime p) (p_phase p) (p_manager p).

Definition with_phase p (ph : phase) : program := mkProgram (p_rec p) (p_metrics p) (p_runtime p) ph (p_manager p).

Definition running p : Prop := ∀ code, p_phase p ≠ Exited code.

(** The manager reconciles until its [Start] returns, which it does without an
    error when the context is done; the loops go on until they are stopped. *)
Inductive prog_step : program → program → Prop :=
| prog_monitor p name got e r' :
    p_phase p = Managing → (∀ m, got = inr m → monitor_Name m = name) →
    monitor_Reconcile (p_rec p) name got = Done (e, r') → prog_step p (with_rec p r')
| prog_push p name got e s' :
    p_phase p = Managing → push_Reconcile (rec_wm (p_rec p)) name got = (e, s') →
    prog_step p (with_rec p (set_wm (p_rec p) s'))
| prog_tick p n now w pf e r' :
    running p → pf ∈ worker_live (rec_worker (p_rec p)) →
    monitor_collect n now w (task_monitor pf.2) (p_rec p) = Done (e, r') → prog_step p (with_rec p r')
| prog_metrics p n now s' l' :
    running p → metrics_tick n now (rec_wm (p_rec p)) (p_metrics p) = Done (s', l') →
    prog_step p (mkProgram (set_wm (p_rec p) s') l' (p_runtime p) (p_phase p) (p_manager p))
| prog_writers p c c' :
    running p → c_ws c = rec_wm (p_rec p) → runs_to c c' →
    prog_step p (with_rec p (set_wm (p_rec p) (c_ws c')))
| prog_runtime p ev rt' :
    running p → runtime_step (p_runtime p) ev = Some rt' →
    prog_step p (mkProgram (p_rec p) (p_metrics p) rt'
      match exited rt' with Some code => Exited code | None => p_phase p end (p_manager p))
| prog_manager_returns p :
    p_phase p = Managing → SystemContext (p_runtime p) = Some true → prog_step p (with_phase p StoppingTasks)
| prog_manager_fails p :
    p_phase p = Managing → prog_step p (with_phase p (Exited 1%Z))
| prog_StopAll p n w' :
    p_phase p = StoppingTasks → StopAll n (rec_worker (p_rec p)) = Done w' →
    prog_step p (mkProgram (set_worker (p_rec p) w') (p_metrics p) (p_runtime p) (Exited 0%Z) (p_manager p)).

(** ** Lemmas *)

Lemma represents_registers m a l :
  represents m a →
  represents (foldl RegisterHandler m l) (foldl (λ a h, <[Name h := (h, [])]> a) a l).
Proof. revert m a. induction l as [|h l IH]; intros m a Ha; [done|]. by apply IH, represents_register. Qed.

Lemma Factory_represents : ∃ a, represents Factory a ∧ dom a = supported.
Proof.
  eexists. split; [apply represents_registers, represents_new|]. cbn [foldl registered].
  rewrite !dom_insert_L, dom_empty_L. unfold supported. cbn [program_handlers Name mysql_handler redis_handler
    postgres_handler clickhouse_handler elasticsearch_handler].
  unfold Mysql.inputName, Redis.redis_inputName, Postgres.pg_inputName, Clickhouse.ch_inputName, Elastic.es_inputName.
  set_solver.
Qed.

Definition task_model (pf : Z * monitorTask) : string :=
  model_Name (spec_Model (monitor_Spec (task_monitor pf.2))).

(** What every step keeps, with the loops that run and the registry. *)
Record rec_inv (r : monitorReconciler (workers monitorTask) Writers handler) : Prop := {
  rec_ctrl : ctrl_inv r;
  rec_registry : ∃ a, represents (rec_factory r) a ∧ dom a = supported;
  rec_models pf : pf ∈ live r → task_model pf ∈ supported
}.

Lemma rec_inv_start s : rec_inv (mkReconciler NewWorker s Factory).
Proof.
  destruct Factory_represents as (a & Ha & Hd). pose proof (ctrl_inv_init s Factory a Ha) as Hi.
  split; [done|by exists a|]. intros pf Hpf. apply (live_name _ _ Hi) in Hpf. cbn [rec_worker] in Hpf.
  by rewrite (proj2 view_new), lookup_empty in Hpf.
Qed.

Lemma rec_inv_monitor r name got e r' :
  rec_inv r → (∀ m, got = inr m → monitor_Name m = name) → monitor_Reconcile r name got = Done (e, r') → rec_inv r'.
Proof.
  intros [Hi (a & Ha & Hd) Hm] Hn Hr.
  assert (Hi' : ctrl_inv r') by (eapply ctrl_inv_step; [exact Hi|exact (step_monitor_Reconcile r name got e r' Hn Hr)]).
  destruct got as [err|m].
  - destruct (IsNotFound err) eqn:He.
    2: { simpl in Hr. rewrite He in Hr. simplify_eq. split; [done|by exists a|done]. }
    destruct err; try done. destruct (Reconcile_deleted r name Hi) as (r1 & Hr1 & _ & Hf & _ & Hv).
    assert (r' = r1) as -> by congruence. split; [done|exists a; by rewrite Hf|].
    intros pf Hpf. apply (live_delete r r1 name pf Hi Hi' Hv) in Hpf as [Hpf _]. by apply Hm.
  - specialize (Hn m eq_refl) as <-. destruct (worker_view (rec_worker r) !! monitor_Name m) as [l|] eqn:Hv.
    + rewrite Reconcile_running in Hr by eauto. simplify_eq. split; [done|by exists a|done].
    + pose proof (Reconcile_new r a m Hi Ha Hv) as Hnew. unfold registry_init in Hnew.
      destruct (a !! model_Name (spec_Model (monitor_Spec m))) as [[h q]|] eqn:Hh.
      * destruct (Init h _) as [h' err]. destruct Hnew as (r1 & Hr1 & _ & Ha' & _ & Hv').
        assert (r' = r1) as -> by congruence.
        assert (Hsup : model_Name (spec_Model (monitor_Spec m)) ∈ supported) by (rewrite <- Hd; by eapply elem_of_dom_2).
        split; [done|eexists; split; [exact Ha'|]; rewrite dom_insert_L, Hd; set_solver|].
        intros pf Hpf. destruct err as [err|].
        -- apply (live_same r r1 pf Hv' Hi Hi') in Hpf. by apply Hm.
        -- apply (live_insert r r1 m pf Hi Hi' Hv Hv') in Hpf as [->|Hpf]; [done|by apply Hm].
      * destruct Hnew as (r1 & Hr1 & _ & Ha' & _ & Hv'). assert (r' = r1) as -> by congruence.
        split; [done|by exists a|]. intros pf Hpf. apply (live_same r r1 pf Hv' Hi Hi') in Hpf. by apply Hm.
Qed.

Lemma rec_inv_wm r s : rec_inv r → rec_inv (set_wm r s).
Proof. intros [[Hw Hl Hf] Hr Hm]. by split. Qed.

Lemma rec_inv_tick r n now w pf e r' :
  rec_inv r → pf ∈ live r → monitor_collect n now w (task_monitor pf.2) r = Done (e, r') → rec_inv r'.
Proof.
  intros [Hi (a & Ha & Hd) Hm] Hpf Hc. pose proof (collect_inv _ _ _ _ _ _ _ Hi Hc) as Hi'.
  assert (is_Some (a !! task_model pf)) as [[h q] Hh] by (apply elem_of_dom; rewrite Hd; by apply Hm).
  pose proof (collect_spec n now w (task_monitor pf.2) r a h q Ha Hh) as Hs. cbn zeta in Hs.
  destruct (handler_Gather h w (of_queue q)) as [[[h' l'] err]|s]; [|congruence].
  destruct Hs as (r1 & Hc1 & Hwk & Hs). rewrite Hc in Hc1. injection Hc1 as <- <-.
  assert (Hsup : task_model pf ∈ supported) by by apply Hm.
  split; [done| |intros pf' Hpf'; apply Hm; unfold live in *; by rewrite <- Hwk].
  destruct e; destruct Hs as [_ Hs]; (eexists; split; [exact Hs|]; rewrite dom_insert_L, Hd; unfold task_model in Hsup; set_solver).
Qed.

Lemma rec_inv_stop r n : rec_inv r →
  ∃ w', StopAll n (rec_worker r) = Done w' ∧ rec_inv (set_worker r w') ∧ live (set_worker r w') = [].
Proof.
  intros [[Hw Hl Hf] Hr Hm]. destruct (view_stop_all n (rec_worker r) Hw) as (w' & Hs & Hok & Hv).
  exists w'. split; [exact Hs|].
  assert (Hnone : ∀ pf, pf ∉ live (set_worker r w')).
  { intros pf Hpf. apply (live_view _ _ Hok) in Hpf as (name & l & Hn & _).
    cbn [set_worker rec_worker] in Hn. by rewrite Hv, lookup_empty in Hn. }
  split; [split; [split|..]; try done|].
  - intros name l. cbn [set_worker rec_worker]. by rewrite Hv, lookup_empty.
  - intros pf Hpf. by destruct (Hnone pf).
  - destruct (live (set_worker r w')) as [|pf l] eqn:Hlive; [done|]. destruct (Hnone pf). left.
Qed.

Lemma runtime_steps_snoc rt es e rt1 rt2 :
  runtime_steps rt es = Some rt1 → runtime_step rt1 e = Some rt2 → runtime_steps rt (es ++ [e]) = Some rt2.
Proof.
  revert rt. induction es as [|e' es IH]; intros rt; cbn [runtime_steps app].
  - intros [= ->] He. by rewrite He.
  - destruct (runtime_step rt e') as [rt'|]; [|done]. cbn [mbind option_bind]. apply IH.
Qed.

(** What every state of the program has. *)
Record prog_inv (rt0 : runtime) p : Prop := {
  prog_rec : rec_inv (p_rec p);
  prog_list : p_metrics p = NewSampleList;
  prog_events : ∃ es, runtime_steps rt0 es = Some (p_runtime p);
  prog_alive : running p → exited (p_runtime p) = None;
  prog_done : p_phase p = StoppingTasks ∨ p_phase p = Exited 0%Z → SystemContext (p_runtime p) = Some true;
  prog_stopped : p_phase p = Exited 0%Z → live (p_rec p) = []
}.

Lemma runtime_step_code rt ev rt' code : runtime_step rt ev = Some rt' → exited rt' = Some code → code ≠ 0%Z.
Proof.
  unfold runtime_step. destruct (exited rt) eqn:Hx; [done|]. destruct ev as [s| |].
  - intros [= <-]. unfold deliver. repeat case_decide; simpl; rewrite ?Hx; by intros; simplify_eq.
  - unfold catch. destruct (shutdownHandler rt), (rt_catcher rt) as [[]|]; intros; simplify_eq/=; congruence.
  - unfold forward_done. destruct (handlerContext rt), (SystemContext rt) as [[]|]; intros; simplify_eq/=; congruence.
Qed.

Lemma runtime_step_done rt ev rt' :
  SystemContext rt = Some true → runtime_step rt ev = Some rt' → SystemContext rt' = Some true.
Proof.
  intros Hs. unfold runtime_step. destruct (exited rt); [done|]. destruct ev as [s| |].
  - intros [= <-]. unfold deliver. by repeat case_decide.
  - unfold catch. by destruct (shutdownHandler rt), (rt_catcher rt) as [[]|]; intros; simplify_eq/=.
  - unfold forward_done. rewrite Hs. by destruct (handlerContext rt).
Qed.

Lemma prog_inv_with_rec rt0 p r : running p → rec_inv r → prog_inv rt0 p → prog_inv rt0 (with_rec p r).
Proof. intros Hrun Hr [_ Hl He Ha Hd _]. split; try done. intros Hx. by destruct (Hrun 0%Z). Qed.

Lemma managing_running p : p_phase p = Managing → running p.
Proof. intros Hp code. by rewrite Hp. Qed.

Lemma prog_inv_step rt0 p p' : prog_inv rt0 p → prog_step p p' → prog_inv rt0 p'.
Proof.
  intros Hi Hs. pose proof Hi as [Hr Hl (es & He) Ha Hd Hx]. destruct Hs as
    [p name got e r' Hp Hn Hc|p name got e s' Hp Hc|p n now w pf e r' Hrun Hpf Hc|p n now s' l' Hrun Hc
    |p c c' Hrun Hc Hc'|p ev rt' Hrun Hc|p Hp Hc|p Hp|p n w' Hp Hc].
  - apply prog_inv_with_rec; [by apply managing_running| |done]. by eapply rec_inv_monitor.
  - apply prog_inv_with_rec; [by apply managing_running| |done]. by apply rec_inv_wm.
  - apply prog_inv_with_rec; [done| |done]. by eapply rec_inv_tick.
  - rewrite Hl, metrics_tick_queue in Hc. destruct (wm_WriteSamples _ _ _) as [s1|]; [|done].
    cbn [mbind outcome_bind] in Hc. simplify_eq.
    split; simpl; try done; [by apply rec_inv_wm|by exists es].
  - apply prog_inv_with_rec; [done| |done]. by apply rec_inv_wm.
  - split; simpl; [done|done|..].
    + exists (es ++ [ev]). by eapply runtime_steps_snoc.
    + intros Hrun'. destruct (exited rt') as [code|] eqn:Hcode; [|done]. by destruct (Hrun' code).
    + intros Hph. destruct (exited rt') as [code|] eqn:Hcode.
      * destruct Hph as [|[= ->]]; [done|]. by destruct (runtime_step_code _ _ _ _ Hc Hcode).
      * eapply runtime_step_done; [by apply Hd|done].
    + intros Hph. destruct (exited rt') as [code|] eqn:Hcode; [|by apply Hx].
      simplify_eq. by destruct (runtime_step_code _ _ _ _ Hc Hcode).
  - split; simpl; try done; [by exists es|]. intros _. apply Ha. by apply managing_running.
  - split; simpl; try done; [by exists es|intros Hrun; by destruct (Hrun 1%Z)|by intros [|]].
  - destruct (rec_inv_stop (p_rec p) n Hr) as (w1 & Hs1 & Hr1 & Hl1). assert (w' = w1) as -> by congruence.
    split; simpl; try done; [by exists es|intros Hrun; by destruct (Hrun 0%Z)|]. intros _. apply Hd. by left.
Qed.

Lemma prog_inv_steps rt0 p p' : rtc prog_step p p' → prog_inv rt0 p → prog_inv rt0 p'.
Proof. induction 1; eauto using prog_inv_step. Qed.

Lemma prog_inv_main st s rt0 p : exited rt0 = None → main st s rt0 = inr p → prog_inv rt0 p.
Proof.
  intros Hx. unfold main. repeat case_match; try done. intros [= <-].
  split; simpl; try done; [apply rec_inv_start|by exists []|by intros [|]].
Qed.
End program.

(** ** Properties *)

Section properties.
Context `{RangeOrder} `{UnicodeTables} `{LocalZone} `{MysqlDriver} `{FloatToInt} `{PgxDriver} `{Gjson} `{Globs}
  `{HttpApi}.

(** The program has come to [p]. *)
Definition reaches (st : setup) (s : settings) (p : program) : Prop :=
  ∃ rt0 p0, runtime_init runtime_zero = Done rt0 ∧ main st s rt0 = inr p0 ∧ rtc prog_step p0 p.

Lemma reaches_inv st s p : reaches st s p →
  ∃ rt0, runtime_init runtime_zero = Done rt0 ∧ runtime_inv 0 rt0 ∧ prog_inv rt0 p.
Proof.
  intros (rt0 & p0 & Hrt & Hm & Hs). exists rt0. split; [done|].
  destruct runtime_init_inv as (rt1 & Hrt1 & Hi & Hx). assert (rt1 = rt0) as -> by congruence.
  split; [done|]. eapply prog_inv_steps; [exact Hs|]. by eapply prog_inv_main.
Qed.

(** ** What main sets up *)

(** The scheme knows the operator's types, each by its own kind. *)
Definition knows_api (sch : Scheme.Scheme) : Prop := ∀ name, name ∈ Scheme.api_names →
  Scheme.ObjectKinds sch (Scheme.ptr Scheme.api_v1 name) = Ok ([WithKind api_GroupVersion name], false).

(** The manager that main starts: a controller for each resource, with one worker and
    the source of its own type, both for the elected manager, and the two probes. *)
Definition controller_named (r : reconciler) (name kind : string) : Manager.Controller :=
  Manager.mkController r name 1 120000000000 None None [Scheme.ptr Scheme.api_v1 kind].

Definition ready_manager (o : Manager.ManagerOptions) : Manager.manager :=
  Manager.mkManager o false
    [controller_named PushReconciler "prometheuspush" "PrometheusPush"; controller_named MonitorReconciler "monitor" "Monitor"]
    (Manager.mkGroup false false [0; 1] []) (Manager.mkGroup false false [] [])
    (Some {["healthz" := Manager.Ping]}) (Some {["readyz" := Manager.Ping]}).

Lemma main_eq st s rt : knows_api (main_scheme st) →
  main st s rt =
    match NewManager_err st (main_options st s) with
    | Some _ => inl 1%Z
    | None => inr (mkProgram (NewMonitorReconciler (NewWriter (maxWriterQueueSize s) (writerBatch s)) NewWorker Factory)
        NewSampleList rt Managing (ready_manager (main_options st s)))
    end.
Proof.
  intros Hk. unfold main, Manager.manager_New. destruct (NewManager_err st _); [done|].
  pose proof (Hk "PrometheusPush" ltac:(unfold Scheme.api_names; set_solver)) as Hp. pose proof (Hk "Monitor" ltac:(unfold Scheme.api_names; set_solver)) as Hm.
  unfold Manager.push_SetupWithManager.
  erewrite (Manager.Complete_spec PushReconciler Scheme.api_v1 "PrometheusPush" _
    (Manager.mkManager (main_options st s) false [] Manager.new_group Manager.new_group None None) Hp) by done.
  cbn iota. unfold Manager.monitor_SetupWithManager.
  erewrite (Manager.Complete_spec MonitorReconciler Scheme.api_v1 "Monitor" _ (Manager.with_controller
    (Manager.mkManager (main_options st s) false [] Manager.new_group Manager.new_group None None) _) Hm) by done.
  reflexivity.
Qed.

Lemma main_parse_code args code : main_parse args = Done (ExitWith code) → code = 0%Z ∨ code = 2%Z.
Proof. rewrite main_parse_eq. intros [= Hr]. eapply GoFlag.Parse_exits; [apply the_flags_named_well|exact Hr]. Qed.

(** A negative batch size is accepted, and crashes the process with the first series
    that is queued. *)
Theorem negative_batch_from_args args s rest st rt :
  main_parse args = Done (Parsed s rest) → (writerBatch s < 0)%Z → knows_api (main_scheme st) →
  NewManager_err st (main_options st s) = None →
  ∃ p, main_args args st rt = Done (inr p) ∧
    ∀ c, rtc runs_to (mkWConf (rec_wm (p_rec p)) [] None [] [] []) c → Limited_Len (queue (c_ws c)) ≠ 0%Z →
      ∃ msg, writers_step c (Panic msg).
Proof.
  intros Hp Hb Hk Hn. unfold main_args. rewrite Hp. cbn [mbind outcome_bind]. rewrite main_eq, Hn by done.
  eexists. split; [reflexivity|]. intros c Hs Hlen. by apply (negative_batch_crashes (maxWriterQueueSize s) (writerBatch s)).
Qed.

(** C4: The process, from its init functions on, whatever client-go registers that
    leaves this API alone: it does not panic before the manager starts. It exits with
    0 or 2 when the command line says so, and otherwise with 1 exactly when making the
    manager fails; if it does not, the program starts with the settings of the command
    line, and its manager has the controller of each resource, which watches the type of
    that resource, and the two probes. *)
Theorem process_spec clientgo outside args s0 :
  clientgo Scheme.NewScheme = Done (None, s0) → Scheme.consistent s0 →
  Scheme.fits (Scheme.api_kinds Scheme.api_v1) Scheme.meta_names s0 →
  (∀ name, Scheme.typeToGVK s0 !! Scheme.mkStruct Scheme.api_v1 name = None) →
  ∃ st r, Scheme.main_init clientgo = Done (main_scheme st) ∧ NewManager_err st = outside ∧ knows_api (main_scheme st) ∧
    process clientgo outside args = Done r ∧
    match main_parse args with
    | Panic _ => False
    | Done (ExitWith code) => r = inl code ∧ (code = 0 ∨ code = 2)%Z
    | Done (Parsed s _) =>
      match outside (main_options st s) with
      | Some _ => r = inl 1%Z
      | None => ∃ p, r = inr p ∧ reaches st s p ∧ p_phase p = Managing ∧ p_manager p = ready_manager (main_options st s) ∧
          live (p_rec p) = [] ∧ rec_wm (p_rec p) = NewWriter (maxWriterQueueSize s) (writerBatch s)
      end
    end.
Proof.
  intros Hc Hs0 Hf Hfresh. destruct (Scheme.main_scheme clientgo s0 Hc Hs0 Hf Hfresh) as (sch & Hi & _ & _ & Hk).
  exists (mkSetup sch outside). assert (knows_api sch) as Hapi by (intros name Hn; by apply Hk). clear Hk.
  destruct runtime_init_inv as (rt & Hrt & _). unfold process. rewrite Hrt, Hi. cbn [mbind outcome_bind].
  unfold main_args. pose proof (main_parse_code args) as Hcode. pose proof (main_parse_eq args) as Hp.
  destruct (main_parse args) as [[s rest|code]|]; [| |done]; cbn [mbind outcome_bind].
  - eexists. split_and!; [done..|reflexivity|]. pose proof (main_eq (mkSetup sch outside) s rt Hapi) as Hm.
    cbn [NewManager_err] in Hm. destruct (outside _); [done|]. eexists. split; [exact Hm|]. split_and!; try done.
    eexists rt, _. split_and!; [done|exact Hm|done].
  - exists (inl code). split_and!; try done. by apply Hcode.
Qed.

(** C3: the program as [main] composes it. In every state it can come to, a
    reconcile of any monitor, a tick of the metrics loop and the final StopAll
    end without a panic. A loop that runs is for one of the five models, and a
    tick of it finds the handler of that model and its list: the tick panics
    only when the handler's gather does, returns what the gather returns, and
    after a gather without error has handed every sample of the model's list,
    processed with the monitor's labels, to the writers. *)
Theorem program_safe st s p :
  reaches st s p →
  (∀ name got, (∀ m, got = inr m → monitor_Name m = name) → is_done (monitor_Reconcile (p_rec p) name got)) ∧
  (∀ n now, is_done (metrics_tick n now (rec_wm (p_rec p)) (p_metrics p))) ∧
  (∀ n, is_done (StopAll n (rec_worker (p_rec p)))) ∧
  (∀ pf, pf ∈ live (p_rec p) → task_model pf ∈ supported ∧ ∃ h q, Name h = task_model pf ∧
     ∀ n now w, match handler_Gather h w (of_queue q) with
     | Panic msg => monitor_collect n now w (task_monitor pf.2) (p_rec p) = Panic msg
     | Done (h', l', err) => ∃ r', monitor_collect n now w (task_monitor pf.2) (p_rec p) = Done (err, r') ∧
       (err = None → wm_WriteSamples n (rec_wm (p_rec p))
         (Some ∘ processed now (spec_Labels (monitor_Spec (task_monitor pf.2))) <$> omap id (queue_of l')) =
         Done (rec_wm r'))
     end).
Proof.
  intros (rt0 & _ & _ & [[Hi (a & Ha & Hd) Hm] Hl _ _ _ _])%reaches_inv. split_and!.
  - intros name [err|m] Hn.
    + simpl. destruct (IsNotFound err) eqn:He; [|by eexists]. destruct err; try done.
      destruct (Reconcile_deleted (p_rec p) name Hi) as (r' & Hr & _). eexists. exact Hr.
    + specialize (Hn m eq_refl) as <-.
      destruct (worker_view (rec_worker (p_rec p)) !! monitor_Name m) as [l|] eqn:Hv.
      * eexists. apply Reconcile_running; [done|]. by exists l.
      * pose proof (Reconcile_new (p_rec p) a m Hi Ha Hv) as Hnew. destruct (registry_init a _ _) as [err a'].
        destruct Hnew as (r' & Hr & _). by eexists.
  - intros n now. rewrite Hl, metrics_tick_queue.
    destruct (wm_WriteSamples_done n (rec_wm (p_rec p)) (metric_sample now <$>
      snapshot_metrics (wm_QueueMetrics (rec_wm (p_rec p))))) as (s' & -> & _); [|by eexists].
    by intros (x & Hs & _)%list_elem_of_fmap.
  - intros n. destruct (view_stop_all n (rec_worker (p_rec p)) (ctrl_worker _ Hi)) as (w' & Hw & _). by exists w'.
  - intros pf Hpf. specialize (Hm pf Hpf). split; [done|].
    assert (is_Some (a !! task_model pf)) as [[h q] Hh] by (apply elem_of_dom; by rewrite Hd).
    exists h, q. destruct (represents_Some _ _ _ _ _ Ha Hh) as (_ & _ & _ & _ & Hname & _). split; [done|].
    intros n now w. pose proof (collect_spec n now w (task_monitor pf.2) (p_rec p) a h q Ha Hh) as Hs.
    cbn zeta in Hs. destruct (handler_Gather h w (of_queue q)) as [[[h' l'] err]|msg]; [|done].
    destruct Hs as (r' & Hc & _ & Hs). exists r'. split; [done|]. intros ->. by destruct Hs.
Qed.

(** C15: the end of the program. It ends with code 0 only after a shutdown signal
    and with no loop left running; and from any state in the manager whose
    context is done it can end so, whatever loops are running. *)
Theorem program_exit st s p :
  reaches st s p →
  (p_phase p = Exited 0%Z → live (p_rec p) = [] ∧
     ∃ rt0 es, runtime_init runtime_zero = Done rt0 ∧ runtime_steps rt0 es = Some (p_runtime p) ∧ 1 ≤ signals es) ∧
  (p_phase p = Managing → SystemContext (p_runtime p) = Some true →
     ∃ p', rtc prog_step p p' ∧ p_phase p' = Exited 0%Z ∧ live (p_rec p') = []).
Proof.
  intros (rt0 & Hrt & Hi0 & [Hr _ (es & He) _ Hd Hx])%reaches_inv. split.
  - intros Hp. split; [by apply Hx|]. exists rt0, es. split; [done|]. split; [done|].
    destruct (runtime_steps_inv 0 rt0 es _ Hi0 He) as [_ Ht _ _ (d & Hs & Hdone) _ _].
    rewrite Hd in Hs by (by right). injection Hs as <-. specialize (Hdone eq_refl). lia.
  - intros Hp Hc. destruct (rec_inv_stop (p_rec p) 0 Hr) as (w' & Hs & _ & Hl).
    exists (mkProgram (set_worker (p_rec p) w') (p_metrics p) (p_runtime p) (Exited 0%Z) (p_manager p)).
    split; [|by split].
    eapply rtc_l; [by apply prog_manager_returns|]. apply rtc_once. by apply (prog_StopAll (with_phase p StoppingTasks) 0 w').
Qed.
End properties.

#[local] Existing Instances demo_order demo_api.
#[local] Existing Instances ascii_tables utc_zone amd64_float_to_int.

#[local] Instance demo_mysql_driver : MysqlDriver :=
  {| Config := string; ParseDSN s := Ok s; FormatDSN s := s; cfg_Timeout _ := 0%Z; set_Timeout c _ := c |}.
#[local] Instance demo_pgx_driver : PgxDriver :=
  {| ConnConfig := string; ParseConfig s := Ok s; cc_Host s := s; set_Host _ h := h;
     set_PreferSimpleProtocol c := c; RegisterConnConfig _ c := c |}.
#[local] Instance demo_gjson : Gjson := λ _ _, "".
#[local] Instance demo_globs : Globs := λ _, Err (ExternalError "glob").

(** What main's init makes of a scheme that knows pods, and a manager that can be made. *)
Definition demo_setup : setup :=
  mkSetup (match Scheme.main_init Scheme.scheme_demo.core_AddToScheme with Done s => s | Panic _ => Scheme.NewScheme end)
    (λ _, None).

Definition demo_rt : runtime := mkRuntime true [] (Some WaitFirst) false (Some false) None.

Definition demo_program : program :=
  mkProgram (mkReconciler NewWorker (NewWriter default_maxWriterQueueSize default_writerBatch) Factory)
    NewSampleList demo_rt Managing (ready_manager (main_options demo_setup default_settings)).

Lemma demo_knows : knows_api (main_scheme demo_setup).
Proof.
  intros name Hn. unfold Scheme.api_names in Hn. rewrite !elem_of_cons, elem_of_nil in Hn.
  destruct Hn as [-> |[-> |[-> |[-> |[]]]]]; vm_compute; reflexivity.
Qed.

Lemma demo_main : main demo_setup default_settings demo_rt = inr demo_program.
Proof. rewrite main_eq by apply demo_knows. reflexivity. Qed.

Definition redis_monitor : Monitor :=
  mkMonitor "ns" "cache" (mkMonitorSpec (mkModel "redis" {["address" := "h"; "port" := "6379"; "pool_size" := "4"]}) 15 None)
    (mkMonitorStatus time_zero).

(** After the monitor was reconciled, and after a signal has come too. *)
Definition demo_reconciled : program :=
  match monitor_Reconcile (p_rec demo_program) "cache" (inr redis_monitor) with
  | Done (_, r) => with_rec demo_program r
  | Panic _ => demo_program
  end.

Definition demo_at (rt : runtime) : program :=
  mkProgram (p_rec demo_reconciled) (p_metrics demo_reconciled) rt Managing (p_manager demo_reconciled).

Definition demo_signalled : program := demo_at (mkRuntime true [] (Some WaitSecond) true (Some true) None).

Lemma demo_reaches : reaches demo_setup default_settings demo_reconciled.
Proof.
  exists demo_rt, demo_program. split; [reflexivity|]. split; [apply demo_main|]. apply rtc_once.
  eapply (prog_monitor demo_program "cache" (inr redis_monitor) None); [done|by intros m [= <-]|].
  vm_compute. reflexivity.
Qed.

Lemma demo_reaches_signalled :
  reaches demo_setup default_settings demo_signalled.
Proof.
  destruct demo_reaches as (rt0 & p0 & Hrt & Hm & Hs). exists rt0, p0. split; [done|]. split; [done|].
  etransitivity; [exact Hs|].
  assert (Hstep : ∀ rt ev rt', runtime_step rt ev = Some rt' → exited rt' = None → prog_step (demo_at rt) (demo_at rt')).
  { intros rt ev rt' Hr Hx. pose proof (prog_runtime (demo_at rt) ev rt' ltac:(by intros code) Hr) as Hp.
    by rewrite Hx in Hp. }
  change demo_reconciled with (demo_at demo_rt).
  eapply rtc_l; [by apply (Hstep _ (Signal SIGTERM) (mkRuntime true [SIGTERM] (Some WaitFirst) false (Some false) None))|].
  eapply rtc_l; [by apply (Hstep _ Caught (mkRuntime true [] (Some WaitSecond) true (Some false) None))|].
  apply rtc_once. by apply (Hstep _ Forwarded).
Qed.

Lemma program_safe_witness :
  is_done (StopAll 0 (rec_worker (p_rec demo_reconciled))) ∧
  ∃ pf, pf ∈ live (p_rec demo_reconciled) ∧ task_model pf = "redis" ∧ ∃ h : handler, Name h = "redis".
Proof.
  destruct (program_safe demo_setup default_settings demo_reconciled demo_reaches)
    as (_ & _ & Hstop & Hlive).
  split; [apply Hstop|]. exists (monitor_loop redis_monitor).
  assert (Hin : monitor_loop redis_monitor ∈ live (p_rec demo_reconciled)) 
    by (replace (live (p_rec demo_reconciled)) with [monitor_loop redis_monitor]
          by (vm_compute; reflexivity); left).
  split; [exact Hin|]. split; [reflexivity|].
  destruct (Hlive _ Hin) as (_ & h & _ & Hn & _). exists h. exact Hn.
Defined.

Lemma program_exit_witness :
  live (p_rec demo_signalled) ≠ [] ∧
  ∃ p', rtc prog_step demo_signalled p' ∧ p_phase p' = Exited 0%Z ∧ live (p_rec p') = [].
Proof.
  split; [vm_compute; discriminate|].
  destruct (program_exit demo_setup default_settings demo_signalled
    demo_reaches_signalled) as [_ Hexit].
  apply Hexit; reflexivity.
Defined.

Lemma negative_batch_from_args_witness : ∃ p,
  main_args ["--writer-batch=-1"] demo_setup demo_rt = Done (inr p) ∧
  ∀ c, rtc runs_to (mkWConf (rec_wm (p_rec p)) [] None [] [] []) c → Limited_Len (queue (c_ws c)) ≠ 0%Z →
    ∃ msg, writers_step c (Panic msg).
Proof.
  apply (negative_batch_from_args ["--writer-batch=-1"] (with_writerBatch (-1) default_settings) []);
    [reflexivity|done|apply demo_knows|done].
Defined.

Lemma process_spec_witness : ∃ p,
  process Scheme.scheme_demo.core_AddToScheme (λ _, None) ["--writer-batch=7"] = Done (inr p) ∧
  Manager.ctrl_Name <$> Manager.mgr_controllers (p_manager p) = ["prometheuspush"; "monitor"].
Proof.
  destruct (process_spec Scheme.scheme_demo.core_AddToScheme (λ _, None) ["--writer-batch=7"] Scheme.scheme_demo.core)
    as (st & r & _ & _ & _ & Hr & Hp).
  - reflexivity.
  - apply Scheme.scheme_demo.core_consistent.
  - apply Scheme.scheme_demo.core_fits.
  - apply Scheme.scheme_demo.core_fresh.
  - change (main_parse ["--writer-batch=7"]) with (Done (Parsed (with_writerBatch 7 default_settings) [])) in Hp.
    destruct Hp as (p & -> & _ & _ & Hm & _). exists p. split; [exact Hr|]. by rewrite Hm.
Defined.
